(* ===== verification/_CoqProject ===== *)
-Q . S2P
Prelude.v
Bytes.v
Str.v
Winnow.v
DeviceInfo.v
Message.v
Buffers.v
Os.v
Sync.v
SyncFacts.v
SyncSession.v
Shell.v
Forward.v
Stream.v
UserData.v
SyncSafe.v
Ring.v
Ffs.v
Connection.v
Tame.v
Wire.v
ConnectionFacts.v
Commands.v
System.v
Safety.v
Flow.v
Lockstep.v
Targets.v
Stable.v
Host.v
Dialogue.v
Output.v
Input.v
Transfer.v
Push.v
Main.v
Examples.v
Typing.v
Build.v
