(* ===== verification/Prelude.v ===== *)
(** * adibi: a verification development

    adibi (src/) is the device side of the Android Debug Bridge: a daemon that
    exposes a USB interface through FunctionFS, speaks the ADB protocol to the
    host over two bulk endpoints, and serves shells, file transfers, forwarded
    sockets and reboots.  It is one thread around an io_uring.  This library
    models the whole of its Rust code and proves what it does.

    ** The program and its model

    A message of the host arrives as a completed read of [bulk_out] (header,
    then payload); the event loop parses it and hands it to the handler of
    its command; the handler changes the table of streams, lets a service
    work, and queues the answers: each buffer of an answer is put in a slot of
    a pool, whose number is the token of its write, and is freed when the
    write completes.  Output of shells and sockets arrives as completed reads
    of the services' own buffers.  The files follow this structure, each
    after those it uses.

    - Prelude: [result], panics, state-passing computations [M S A] that may
      panic, their weakest preconditions [wpp] (with the panics tolerated as
      a parameter), machine integers, tactics, hints.
    - Bytes, Str: little-endian words, byte strings, Unicode strings, the
      string operations of the standard library that the source calls.
    - Winnow: the parsers of the winnow crate that the source uses, as a class
      with their documented laws; [winnow_doc] is an instance.
    - DeviceInfo (src/src/device_info.rs): the probes of the identity.
    - Message (src/src/message.rs): commands, versions, headers, checksum.
    - Buffers (src/src/buffers.rs): the pool of write buffers.
    - Os: the system calls.  Each is logged in the [World], its outcome is
      chosen by the class [Os] from the log, so a theorem for every [Os] is
      one for every behaviour of the environment, failures included; regular
      files are modelled concretely (names, inodes, positions), and so is the
      heap the kernel writes to, so that a pointer can dangle.  [called] says
      that a call was made in a run, and with which result.
    - Sync (src/src/sync.rs), with its theorems in SyncFacts (parsers, pushes
      against a reference receiver, pulls), SyncSafe (what a session leaves
      alone, and that it panics in STAT only) and SyncSession (whole sessions).
    - Shell, Forward, Stream (src/src/shell.rs, forward.rs, stream.rs): the
      services and the table of streams; dropping a stream is explicit.  What
      a service's name asks for ([service_kind]) and which calls start the
      service ([started], [refused]) are stated apart from the code.
    - UserData, Ring (src/src/main.rs): the tokens of operations, the entries
      of the queue, and the io_uring queue as a class with its laws.
    - Ffs (src/src/ffs.rs, usb.rs): events of the control endpoint, the gadget.
    - Connection (src/src/main.rs): [AdbConnection], each handler, the
      handling of one completion and the start of [run].  [Daemon] is the
      connection with the queue and the world, [Loop] adds the locals of
      [run].  [expect], [assert!] and [unreachable!] are panics.  Tame:
      relations between worlds that the handlers keep, whatever they do.
    - Wire: what is queued, as messages, and the reader of the host.
    - ConnectionFacts: the invariant [dinv] of the connection and a rule for
      each submission; Commands: the theorems on the commands.
    - System: the event loop and the kernel as a step relation [step] on
      [Sys]: submission of the queue, completion of any operation in flight
      with any result and any contents of its buffer, the wait, handling of
      one completion, return, panic, and the kernel's write to freed memory
      (a read whose buffer was freed may also complete harmlessly, with an
      error or at the end of the file);
      the invariant [sys_inv] and that each step keeps it.  A [History]
      beside the state records the writes submitted and those completed, the
      bytes that completed reads brought for each stream, and the commands
      received, each with the calls made before it; nothing in the
      program depends on it.
    - Safety, Stable: the reachable states and what holds in all of them.
    - Host: the bytes that have reached the host, from the writes that were
      completed, and the messages that the host has read from them.
    - Flow: the reads of services that are outstanding, and the runs against
      a host that acknowledges only streams that wait for it; Lockstep: how
      many buffers a host that waits for its answers can make the daemon use;
      Targets: where the reads that are queued or in flight point.
    - Dialogue: what the daemon says, message by message, against the life of
      each stream and the commands of the host; Output: the bytes of services,
      from the kernel's read to the payload for the host; Input: the bytes of
      the host, from the payload to the descriptor of the service.
    - Transfer, Push: a whole pull and a whole push over the connection, with
      any other activity of the daemon between two messages.
    - Main (src/src/main.rs): the wait for the host, the descriptors, [main].
    - Examples, Typing: runs in a concrete environment, and closed instances.
    - Build (src/build.rs, usb.rs): the descriptor and string blobs.

    ** What is proved

    - Sync: the receiver with its buffer, three states and loop refines a
      parser of the whole input, so how a push is cut into payloads does not
      matter; a push creates the file with its contents and mode, and with its
      time unless the system refuses to set it, which the code ignores; a push
      that fails removes the file's name, unless the system refuses that too; a
      pull sends the file in frames; every error is answered as the code says.
      Transfer and Push compose this with the handlers of OKAY and WRTE.
    - Connection: what each command answers and changes, branch by branch;
      a handler panics for want of a buffer only when fewer slots are free
      than its answer needs.
    - System: the only panics of the loop, with their causes; that none but
      those of STAT is left when the host waits for its answers, speaks properly
      and has at most two shells or sockets read at a time; that the buffers
      always come back; the loop always listens, once; each occupied slot
      belongs to one write; the bytes of a write are stable until it completes;
      what is submitted is a sequence of whole messages that can be read back,
      whole in whatever order the chains of linked writes are run one after the
      other; the
      queue never fills; descriptors and buffers are those of the open streams;
      against a host that acknowledges only what it was sent, each shell or
      socket has exactly one read outstanding, or waits; every read of an open
      stream goes from its own descriptor to its own buffer, so only a stream
      closed under its read can corrupt memory.
    - The dialogue: what the daemon says ([said]), that is, queues for the
      host, about each stream is an OKAY, data, a CLSE, and nothing after it;
      the answers it says are, one for one and in order, those of the commands
      it handled; the payloads it says for a shell or a socket are the bytes
      that were read from it, in order.  What of that the host has read
      ([host_has_read]) is a beginning of it, and all of it once no write is
      outstanding, as long as the kernel completes the writes in the order of
      their submission and each of them whole ([in_order]).  Without that
      nothing is claimed of the host: the daemon drops a write that fails and
      carries on.  And what a service's descriptor has accepted are the
      payloads of the WRTEs to its stream, whole and in order, since the OPEN
      it was opened for, when the system gives out no descriptor that is still
      open ([fresh_fds]).
    - A service's name is served by exactly the calls that it asks for: the
      command of a shell, the destination of a socket; a name gets no service
      only if it is unknown, leads nowhere, or the system refused a call.
    - The parsers invert the printers and accept nothing else; the pool
      refines a finite map; tokens round-trip; partial writes deliver all
      bytes; a failing shell start leaks no descriptor; [main] serves exactly
      when it has its three descriptors and the host enabled the function;
      the build script writes the blobs that the kernel expects to its files.
    - Faults of the code, proved: a read in flight outlives the buffer of a
      closed shell; the host can crash the daemon; STAT of a large file panics;
      a SEND path is cut at its first comma; a blank line hides the fields of
      /proc/cpuinfo after it.

    ** Bounds and fuel

    The receiver's loop runs on a measure ([receive_fuel]) that bounds its
    turns, and the theorems show that it never runs out.  The loop of partial
    writes has the length of its data, enough as each write makes progress
    ([writes_progress], which [Os] instances may or may not have).  The wait
    for the host is unbounded in the code; its theorem says what happens for
    every fuel.  Stream identifiers are 32 bits wide and a step opens at most
    one, so the theorems on reachable states speak of the first 2^32 - 2
    steps of a run.  The queue holds 32 entries, the pool 8 buffers.

    ** Not modelled

    How the kernel interleaves chains of writes that it runs in parallel:
    operations complete in any order in [step], and [in_order] says of a run
    that the writes completed in the order of their submission, which io_uring
    does not promise for different chains; [chains] is about chains that are
    run one after the other, in any order.
    Logging and the text of log messages; clap's parsing of the command line;
    the inside of winnow, io_uring and dmidecode (their documented behaviour
    is assumed by classes, each with an instance); unwinding after a panic and
    the release of everything at exit, with the cancellation of operations
    that closing the ring does; what the child of a shell does between fork
    and exec; the systemd units and the shell tests. *)
From Stdlib Require Import ZArith Lia Strings.Byte.
From stdpp Require Import base numbers list gmap strings.

Open Scope Z_scope.

(** ** Fallible and panicking computations *)

(** Rust's [Result]. *)
Inductive result (A E : Type) : Type :=
  | Ok (a : A)
  | Err (e : E).
Arguments Ok {A E} a.
Arguments Err {A E} e.

Definition result_ok {A E} (r : result A E) : option A :=
  match r with Ok a => Some a | Err _ => None end.

(** What a Rust panic says; [unreachable!] prints its place in the source.
    [OutOfFuel] is not a panic of the program: it is
    the value of a loop that was given too little fuel, and the termination
    theorems exclude it. *)
Inductive panic : Type :=
  | Unreachable (site : string)
  | Expect (msg : string)
  | AssertFailed (msg : string)
  | IndexOutOfBounds
  | OutOfFuel.

Inductive outcome (A : Type) : Type :=
  | Done (a : A)
  | Panicked (p : panic).
Arguments Done {A} a.
Arguments Panicked {A} p.

(** State-passing computations that may panic.  A panic ends the process, so
    it carries no state. *)
Definition M (S A : Type) : Type := S → outcome (A * S).

#[export] Instance M_ret (S : Type) : MRet (M S) := λ A a s, Done (a, s).
#[export] Instance M_bind (S : Type) : MBind (M S) := λ A B f m s,
  match m s with
  | Done (a, s') => f a s'
  | Panicked p => Panicked p
  end.

Definition panicM {S A} (p : panic) : M S A := λ _, Panicked p.
Definition getM {S} : M S S := λ s, Done (s, s).
Definition putM {S} (s : S) : M S unit := λ _, Done (tt, s).
Definition modifyM {S} (f : S → S) : M S unit := λ s, Done (tt, f s).

(** [Option::expect]. *)
Definition expectM {S A} (o : option A) (msg : string) : M S A :=
  match o with Some a => mret a | None => panicM (Expect msg) end.

(** [assert!]. *)
Definition assertM {S} (b : bool) (msg : string) : M S unit :=
  if b then mret tt else panicM (AssertFailed msg).

(** Runs a computation on a component of the state. *)
Definition zoom {S T A} (get : S → T) (put : T → S → S) (m : M T A) : M S A :=
  λ s, match m (get s) with
       | Done (a, t) => Done (a, put t s)
       | Panicked p => Panicked p
       end.

(** Correctness of a computation from a state: its result and final state
    satisfy the postcondition.  [may_panic] says which panics are tolerated:
    all of them for partial correctness ([wlp]), none for total correctness
    ([wp]), a list of messages where a theorem says how a handler can fail. *)
Definition wpp {S A} (may_panic : panic → Prop) (m : M S A) (Q : A → S → Prop) (s : S) :
    Prop :=
  match m s with Done (a, s') => Q a s' | Panicked p => may_panic p end.

Abbreviation wlp := (wpp (λ _, True)).
Abbreviation wp := (wpp (λ _, False)).

Section wp_rules.
Context {S : Type} (φ : panic → Prop).

Lemma wp_ret {A} (a : A) (Q : A → S → Prop) s : Q a s → wpp φ (mret a) Q s.
Proof. done. Qed.

Lemma wp_bind {A B} (m : M S A) (f : A → M S B) (Q : B → S → Prop) s :
  wpp φ m (λ a, wpp φ (f a) Q) s → wpp φ (m ≫= f) Q s.
Proof. unfold wpp, mbind, M_bind. by destruct (m s) as [[a s']|p]. Qed.

Lemma wp_bind_inv {A B} (m : M S A) (f : A → M S B) (Q : B → S → Prop) s :
  wpp φ (m ≫= f) Q s → wpp φ m (λ a, wpp φ (f a) Q) s.
Proof. unfold wpp, mbind, M_bind. by destruct (m s) as [[a s']|p]. Qed.

Lemma wp_ext {A} (m m' : M S A) (Q : A → S → Prop) s :
  m s = m' s → wpp φ m' Q s → wpp φ m Q s.
Proof. unfold wpp. by intros ->. Qed.

Lemma wp_mono {A} (m : M S A) (P Q : A → S → Prop) s :
  wpp φ m P s → (∀ a s', P a s' → Q a s') → wpp φ m Q s.
Proof. unfold wpp. destruct (m s) as [[a s']|p]; eauto. Qed.

Lemma wp_get (Q : S → S → Prop) s : Q s s → wpp φ getM Q s.
Proof. done. Qed.

Lemma wp_put s' (Q : unit → S → Prop) s : Q tt s' → wpp φ (putM s') Q s.
Proof. done. Qed.

Lemma wp_modify (f : S → S) (Q : unit → S → Prop) s :
  Q tt (f s) → wpp φ (modifyM f) Q s.
Proof. done. Qed.

Lemma wp_panic {A} p (Q : A → S → Prop) s : φ p → wpp φ (panicM p) Q s.
Proof. done. Qed.

Lemma wp_expect {A} (o : option A) msg (Q : A → S → Prop) s :
  match o with Some a => Q a s | None => φ (Expect msg) end → wpp φ (expectM o msg) Q s.
Proof. by destruct o. Qed.

Lemma wp_zoom {T A} (get : S → T) put (m : M T A) (Q : A → S → Prop) s :
  wpp φ m (λ a t, Q a (put t s)) (get s) → wpp φ (zoom get put m) Q s.
Proof. unfold wpp, zoom. by destruct (m (get s)) as [[a t]|p]. Qed.

Lemma wp_done {A} (m : M S A) (Q : A → S → Prop) s a s' :
  wpp φ m Q s → m s = Done (a, s') → Q a s'.
Proof. unfold wpp. intros H Hm. by rewrite Hm in H. Qed.

Lemma wp_weaken (ψ : panic → Prop) {A} (m : M S A) (Q : A → S → Prop) s :
  (∀ p, φ p → ψ p) → wpp φ m Q s → wpp ψ m Q s.
Proof. unfold wpp. destruct (m s) as [[a s']|p]; auto. Qed.
End wp_rules.

(** A total computation has a result. *)
Lemma wp_total {S A} (m : M S A) (Q : A → S → Prop) s :
  wp m Q s ↔ ∃ a s', m s = Done (a, s') ∧ Q a s'.
Proof.
  unfold wpp. split.
  - destruct (m s) as [[a s']|p]; [eauto|done].
  - by intros (a & s' & -> & ?).
Qed.

(** A computation without panics, with the equation of its result. *)
Lemma wp_case {S A} φ (m : M S A) (P Q : A → S → Prop) s :
  wp m P s → (∀ a s', m s = Done (a, s') → P a s' → Q a s') → wpp φ m Q s.
Proof. intros (a & s' & Hm & HP)%wp_total HQ. unfold wpp. rewrite Hm. by apply HQ. Qed.

Lemma bind_done {S A B} (m : M S A) (f : A → M S B) s a s' :
  m s = Done (a, s') → (m ≫= f) s = f a s'.
Proof. unfold mbind, M_bind. simpl. by intros ->. Qed.

Lemma bind_inv {S A B} (m : M S A) (f : A → M S B) s b s'' :
  (m ≫= f) s = Done (b, s'') →
  ∃ a s', m s = Done (a, s') ∧ f a s' = Done (b, s'').
Proof.
  unfold mbind, M_bind. simpl. destruct (m s) as [[a s']|p]; [|done]. eauto.
Qed.

(** The [?] operator: the next step of a computation that returns a [Result]. *)
Definition bind_ok {S A B E} (m : M S (result A E)) (f : A → M S (result B E)) :
    M S (result B E) :=
  r ← m;
  match r with Ok a => f a | Err e => mret (Err e) end.

Declare Scope adibi_scope.
Delimit Scope adibi_scope with adibi.
Notation "x ←? m ; k" := (bind_ok m (λ x, k))
  (at level 20, m at level 100, k at level 200, right associativity) : adibi_scope.
Notation "' p ←? m ; k" := (bind_ok m (λ p, k))
  (at level 20, p pattern, m at level 100, k at level 200, only parsing) : adibi_scope.
Notation "m ;;? k" := (bind_ok m (λ _, k))
  (at level 100, k at level 200, right associativity) : adibi_scope.
Open Scope adibi_scope.

(** Case analysis on the first call of a computation with its rule. *)
Lemma wp_bind_ok {S A B E} φ (m : M S (result A E)) (f : A → M S (result B E)) Q (s : S) :
  wpp φ m (λ r, match r with Ok a => wpp φ (f a) Q | Err e => Q (Err e) end) s →
  wpp φ (bind_ok m f) Q s.
Proof.
  intros H. apply wp_bind. eapply wp_mono; [exact H|]. intros [a|e] s' Hr; [exact Hr|].
  by apply wp_ret.
Qed.

(** ** Machine integers *)

Definition u8 (x : Z) : Prop := 0 ≤ x < 2 ^ 8.
Definition u16 (x : Z) : Prop := 0 ≤ x < 2 ^ 16.
Definition u32 (x : Z) : Prop := 0 ≤ x < 2 ^ 32.
Definition u64 (x : Z) : Prop := 0 ≤ x < 2 ^ 64.

Definition u32_max : Z := 2 ^ 32 - 1.

(** [u32] addition and subtraction of a release build: they wrap. *)
Definition wrap32 (x : Z) : Z := x mod 2 ^ 32.

(** [u32::try_from] of a [usize], a [u64] or an [i64]. *)
Definition u32_try_from (x : Z) : option Z :=
  if decide (0 ≤ x < 2 ^ 32) then Some x else None.

Lemma wrap32_small x : u32 x → wrap32 x = x.
Proof. unfold u32, wrap32. intros. by rewrite Z.mod_small. Qed.

Lemma wrap32_u32 x : u32 (wrap32 x).
Proof. unfold u32, wrap32. apply Z.mod_pos_bound. lia. Qed.

Lemma u32_try_from_Some x y : u32_try_from x = Some y ↔ y = x ∧ u32 x.
Proof.
  unfold u32_try_from, u32. case_decide.
  - split; [|by intros [-> _]]. intros [= <-]. done.
  - split; [done|]. by intros [-> ?].
Qed.

Lemma u32_try_from_u32 x : u32 x → u32_try_from x = Some x.
Proof. intros. by apply u32_try_from_Some. Qed.

#[export] Instance u32_dec x : Decision (u32 x).
Proof. unfold u32. apply _. Defined.

Create HintDb adibi.
#[export] Hint Resolve wrap32_u32 : adibi.

(** ** Computations that respect a relation *)

Class Respects {S A} (R : relation S) (m : M S A) : Prop :=
  respects : ∀ s a s', m s = Done (a, s') → R s s'.

Lemma wp_respects {S A} φ (R : relation S) (m : M S A) (Q : A → S → Prop) s :
  Respects R m → wpp φ m (λ a s', R s s' → Q a s') s → wpp φ m Q s.
Proof. unfold wpp. intros Hm. destruct (m s) as [[a s']|p] eqn:Hr; [|done]. intros HQ. by eapply HQ, Hm. Qed.

Lemma wp_run {S A} φ (m : M S A) (Q : A → S → Prop) s :
  wpp φ m (λ a s', m s = Done (a, s') → Q a s') s → wpp φ m Q s.
Proof. unfold wpp. destruct (m s) as [[a s']|p]; auto. Qed.

Create HintDb respects discriminated.

Section respects.
Context {S : Type} (R : relation S) `{!Reflexive R, !Transitive R}.

Lemma respects_ret {A} (a : A) : Respects R (mret a).
Proof. intros s a' s' [= _ <-]. reflexivity. Qed.

Lemma respects_bind {A B} (m : M S A) (f : A → M S B) :
  Respects R m → (∀ a, Respects R (f a)) → Respects R (m ≫= f).
Proof.
  intros Hm Hf s b s'' (a & s' & Ha & Hb)%bind_inv. transitivity s'; [by eapply Hm|by eapply Hf].
Qed.

Lemma respects_get : Respects R getM.
Proof. intros s a s' [= _ <-]. reflexivity. Qed.

Lemma respects_panic {A} p : Respects R (panicM p : M S A).
Proof. by intros s a s'. Qed.

Lemma respects_expect {A} (o : option A) msg : Respects R (expectM o msg).
Proof. destruct o; [apply respects_ret|apply respects_panic]. Qed.

Lemma respects_assert b msg : Respects R (assertM b msg).
Proof. destruct b; [apply respects_ret|apply respects_panic]. Qed.

Lemma respects_modify (f : S → S) : (∀ s, R s (f s)) → Respects R (modifyM f).
Proof. intros Hf s a s' [= _ <-]. apply Hf. Qed.

(** Work on a component that the relation does not look at, or whose own
    relation it follows. *)
Lemma respects_zoom {T A} (RT : relation T) (get : S → T) put (m : M T A) :
  (∀ s t, RT (get s) t → R s (put t s)) → Respects RT m → Respects R (zoom get put m).
Proof.
  intros Hput Hm s a s'. unfold zoom. destruct (m (get s)) as [[a' t]|p] eqn:Hr; [|done].
  intros [= _ <-]. by eapply Hput, Hm.
Qed.

Lemma respects_any {A} (m : M S A) : Respects (λ _ _, True) m.
Proof. by intros s a s'. Qed.
End respects.

#[export] Hint Resolve respects_ret respects_get respects_panic respects_expect
  respects_assert respects_any : respects.

(** Goes through a computation: binds, cases, and what the database knows. *)
Ltac respects_step :=
  lazymatch goal with
  | |- Respects _ (_ ≫= _) => apply respects_bind; [typeclasses eauto| |intros ?]
  | |- Respects _ (match ?x with _ => _ end) => destruct x
  | |- Respects _ _ => solve [eauto with respects typeclass_instances]
  end.
Ltac solve_respects := cbv zeta; repeat respects_step.
