(* ===== verification/Bytes.v ===== *)
(** Bytes and little-endian words: the byte values of [&[u8]], and the wire
    images that [AsLittleEndianBytes] (src/src/usb.rs) and [u32::from_le_bytes]
    give to integers.  An integer is a [Z]; its image on [n] bytes is
    [le_bytes n], and [le_value] reads it back. *)
From Stdlib Require Import ZArith Lia Strings.Byte.
From stdpp Require Import base numbers list gmap strings.
From S2P Require Import Prelude.

Open Scope Z_scope.

#[export] Instance byte_eq_dec : EqDecision byte := Byte.byte_eq_dec.

#[export] Program Instance byte_countable : Countable byte :=
  inj_countable Byte.to_N Byte.of_N _.
Next Obligation. apply Byte.of_to_N. Qed.

(** [b"..."]. *)
Definition bstr (s : string) : list byte := String.list_byte_of_string s.

(** ** A byte as an integer *)

Definition byte_Z (b : byte) : Z := Z.of_N (Byte.to_N b).

(** [z as u8]. *)
Definition Z_byte (z : Z) : byte :=
  default "000"%byte (Byte.of_N (Z.to_N (z mod 256))).

Lemma byte_Z_range b : 0 ≤ byte_Z b < 256.
Proof. unfold byte_Z. pose proof (Byte.to_N_bounded b). lia. Qed.

Lemma byte_Z_of z : byte_Z (Z_byte z) = z mod 256.
Proof.
  unfold byte_Z, Z_byte.
  assert (0 ≤ z mod 256 < 256) as Hb by (apply Z.mod_pos_bound; lia).
  destruct (Byte.of_N (Z.to_N (z mod 256))) as [b|] eqn:E; simpl.
  - apply Byte.to_of_N in E. rewrite E. lia.
  - apply Byte.of_N_None_iff in E. lia.
Qed.

Lemma byte_Z_inj a b : byte_Z a = byte_Z b → a = b.
Proof.
  unfold byte_Z. intros H%N2Z.inj.
  pose proof (Byte.of_to_N a). pose proof (Byte.of_to_N b). congruence.
Qed.

Lemma Z_byte_of b : Z_byte (byte_Z b) = b.
Proof.
  apply byte_Z_inj. rewrite byte_Z_of, Z.mod_small; [done|apply byte_Z_range].
Qed.

(** ** Little-endian words *)

Fixpoint le_bytes (n : nat) (z : Z) : list byte :=
  match n with
  | O => []
  | S n => Z_byte z :: le_bytes n (z / 256)
  end.

Fixpoint le_value (bs : list byte) : Z :=
  match bs with
  | [] => 0
  | b :: bs => byte_Z b + 256 * le_value bs
  end.

Lemma length_le_bytes n z : length (le_bytes n z) = n.
Proof. revert z. induction n; intros; simpl; auto. Qed.

Lemma le_value_range bs : 0 ≤ le_value bs < 256 ^ Z.of_nat (length bs).
Proof.
  induction bs as [|b bs IH]; simpl; [lia|].
  pose proof (byte_Z_range b).
  replace (Z.of_nat (S (length bs))) with (Z.succ (Z.of_nat (length bs))) by lia.
  rewrite Z.pow_succ_r by lia. lia.
Qed.

Lemma le_value_bytes n z : 0 ≤ z < 256 ^ Z.of_nat n → le_value (le_bytes n z) = z.
Proof.
  revert z. induction n as [|n IH]; intros z Hz; simpl.
  - simpl in Hz. lia.
  - replace (Z.of_nat (S n)) with (Z.succ (Z.of_nat n)) in Hz by lia.
    rewrite Z.pow_succ_r in Hz by lia.
    rewrite byte_Z_of, IH.
    + pose proof (Z.div_mod z 256 ltac:(lia)). lia.
    + split; [apply Z.div_pos; lia|]. apply Z.div_lt_upper_bound; lia.
Qed.

Lemma le_bytes_value bs : le_bytes (length bs) (le_value bs) = bs.
Proof.
  induction bs as [|b bs IH]; simpl; [done|].
  pose proof (byte_Z_range b).
  assert ((byte_Z b + 256 * le_value bs) `div` 256 = le_value bs) as ->.
  { rewrite Z.mul_comm, Z.div_add, Z.div_small by lia. lia. }
  rewrite IH. f_equal. apply byte_Z_inj.
  by rewrite byte_Z_of, Z.mul_comm, Z.mod_add, Z.mod_small by lia.
Qed.

Lemma le_bytes_inj n x y :
  0 ≤ x < 256 ^ Z.of_nat n → 0 ≤ y < 256 ^ Z.of_nat n →
  le_bytes n x = le_bytes n y → x = y.
Proof. intros Hx Hy H. rewrite <-(le_value_bytes n x), H; auto using le_value_bytes. Qed.

(** [u32::from_le_bytes] and its inverse. *)
Definition u32_from_le (bs : list byte) : Z := le_value bs.
Definition le_u32_bytes (x : Z) : list byte := le_bytes 4 x.

Lemma length_le_u32_bytes x : length (le_u32_bytes x) = 4%nat.
Proof. apply length_le_bytes. Qed.

Lemma le_value_u32 bs : length bs = 4%nat → u32 (le_value bs).
Proof. intros H. pose proof (le_value_range bs) as Hr. rewrite H in Hr. exact Hr. Qed.

Lemma le_value_u32_bytes x : u32 x → le_value (le_u32_bytes x) = x.
Proof. apply (le_value_bytes 4). Qed.

Lemma le_u32_bytes_value bs : length bs = 4%nat → le_u32_bytes (le_value bs) = bs.
Proof. unfold le_u32_bytes. intros H. rewrite <-H. apply le_bytes_value. Qed.

#[export] Hint Resolve byte_Z_range le_value_u32 : adibi.

(** Proofs go through the lemmas above. *)
#[global] Opaque le_u32_bytes.
