(* ===== verification/Str.v ===== *)
(** Strings: the part of Rust's [str], [char] and [OsStr] that the program
    uses.  A [&str] is the list of its Unicode scalar values; the bytes of a
    string are its UTF-8 image.  [utf8_step] follows the acceptance table of
    the Rust standard library, so that both the strict conversion
    ([CStr::to_str], [fs::read_to_string]) and the lossy one
    ([Path::display]) are its folds. *)
From Stdlib Require Import ZArith Lia Ascii Strings.Byte.
From stdpp Require Import base numbers list gmap strings.
From S2P Require Import Prelude.
From S2P Require Import Bytes.

Open Scope Z_scope.

Abbreviation str := (list Z).

(** A literal ["..."] (ASCII). *)
Definition lit (s : string) : str :=
  (λ a, Z.of_N (N_of_ascii a)) <$> String.list_ascii_of_string s.

(** ** UTF-8 *)

Definition is_cont (b : Z) : bool := (128 <=? b) && (b <? 192).

Definition in_range (lo hi b : Z) : bool := (lo <=? b) && (b <=? hi).

(** The second byte of a three-byte and of a four-byte sequence. *)
Definition second3 (b0 b1 : Z) : bool :=
  (in_range 224 224 b0 && in_range 160 191 b1)
  || (in_range 225 236 b0 && in_range 128 191 b1)
  || (in_range 237 237 b0 && in_range 128 159 b1)
  || (in_range 238 239 b0 && in_range 128 191 b1).

Definition second4 (b0 b1 : Z) : bool :=
  (in_range 240 240 b0 && in_range 144 191 b1)
  || (in_range 241 243 b0 && in_range 128 191 b1)
  || (in_range 244 244 b0 && in_range 128 143 b1).

(** Byte [i] after the current position, 0 past the end. *)
Definition byte_at (bs : list byte) (i : nat) : Z := default 0 (byte_Z <$> bs !! i).

(** The next character of a byte sequence with the number of bytes it takes,
    or [None] with the length of the maximal invalid prefix. *)
Definition utf8_step (bs : list byte) : option Z * nat :=
  let b0 := byte_at bs 0 in
  let b1 := byte_at bs 1 in
  let b2 := byte_at bs 2 in
  let b3 := byte_at bs 3 in
  if b0 <? 128 then (Some b0, 1%nat)
  else if in_range 194 223 b0 then
    if is_cont b1 then (Some ((b0 - 192) * 64 + (b1 - 128)), 2%nat) else (None, 1%nat)
  else if in_range 224 239 b0 then
    if second3 b0 b1 then
      if is_cont b2 then
        (Some ((b0 - 224) * 4096 + (b1 - 128) * 64 + (b2 - 128)), 3%nat)
      else (None, 2%nat)
    else (None, 1%nat)
  else if in_range 240 244 b0 then
    if second4 b0 b1 then
      if is_cont b2 then
        if is_cont b3 then
          (Some ((b0 - 240) * 262144 + (b1 - 128) * 4096 + (b2 - 128) * 64 + (b3 - 128)),
           4%nat)
        else (None, 3%nat)
      else (None, 2%nat)
    else (None, 1%nat)
  else (None, 1%nat).

Fixpoint utf8_chunks (fuel : nat) (bs : list byte) : list (option Z) :=
  match fuel, bs with
  | O, _ | _, [] => []
  | S fuel, _ =>
      let '(c, n) := utf8_step bs in c :: utf8_chunks fuel (drop n bs)
  end.

(** [str::from_utf8]: every chunk is a character. *)
Definition from_utf8 (bs : list byte) : option str :=
  mapM id (utf8_chunks (length bs) bs).

(** [String::from_utf8_lossy], which [Path::display] prints. *)
Definition from_utf8_lossy (bs : list byte) : str :=
  default 65533 <$> utf8_chunks (length bs) bs.

Definition encode_char (c : Z) : list byte :=
  Z_byte <$>
    if c <? 128 then [c]
    else if c <? 2048 then [192 + c / 64; 128 + c mod 64]
    else if c <? 65536 then [224 + c / 4096; 128 + (c / 64) mod 64; 128 + c mod 64]
    else [240 + c / 262144; 128 + (c / 4096) mod 64; 128 + (c / 64) mod 64; 128 + c mod 64].

(** [str::as_bytes] / [String::into_bytes]. *)
Definition str_bytes (s : str) : list byte := s ≫= encode_char.

(** A Unicode scalar value. *)
Definition is_scalar (c : Z) : Prop := 0 ≤ c < 55296 ∨ 57344 ≤ c < 1114112.

(** ** Operations on [&str] *)

Fixpoint strip_prefix (p s : str) : option str :=
  match p, s with
  | [], _ => Some s
  | a :: p, b :: s => if decide (a = b) then strip_prefix p s else None
  | _ :: _, [] => None
  end.

Definition starts_with (p s : str) : bool :=
  match strip_prefix p s with Some _ => true | None => false end.

Fixpoint split_once (c : Z) (s : str) : option (str * str) :=
  match s with
  | [] => None
  | a :: s =>
      if decide (a = c) then Some ([], s)
      else match split_once c s with
           | Some (k, v) => Some (a :: k, v)
           | None => None
           end
  end.

(** [str::lines]: pieces ended by a newline, or by a carriage return and a
    newline; a last piece without one is kept as it is. *)
Definition strip_cr (l : str) : str :=
  match reverse l with 13 :: l' => reverse l' | _ => l end.

Fixpoint lines_from (acc : str) (s : str) : list str :=
  match s with
  | [] => match acc with [] => [] | _ => [reverse acc] end
  | c :: s =>
      if decide (c = 10) then strip_cr (reverse acc) :: lines_from [] s
      else lines_from (c :: acc) s
  end.

Definition lines (s : str) : list str := lines_from [] s.

(** [char::is_whitespace] (Unicode White_Space). *)
Definition is_whitespace (c : Z) : bool :=
  in_range 9 13 c || (c =? 32) || (c =? 133) || (c =? 160) || (c =? 5760)
  || in_range 8192 8202 c || in_range 8232 8233 c || (c =? 8239) || (c =? 8287)
  || (c =? 12288).

Fixpoint drop_while (f : Z → bool) (s : str) : str :=
  match s with
  | [] => []
  | c :: s' => if f c then drop_while f s' else s
  end.

Definition trim_start_by (f : Z → bool) (s : str) : str := drop_while f s.
Definition trim_end_by (f : Z → bool) (s : str) : str := reverse (drop_while f (reverse s)).
Definition trim_by (f : Z → bool) (s : str) : str := trim_end_by f (trim_start_by f s).

Definition trim (s : str) : str := trim_by is_whitespace s.
Definition trim_matches (c : Z) (s : str) : str := trim_by (Z.eqb c) s.
Definition trim_end_matches (c : Z) (s : str) : str := trim_end_by (Z.eqb c) s.

(** ** Numbers *)

Definition is_digit (c : Z) : bool := in_range 48 57 c.

Fixpoint digits_value (acc : Z) (s : str) : option Z :=
  match s with
  | [] => Some acc
  | c :: s => if is_digit c then digits_value (10 * acc + (c - 48)) s else None
  end.

(** [str::parse] at an unsigned type whose largest value is [max]: an optional
    plus sign, at least one digit, no overflow. *)
Definition parse_uint (max : Z) (s : str) : option Z :=
  let s := match s with 43 :: ((_ :: _) as s') => s' | _ => s end in
  match s with
  | [] => None
  | _ => match digits_value 0 s with
         | Some v => if v <=? max then Some v else None
         | None => None
         end
  end.

Definition parse_u16 : str → option Z := parse_uint 65535.
Definition parse_u32 : str → option Z := parse_uint u32_max.

(** Decimal [Display] of a non-negative integer. *)
Fixpoint dec_digits (fuel : nat) (n : Z) (acc : str) : str :=
  match fuel with
  | O => acc
  | S fuel =>
      let acc := (48 + n mod 10) :: acc in
      if n <? 10 then acc else dec_digits fuel (n / 10) acc
  end.

Definition show_Z (n : Z) : str :=
  if n <? 0 then 45 :: dec_digits 20 (- n) [] else dec_digits 20 n [].

(** ** UTF-8 round trip *)

(** Settles the first boolean test of the goal by linear arithmetic. *)
Ltac decide_test :=
  match goal with
  | |- context [if ?b then _ else _] =>
      first [replace b with true by (symmetry; lia) | replace b with false by (symmetry; lia)]
  end.

Lemma utf8_step_encode c rest :
  is_scalar c →
  utf8_step (encode_char c ++ rest) = (Some c, length (encode_char c)).
Proof.
  intros Hc. unfold is_scalar in Hc. unfold encode_char.
  destruct (c <? 128) eqn:E1; [|destruct (c <? 2048) eqn:E2;
    [|destruct (c <? 65536) eqn:E3]];
    unfold utf8_step, byte_at; simpl; rewrite !byte_Z_of;
    repeat rewrite (Z.mod_small (_ + _) 256)
      by (clear rest; Z.to_euclidean_division_equations; lia);
    rewrite ?(Z.mod_small c 256) by lia;
    unfold second3, second4, is_cont, in_range;
    Z.to_euclidean_division_equations; repeat decide_test;
    first [done | f_equal; f_equal; lia].
Qed.

Lemma encode_char_nonempty c : (0 < length (encode_char c))%nat.
Proof.
  unfold encode_char. rewrite length_fmap.
  destruct (c <? 128), (c <? 2048), (c <? 65536); simpl; lia.
Qed.

Lemma utf8_chunks_encode s fuel :
  Forall is_scalar s → (length (str_bytes s) ≤ fuel)%nat →
  utf8_chunks fuel (str_bytes s) = Some <$> s.
Proof.
  intros Hs. revert fuel. induction Hs as [|c s Hc Hs IH]; intros fuel Hf.
  - by destruct fuel.
  - unfold str_bytes in *. cbn [mbind list_bind] in *. rewrite length_app in Hf.
    pose proof (encode_char_nonempty c).
    destruct fuel as [|fuel]; [lia|]. simpl.
    destruct (encode_char c ++ _) eqn:E.
    { apply (f_equal length) in E. rewrite length_app in E. simpl in E. lia. }
    rewrite <-E, utf8_step_encode by done.
    rewrite drop_app_length, IH by lia. done.
Qed.

Lemma mapM_id_Some {A} (l : list A) : mapM id (Some <$> l) = Some l.
Proof. apply mapM_Some, Forall2_fmap_l. by apply Forall_Forall2_diag, Forall_true. Qed.

Lemma from_utf8_str_bytes s : Forall is_scalar s → from_utf8 (str_bytes s) = Some s.
Proof.
  intros Hs. unfold from_utf8. rewrite utf8_chunks_encode by done. apply mapM_id_Some.
Qed.

Lemma from_utf8_lossy_str_bytes s : Forall is_scalar s → from_utf8_lossy (str_bytes s) = s.
Proof.
  intros Hs. unfold from_utf8_lossy. rewrite utf8_chunks_encode by done.
  rewrite <-list_fmap_compose. apply list_fmap_id.
Qed.

(** ** Prefixes and splitting *)

Lemma strip_prefix_app p s : strip_prefix p (p ++ s) = Some s.
Proof. induction p as [|a p IH]; simpl; [done|]. by rewrite decide_True. Qed.

Lemma strip_prefix_Some p s r : strip_prefix p s = Some r ↔ s = p ++ r.
Proof.
  split; [|intros ->; apply strip_prefix_app].
  revert s. induction p as [|a p IH]; intros [|b s]; simpl; try naive_solver.
  case_decide; [|done]. intros Hr. f_equal; [done|]. by apply IH.
Qed.

Lemma starts_with_true p s : starts_with p s = true ↔ ∃ r, s = p ++ r.
Proof.
  unfold starts_with. destruct (strip_prefix p s) as [r|] eqn:E.
  - apply strip_prefix_Some in E. naive_solver.
  - split; [done|]. intros [r ->]. by rewrite strip_prefix_app in E.
Qed.

Lemma split_once_None c s : split_once c s = None ↔ c ∉ s.
Proof.
  induction s as [|a s IH]; simpl; [set_solver|].
  case_decide as H; [subst; set_solver|].
  destruct (split_once c s) as [[k v]|]; set_solver.
Qed.

Lemma split_once_app c k v : c ∉ k → split_once c (k ++ c :: v) = Some (k, v).
Proof.
  induction k as [|a k IH]; simpl; intros Hk; [by rewrite decide_True|].
  rewrite decide_False by set_solver. rewrite IH by set_solver. done.
Qed.

(** ** Decimal numbers *)

Lemma digits_value_dec fuel n acc :
  0 ≤ n < 10 ^ Z.of_nat fuel → digits_value 0 (dec_digits fuel n acc) = digits_value n acc.
Proof.
  revert n acc. induction fuel as [|fuel IH]; intros n acc Hn.
  - simpl in *. by assert (n = 0) as -> by lia.
  - rewrite Nat2Z.inj_succ, Z.pow_succ_r in Hn by lia. cbn [dec_digits].
    pose proof (Z.mod_pos_bound n 10 ltac:(lia)) as Hm.
    assert (is_digit (48 + n mod 10) = true) as Hd by (unfold is_digit, in_range; lia).
    pose proof (Z.div_mod n 10 ltac:(lia)) as Hdm.
    destruct (n <? 10) eqn:En.
    + cbn [digits_value]. rewrite Hd. f_equal.
      rewrite Z.mod_small in Hdm |- * by lia. lia.
    + rewrite IH.
      * cbn [digits_value]. rewrite Hd. f_equal. lia.
      * split; [apply Z.div_pos; lia|]. apply Z.div_lt_upper_bound; lia.
Qed.

Lemma dec_digits_digits fuel n acc :
  Forall (λ c, is_digit c = true) acc →
  Forall (λ c, is_digit c = true) (dec_digits fuel n acc).
Proof.
  revert n acc. induction fuel as [|fuel IH]; intros n acc Ha; simpl; [done|].
  assert (Forall (λ c, is_digit c = true) (48 + n mod 10 :: acc)).
  { constructor; [|done]. pose proof (Z.mod_pos_bound n 10 ltac:(lia)).
    unfold is_digit, in_range. lia. }
  destruct (n <? 10); auto.
Qed.

Lemma dec_digits_length fuel n acc :
  (length acc ≤ length (dec_digits fuel n acc) ≤ length acc + fuel)%nat.
Proof.
  revert n acc. induction fuel as [|fuel IH]; intros n acc; simpl; [lia|].
  destruct (n <? 10); simpl; [lia|]. specialize (IH (n / 10) ((48 + n mod 10) :: acc)).
  simpl in IH. lia.
Qed.

Lemma dec_digits_nonempty fuel n acc : dec_digits (S fuel) n acc ≠ [].
Proof.
  simpl. destruct (n <? 10); [done|]. intros H%(f_equal length).
  pose proof (dec_digits_length fuel (n / 10) ((48 + n mod 10) :: acc)).
  simpl in *. lia.
Qed.

Lemma show_Z_length n : (length (show_Z n) ≤ 21)%nat.
Proof.
  assert (∀ m, length (dec_digits 20 m []) ≤ 20)%nat as H.
  { intros m. apply (dec_digits_length 20 m []). }
  unfold show_Z. destruct (n <? 0); cbn [length]; [specialize (H (- n))|specialize (H n)]; lia.
Qed.

Lemma parse_uint_digits max s v :
  Forall (λ c, is_digit c = true) s → s ≠ [] → digits_value 0 s = Some v → v ≤ max →
  parse_uint max s = Some v.
Proof.
  intros Hs Hne Hv Hmax. unfold parse_uint.
  assert (match s with 43 :: ((_ :: _) as s') => s' | _ => s end = s) as ->.
  { destruct Hs as [|c s Hc Hs]; [done|].
    destruct c as [|p|]; try done. repeat (destruct p as [p|p|]; try done). }
  destruct s as [|c s]; [done|]. rewrite Hv.
  by rewrite (proj2 (Z.leb_le v max)).
Qed.

Lemma show_Z_digits n : 0 ≤ n → Forall (λ c, is_digit c = true) (show_Z n).
Proof.
  intros Hn. unfold show_Z. replace (n <? 0) with false by lia.
  by apply dec_digits_digits.
Qed.

(** Printing then parsing a [u32]. *)
Lemma parse_u32_show n : u32 n → parse_u32 (show_Z n) = Some n.
Proof.
  intros Hn. unfold u32 in Hn. apply parse_uint_digits.
  - apply show_Z_digits. lia.
  - unfold show_Z. replace (n <? 0) with false by lia. apply dec_digits_nonempty.
  - unfold show_Z. replace (n <? 0) with false by lia.
    rewrite digits_value_dec; [done|]. lia.
  - unfold u32_max. lia.
Qed.

(** ** Sizes *)

Lemma encode_char_length c : (length (encode_char c) ≤ 4)%nat.
Proof.
  unfold encode_char. rewrite length_fmap.
  destruct (c <? 128), (c <? 2048), (c <? 65536); simpl; lia.
Qed.

Lemma str_bytes_length s : (length (str_bytes s) ≤ 4 * length s)%nat.
Proof.
  unfold str_bytes. induction s as [|c s IH]; cbn [mbind list_bind length]; [done|].
  rewrite length_app. pose proof (encode_char_length c). lia.
Qed.

Lemma utf8_chunks_length fuel bs : (length (utf8_chunks fuel bs) ≤ length bs)%nat.
Proof.
  revert bs. induction fuel as [|fuel IH]; intros [|b bs]; simpl; try lia.
  destruct (utf8_step (b :: bs)) as [c n] eqn:E. simpl.
  assert (1 ≤ n)%nat.
  { revert E. unfold utf8_step.
    repeat match goal with |- context [if ?x then _ else _] => destruct x end;
      intros [= _ <-]; lia. }
  specialize (IH (drop n (b :: bs))). rewrite length_drop in IH. simpl in IH. lia.
Qed.

Lemma from_utf8_lossy_length bs : (length (from_utf8_lossy bs) ≤ length bs)%nat.
Proof. unfold from_utf8_lossy. rewrite length_fmap. apply utf8_chunks_length. Qed.
