(* ===== verification/Winnow.v ===== *)
(** The parser combinators of the [winnow] crate, which the program calls and
    does not contain.  They are a parameter of every parser of the development:
    the class [Winnow] has the combinators as operations and their documented
    behaviour as laws.  A parser takes the input slice and returns, on success,
    its value and the rest of the input; what the input looks like after an
    error is never looked at by the program, so an error is [None].

    [winnow_doc] is a model of the class, built by reading the laws as
    definitions: the laws are satisfiable, and closed examples evaluate. *)
From Stdlib Require Import ZArith Lia Strings.Byte.
From stdpp Require Import base numbers list gmap strings.
From S2P Require Import Prelude.
From S2P Require Import Bytes.
From S2P Require Import Str.

Open Scope Z_scope.

Definition parser (A : Type) : Type := list byte → option (A * list byte).

(** The longest prefix of bytes that satisfy a test, and the rest. *)
Fixpoint span (f : byte → bool) (i : list byte) : list byte * list byte :=
  match i with
  | [] => ([], [])
  | b :: i' =>
      if f b then let '(k, r) := span f i' in (b :: k, r) else ([], i)
  end.

Definition byte_is_digit (b : byte) : bool := is_digit (byte_Z b).

Class Winnow : Type := {
  (** [binary::le_u32] *)
  le_u32 : parser Z;
  (** [Parser::map] and [Parser::verify_map] *)
  pmap {A B} (p : parser A) (f : A → B) : parser B;
  verify_map {A B} (p : parser A) (f : A → option B) : parser B;
  (** [seq!] on two and on six parsers *)
  seq2 {A B} (p : parser A) (q : parser B) : parser (A * B);
  seq6 {A B C D E F} (p : parser A) (q : parser B) (r : parser C) (s : parser D)
    (t : parser E) (u : parser F) : parser (A * B * C * D * E * F);
  (** [binary::length_take] *)
  length_take (p : parser Z) : parser (list byte);
  (** [token::take_until(1.., c)] for a one-byte literal *)
  take_until1 (c : byte) : parser (list byte);
  (** a one-byte literal *)
  literal (c : byte) : parser (list byte);
  (** [ascii::digit1] *)
  digit1 : parser (list byte);
  (** [combinator::separated_pair] *)
  separated_pair {A S B} (p : parser A) (sep : parser S) (q : parser B) : parser (A * B);

  le_u32_law i :
    le_u32 i = if decide (4 ≤ length i)%nat
               then Some (le_value (take 4 i), drop 4 i) else None;
  pmap_law {A B} (p : parser A) (f : A → B) i :
    pmap p f i = '(a, r) ← p i; Some (f a, r);
  verify_map_law {A B} (p : parser A) (f : A → option B) i :
    verify_map p f i = '(a, r) ← p i; b ← f a; Some (b, r);
  seq2_law {A B} (p : parser A) (q : parser B) i :
    seq2 p q i = '(a, i) ← p i; '(b, i) ← q i; Some (a, b, i);
  seq6_law {A B C D E F} (p : parser A) (q : parser B) (r : parser C)
    (s : parser D) (t : parser E) (u : parser F) i :
    seq6 p q r s t u i =
      '(a, i) ← p i; '(b, i) ← q i; '(c, i) ← r i;
      '(d, i) ← s i; '(e, i) ← t i; '(f, i) ← u i; Some (a, b, c, d, e, f, i);
  length_take_law p i :
    length_take p i =
      '(n, r) ← p i;
      if decide (n ≤ Z.of_nat (length r)) then Some (take (Z.to_nat n) r, drop (Z.to_nat n) r)
      else None;
  take_until1_law c i :
    take_until1 c i =
      match span (λ b, negb (bool_decide (b = c))) i with
      | ((_ :: _) as k, (_ :: _) as r) => Some (k, r)
      | _ => None
      end;
  literal_law c i :
    literal c i = match i with
                  | b :: r => if decide (b = c) then Some ([b], r) else None
                  | [] => None
                  end;
  digit1_law i :
    digit1 i = match span byte_is_digit i with
               | ((_ :: _) as k, r) => Some (k, r)
               | _ => None
               end;
  separated_pair_law {A S B} (p : parser A) (sep : parser S) (q : parser B) i :
    separated_pair p sep q i =
      '(a, i) ← p i; '(_, i) ← sep i; '(b, i) ← q i; Some (a, b, i);
}.

(** A model of the class. *)
#[refine] Instance winnow_doc : Winnow := {|
  le_u32 i := if decide (4 ≤ length i)%nat
              then Some (le_value (take 4 i), drop 4 i) else None;
  pmap A B p f i := '(a, r) ← p i; Some (f a, r);
  verify_map A B p f i := '(a, r) ← p i; b ← f a; Some (b, r);
  seq2 A B p q i := '(a, i) ← p i; '(b, i) ← q i; Some (a, b, i);
  seq6 A B C D E F p q r s t u i :=
    '(a, i) ← p i; '(b, i) ← q i; '(c, i) ← r i;
    '(d, i) ← s i; '(e, i) ← t i; '(f, i) ← u i; Some (a, b, c, d, e, f, i);
  length_take p i :=
    '(n, r) ← p i;
    if decide (n ≤ Z.of_nat (length r)) then Some (take (Z.to_nat n) r, drop (Z.to_nat n) r)
    else None;
  take_until1 c i :=
    match span (λ b, negb (bool_decide (b = c))) i with
    | ((_ :: _) as k, (_ :: _) as r) => Some (k, r)
    | _ => None
    end;
  literal c i := match i with
                 | b :: r => if decide (b = c) then Some ([b], r) else None
                 | [] => None
                 end;
  digit1 i := match span byte_is_digit i with
              | ((_ :: _) as k, r) => Some (k, r)
              | _ => None
              end;
  separated_pair A S B p sep q i :=
    '(a, i) ← p i; '(_, i) ← sep i; '(b, i) ← q i; Some (a, b, i);
|}.
Proof. all: reflexivity. Defined.

(** ** Derived facts *)

Lemma span_app (f : byte → bool) k r :
  Forall (λ b, f b = true) k →
  match r with [] => True | b :: _ => f b = false end →
  span f (k ++ r) = (k, r).
Proof.
  intros Hk Hr. induction Hk as [|b k Hb Hk IH]; simpl.
  - destruct r as [|c r]; simpl; [done|]. by rewrite Hr.
  - by rewrite Hb, IH.
Qed.

Lemma span_spec f i k r :
  span f i = (k, r) →
  i = k ++ r ∧ Forall (λ b, f b = true) k ∧ match r with [] => True | b :: _ => f b = false end.
Proof.
  revert k r. induction i as [|b i IH]; simpl; intros k r H; [naive_solver|].
  destruct (f b) eqn:E; [|naive_solver].
  destruct (span f i) as [k' r'] eqn:Es. simplify_eq.
  destruct (IH k' r eq_refl) as (-> & ? & ?). eauto.
Qed.

Section winnow_facts.
Context {W : Winnow}.

Lemma le_u32_bytes_app x r : u32 x → le_u32 (le_u32_bytes x ++ r) = Some (x, r).
Proof.
  intros Hx. rewrite le_u32_law, decide_True.
  - rewrite take_app_length', drop_app_length' by (by rewrite length_le_u32_bytes).
    by rewrite le_value_u32_bytes.
  - rewrite length_app, length_le_u32_bytes. lia.
Qed.

Lemma le_u32_Some i x r :
  le_u32 i = Some (x, r) ↔ u32 x ∧ i = le_u32_bytes x ++ r.
Proof.
  split; [|intros [? ->]; by apply le_u32_bytes_app].
  rewrite le_u32_law. case_decide as Hl; [|done]. intros [= <- <-].
  assert (length (take 4 i) = 4%nat) by (rewrite List.length_firstn; lia).
  split; [by apply le_value_u32|].
  rewrite le_u32_bytes_value by done. by rewrite take_drop.
Qed.

Lemma length_take_app n b r :
  length b = Z.to_nat n → u32 n →
  length_take le_u32 (le_u32_bytes n ++ b ++ r) = Some (b, r).
Proof.
  intros Hb Hn. rewrite length_take_law, le_u32_bytes_app by done. simpl.
  unfold u32 in Hn. case_decide as Hd; [|rewrite length_app in Hd; lia].
  by rewrite <-Hb, take_app_length, drop_app_length.
Qed.
End winnow_facts.
