(* ===== verification/DeviceInfo.v ===== *)
(** Device identity discovery (src/src/device_info.rs).  The files that are
    read are an environment [SystemFiles]; the [dmidecode] crate is a parameter
    [Dmidecode]: the program only takes the first [System] structure of the
    table it returns. *)
From Stdlib Require Import ZArith Lia Strings.Byte.
From stdpp Require Import base numbers list gmap strings.
From S2P Require Import Prelude.
From S2P Require Import Bytes.
From S2P Require Import Str.

Open Scope Z_scope.

(** ** Environment *)

(** [fs::read]: the contents of a file, if it can be read. *)
Class SystemFiles : Type := { fs_read : string → option (list byte) }.

(** [fs::read_to_string] reads the file and requires valid UTF-8. *)
Definition fs_read_to_string `{SystemFiles} (path : string) : option str :=
  fs_read path ≫= from_utf8.

(** [dmidecode::Structure], of which only [System] is looked into. *)
Inductive Structure : Type :=
  | System (product serial : str)
  | OtherStructure.

Class Dmidecode : Type := {
  EntryPoint : Type;
  (** [EntryPoint::search]; [None] is its error *)
  entry_point_search : list byte → option EntryPoint;
  (** the items of [EntryPoint::structures], each of them fallible *)
  entry_point_structures : EntryPoint → list byte → list (option Structure);
}.

(** ** The module *)

Definition DEFAULT_NAME : str := lit "adibi".

Record DeviceInfo : Type := mkDeviceInfo {
  serial : str;
  name : str;
  model : str;
  device : str;
}.

Record DmiInfo : Type := mkDmiInfo {
  dmi_product : option str;
  dmi_serial : option str;
}.

Definition non_empty (s : str) : option str :=
  match s with [] => None | _ => Some s end.

Section device_info.
Context `{SystemFiles} `{Dmidecode}.

Fixpoint first_system (structures : list (option Structure)) : option DmiInfo :=
  match structures with
  | [] => None
  | Some (System product serial) :: _ =>
      Some (mkDmiInfo (non_empty product) (non_empty serial))
  | _ :: structures => first_system structures
  end.

Definition read_dmi : option DmiInfo :=
  entry_data ← fs_read "/sys/firmware/dmi/tables/smbios_entry_point";
  table_data ← fs_read "/sys/firmware/dmi/tables/DMI";
  entry_point ← entry_point_search entry_data;
  first_system (entry_point_structures entry_point table_data).

(** The loop of [read_cpuinfo_field]: the [?] on [split_once] leaves the
    function at the first line without a colon. *)
Fixpoint cpuinfo_lines (field : str) (ls : list str) : option str :=
  match ls with
  | [] => None
  | line :: ls =>
      '(key, value) ← split_once 58 line;
      if decide (trim key = field) then non_empty (trim value)
      else cpuinfo_lines field ls
  end.

Definition read_cpuinfo_field (field : str) : option str :=
  contents ← fs_read_to_string "/proc/cpuinfo";
  cpuinfo_lines field (lines contents).

Definition read_device_tree_model : option str :=
  contents ← fs_read_to_string "/proc/device-tree/model";
  non_empty (trim (trim_end_matches 0 contents)).

Fixpoint os_release_lines (ls : list str) : option str :=
  match ls with
  | [] => None
  | line :: ls =>
      '(key, value) ← split_once 61 line;
      if decide (key = lit "PRETTY_NAME") then non_empty (trim_matches 34 value)
      else os_release_lines ls
  end.

Definition read_os_pretty_name : option str :=
  contents ← fs_read_to_string "/etc/os-release";
  os_release_lines (lines contents).

Definition read_machine_id : option str :=
  contents ← fs_read_to_string "/etc/machine-id";
  non_empty (trim contents).

Definition read_hostname : option str :=
  contents ← fs_read_to_string "/etc/hostname";
  non_empty (trim contents).

(** [Option::or_else]. *)
Definition or_else {A} (o p : option A) : option A :=
  match o with Some _ => o | None => p end.

Definition from_system : DeviceInfo :=
  let dmi := default (mkDmiInfo None None) read_dmi in
  {| serial := default DEFAULT_NAME
                 (or_else (or_else (dmi_serial dmi) (read_cpuinfo_field (lit "Serial")))
                    read_machine_id);
     name := default DEFAULT_NAME read_os_pretty_name;
     model := default DEFAULT_NAME
                (or_else (or_else (dmi_product dmi) (read_cpuinfo_field (lit "Model")))
                   read_device_tree_model);
     device := default DEFAULT_NAME read_hostname |}.
End device_info.

(** ** Lookup of a field *)

(** A line of /proc/cpuinfo that has a key other than [field]. *)
Definition other_field (field line : str) : Prop :=
  ∃ key value, split_once 58 line = Some (key, value) ∧ trim key ≠ field.

Lemma cpuinfo_lines_skip field pre ls :
  Forall (other_field field) pre → cpuinfo_lines field (pre ++ ls) = cpuinfo_lines field ls.
Proof.
  induction 1 as [|line pre (key & value & Hs & Hk) _ IH]; simpl; [done|].
  rewrite Hs. simpl. by rewrite decide_False.
Qed.

Lemma non_empty_Some s v : non_empty s = Some v ↔ s = v ∧ v ≠ [].
Proof. destruct s; simpl; naive_solver. Qed.

(** The field that is found in /proc/cpuinfo is the trimmed value of the
    first line whose trimmed key is the field's name, is not empty, and every
    line before it has a key of its own. *)
Lemma cpuinfo_lines_iff field ls v :
  cpuinfo_lines field ls = Some v ↔
  ∃ pre line post key value,
    ls = pre ++ line :: post ∧ Forall (other_field field) pre ∧
    split_once 58 line = Some (key, value) ∧ trim key = field ∧
    trim value = v ∧ v ≠ [].
Proof.
  split.
  - induction ls as [|line ls IH]; simpl; [done|].
    destruct (split_once 58 line) as [[key value]|] eqn:Hs; simpl; [|done].
    case_decide as Hk.
    + intros [Hv Hne]%non_empty_Some. exists [], line, ls, key, value. by split_and!.
    + intros (pre & l & post & k & u & -> & Hpre & ?)%IH.
      exists (line :: pre), l, post, k, u. split_and!; [done| |naive_solver..].
      constructor; [|done]. by exists key, value.
  - intros (pre & line & post & key & value & -> & Hpre & Hs & Hk & Hv & Hne).
    rewrite cpuinfo_lines_skip by done. simpl. rewrite Hs. simpl.
    rewrite decide_True by done. by apply non_empty_Some.
Qed.

(** C39: a line without a colon ends the search: the blank line that the kernel
    prints after each processor hides every field below it, even though the
    field is there. *)
Theorem cpuinfo_blank_line_hides field pre post :
  Forall (other_field field) pre → cpuinfo_lines field (pre ++ [] :: post) = None.
Proof. intros Hpre. by rewrite cpuinfo_lines_skip. Qed.

Lemma cpuinfo_blank_line_hides_witness :
  let cpuinfo := lit ("processor	: 0" ++ String (Ascii.ascii_of_nat 10)
                      (String (Ascii.ascii_of_nat 10) "Serial	: 10000000abcd")) in
  lines cpuinfo = [lit "processor	: 0"] ++ [] :: [lit "Serial	: 10000000abcd"] ∧
  cpuinfo_lines (lit "Serial") [lit "Serial	: 10000000abcd"] = Some (lit "10000000abcd") ∧
  cpuinfo_lines (lit "Serial") ([lit "processor	: 0"] ++ [] :: [lit "Serial	: 10000000abcd"]) = None.
Proof.
  split; [reflexivity|]. split; [reflexivity|].
  apply (cpuinfo_blank_line_hides (lit "Serial") [lit "processor	: 0"]).
  constructor; [|constructor]. exists (lit "processor	"), (lit " 0"). split; [reflexivity|discriminate].
Defined.

Section identity.
Context `{SystemFiles} `{Dmidecode}.

Definition option_nonempty (o : option str) : Prop :=
  match o with Some s => s ≠ [] | None => True end.

Lemma non_empty_nonempty s : option_nonempty (non_empty s).
Proof. destruct s; [exact I|discriminate]. Qed.

Lemma option_nonempty_bind {A} (o : option A) f :
  (∀ a, option_nonempty (f a)) → option_nonempty (o ≫= f).
Proof. intros Hf. destruct o; [apply Hf|done]. Qed.

Lemma or_else_nonempty o p :
  option_nonempty o → option_nonempty p → option_nonempty (or_else o p).
Proof. intros Ho Hp. destruct o; [exact Ho|exact Hp]. Qed.

Lemma default_nonempty o : option_nonempty o → default DEFAULT_NAME o ≠ [].
Proof. intros Ho. destruct o; [exact Ho|vm_compute; discriminate]. Qed.

Lemma cpuinfo_lines_nonempty field ls : option_nonempty (cpuinfo_lines field ls).
Proof.
  destruct (cpuinfo_lines field ls) as [v|] eqn:Hv; [|done]. simpl.
  apply cpuinfo_lines_iff in Hv. naive_solver.
Qed.

Lemma os_release_lines_nonempty ls : option_nonempty (os_release_lines ls).
Proof.
  induction ls as [|line ls IH]; simpl; [done|]. destruct (split_once 61 line) as [[k v]|]; simpl; [|done].
  case_decide; [apply non_empty_nonempty|done].
Qed.

Definition dmi_nonempty (d : DmiInfo) : Prop :=
  option_nonempty (dmi_product d) ∧ option_nonempty (dmi_serial d).

Lemma first_system_nonempty l d : first_system l = Some d → dmi_nonempty d.
Proof.
  induction l as [|[[product serial|]|] l IH]; simpl; [done| |done..].
  intros [= <-]. split; apply non_empty_nonempty.
Qed.

Lemma read_dmi_nonempty : dmi_nonempty (default (mkDmiInfo None None) read_dmi).
Proof.
  destruct read_dmi as [d|] eqn:Hd; [|split; exact I]. unfold read_dmi in Hd.
  apply bind_Some in Hd as (e & _ & (t & _ & (p & _ & Hd)%bind_Some)%bind_Some).
  by eapply first_system_nonempty.
Qed.

Local Hint Resolve non_empty_nonempty option_nonempty_bind or_else_nonempty default_nonempty
  cpuinfo_lines_nonempty os_release_lines_nonempty : core.

(** Whatever the files hold, are missing or are not UTF-8, the identity
    is complete: none of its four fields is empty. *)
Theorem from_system_complete :
  serial from_system ≠ [] ∧ name from_system ≠ [] ∧
  model from_system ≠ [] ∧ device from_system ≠ [].
Proof.
  pose proof read_dmi_nonempty as [Hp Hs]. simpl.
  unfold read_cpuinfo_field, read_machine_id, read_os_pretty_name, read_device_tree_model,
    read_hostname.
  split_and!; auto 10.
Qed.
End identity.
