(* ===== verification/Message.v ===== *)
(** ADB messages (src/src/message.rs): commands, protocol versions, the 24-byte
    header with its parser and its wire image, the payload checksum and the
    constructors of the messages the device sends. *)
From Stdlib Require Import ZArith Lia Strings.Byte.
From stdpp Require Import base numbers list gmap strings.
From S2P Require Import Prelude.
From S2P Require Import Bytes.
From S2P Require Import Str.
From S2P Require Import Winnow.
From S2P Require Import DeviceInfo.

Open Scope Z_scope.

(** ** Commands *)

Definition A_CNXN : Z := 0x4e584e43.
Definition A_AUTH : Z := 0x48545541.
Definition A_OPEN : Z := 0x4e45504f.
Definition A_OKAY : Z := 0x59414b4f.
Definition A_CLSE : Z := 0x45534c43.
Definition A_WRTE : Z := 0x45545257.
Definition A_STLS : Z := 0x534c5453.

Inductive Command : Type := Cnxn | Auth | Open | Okay | Clse | Wrte | Stls.

#[export] Instance Command_eq_dec : EqDecision Command.
Proof. solve_decision. Defined.

(** [TryFrom<u32> for Command]; the error carries the value. *)
Definition Command_try_from (value : Z) : result Command Z :=
  if decide (value = A_CNXN) then Ok Cnxn
  else if decide (value = A_AUTH) then Ok Auth
  else if decide (value = A_OPEN) then Ok Open
  else if decide (value = A_OKAY) then Ok Okay
  else if decide (value = A_CLSE) then Ok Clse
  else if decide (value = A_WRTE) then Ok Wrte
  else if decide (value = A_STLS) then Ok Stls
  else Err value.

(** [From<Command> for u32]. *)
Definition Command_u32 (value : Command) : Z :=
  match value with
  | Cnxn => A_CNXN | Auth => A_AUTH | Open => A_OPEN | Okay => A_OKAY
  | Clse => A_CLSE | Wrte => A_WRTE | Stls => A_STLS
  end.

(** [Display for Command]. *)
Definition Command_fmt (c : Command) : string :=
  match c with
  | Cnxn => "CNXN" | Auth => "AUTH" | Open => "OPEN" | Okay => "OKAY"
  | Clse => "CLSE" | Wrte => "WRTE" | Stls => "STLS"
  end.

(** ** Protocol versions *)

Definition A_VERSION_V0 : Z := 0x01000000.
Definition A_VERSION_V1 : Z := 0x01000001.

Inductive ProtocolVersion : Type := V0 | V1.

#[export] Instance ProtocolVersion_eq_dec : EqDecision ProtocolVersion.
Proof. solve_decision. Defined.

Definition ProtocolVersion_u32 (v : ProtocolVersion) : Z :=
  match v with V0 => A_VERSION_V0 | V1 => A_VERSION_V1 end.

Definition ProtocolVersion_try_from (v : Z) : result ProtocolVersion Z :=
  if decide (v = A_VERSION_V0) then Ok V0
  else if decide (v = A_VERSION_V1) then Ok V1
  else Err v.

Definition max_payload (v : ProtocolVersion) : Z :=
  match v with V0 => 4096 | V1 => 1024 * 1024 end.

Definition requires_checksum (v : ProtocolVersion) : bool := bool_decide (v = V0).

Definition PROTOCOL_VERSION : ProtocolVersion := V1.

(** ** Headers *)

Record AdbHeader : Type := mkAdbHeader {
  command : Command;
  arg0 : Z;
  arg1 : Z;
  data_length : Z;
  data_check : Z;
  magic : Z;
}.

#[export] Instance AdbHeader_eq_dec : EqDecision AdbHeader.
Proof. solve_decision. Defined.

(** The fields of a header are [u32]s. *)
Definition header_u32 (h : AdbHeader) : Prop :=
  u32 (arg0 h) ∧ u32 (arg1 h) ∧ u32 (data_length h) ∧ u32 (data_check h).

(** [as_le_bytes] of the [repr(C)] structure of six [u32]s. *)
Definition AdbHeader_bytes (h : AdbHeader) : list byte :=
  le_u32_bytes (Command_u32 (command h)) ++ le_u32_bytes (arg0 h) ++
  le_u32_bytes (arg1 h) ++ le_u32_bytes (data_length h) ++
  le_u32_bytes (data_check h) ++ le_u32_bytes (magic h).

(** The sum of a [u32] iterator wraps in a release build. *)
Definition checksum (data : list byte) : Z :=
  foldl (λ acc b, wrap32 (acc + byte_Z b)) 0 data.

Definition command_magic (c : Command) : Z := Z.lxor (Command_u32 c) 0xffffffff.

Section parse.
Context {W : Winnow}.

Definition parse_command : parser Command :=
  verify_map le_u32 (λ v, result_ok (Command_try_from v)).

Definition parse_header : parser AdbHeader :=
  verify_map (seq6 parse_command le_u32 le_u32 le_u32 le_u32 le_u32)
    (λ '(command, arg0, arg1, data_length, data_check, magic),
      if decide (magic ≠ command_magic command) then None
      else Some (mkAdbHeader command arg0 arg1 data_length data_check magic)).
End parse.

Section build.
Context {S : Type}.

Definition header_from_payload (host_version : ProtocolVersion) (command : Command)
    (arg0 arg1 : Z) (payload : list byte) : M S AdbHeader :=
  let checksum := if requires_checksum host_version then checksum payload else 0 in
  data_length ← expectM (u32_try_from (Z.of_nat (length payload)))
    "The maximum payload that can be negotiated is 2^20 (1MB), way lower than u32::MAX";
  mret (mkAdbHeader command arg0 arg1 data_length checksum (command_magic command)).

Definition cnxn_header (host_version : ProtocolVersion) (payload : list byte) :
    M S AdbHeader :=
  header_from_payload host_version Cnxn (ProtocolVersion_u32 PROTOCOL_VERSION)
    (max_payload PROTOCOL_VERSION) payload.

Definition okay_header (peer : ProtocolVersion) (local_id remote_id : Z) : M S AdbHeader :=
  header_from_payload peer Okay local_id remote_id [].

Definition wrte_header (peer : ProtocolVersion) (local_id remote_id : Z)
    (payload : list byte) : M S AdbHeader :=
  header_from_payload peer Wrte local_id remote_id payload.

Definition clse_header (peer : ProtocolVersion) (local_id remote_id : Z) : M S AdbHeader :=
  header_from_payload peer Clse local_id remote_id [].

Definition cnxn_payload (info : DeviceInfo) : list byte :=
  str_bytes (lit "device::ro.product.name=" ++ name info ++
             lit ";ro.product.model=" ++ model info ++
             lit ";ro.product.device=" ++ device info ++ lit ";" ++ [0]).

Definition cnxn_response (peer : ProtocolVersion) (info : DeviceInfo) :
    M S (AdbHeader * list byte) :=
  let payload := cnxn_payload info in
  hdr ← cnxn_header peer payload;
  mret (hdr, payload).
End build.

(** ** Command and version codes *)

Lemma Command_try_from_Ok v c : Command_try_from v = Ok c ↔ v = Command_u32 c.
Proof.
  split.
  - unfold Command_try_from. repeat case_decide; intros [= <-]; done.
  - intros ->. by destruct c.
Qed.

Lemma Command_u32_u32 c : u32 (Command_u32 c).
Proof. by destruct c. Qed.

Lemma command_magic_u32 c : u32 (command_magic c).
Proof. by destruct c. Qed.

#[export] Hint Resolve Command_u32_u32 command_magic_u32 : adibi.

(** A command word is the command's ASCII name: the four bytes it has on
    the wire are exactly what [Display] prints for it. *)
Lemma command_wire_name c : le_u32_bytes (Command_u32 c) = bstr (Command_fmt c).
Proof. destruct c; vm_compute; reflexivity. Qed.

Lemma ProtocolVersion_try_from_Ok v p :
  ProtocolVersion_try_from v = Ok p ↔ v = ProtocolVersion_u32 p.
Proof.
  split.
  - unfold ProtocolVersion_try_from. repeat case_decide; intros [= <-]; done.
  - intros ->. by destruct p.
Qed.

(** ** The header parser *)

Lemma length_AdbHeader_bytes h : length (AdbHeader_bytes h) = 24%nat.
Proof. unfold AdbHeader_bytes. by rewrite !length_app, !length_le_u32_bytes. Qed.

Section parse_facts.
Context {W : Winnow}.

Lemma parse_command_Some i c r :
  parse_command i = Some (c, r) ↔ i = le_u32_bytes (Command_u32 c) ++ r.
Proof.
  unfold parse_command. rewrite verify_map_law. split.
  - destruct (le_u32 i) as [[v r']|] eqn:E; simpl; [|done].
    destruct (Command_try_from v) as [c'|] eqn:Ec; simpl; [|done].
    intros [= <- <-]. apply Command_try_from_Ok in Ec as ->.
    apply le_u32_Some in E as [_ ->]. done.
  - intros ->. rewrite le_u32_bytes_app by auto with adibi. simpl.
    rewrite (proj2 (Command_try_from_Ok _ c) eq_refl). done.
Qed.

Lemma parse_header_Some i h r :
  parse_header i = Some (h, r) ↔
  i = AdbHeader_bytes h ++ r ∧ header_u32 h ∧ magic h = command_magic (command h).
Proof.
  unfold parse_header. rewrite verify_map_law, seq6_law. split.
  - intros H.
    repeat match goal with
    | H : (?o ≫= λ '(_, _), _) = Some _ |- _ =>
        apply bind_Some in H as [[? ?] [? H]]
    end.
    simplify_eq. case_decide as Hm; [done|].
    injection H as <- <-.
    repeat match goal with
    | H : le_u32 _ = Some _ |- _ => apply le_u32_Some in H as [? ->]
    | H : parse_command _ = Some _ |- _ => apply parse_command_Some in H as ->
    end.
    unfold AdbHeader_bytes, header_u32. simpl. by rewrite <-!(assoc_L (++)).
  - intros (-> & (H0 & H1 & Hl & Hc) & Hm). destruct h as [c a0 a1 l k m]; simpl in *.
    unfold AdbHeader_bytes. simpl. rewrite <-!(assoc_L (++)).
    rewrite (proj2 (parse_command_Some _ c _) eq_refl). simpl.
    repeat (rewrite le_u32_bytes_app by (subst; auto with adibi); simpl).
    rewrite decide_False by (subst; tauto). done.
Qed.

(** C30: the header parser accepts exactly the images of well-formed headers:
    a slice parses to [h] with rest [r] if and only if it is the 24-byte
    image of [h] followed by [r], the fields of [h] are [u32]s and its magic
    is the inverse of its command word.  Short slices, unknown commands and
    wrong magics are therefore all rejected. *)
Theorem parse_header_iff i h r :
  parse_header i = Some (h, r) ↔
  i = AdbHeader_bytes h ++ r ∧ header_u32 h ∧ magic h = command_magic (command h).
Proof. apply parse_header_Some. Qed.
End parse_facts.

(** ** The checksum *)

Fixpoint byte_sum (data : list byte) : Z :=
  match data with [] => 0 | b :: data => byte_Z b + byte_sum data end.

Lemma byte_sum_range data : 0 ≤ byte_sum data ≤ 255 * Z.of_nat (length data).
Proof.
  induction data as [|b data IH]; simpl; [lia|].
  pose proof (byte_Z_range b). lia.
Qed.

Lemma byte_sum_app d e : byte_sum (d ++ e) = byte_sum d + byte_sum e.
Proof. induction d; simpl; lia. Qed.

Lemma checksum_wrap data : checksum data = wrap32 (byte_sum data).
Proof.
  unfold checksum, wrap32.
  assert (∀ a, foldl (λ acc b, (acc + byte_Z b) mod 2 ^ 32) (a mod 2 ^ 32) data
    = (a + byte_sum data) mod 2 ^ 32) as H; [|exact (H 0)].
  induction data as [|b data IH]; intros a; simpl; [by rewrite Z.add_0_r|].
  rewrite Z.add_mod_idemp_l by lia. rewrite IH. f_equal. lia.
Qed.

(** On every payload that can be negotiated (and on anything up to 16 MB)
    the checksum is the exact sum of the bytes: the [u32] addition does not
    wrap, so debug and release builds agree. *)
Theorem checksum_no_overflow data :
  Z.of_nat (length data) ≤ 16843009 → checksum data = byte_sum data.
Proof.
  intros Hl. rewrite checksum_wrap. apply wrap32_small.
  pose proof (byte_sum_range data). unfold u32. lia.
Qed.

Lemma checksum_u32 data : u32 (checksum data).
Proof. rewrite checksum_wrap. auto with adibi. Qed.

(** A payload in which exactly one byte was altered never passes the
    checksum test, whatever its length. *)
Lemma checksum_detects_byte d e b b' :
  b ≠ b' → checksum (d ++ b :: e) ≠ checksum (d ++ b' :: e).
Proof.
  intros Hb. rewrite !checksum_wrap, !byte_sum_app. simpl. unfold wrap32. intros H.
  apply Hb, byte_Z_inj.
  pose proof (byte_Z_range b). pose proof (byte_Z_range b').
  assert ((byte_Z b - byte_Z b') mod 2 ^ 32 = 0) as H'.
  { replace (byte_Z b - byte_Z b') with
      ((byte_sum d + (byte_Z b + byte_sum e)) - (byte_sum d + (byte_Z b' + byte_sum e)))
      by lia.
    rewrite Zminus_mod, H, Z.sub_diag. done. }
  apply Z.mod_divide in H' as [k Hk]; lia.
Qed.

(** ** Constructed headers *)

(** The header that [header_from_payload] builds. *)
Definition payload_header (v : ProtocolVersion) (c : Command) (a0 a1 : Z)
    (payload : list byte) : AdbHeader :=
  mkAdbHeader c a0 a1 (Z.of_nat (length payload))
    (if requires_checksum v then checksum payload else 0) (command_magic c).

Section build_facts.
Context {S : Type}.
Implicit Types s : S.

Lemma header_from_payload_eq v c a0 a1 payload s :
  Z.of_nat (length payload) < 2 ^ 32 →
  header_from_payload v c a0 a1 payload s = Done (payload_header v c a0 a1 payload, s).
Proof.
  intros Hl. unfold header_from_payload.
  rewrite (u32_try_from_u32 (Z.of_nat _)) by (unfold u32; lia). done.
Qed.

Lemma okay_header_eq v l r s : okay_header v l r s = Done (payload_header v Okay l r [], s).
Proof. by apply header_from_payload_eq. Qed.

Lemma clse_header_eq v l r s : clse_header v l r s = Done (payload_header v Clse l r [], s).
Proof. by apply header_from_payload_eq. Qed.

Lemma wrte_header_eq v l r payload s :
  Z.of_nat (length payload) < 2 ^ 32 →
  wrte_header v l r payload s = Done (payload_header v Wrte l r payload, s).
Proof. by apply header_from_payload_eq. Qed.

(** A header the device builds for a payload that fits in a [u32] is one
    its own parser accepts unchanged, whatever follows it on the wire; its
    length field is the length of the payload and, for a peer that requires
    checksums, its check field is the checksum of the payload. *)
Theorem header_from_payload_roundtrip {W : Winnow} v c a0 a1 payload s r :
  u32 a0 → u32 a1 → Z.of_nat (length payload) < 2 ^ 32 →
  ∃ h, header_from_payload v c a0 a1 payload s = Done (h, s) ∧
    parse_header (AdbHeader_bytes h ++ r) = Some (h, r) ∧
    command h = c ∧ arg0 h = a0 ∧ arg1 h = a1 ∧
    data_length h = Z.of_nat (length payload) ∧
    (requires_checksum v = true → data_check h = checksum payload).
Proof.
  intros Ha0 Ha1 Hl. rewrite header_from_payload_eq by done.
  eexists. split; [done|]. split.
  - apply parse_header_Some. split; [done|]. split; [|done].
    unfold header_u32; simpl. split_and!; [done|done|unfold u32; lia|].
    destruct (requires_checksum v); [apply checksum_u32|done].
  - repeat split; simpl. by intros ->.
Qed.
End build_facts.

Lemma header_from_payload_roundtrip_witness :
  ∃ h, header_from_payload V0 Wrte 1 7 (bstr "hi") tt = Done (h, tt) ∧
      parse_header (W := winnow_doc) (AdbHeader_bytes h ++ bstr "hi") = Some (h, bstr "hi") ∧
      command h = Wrte ∧ arg0 h = 1 ∧ arg1 h = 7 ∧
      data_length h = Z.of_nat (length (bstr "hi")) ∧
      (requires_checksum V0 = true → data_check h = checksum (bstr "hi")).
Proof.
  apply (header_from_payload_roundtrip (W := winnow_doc) V0 Wrte 1 7 (bstr "hi") tt).
  all: unfold u32; vm_compute; intuition discriminate.
Defined.

Lemma checksum_no_overflow_witness :
  Z.of_nat (length (bstr "abc")) ≤ 16843009 ∧ checksum (bstr "abc") = byte_sum (bstr "abc").
Proof.
  split; [vm_compute; discriminate|].
  apply (checksum_no_overflow (bstr "abc")). vm_compute. discriminate.
Defined.

Lemma checksum_detects_byte_witness :
  "a"%byte ≠ "b"%byte ∧
  checksum (bstr "x" ++ "a"%byte :: bstr "y") ≠ checksum (bstr "x" ++ "b"%byte :: bstr "y").
Proof.
  split; [discriminate|].
  apply (checksum_detects_byte (bstr "x") (bstr "y") "a"%byte "b"%byte). discriminate.
Defined.
