(* ===== verification/Buffers.v ===== *)
(** The pool of write buffers (src/src/buffers.rs): eight slots, numbered from
    1, each free or holding the bytes of a write in flight.  The abstract view
    of a pool is the finite map from the numbers of the occupied slots to their
    bytes; [alloc] and [free] are its insertion and deletion. *)
From Stdlib Require Import ZArith Lia Strings.Byte.
From stdpp Require Import base numbers list gmap strings.
From S2P Require Import Prelude.
From S2P Require Import Bytes.

Open Scope Z_scope.

Definition MAX_BUFFER_SLOTS : nat := 8.

Record BufferManager : Type := mkBufferManager { slots : list (option (list byte)) }.

Definition BufferManager_new : BufferManager :=
  mkBufferManager (replicate MAX_BUFFER_SLOTS None).

(** [iter().position(Option::is_none)]. *)
Fixpoint position_none (l : list (option (list byte))) : option nat :=
  match l with
  | [] => None
  | None :: _ => Some O
  | Some _ :: l => S <$> position_none l
  end.

(** [alloc] returns the slot number; the fresh vector is empty whatever the
    capacity is.  The mutable reference it also returns is [buf_extend] at
    that slot. *)
Definition alloc (capacity : Z) : M BufferManager Z :=
  self ← getM;
  slot ← expectM (position_none (slots self)) "all write slots in use";
  putM (mkBufferManager (<[slot := Some []]> (slots self)));;
  expectM (u32_try_from (Z.of_nat slot + 1)) "MAX_BUFFER_SLOTS fits in u32".

(** [extend_from_slice] through the reference that [alloc] returned for a
    slot. *)
Definition buf_extend (slot : Z) (data : list byte) : M BufferManager unit :=
  modifyM (λ self, mkBufferManager
    (alter (fmap (λ buf, buf ++ data)) (Z.to_nat (slot - 1)) (slots self))).

(** [len()] through that reference. *)
Definition buf_len (slot : Z) : M BufferManager Z :=
  self ← getM;
  mret (Z.of_nat (length (default [] (mjoin (slots self !! Z.to_nat (slot - 1)))))).

(** [free]: the [u32] subtraction wraps and the indexing is checked. *)
Definition free (slot : Z) : M BufferManager unit :=
  self ← getM;
  let idx := wrap32 (slot - 1) in
  if decide (idx < Z.of_nat (length (slots self))) then
    putM (mkBufferManager (<[Z.to_nat idx := None]> (slots self)))
  else panicM IndexOutOfBounds.

(** ** Abstract view *)

(** The occupied slots with their bytes. *)
Definition view (self : BufferManager) : gmap nat (list byte) :=
  omap id (map_seq 1 (slots self)).

Definition buffers_wf (self : BufferManager) : Prop :=
  length (slots self) = MAX_BUFFER_SLOTS.

Lemma view_lookup self k :
  view self !! k = if decide (1 ≤ k)%nat then mjoin (slots self !! (k - 1)%nat) else None.
Proof.
  unfold view. rewrite lookup_omap, lookup_map_seq. case_decide.
  - rewrite option_guard_True by done. by destruct (slots self !! _).
  - by rewrite option_guard_False by done.
Qed.

Lemma view_lookup_S self i : view self !! S i = mjoin (slots self !! i).
Proof. rewrite view_lookup, decide_True by lia. by rewrite Nat.sub_succ, Nat.sub_0_r. Qed.

Lemma view_lookup_0 self : view self !! O = None.
Proof. by rewrite view_lookup. Qed.

Lemma view_insert self i o :
  (i < length (slots self))%nat →
  view (mkBufferManager (<[i := o]> (slots self))) = partial_alter (λ _, o) (S i) (view self).
Proof.
  intros Hi. apply map_eq. intros [|j].
  - by rewrite lookup_partial_alter_ne, !view_lookup_0 by done.
  - destruct (decide (i = j)) as [<-|Hne].
    + rewrite lookup_partial_alter_eq, view_lookup_S. simpl.
      by rewrite list_lookup_insert_eq by done.
    + rewrite lookup_partial_alter_ne, !view_lookup_S by lia. simpl.
      by rewrite list_lookup_insert_ne by done.
Qed.

Lemma position_none_Some l i :
  position_none l = Some i ↔
  l !! i = Some None ∧ ∀ j, (j < i)%nat → is_Some (mjoin (l !! j)).
Proof.
  revert i. induction l as [|[b|] l IH]; intros i; simpl.
  - split; [done|]. by intros [? _].
  - split.
    + intros (i' & Hi & ->)%fmap_Some. apply IH in Hi as [? Hj]. split; [done|].
      intros [|j] ?; simpl; [eauto|]. apply Hj. lia.
    + destruct i as [|i]; [by intros [? _]|]. intros [Hi Hj].
      apply fmap_Some. exists i. split; [|done]. apply IH. split; [done|].
      intros j ?. apply (Hj (S j)). lia.
  - split; [intros [= <-]; split; [done|lia]|].
    intros [Hi Hj]. destruct i as [|i]; [done|].
    destruct (Hj O ltac:(lia)) as [? ?]. done.
Qed.

Lemma position_none_None l i :
  position_none l = None → (i < length l)%nat → is_Some (mjoin (l !! i)).
Proof.
  revert i. induction l as [|[b|] l IH]; simpl; intros i Hp Hi; [lia| |done].
  apply fmap_None in Hp. destruct i as [|i]; simpl; [eauto|]. apply IH; [done|lia].
Qed.

(** ** Operations against the abstract view *)

Lemma view_bound self k : buffers_wf self → is_Some (view self !! k) → (1 ≤ k ≤ 8)%nat.
Proof.
  intros Hwf [b Hb]. destruct k as [|i]; [by rewrite view_lookup_0 in Hb|].
  rewrite view_lookup_S in Hb.
  destruct (slots self !! i) as [o|] eqn:Hi; [|done].
  apply lookup_lt_Some in Hi. rewrite Hwf in Hi. unfold MAX_BUFFER_SLOTS in Hi. lia.
Qed.

Lemma alloc_inv capacity self k self' :
  buffers_wf self → alloc capacity self = Done (k, self') →
  1 ≤ k ≤ 8 ∧ view self !! Z.to_nat k = None ∧
  (∀ j, (1 ≤ j < Z.to_nat k)%nat → is_Some (view self !! j)) ∧
  view self' = <[Z.to_nat k := []]> (view self) ∧ buffers_wf self'.
Proof.
  intros Hwf. unfold alloc, getM, putM. cbv [mbind M_bind].
  destruct (position_none (slots self)) as [i|] eqn:Hp; [|done]. cbn.
  apply position_none_Some in Hp as [Hi Hj].
  pose proof (lookup_lt_Some _ _ _ Hi) as Hlt. rewrite Hwf in Hlt.
  unfold MAX_BUFFER_SLOTS in Hlt.
  rewrite u32_try_from_u32 by (unfold u32; lia). cbn. intros [= <- <-].
  replace (Z.to_nat (Z.of_nat i + 1)) with (S i) by lia.
  split_and!; try lia.
  - by rewrite view_lookup_S, Hi.
  - intros [|j] ?; [lia|]. rewrite view_lookup_S. apply Hj. lia.
  - rewrite view_insert; [done|]. by eapply lookup_lt_Some.
  - unfold buffers_wf. simpl. by rewrite length_insert.
Qed.

Lemma alloc_Done capacity self :
  buffers_wf self → (∃ k, (1 ≤ k ≤ 8)%nat ∧ view self !! k = None) →
  ∃ k self', alloc capacity self = Done (k, self').
Proof.
  intros Hwf (k & Hk & Hv). unfold alloc, getM, putM. cbv [mbind M_bind].
  destruct (position_none (slots self)) as [i|] eqn:Hp; cbn.
  - apply position_none_Some in Hp as [Hi _].
    apply lookup_lt_Some in Hi. rewrite Hwf in Hi. unfold MAX_BUFFER_SLOTS in Hi.
    rewrite u32_try_from_u32 by (unfold u32; lia). cbn. eauto.
  - destruct k as [|i]; [lia|].
    destruct (position_none_None _ i Hp) as [b Hb]; [rewrite Hwf; unfold MAX_BUFFER_SLOTS; lia|].
    by rewrite view_lookup_S, Hb in Hv.
Qed.

Lemma alloc_cases capacity self :
  buffers_wf self →
  match alloc capacity self with
  | Done (k, self') =>
      1 ≤ k ≤ 8 ∧ view self !! Z.to_nat k = None ∧
      (∀ j, (1 ≤ j < Z.to_nat k)%nat → is_Some (view self !! j)) ∧
      view self' = <[Z.to_nat k := []]> (view self) ∧ buffers_wf self'
  | Panicked p =>
      p = Expect "all write slots in use" ∧
      ∀ j, (1 ≤ j ≤ 8)%nat → is_Some (view self !! j)
  end.
Proof.
  intros Hwf. destruct (alloc capacity self) as [[k self']|p] eqn:E.
  - by eapply alloc_inv.
  - split.
    + revert E. unfold alloc, getM, putM. cbv [mbind M_bind].
      destruct (position_none (slots self)) as [i|] eqn:Hp; cbn; [|congruence].
      apply position_none_Some in Hp as [Hi _].
      apply lookup_lt_Some in Hi. rewrite Hwf in Hi. unfold MAX_BUFFER_SLOTS in Hi.
      by rewrite u32_try_from_u32 by (unfold u32; lia).
    + intros j Hj. destruct (view self !! j) eqn:Hv; [eauto|]. exfalso.
      edestruct (alloc_Done capacity self Hwf) as (? & ? & ?); [eauto|congruence].
Qed.

Lemma view_alter_lt self i (f : list byte → list byte) :
  view (mkBufferManager (alter (fmap f) i (slots self))) = alter f (S i) (view self).
Proof.
  apply map_eq. intros [|j].
  - by rewrite lookup_alter_ne, !view_lookup_0 by done.
  - rewrite view_lookup_S. cbn [slots]. rewrite list_lookup_alter, lookup_alter, view_lookup_S.
    destruct (decide (i = j)) as [->|].
    + rewrite !decide_True by done. by destruct (slots self !! j) as [[?|]|].
    + by rewrite !decide_False, view_lookup_S by lia.
Qed.

Lemma buf_extend_view k data self :
  1 ≤ k → buffers_wf self →
  ∃ self', buf_extend k data self = Done (tt, self') ∧ buffers_wf self' ∧
    view self' = alter (λ buf, buf ++ data) (Z.to_nat k) (view self).
Proof.
  intros Hk Hwf. eexists. split; [done|]. split.
  - unfold buffers_wf. simpl. by rewrite length_alter.
  - rewrite view_alter_lt. f_equal. lia.
Qed.

(** Freeing a slot number that [alloc] hands out empties exactly that slot; any
    other [u32] is an out-of-bounds index. *)
Lemma free_cases k self :
  buffers_wf self → u32 k →
  if decide (1 ≤ k ≤ 8) then
    ∃ self', free k self = Done (tt, self') ∧ buffers_wf self' ∧
      view self' = delete (Z.to_nat k) (view self)
  else free k self = Panicked IndexOutOfBounds.
Proof.
  intros Hwf Hk. unfold u32 in Hk. unfold free, getM, putM. cbv [mbind M_bind].
  rewrite Hwf. unfold MAX_BUFFER_SLOTS. case_decide as Hd.
  - rewrite wrap32_small by (unfold u32; lia). rewrite decide_True by lia.
    eexists. split; [done|]. split.
    + unfold buffers_wf. simpl. by rewrite length_insert.
    + rewrite view_insert by (rewrite Hwf; unfold MAX_BUFFER_SLOTS; lia).
      unfold delete, map_delete. f_equal. lia.
  - destruct (decide (k = 0)) as [->|]; [done|].
    rewrite wrap32_small by (unfold u32; lia). by rewrite decide_False by lia.
Qed.

(** C33: [alloc] refines the choice of a free key.  On a well-formed pool it
    succeeds if and only if one of the eight slots is free (otherwise it
    panics), and then it returns the least free slot number, between 1 and 8,
    leaves that slot occupied by an empty buffer and every other slot as it
    was. *)
Theorem alloc_refines capacity self :
  buffers_wf self →
  match alloc capacity self with
  | Done (k, self') =>
      1 ≤ k ≤ 8 ∧ view self !! Z.to_nat k = None ∧
      (∀ j, (1 ≤ j < Z.to_nat k)%nat → is_Some (view self !! j)) ∧
      view self' = <[Z.to_nat k := []]> (view self) ∧ buffers_wf self'
  | Panicked p =>
      p = Expect "all write slots in use" ∧
      ∀ j, (1 ≤ j ≤ 8)%nat → is_Some (view self !! j)
  end.
Proof. apply alloc_cases. Qed.

Lemma BufferManager_new_wf : buffers_wf BufferManager_new.
Proof. done. Qed.

Lemma view_new : view BufferManager_new = ∅.
Proof. reflexivity. Qed.

Lemma alloc_refines_witness :
  buffers_wf BufferManager_new ∧
  match alloc 24 BufferManager_new with
  | Done (k, self') =>
      1 ≤ k ≤ 8 ∧ view BufferManager_new !! Z.to_nat k = None ∧
      (∀ j, (1 ≤ j < Z.to_nat k)%nat → is_Some (view BufferManager_new !! j)) ∧
      view self' = <[Z.to_nat k := []]> (view BufferManager_new) ∧ buffers_wf self'
  | Panicked p =>
      p = Expect "all write slots in use" ∧
      ∀ j, (1 ≤ j ≤ 8)%nat → is_Some (view BufferManager_new !! j)
  end.
Proof. split; [reflexivity|]. apply (alloc_refines 24 BufferManager_new). reflexivity. Defined.
