(* ===== verification/Os.v ===== *)
(** The operating system as the daemon sees it.  Every call that leaves the
    process is recorded in [w_log]; its outcome is chosen by an oracle, the
    class [Os], from the history of calls, so that a statement about every
    [Os] is a statement about every behaviour of the environment, failures
    included.  What the calls do to regular files is modelled concretely:
    path names lead to inodes, a [File] is an inode with a position.  The
    buffers that the kernel fills are in a heap, so that a pointer can outlive
    its allocation. *)
From Stdlib Require Import ZArith Lia Strings.Byte.
From stdpp Require Import base numbers list gmap strings.
From S2P Require Import Prelude.
From S2P Require Import Bytes.
From S2P Require Import Str.

Open Scope Z_scope.

Abbreviation path := (list byte).

(** [io::Error]: an errno, an error made by the standard library, or one made
    by the program from a message. *)
Inductive io_error : Type :=
  | OsError (code : Z)
  | SimpleMessage (msg : string)
  | Custom (msg : str).

(** An error whose message is short. *)
Definition short_error (e : io_error) : Prop :=
  match e with
  | OsError _ => True
  | SimpleMessage msg => (length (lit msg) ≤ 1024)%nat
  | Custom msg => (length msg ≤ 1024)%nat
  end.

Inductive Call : Type :=
  (* files *)
  | COpen (p : path)
  | CCreate (p : path)
  | CRead (ino : nat) (len : nat)
  | CWriteAll (ino : nat) (data : list byte)
  | CSetPermissions (ino : nat) (mode : Z)
  | CSetTimes (ino : nat) (mtime : Z)
  | CRemoveFile (p : path)
  | CSymlinkMetadata (p : path)
  (* terminals and processes *)
  | COpenpt
  | CGrantpt (fd : Z)
  | CUnlockpt (fd : Z)
  | CTiocgptpeer (fd : Z)
  | CTryClone (fd : Z)
  | CSpawn (program : str) (args : list str)
  | CKill (pid : Z)
  | CWait (pid : Z)
  | CClose (fd : Z)
  | CWriteAllFd (fd : Z) (data : list byte)
  (* sockets *)
  | CConnectTcp (host : str) (port : Z)
  | CConnectAbstract (addr : list byte)
  | CConnectPath (addr : list byte)
  | CShutdownWrite (fd : Z)
  | CWriteFd (fd : Z) (data : list byte)
  (* the control endpoint *)
  | CReadFd (fd : Z) (len : nat)
  (* the ring *)
  | CIoUringNew (entries : Z)
  | CSubmitAndWait (want : Z)
  (* the gadget's configuration *)
  | CCreateDirAll (p : string)
  | CFsWrite (p : string) (data : list byte)
  | CExists (p : string)
  | CSymlink (original link : string)
  | CReadDir (p : string)
  | CNextDirEntry (p : string).

Record Metadata : Type := mkMetadata { m_mode : Z; m_size : Z; m_mtime : Z }.

(** The environment. *)
Class Os : Type := {
  (** the outcome of a call after a history of calls (latest first) *)
  os_result : list Call → Call → result Z io_error;
  (** how much of a failed [write_all] was written *)
  os_partial : list Call → nat;
  (** the data of a [read] on a descriptor *)
  os_data : list Call → list byte;
  os_metadata : list Call → path → Metadata;
  (** permissions of a new file and the current time *)
  os_create_mode : Z;
  os_now : list Call → Z;
  (** the C library's message for an errno *)
  strerror : Z → str;
  (** messages fit the 128-byte buffer they are written into, and those of
      the standard library are short constants *)
  strerror_length code : (length (strerror code) ≤ 128)%nat;
  os_error_short h c e : os_result h c = Err e → short_error e;
  (** [st_mode] is 32 bits wide, [st_size] is not negative *)
  os_metadata_range h p : u32 (m_mode (os_metadata h p)) ∧ u64 (m_size (os_metadata h p));
}.

Record Inode : Type := mkInode { i_data : list byte; i_mode : Z; i_mtime : Z }.

Record World : Type := mkWorld {
  w_log : list Call;
  w_paths : gmap path nat;
  w_inodes : gmap nat Inode;
  w_heap : gmap nat (list byte);
  (** the next unused inode number and heap address *)
  w_next : nat;
}.

Definition world_empty : World := mkWorld [] ∅ ∅ ∅ 0.

Definition w_set_inodes (f : gmap nat Inode → gmap nat Inode) (w : World) : World :=
  mkWorld (w_log w) (w_paths w) (f (w_inodes w)) (w_heap w) (w_next w).
Definition w_set_paths (f : gmap path nat → gmap path nat) (w : World) : World :=
  mkWorld (w_log w) (f (w_paths w)) (w_inodes w) (w_heap w) (w_next w).
Definition w_set_heap (f : gmap nat (list byte) → gmap nat (list byte)) (w : World) : World :=
  mkWorld (w_log w) (w_paths w) (w_inodes w) (f (w_heap w)) (w_next w).
Definition w_set_log (f : list Call → list Call) (w : World) : World :=
  mkWorld (f (w_log w)) (w_paths w) (w_inodes w) (w_heap w) (w_next w).
Definition w_set_next (f : nat → nat) (w : World) : World :=
  mkWorld (w_log w) (w_paths w) (w_inodes w) (w_heap w) (f (w_next w)).

(** ** Heap *)

(** [Vec::with_capacity]: an address whose bytes are unspecified (zero). *)
Definition heap_alloc (capacity : nat) : M World nat :=
  w ← getM;
  putM (w_set_next S (w_set_heap (<[w_next w := replicate capacity "000"%byte]>) w));;
  mret (w_next w).

Definition heap_free (ptr : nat) : M World unit := modifyM (w_set_heap (delete ptr)).

(** [slice::from_raw_parts(ptr, len)]. *)
Definition heap_read (ptr len : nat) : M World (list byte) :=
  w ← getM; mret (take len (default [] (w_heap w !! ptr))).

Definition overwrite (buf : list byte) (off : nat) (data : list byte) : list byte :=
  take off buf ++ replicate (off - length buf) "000"%byte ++ data
  ++ drop (off + length data) buf.

Section os.
Context {E : Os}.

(** A call with its outcome. *)
Definition sys (c : Call) : M World (result Z io_error) :=
  w ← getM;
  putM (w_set_log (cons c) w);;
  mret (os_result (w_log w) c).

(** ** Errors *)

(** [Display for io::Error]. *)
Definition io_error_fmt (e : io_error) : str :=
  match e with
  | OsError code => strerror code ++ lit " (os error " ++ show_Z code ++ lit ")"
  | SimpleMessage msg => lit msg
  | Custom msg => msg
  end.

(** [Path::display]. *)
Definition path_display (p : path) : str := from_utf8_lossy p.

(** A path goes to the system as a C string. *)
Definition has_nul (p : path) : bool := bool_decide ("000"%byte ∈ p).
Definition nul_error : io_error :=
  SimpleMessage "file name contained an unexpected NUL byte".

(** ** Files *)

Record File : Type := mkFile { f_ino : nat; f_pos : nat }.

(** [File::open] (for reading). *)
Definition File_open (p : path) : M World (result File io_error) :=
  if has_nul p then mret (Err nul_error)
  else
    r ← sys (COpen p);
    match r with
    | Err e => mret (Err e)
    | Ok _ =>
        w ← getM;
        match w_paths w !! p with
        | Some ino => mret (Ok (mkFile ino 0))
        | None => mret (Err (OsError 2))
        end
    end.

(** [File::create]: truncates or makes the file. *)
Definition File_create (p : path) : M World (result File io_error) :=
  if has_nul p then mret (Err nul_error)
  else
    r ← sys (CCreate p);
    match r with
    | Err e => mret (Err e)
    | Ok _ =>
        w ← getM;
        match w_paths w !! p with
        | Some ino =>
            putM (w_set_inodes (alter (λ i, mkInode [] (i_mode i) (os_now (w_log w))) ino) w);;
            mret (Ok (mkFile ino 0))
        | None =>
            let ino := w_next w in
            putM (w_set_next S (w_set_paths (<[p := ino]>)
              (w_set_inodes (<[ino := mkInode [] os_create_mode (os_now (w_log w))]>) w)));;
            mret (Ok (mkFile ino 0))
        end
    end.

(** One [read] of at most [len] bytes of a regular file: nothing at the end
    of the file, otherwise between one byte and what is left, as the system
    chooses. *)
Definition File_read (f : File) (len : nat) :
    M World (result (list byte) io_error * File) :=
  r ← sys (CRead (f_ino f) len);
  match r with
  | Err e => mret (Err e, f)
  | Ok n =>
      w ← getM;
      let rest := drop (f_pos f) (default [] (i_data <$> w_inodes w !! f_ino f)) in
      let most := Nat.min len (length rest) in
      let n := Nat.min (Nat.max 1 (Z.to_nat n)) most in
      mret (Ok (take n rest), mkFile (f_ino f) (f_pos f + n))
  end.

Definition inode_write (f : File) (data : list byte) : M World File :=
  w ← getM;
  putM (w_set_inodes (alter (λ i,
    mkInode (overwrite (i_data i) (f_pos f) data) (i_mode i) (os_now (w_log w))) (f_ino f)) w);;
  mret (mkFile (f_ino f) (f_pos f + length data)).

(** [Write::write_all]: all the bytes, or an error after some of them; an
    empty slice makes no call. *)
Definition File_write_all (f : File) (data : list byte) :
    M World (result unit io_error * File) :=
  match data with
  | [] => mret (Ok tt, f)
  | _ =>
      r ← sys (CWriteAll (f_ino f) data);
      match r with
      | Ok _ => f' ← inode_write f data; mret (Ok tt, f')
      | Err e =>
          w ← getM;
          f' ← inode_write f (take (os_partial (w_log w)) data);
          mret (Err e, f')
      end
  end.

Definition File_set_permissions (f : File) (mode : Z) : M World (result unit io_error) :=
  r ← sys (CSetPermissions (f_ino f) mode);
  match r with
  | Err e => mret (Err e)
  | Ok _ =>
      modifyM (w_set_inodes (alter (λ i,
        mkInode (i_data i) (Z.land mode 0xfff) (i_mtime i)) (f_ino f)));;
      mret (Ok tt)
  end.

Definition File_set_times (f : File) (mtime : Z) : M World (result unit io_error) :=
  r ← sys (CSetTimes (f_ino f) mtime);
  match r with
  | Err e => mret (Err e)
  | Ok _ =>
      modifyM (w_set_inodes (alter (λ i, mkInode (i_data i) (i_mode i) mtime) (f_ino f)));;
      mret (Ok tt)
  end.

(** [fs::remove_file]: the name goes, the inode stays for open handles. *)
Definition remove_file (p : path) : M World (result unit io_error) :=
  if has_nul p then mret (Err nul_error)
  else
    r ← sys (CRemoveFile p);
    match r with
    | Err e => mret (Err e)
    | Ok _ => modifyM (w_set_paths (delete p));; mret (Ok tt)
    end.

Definition symlink_metadata (p : path) : M World (result Metadata io_error) :=
  if has_nul p then mret (Err nul_error)
  else
    w ← getM;
    r ← sys (CSymlinkMetadata p);
    match r with
    | Err e => mret (Err e)
    | Ok _ => mret (Ok (os_metadata (w_log w) p))
    end.
End os.

(** ** Rules *)

(** The handle is at the end of its file, as after [File::create] and after
    each write through it. *)
Definition at_end (w : World) (f : File) : Prop :=
  ∃ i, w_inodes w !! f_ino f = Some i ∧ f_pos f = length (i_data i).

(** From [w] with handle [f] to [w'] with handle [f'], the file has grown by
    exactly [out] and nothing else has changed but the log. *)
Record appended (w : World) (f : File) (w' : World) (f' : File) (out : list byte) : Prop := {
  app_ino : f_ino f' = f_ino f;
  app_file : ∃ i i', w_inodes w !! f_ino f = Some i ∧ w_inodes w' !! f_ino f = Some i' ∧
    f_pos f = length (i_data i) ∧ i_data i' = i_data i ++ out ∧ f_pos f' = length (i_data i');
  app_others : ∀ j, j ≠ f_ino f → w_inodes w' !! j = w_inodes w !! j;
  app_paths : w_paths w' = w_paths w;
  app_heap : w_heap w' = w_heap w;
  app_next : w_next w' = w_next w;
  app_log : w_log w `suffix_of` w_log w';
}.

Lemma appended_refl w f : at_end w f → appended w f w f [].
Proof.
  intros (i & Hi & Hp). split; try done. exists i, i. rewrite app_nil_r. done.
Qed.

Lemma appended_trans w f w' f' w'' f'' out out' :
  appended w f w' f' out → appended w' f' w'' f'' out' → appended w f w'' f'' (out ++ out').
Proof.
  intros [E1 (i & i' & Hi & Hi' & Hp & Hd & Hp') O1 P1 H1 N1 L1]
    [E2 (j & j' & Hj & Hj' & Hq & Hd' & Hq') O2 P2 H2 N2 L2].
  rewrite E1 in *. split; try congruence; [| |by etrans].
  - exists i, j'. split_and!; try done. rewrite Hd'. simplify_eq.
    by rewrite Hd, (assoc_L (++)).
  - intros k Hk. rewrite O2, O1; done.
Qed.

Lemma appended_at_end w f w' f' out : appended w f w' f' out → at_end w' f'.
Proof.
  intros [E1 (i & i' & ? & ? & ? & ? & ?) _ _ _ _ _]. exists i'. by rewrite E1.
Qed.

Lemma overwrite_end buf data : overwrite buf (length buf) data = buf ++ data.
Proof.
  unfold overwrite. rewrite firstn_all, Nat.sub_diag, drop_ge by lia. simpl.
  by rewrite app_nil_r.
Qed.

(** Between [w] and [w'] the call [c] was made, and its result was [r]. *)
Definition called {E : Os} (w w' : World) (c : Call) (r : result Z io_error) : Prop :=
  ∃ new old, w_log w' = new ++ c :: old ∧ w_log w `suffix_of` old ∧ os_result old c = r.

(** The last call before [w'] is [c]; it was made after [w], with result [r]. *)
Definition called_last {E : Os} (w w' : World) (c : Call) (r : result Z io_error) : Prop :=
  ∃ old, w_log w' = c :: old ∧ w_log w `suffix_of` old ∧ os_result old c = r.

Section called.
Context {E : Os}.

Lemma called_last_called w w' c r : called_last w w' c r → called w w' c r.
Proof. intros (old & Hl & Hs & Hr). by exists [], old. Qed.

Lemma called_suffix w w0 w0' w' c r :
  w_log w `suffix_of` w_log w0 → w_log w0' `suffix_of` w_log w' →
  called w0 w0' c r → called w w' c r.
Proof.
  intros Hs [l Hl] (new & old & Hn & Ho & Hr). exists (l ++ new), old. split_and!; [|by etrans|done].
  by rewrite Hl, Hn, (assoc_L (++)).
Qed.

Lemma called_last_suffix w w0 w' c r :
  w_log w `suffix_of` w_log w0 → called_last w0 w' c r → called_last w w' c r.
Proof. intros Hs (old & Hl & Ho & Hr). exists old. split_and!; [done|by etrans|done]. Qed.

Lemma called_short w w' c e : called w w' c (Err e) → short_error e.
Proof. intros (new & old & _ & _ & H). by eapply os_error_short. Qed.
End called.

Section os_rules.
Context {E : Os} (φ : panic → Prop).

Lemma os_result_short h c e : os_result h c = Err e → short_error e.
Proof. apply os_error_short. Qed.

Lemma io_error_fmt_length e : short_error e → (length (io_error_fmt e) ≤ 1024)%nat.
Proof.
  destruct e as [code|msg|msg]; cbn [io_error_fmt short_error]; [|done..]. intros _.
  pose proof (strerror_length code). pose proof (show_Z_length code).
  rewrite !length_app.
  change (length (lit " (os error ")) with 11%nat. change (length (lit ")")) with 1%nat. lia.
Qed.

Lemma wp_sys c (Q : result Z io_error → World → Prop) w :
  Q (os_result (w_log w) c) (w_set_log (cons c) w) → wpp φ (sys c) Q w.
Proof. done. Qed.

Lemma wp_heap_alloc capacity (Q : nat → World → Prop) w :
  Q (w_next w)
    (w_set_next S (w_set_heap (<[w_next w := replicate capacity "000"%byte]>) w)) →
  wpp φ (heap_alloc capacity) Q w.
Proof. done. Qed.

Lemma wp_inode_write f data (Q : File → World → Prop) w :
  at_end w f →
  (∀ w' f', appended w f w' f' data → Q f' w') → wpp φ (inode_write f data) Q w.
Proof.
  intros (i & Hi & Hp) HQ. apply HQ. split; simpl; try done.
  - eexists i, _. rewrite lookup_alter_eq, Hi. simpl. split_and!; try done.
    + rewrite Hp. apply overwrite_end.
    + simpl. rewrite Hp, overwrite_end, length_app. done.
  - intros j Hj. by rewrite lookup_alter_ne by done.
Qed.

(** [write_all] at the end of a file: all the data is appended, or the call
    failed after a prefix of it. *)
Lemma wp_File_write_all f data (Q : result unit io_error * File → World → Prop) w :
  at_end w f →
  (∀ w' f', appended w f w' f' data → Q (Ok tt, f') w') →
  (∀ w' f' e k, called w w' (CWriteAll (f_ino f) data) (Err e) →
    appended w f w' f' (take k data) → Q (Err e, f') w') →
  wpp φ (File_write_all f data) Q w.
Proof.
  intros Hf HOk HErr. unfold File_write_all. destruct data as [|b data].
  { apply wp_ret, HOk. by apply appended_refl. }
  assert (∀ w' f' out, appended (w_set_log (cons (CWriteAll (f_ino f) (b :: data))) w) f w' f' out →
    appended w f w' f' out) as Hlog.
  { intros w' f' out []. split; [done..|]. etrans; [|done]. by apply suffix_cons_r. }
  apply wp_bind, wp_sys.
  destruct (os_result (w_log w) _) as [n|e] eqn:Er.
  - apply wp_bind, wp_inode_write; [done|]. intros w' f' Ha.
    apply wp_ret, HOk. by apply Hlog.
  - apply wp_bind, wp_get, wp_bind, wp_inode_write; [done|]. intros w' f' Ha.
    eapply wp_ret, HErr; [|by apply Hlog]. destruct (app_log _ _ _ _ _ Ha) as [l Hl].
    by exists l, (w_log w).
Qed.

Lemma wp_remove_file p (Q : result unit io_error → World → Prop) w :
  has_nul p = false →
  (∀ w' n, os_result (w_log w) (CRemoveFile p) = Ok n → w_log w' = CRemoveFile p :: w_log w →
    w_paths w' = delete p (w_paths w) →
    w_inodes w' = w_inodes w → w_heap w' = w_heap w → Q (Ok tt) w') →
  (∀ w' e, os_result (w_log w) (CRemoveFile p) = Err e → w_log w' = CRemoveFile p :: w_log w →
    w_paths w' = w_paths w → w_inodes w' = w_inodes w → w_heap w' = w_heap w → Q (Err e) w') →
  wpp φ (remove_file p) Q w.
Proof.
  intros Hp HOk HErr. unfold remove_file. rewrite Hp. apply wp_bind, wp_sys.
  destruct (os_result (w_log w) _) as [n|e] eqn:Er.
  - by eapply wp_bind, wp_modify, wp_ret, HOk.
  - apply wp_ret. by apply HErr.
Qed.
End os_rules.

(** A cooperative environment, for closed examples: every call succeeds, reads
    return all they can, and files are small and recent. *)
#[refine] Instance os_plain : Os := {|
  os_result _ _ := Ok 1000000;
  os_partial _ := 0%nat;
  os_data _ := [];
  os_metadata _ _ := mkMetadata 33188 5 1700000000;
  os_create_mode := 420;
  os_now _ := 1700000000;
  strerror _ := lit "error";
|}.
Proof.
  - intros _. vm_compute. lia.
  - done.
  - intros _ _. vm_compute. intuition discriminate.
Defined.
