(* ===== verification/Sync.v ===== *)
(** The sync service (src/src/sync.rs): packets and frames with their parsers,
    the file sender of [adb pull], the file receiver of [adb push] with its
    three-state parser, and the session that dispatches requests.  This file
    has the definitions; their theorems are in SyncFacts. *)
From Stdlib Require Import ZArith Lia Strings.Byte.
From stdpp Require Import base numbers list gmap strings.
From S2P Require Import Prelude.
From S2P Require Import Bytes.
From S2P Require Import Str.
From S2P Require Import Winnow.
From S2P Require Import Os.

Open Scope Z_scope.

Definition PAYLOAD_SIZE_MAX_BYTES : nat := 64 * 1024.

Definition ID_LSTAT_V1 : Z := u32_from_le (bstr "STAT").
Definition ID_DATA : Z := u32_from_le (bstr "DATA").
Definition ID_DONE : Z := u32_from_le (bstr "DONE").
Definition ID_FAIL : Z := u32_from_le (bstr "FAIL").
Definition ID_OKAY : Z := u32_from_le (bstr "OKAY").
Definition ID_RECV_V1 : Z := u32_from_le (bstr "RECV").
Definition ID_SEND_V1 : Z := u32_from_le (bstr "SEND").
Definition ID_QUIT : Z := u32_from_le (bstr "QUIT").

(** ** Requests *)

Module SyncPacketId.
Inductive t : Type := LstatV1 | RecvV1 | SendV1 | Quit.

Definition try_from (value : Z) : result t Z :=
  if decide (value = ID_LSTAT_V1) then Ok LstatV1
  else if decide (value = ID_RECV_V1) then Ok RecvV1
  else if decide (value = ID_SEND_V1) then Ok SendV1
  else if decide (value = ID_QUIT) then Ok Quit
  else Err value.

(** [value as u32]. *)
Definition to_u32 (i : t) : Z :=
  match i with
  | LstatV1 => ID_LSTAT_V1 | RecvV1 => ID_RECV_V1
  | SendV1 => ID_SEND_V1 | Quit => ID_QUIT
  end.

Definition fmt (i : t) : string :=
  match i with
  | LstatV1 => "STAT" | RecvV1 => "RECV" | SendV1 => "SEND" | Quit => "QUIT"
  end.
End SyncPacketId.

Module SyncPacket.
Inductive t : Type :=
  | LStatV1 (p : path)
  | RecvV1 (p : path)
  | SendV1 (p : path) (mode : Z)
  | Quit.
End SyncPacket.

(** ** Frames from the host *)

Module SyncFrameRequestId.
Inductive t : Type := Data | Done.

Definition try_from (value : Z) : result t Z :=
  if decide (value = ID_DATA) then Ok Data
  else if decide (value = ID_DONE) then Ok Done
  else Err value.

Definition to_u32 (i : t) : Z :=
  match i with Data => ID_DATA | Done => ID_DONE end.

Definition fmt (i : t) : string :=
  match i with Data => "DATA" | Done => "DONE" end.
End SyncFrameRequestId.

Record SyncFrameRequestHeader : Type := mkSyncFrameRequestHeader {
  req_id : SyncFrameRequestId.t;
  req_payload_len : Z;
}.

(** [size_of::<SyncFrameRequestHeader>()]. *)
Definition HEADER_SIZE : nat := 8.

Section parsers.
Context {W : Winnow}.

Definition parse_sync_packet_id : parser SyncPacketId.t :=
  verify_map le_u32 (λ v, result_ok (SyncPacketId.try_from v)).

(** [OsStr::from_bytes(b).as_ref()] is the identity on bytes. *)
Definition parse_sync_packet : parser SyncPacket.t := λ input,
  '(id, input) ← parse_sync_packet_id input;
  match id with
  | SyncPacketId.LstatV1 =>
      '(p, input) ← pmap (length_take le_u32) (λ b, b) input;
      Some (SyncPacket.LStatV1 p, input)
  | SyncPacketId.RecvV1 =>
      '(p, input) ← pmap (length_take le_u32) (λ b, b) input;
      Some (SyncPacket.RecvV1 p, input)
  | SyncPacketId.SendV1 =>
      '(path_mode_bytes, input) ← length_take le_u32 input;
      '(p, mode, _) ←
        separated_pair
          (pmap (take_until1 ","%byte) (λ b, b))
          (literal ","%byte)
          (verify_map digit1 (λ b, s ← from_utf8 b; parse_u32 s))
          path_mode_bytes;
      Some (SyncPacket.SendV1 p mode, input)
  | SyncPacketId.Quit => Some (SyncPacket.Quit, input)
  end.

Definition parse_sync_frame_id : parser SyncFrameRequestId.t :=
  verify_map le_u32 (λ v, result_ok (SyncFrameRequestId.try_from v)).

Definition parse_sync_frame_header : parser SyncFrameRequestHeader :=
  pmap (seq2 parse_sync_frame_id le_u32) (λ '(i, l), mkSyncFrameRequestHeader i l).
End parsers.

(** ** Frames to the host *)

Module SyncFrameResponseId.
Inductive t : Type := Data | Done | Okay | Fail.

Definition try_from (value : Z) : result t Z :=
  if decide (value = ID_DATA) then Ok Data
  else if decide (value = ID_DONE) then Ok Done
  else Err value.

Definition to_u32 (i : t) : Z :=
  match i with
  | Data => ID_DATA | Done => ID_DONE | Okay => ID_OKAY | Fail => ID_FAIL
  end.

Definition fmt (i : t) : string :=
  match i with Data => "DATA" | Done => "DONE" | Okay => "OKAY" | Fail => "FAIL" end.
End SyncFrameResponseId.

Record SyncFrameResponseHeader : Type := mkSyncFrameResponseHeader {
  resp_id : SyncFrameResponseId.t;
  resp_payload_len : Z;
}.

(** [as_le_bytes] of the [repr(C)] structures. *)
Definition SyncFrameResponseHeader_bytes (h : SyncFrameResponseHeader) : list byte :=
  le_u32_bytes (SyncFrameResponseId.to_u32 (resp_id h)) ++ le_u32_bytes (resp_payload_len h).

Record SyncStat : Type := mkSyncStat {
  stat_id : Z; stat_mode : Z; stat_size : Z; stat_mtime : Z;
}.

Definition SyncStat_bytes (s : SyncStat) : list byte :=
  le_u32_bytes (stat_id s) ++ le_u32_bytes (stat_mode s) ++
  le_u32_bytes (stat_size s) ++ le_u32_bytes (stat_mtime s).

Definition SyncResponse : Type := SyncFrameResponseHeader * list byte.

Module SyncResult.
Inductive t : Type :=
  | Stat (s : SyncStat)
  | Data (h : SyncFrameResponseHeader) (data : list byte)
  | Continue
  | Quit.
End SyncResult.

Section responses.
Context {S : Type}.

Definition data_response (data : list byte) : M S SyncResponse :=
  payload_len ← expectM (u32_try_from (Z.of_nat (length data)))
    "DATA responses can fit at most 64kB, well below 2^32";
  mret (mkSyncFrameResponseHeader SyncFrameResponseId.Data payload_len, data).

Definition done_response : SyncResponse :=
  (mkSyncFrameResponseHeader SyncFrameResponseId.Done 0, []).

Definition okay_response : SyncResponse :=
  (mkSyncFrameResponseHeader SyncFrameResponseId.Okay 0, []).

Definition fail_response (msg : str) : M S SyncResponse :=
  let bytes := str_bytes msg in
  payload_len ← expectM (u32_try_from (Z.of_nat (length bytes)))
    "Our maximum data buffer size is 1MB, well below 2^32.";
  mret (mkSyncFrameResponseHeader SyncFrameResponseId.Fail payload_len, bytes).
End responses.

(** ** Sending a file *)

Record FileSender : Type := mkFileSender { snd_file : File; snd_done : bool }.

(** ** Receiving a file *)

Module RecvState.
Inductive t : Type :=
  | Header
  | PartialHeader (leftovers : list byte) (leftovers_len : nat)
  | Data (remaining : Z).
End RecvState.

Record FileReceiver : Type := mkFileReceiver {
  rcv_file : File;
  rcv_path : path;
  rcv_mode : Z;
  rcv_state : RecvState.t;
}.

Definition rcv_set_state (self : FileReceiver) (st : RecvState.t) : FileReceiver :=
  mkFileReceiver (rcv_file self) (rcv_path self) (rcv_mode self) st.
Definition rcv_set_file (self : FileReceiver) (f : File) : FileReceiver :=
  mkFileReceiver f (rcv_path self) (rcv_mode self) (rcv_state self).

Module FileReceiverResult.
Inductive t (T : Type) : Type :=
  | Done (response : T)
  | Continue.
Arguments Done {T} response.
Arguments Continue {T}.
End FileReceiverResult.

(** [buf[off..off + src.len()].copy_from_slice(src)]. *)
Definition copy_from_slice {S} (buf : list byte) (off : nat) (src : list byte) :
    M S (list byte) :=
  if decide (off + length src ≤ length buf)%nat then
    mret (take off buf ++ src ++ drop (off + length src) buf)
  else panicM IndexOutOfBounds.

(** ** The session *)

Module SyncState.
Inductive t : Type :=
  | Idle
  | Sending (s : FileSender)
  | Receiving (r : FileReceiver).
End SyncState.

Record SyncService : Type := mkSyncService { sync_state : SyncState.t }.

Definition SyncService_new : SyncService := mkSyncService SyncState.Idle.

Section sync.
Context {E : Os} {W : Winnow}.

Definition next_frame (self : FileSender) : M World (option SyncResponse * FileSender) :=
  if snd_done self then mret (None, self)
  else
    '(r, file) ← File_read (snd_file self) PAYLOAD_SIZE_MAX_BYTES;
    match r with
    | Ok [] => mret (Some done_response, mkFileSender file true)
    | Ok data =>
        resp ← data_response data;
        mret (Some resp, mkFileSender file (snd_done self))
    | Err e =>
        resp ← fail_response (lit "read error: " ++ io_error_fmt e);
        mret (Some resp, mkFileSender file true)
    end.

(** [abort] and the failures of [finalize] do not change the receiver. *)
Definition abort (self : FileReceiver) : M World unit :=
  _ ← remove_file (rcv_path self); mret tt.

Definition finalize (self : FileReceiver) (mtime : Z) :
    M World (FileReceiverResult.t SyncResponse) :=
  r ← File_set_permissions (rcv_file self) (rcv_mode self);
  match r with
  | Err e =>
      abort self;;
      resp ← fail_response (lit "cannot set permissions on " ++ path_display (rcv_path self)
                            ++ lit ": " ++ io_error_fmt e);
      mret (FileReceiverResult.Done resp)
  | Ok _ =>
      _ ← File_set_times (rcv_file self) mtime;
      mret (FileReceiverResult.Done okay_response)
  end.

Definition invalid_frame (self : FileReceiver) :
    M World (FileReceiverResult.t SyncResponse * FileReceiver) :=
  abort self;;
  resp ← fail_response (lit "invalid sync frame during send");
  mret (FileReceiverResult.Done resp, self).

(** The common end of both header cases of [receive]: the eight bytes
    [header_slice] are complete, [rest] follows them, and [continue] is the
    next iteration of the loop. *)
Definition receive_header
    (continue : FileReceiver → list byte →
      M World (FileReceiverResult.t SyncResponse * FileReceiver))
    (self : FileReceiver) (header_slice rest : list byte) :
    M World (FileReceiverResult.t SyncResponse * FileReceiver) :=
  match parse_sync_frame_header header_slice with
  | None => invalid_frame self
  | Some (header, _) =>
      match req_id header with
      | SyncFrameRequestId.Data =>
          continue (rcv_set_state self (RecvState.Data (req_payload_len header))) rest
      | SyncFrameRequestId.Done =>
          r ← finalize self (req_payload_len header); mret (r, self)
      end
  end.

(** One iteration of the loop of [receive]; [rest] is [&data[pos..]], not
    empty. *)
Definition receive_step
    (continue : FileReceiver → list byte →
      M World (FileReceiverResult.t SyncResponse * FileReceiver))
    (self : FileReceiver) (rest : list byte) :
    M World (FileReceiverResult.t SyncResponse * FileReceiver) :=
  match rcv_state self with
  | RecvState.Header =>
      if decide (HEADER_SIZE ≤ length rest)%nat then
        receive_header continue self (take HEADER_SIZE rest)
          (drop HEADER_SIZE rest)
      else
        buf ← copy_from_slice (replicate HEADER_SIZE "000"%byte) 0 rest;
        mret (FileReceiverResult.Continue,
              rcv_set_state self (RecvState.PartialHeader buf (length rest)))
  | RecvState.PartialHeader leftovers leftovers_len =>
      let need := (HEADER_SIZE - leftovers_len)%nat in
      if decide (need ≤ length rest)%nat then
        leftovers ← copy_from_slice leftovers leftovers_len (take need rest);
        receive_header continue self leftovers (drop need rest)
      else
        let next := Nat.min need (length rest) in
        leftovers ← copy_from_slice leftovers leftovers_len (take next rest);
        mret (FileReceiverResult.Continue,
              rcv_set_state self
                (RecvState.PartialHeader leftovers (leftovers_len + next)))
  | RecvState.Data remaining =>
      let to_write := Z.to_nat (Z.min remaining (Z.of_nat (length rest))) in
      '(r, file) ← File_write_all (rcv_file self) (take to_write rest);
      let self := rcv_set_file self file in
      match r with
      | Err e =>
          abort self;;
          resp ← fail_response (lit "write error for " ++ path_display (rcv_path self)
                                ++ lit ": " ++ io_error_fmt e);
          mret (FileReceiverResult.Done resp, self)
      | Ok _ =>
          let remaining := remaining - Z.of_nat to_write in
          continue
            (rcv_set_state self (if decide (remaining > 0) then RecvState.Data remaining
                                 else RecvState.Header))
            (drop to_write rest)
      end
  end.

Fixpoint receive_loop (fuel : nat) (self : FileReceiver) (rest : list byte) :
    M World (FileReceiverResult.t SyncResponse * FileReceiver) :=
  match rest, fuel with
  | [], _ => mret (FileReceiverResult.Continue, self)
  | _, O => panicM OutOfFuel
  | _, S fuel => receive_step (receive_loop fuel) self rest
  end.

(** Every iteration but those that leave an empty [Data] state takes at
    least one byte. *)
Definition receive_fuel (data : list byte) : nat := 2 * length data + 1.

Definition receive (self : FileReceiver) (data : list byte) :
    M World (FileReceiverResult.t SyncResponse * FileReceiver) :=
  receive_loop (receive_fuel data) self data.

Definition handle_lstat_v1 (p : path) : M World SyncResult.t :=
  r ← symlink_metadata p;
  match r with
  | Ok meta =>
      size ← expectM (u32_try_from (m_size meta)) "File too large for 32-bits";
      mtime ← expectM (u32_try_from (m_mtime meta)) "File modified in 2038 or after";
      mret (SyncResult.Stat (mkSyncStat ID_LSTAT_V1 (m_mode meta) size mtime))
  | Err _ => mret (SyncResult.Stat (mkSyncStat ID_LSTAT_V1 0 0 0))
  end.

Definition handle_recv_v1 (self : SyncService) (p : path) :
    M World (SyncResult.t * SyncService) :=
  r ← File_open p;
  match r with
  | Err e =>
      '(hdr, data) ← fail_response (lit "cannot open " ++ path_display p ++ lit ": "
                                    ++ io_error_fmt e);
      mret (SyncResult.Data hdr data, self)
  | Ok file =>
      mret (SyncResult.Continue,
            mkSyncService (SyncState.Sending (mkFileSender file false)))
  end.

Definition handle_send_v1 (self : SyncService) (p : path) (mode : Z)
    (leftover : list byte) : M World (SyncResult.t * SyncService) :=
  r ← File_create p;
  match r with
  | Err e =>
      '(hdr, data) ← fail_response (lit "cannot create " ++ path_display p ++ lit ": "
                                    ++ io_error_fmt e);
      mret (SyncResult.Data hdr data, self)
  | Ok file =>
      let receiver := mkFileReceiver file p mode RecvState.Header in
      match leftover with
      | [] => mret (SyncResult.Continue, mkSyncService (SyncState.Receiving receiver))
      | _ =>
          '(res, receiver) ← receive receiver leftover;
          match res with
          | FileReceiverResult.Continue =>
              mret (SyncResult.Continue, mkSyncService (SyncState.Receiving receiver))
          | FileReceiverResult.Done response =>
              mret (SyncResult.Data response.1 response.2, self)
          end
      end
  end.

(** [handle] on a session that is not receiving. *)
Definition handle_request (self : SyncService) (data : list byte) :
    M World (SyncResult.t * SyncService) :=
  match parse_sync_packet data with
  | None =>
      '(hdr, data) ← fail_response (lit "invalid sync request");
      mret (SyncResult.Data hdr data, self)
  | Some (packet, data) =>
      match packet with
      | SyncPacket.LStatV1 p => r ← handle_lstat_v1 p; mret (r, self)
      | SyncPacket.RecvV1 p => handle_recv_v1 self p
      | SyncPacket.SendV1 p m => handle_send_v1 self p m data
      | SyncPacket.Quit => mret (SyncResult.Quit, self)
      end
  end.

Definition handle (self : SyncService) (data : list byte) :
    M World (SyncResult.t * SyncService) :=
  match sync_state self with
  | SyncState.Receiving receiver =>
      '(res, receiver) ← receive receiver data;
      match res with
      | FileReceiverResult.Continue =>
          mret (SyncResult.Continue, mkSyncService (SyncState.Receiving receiver))
      | FileReceiverResult.Done (hdr, payload) =>
          mret (SyncResult.Data hdr payload, mkSyncService SyncState.Idle)
      end
  | _ => handle_request self data
  end.
End sync.
