(* ===== verification/SyncFacts.v ===== *)
(** Theorems on the sync service: its parsers, the sender ([adb pull]) and the
    receiver ([adb push]) against a byte-at-a-time specification of the frame
    protocol. *)
From Stdlib Require Import ZArith Lia Strings.Byte.
From stdpp Require Import base numbers list gmap strings.
From S2P Require Import Prelude.
From S2P Require Import Bytes.
From S2P Require Import Str.
From S2P Require Import Winnow.
From S2P Require Import Os.
From S2P Require Import Sync.

Open Scope Z_scope.

(** ** Request parser *)

Lemma SyncPacketId_try_from_Ok v i : SyncPacketId.try_from v = Ok i ↔ v = SyncPacketId.to_u32 i.
Proof.
  split.
  - unfold SyncPacketId.try_from. repeat case_decide; intros [= <-]; done.
  - intros ->. by destruct i.
Qed.

Lemma SyncFrameRequestId_try_from_Ok v i :
  SyncFrameRequestId.try_from v = Ok i ↔ v = SyncFrameRequestId.to_u32 i.
Proof.
  split.
  - unfold SyncFrameRequestId.try_from. repeat case_decide; intros [= <-]; done.
  - intros ->. by destruct i.
Qed.

Lemma SyncPacketId_u32 i : u32 (SyncPacketId.to_u32 i).
Proof. by destruct i. Qed.

(** Every identifier of the sync protocol is, on the wire, the four ASCII
    bytes that [Display] prints for it. *)
Lemma sync_ids_wire_names i j k :
  le_u32_bytes (SyncPacketId.to_u32 i) = bstr (SyncPacketId.fmt i) ∧
  le_u32_bytes (SyncFrameRequestId.to_u32 j) = bstr (SyncFrameRequestId.fmt j) ∧
  le_u32_bytes (SyncFrameResponseId.to_u32 k) = bstr (SyncFrameResponseId.fmt k).
Proof. destruct i, j, k; vm_compute; auto. Qed.

(** A request as the host writes it. *)
Definition length_prefixed (b : list byte) : list byte :=
  le_u32_bytes (Z.of_nat (length b)) ++ b.

Definition path_mode (p : path) (mode : Z) : list byte :=
  p ++ ","%byte :: str_bytes (show_Z mode).

Definition encode_request (pkt : SyncPacket.t) : list byte :=
  match pkt with
  | SyncPacket.LStatV1 p =>
      le_u32_bytes (SyncPacketId.to_u32 SyncPacketId.LstatV1) ++ length_prefixed p
  | SyncPacket.RecvV1 p =>
      le_u32_bytes (SyncPacketId.to_u32 SyncPacketId.RecvV1) ++ length_prefixed p
  | SyncPacket.SendV1 p m =>
      le_u32_bytes (SyncPacketId.to_u32 SyncPacketId.SendV1) ++ length_prefixed (path_mode p m)
  | SyncPacket.Quit => le_u32_bytes (SyncPacketId.to_u32 SyncPacketId.Quit)
  end.

Definition request_wf (pkt : SyncPacket.t) : Prop :=
  match pkt with
  | SyncPacket.LStatV1 p | SyncPacket.RecvV1 p => u32 (Z.of_nat (length p))
  | SyncPacket.SendV1 p m =>
      u32 (Z.of_nat (length (path_mode p m))) ∧ u32 m ∧ p ≠ [] ∧ ","%byte ∉ p
  | SyncPacket.Quit => True
  end.

Lemma str_bytes_digits s :
  Forall (λ c, is_digit c = true) s → Forall (λ b, byte_is_digit b = true) (str_bytes s).
Proof.
  intros Hs. unfold str_bytes. induction Hs as [|c s Hc Hs IH]; cbn [mbind list_bind]; [done|].
  apply Forall_app. split; [|done]. unfold is_digit, in_range in Hc. unfold encode_char.
  replace (c <? 128) with true by lia. constructor; [|done].
  unfold byte_is_digit, is_digit, in_range. rewrite byte_Z_of, Z.mod_small by lia. lia.
Qed.

Lemma digit_scalar s : Forall (λ c, is_digit c = true) s → Forall is_scalar s.
Proof.
  intros H. eapply Forall_impl; [done|]. intros c. unfold is_digit, in_range, is_scalar. lia.
Qed.

Lemma str_bytes_nonempty s : s ≠ [] → str_bytes s ≠ [].
Proof.
  destruct s as [|c s]; [done|]. intros _. unfold str_bytes. cbn [mbind list_bind].
  pose proof (encode_char_nonempty c). destruct (encode_char c); simpl in *; [lia|done].
Qed.

Lemma show_Z_nonempty n : show_Z n ≠ [].
Proof. unfold show_Z. destruct (n <? 0); [done|]. apply dec_digits_nonempty. Qed.

Section request_facts.
Context {W : Winnow}.

Lemma parse_sync_packet_id_app i r :
  parse_sync_packet_id (le_u32_bytes (SyncPacketId.to_u32 i) ++ r) = Some (i, r).
Proof.
  unfold parse_sync_packet_id. rewrite verify_map_law, le_u32_bytes_app by (by destruct i).
  simpl. by rewrite (proj2 (SyncPacketId_try_from_Ok _ i) eq_refl).
Qed.

Lemma length_prefixed_app b r :
  u32 (Z.of_nat (length b)) → length_take le_u32 (length_prefixed b ++ r) = Some (b, r).
Proof.
  intros Hb. unfold length_prefixed. rewrite <-(assoc_L (++)).
  apply length_take_app; [lia|done].
Qed.

(** The inner parser of a SEND request, up to the first comma. *)
Lemma path_mode_parse p ds tail m :
  p ≠ [] → ","%byte ∉ p →
  ds ≠ [] → Forall (λ b, byte_is_digit b = true) ds →
  match tail with [] => True | b :: _ => byte_is_digit b = false end →
  (s ← from_utf8 ds; parse_u32 s) = Some m →
  separated_pair (pmap (take_until1 ","%byte) (λ b, b)) (literal ","%byte)
    (verify_map digit1 (λ b, s ← from_utf8 b; parse_u32 s)) (p ++ ","%byte :: ds ++ tail)
  = Some (p, m, tail).
Proof.
  intros Hp Hc Hds Hd Ht Hm. rewrite separated_pair_law, pmap_law, take_until1_law.
  rewrite span_app; [|
    apply Forall_forall; intros b Hb; rewrite bool_decide_false; [done|by intros ->]|
    by rewrite bool_decide_true].
  destruct p as [|b p]; [done|]. simpl. rewrite literal_law. simpl. rewrite ?decide_True by done. simpl.
  rewrite verify_map_law, digit1_law, span_app by done.
  destruct ds as [|d ds]; [done|]. simpl. by rewrite Hm.
Qed.

(** Encoding a request and parsing the result gives it back. *)
Lemma parse_encode_request pkt r :
  request_wf pkt → parse_sync_packet (encode_request pkt ++ r) = Some (pkt, r).
Proof.
  intros Hwf. unfold parse_sync_packet.
  destruct pkt as [p|p|p m|]; cbn [encode_request request_wf] in *; rewrite <-?(assoc_L (++));
    rewrite parse_sync_packet_id_app; simpl.
  - by rewrite pmap_law, length_prefixed_app.
  - by rewrite pmap_law, length_prefixed_app.
  - destruct Hwf as (Hl & Hm & Hp & Hc). rewrite length_prefixed_app by done. simpl.
    unfold path_mode. rewrite <-(app_nil_r (str_bytes (show_Z m))).
    assert (0 ≤ m) by (unfold u32 in Hm; lia).
    erewrite path_mode_parse; [done|done|done| | |done|].
    + apply str_bytes_nonempty, show_Z_nonempty.
    + by apply str_bytes_digits, show_Z_digits.
    + rewrite from_utf8_str_bytes by (by apply digit_scalar, show_Z_digits).
      by apply parse_u32_show.
  - done.
Qed.

(** C31: the request parser inverts the host's encoder: whatever the kind of
    request, encoding it and parsing the result (with anything after it, as
    the first file data after a SEND) gives back the request and leaves what
    followed.  For SEND the path has to be non-empty and without a comma.
    So no request, with what follows it, can be taken for another one. *)
Theorem parse_sync_packet_roundtrip pkt r :
  request_wf pkt →
  parse_sync_packet (encode_request pkt ++ r) = Some (pkt, r) ∧
  ∀ pkt' r', request_wf pkt' → encode_request pkt' ++ r' = encode_request pkt ++ r →
    pkt' = pkt ∧ r' = r.
Proof.
  intros Hwf. split; [by apply parse_encode_request|]. intros pkt' r' Hwf' Heq.
  apply (parse_encode_request pkt' r') in Hwf'.
  rewrite Heq, parse_encode_request in Hwf' by done. by injection Hwf' as -> ->.
Qed.

(** A SEND request whose path contains a comma is cut at the first one:
    when digits follow it they are taken for the mode, and the file that is
    written is not the one the host named. *)
Theorem send_path_cut_at_first_comma p q m :
  p ≠ [] → ","%byte ∉ p → u32 m →
  match q with [] => True | b :: _ => byte_is_digit b = false end →
  u32 (Z.of_nat (length (path_mode p m ++ q))) →
  parse_sync_packet (le_u32_bytes ID_SEND_V1 ++ length_prefixed (path_mode p m ++ q))
  = Some (SyncPacket.SendV1 p m, []).
Proof.
  intros Hp Hc Hm Hq Hl. unfold parse_sync_packet.
  change ID_SEND_V1 with (SyncPacketId.to_u32 SyncPacketId.SendV1).
  rewrite parse_sync_packet_id_app. simpl.
  rewrite <-(app_nil_r (length_prefixed _)), length_prefixed_app by done. simpl.
  unfold path_mode. rewrite <-(assoc_L (++)). simpl.
  assert (0 ≤ m) by (unfold u32 in Hm; lia).
  erewrite path_mode_parse; [done|done|done| | |done|].
  - apply str_bytes_nonempty, show_Z_nonempty.
  - by apply str_bytes_digits, show_Z_digits.
  - rewrite from_utf8_str_bytes by (by apply digit_scalar, show_Z_digits).
    by apply parse_u32_show.
Qed.
End request_facts.

Lemma parse_sync_packet_roundtrip_witness :
  request_wf (SyncPacket.SendV1 (bstr "/tmp/f") 33188) ∧
  parse_sync_packet (encode_request (SyncPacket.SendV1 (bstr "/tmp/f") 33188) ++ bstr "DATA")
  = Some (SyncPacket.SendV1 (bstr "/tmp/f") 33188, bstr "DATA") ∧
  ∀ pkt' r', request_wf pkt' →
    encode_request pkt' ++ r' = encode_request (SyncPacket.SendV1 (bstr "/tmp/f") 33188) ++ bstr "DATA" →
    pkt' = SyncPacket.SendV1 (bstr "/tmp/f") 33188 ∧ r' = bstr "DATA".
Proof.
  assert (request_wf (SyncPacket.SendV1 (bstr "/tmp/f") 33188)) as H.
  { simpl. split_and!; try (vm_compute; intuition discriminate).
    apply (bool_decide_unpack _). vm_compute. exact I. }
  split; [exact H|].
  exact (parse_sync_packet_roundtrip (SyncPacket.SendV1 (bstr "/tmp/f") 33188) (bstr "DATA") H).
Defined.

Lemma send_path_cut_at_first_comma_witness :
  parse_sync_packet
    (le_u32_bytes ID_SEND_V1 ++ length_prefixed (path_mode (bstr "/tmp/a") 5 ++ bstr ",33188"))
  = Some (SyncPacket.SendV1 (bstr "/tmp/a") 5, []).
Proof.
  apply (send_path_cut_at_first_comma (bstr "/tmp/a") (bstr ",33188") 5).
  - discriminate.
  - apply (bool_decide_unpack _). vm_compute. exact I.
  - done.
  - vm_compute. reflexivity.
  - vm_compute. intuition discriminate.
Defined.

(** ** The frame protocol, one byte at a time *)

Inductive push_state : Type :=
  | PHeader (acc : list byte)
  | PData (remaining : Z)
  | PDone (mtime : Z)
  | PBad.

(** A data frame of [n] bytes starts; an empty one is over. *)
Definition push_data (n : Z) : push_state := if decide (n ≤ 0) then PHeader [] else PData n.

(** What eight header bytes announce. *)
Definition push_header (hdr : list byte) : push_state :=
  match SyncFrameRequestId.try_from (le_value (take 4 hdr)) with
  | Ok SyncFrameRequestId.Data => push_data (le_value (take 4 (drop 4 hdr)))
  | Ok SyncFrameRequestId.Done => PDone (le_value (take 4 (drop 4 hdr)))
  | Err _ => PBad
  end.

(** One byte from the host: the next state and the bytes to write. *)
Definition push_step (s : push_state) (b : byte) : push_state * list byte :=
  match s with
  | PHeader acc =>
      let acc := acc ++ [b] in
      (if decide (length acc < HEADER_SIZE)%nat then PHeader acc else push_header acc, [])
  | PData n => (push_data (n - 1), [b])
  | PDone _ | PBad => (s, [])
  end.

Fixpoint push_feed (s : push_state) (data : list byte) : push_state * list byte :=
  match data with
  | [] => (s, [])
  | b :: data =>
      let '(s, out) := push_step s b in
      let '(s, out') := push_feed s data in
      (s, out ++ out')
  end.

Lemma push_feed_app s d e :
  push_feed s (d ++ e) =
    let '(s, out) := push_feed s d in
    let '(s, out') := push_feed s e in (s, out ++ out').
Proof.
  revert s. induction d as [|b d IH]; intros s; simpl.
  - by destruct (push_feed s e).
  - destruct (push_step s b) as [s' o]. rewrite IH.
    destruct (push_feed s' d) as [s'' o']. destruct (push_feed s'' e) as [s''' o''].
    by rewrite (assoc_L (++)).
Qed.

Lemma push_feed_header_short acc d :
  (length acc + length d < HEADER_SIZE)%nat →
  push_feed (PHeader acc) d = (PHeader (acc ++ d), []).
Proof.
  revert acc. induction d as [|b d IH]; intros acc H; simpl.
  - by rewrite app_nil_r.
  - simpl in H. rewrite decide_True by (rewrite length_app; simpl; lia).
    rewrite IH by (rewrite length_app; simpl; lia). by rewrite <-(assoc_L (++)).
Qed.

Lemma push_feed_header_full acc d :
  (length acc < HEADER_SIZE)%nat → (length acc + length d = HEADER_SIZE)%nat →
  push_feed (PHeader acc) d = (push_header (acc ++ d), []).
Proof.
  intros Ha H. destruct (exists_last (l := d)) as (d' & b & ->).
  { intros ->. simpl in H. lia. }
  rewrite length_app in H. simpl in H.
  rewrite push_feed_app, push_feed_header_short by lia. simpl.
  rewrite decide_False by (rewrite !length_app; simpl; lia). by rewrite (assoc_L (++)).
Qed.

Lemma push_feed_data n d :
  Z.of_nat (length d) ≤ n → push_feed (push_data n) d = (push_data (n - Z.of_nat (length d)), d).
Proof.
  revert n. induction d as [|b d IH]; intros n H.
  - simpl. by rewrite Z.sub_0_r.
  - cbn [length] in H. assert (push_data n = PData n) as ->.
    { unfold push_data. by rewrite decide_False by lia. }
    cbn [push_feed push_step]. rewrite IH by lia. cbn [length app]. f_equal. f_equal. lia.
Qed.

Lemma push_feed_done m d : push_feed (PDone m) d = (PDone m, []).
Proof. induction d as [|b d IH]; simpl; [done|]. by rewrite IH. Qed.

Lemma push_feed_bad d : push_feed PBad d = (PBad, []).
Proof. induction d as [|b d IH]; simpl; [done|]. by rewrite IH. Qed.

(** What the host sends after a SEND request: a DATA frame per chunk, then DONE. *)
Definition data_frame (chunk : list byte) : list byte :=
  le_u32_bytes ID_DATA ++ length_prefixed chunk.
Definition done_frame (mtime : Z) : list byte := le_u32_bytes ID_DONE ++ le_u32_bytes mtime.
Definition encode_push (chunks : list (list byte)) (mtime : Z) : list byte :=
  (chunks ≫= data_frame) ++ done_frame mtime.

Lemma push_header_encode i n :
  u32 n →
  push_header (le_u32_bytes (SyncFrameRequestId.to_u32 i) ++ le_u32_bytes n) =
    match i with SyncFrameRequestId.Data => push_data n | SyncFrameRequestId.Done => PDone n end.
Proof.
  intros Hn. unfold push_header.
  rewrite take_app_length', drop_app_length' by (by rewrite length_le_u32_bytes).
  rewrite (take_ge (le_u32_bytes n)) by (by rewrite length_le_u32_bytes).
  rewrite !le_value_u32_bytes by (done || by destruct i).
  rewrite (proj2 (SyncFrameRequestId_try_from_Ok _ i) eq_refl). done.
Qed.

Lemma push_feed_frame i n d :
  u32 n →
  push_feed (PHeader []) (le_u32_bytes (SyncFrameRequestId.to_u32 i) ++ le_u32_bytes n ++ d)
  = push_feed (match i with
               | SyncFrameRequestId.Data => push_data n
               | SyncFrameRequestId.Done => PDone n
               end) d.
Proof.
  intros Hn. rewrite (assoc_L (++)), push_feed_app, push_feed_header_full;
    [|simpl; unfold HEADER_SIZE; lia|
      simpl; by rewrite length_app, !length_le_u32_bytes].
  cbn [app]. rewrite push_header_encode by done. by destruct (push_feed _ d).
Qed.

Lemma push_feed_encode chunks mtime :
  Forall (λ c, u32 (Z.of_nat (length c))) chunks → u32 mtime →
  push_feed (PHeader []) (encode_push chunks mtime) = (PDone mtime, mjoin chunks).
Proof.
  intros Hc Hm. unfold encode_push. induction Hc as [|c chunks Hc Hcs IH].
  - unfold done_frame. cbn [mbind list_bind app].
    rewrite <-(app_nil_r (le_u32_bytes mtime)).
    by rewrite (push_feed_frame SyncFrameRequestId.Done).
  - rewrite bind_cons. unfold data_frame at 1, length_prefixed. rewrite <-!(assoc_L (++)).
    rewrite (push_feed_frame SyncFrameRequestId.Data), push_feed_app by done.
    rewrite push_feed_data by lia. rewrite Z.sub_diag.
    change (push_data 0) with (PHeader []). by rewrite IH.
Qed.

(** ** The receiver refines the frame protocol *)

(** The protocol state a receiver stands for. *)
Definition recv_abs (st : RecvState.t) : push_state :=
  match st with
  | RecvState.Header => PHeader []
  | RecvState.PartialHeader leftovers n => PHeader (take n leftovers)
  | RecvState.Data remaining => push_data remaining
  end.

Definition recv_state_wf (st : RecvState.t) : Prop :=
  match st with
  | RecvState.PartialHeader leftovers n =>
      length leftovers = HEADER_SIZE ∧ (n < HEADER_SIZE)%nat
  | _ => True
  end.

Record receiver_wf (self : FileReceiver) (w : World) : Prop := {
  wf_state : recv_state_wf (rcv_state self);
  wf_file : at_end w (rcv_file self);
  wf_path : has_nul (rcv_path self) = false;
  wf_path_length : Z.of_nat (length (rcv_path self)) ≤ 2 ^ 20;
}.

Section receiver.
Context {E : Os} {W : Winnow}.

(** Some call can fail in this environment; its negation is an environment that
    refuses nothing. *)
Definition some_call_fails : Prop := ∃ h c e, os_result h c = Err e.

Lemma called_fails w w' c e : called w w' c (Err e) → some_call_fails.
Proof. intros (new & old & _ & _ & H). by exists old, c, e. Qed.

(** The transfer is over: the file holds what it held before and [out], with
    the permissions asked for.  The last call was to set the time asked for;
    the file has it if the system granted the call. *)
Definition completed (self : FileReceiver) (w w' : World) (out : list byte) (mtime : Z) :
    Prop :=
  w_paths w' = w_paths w ∧
  ∃ i i' t, w_inodes w !! f_ino (rcv_file self) = Some i ∧
    w_inodes w' !! f_ino (rcv_file self) = Some i' ∧
    i_data i' = i_data i ++ out ∧ i_mode i' = Z.land (rcv_mode self) 0xfff ∧
    called_last w w' (CSetTimes (f_ino (rcv_file self)) mtime) t ∧
    match t with Ok _ => i_mtime i' = mtime | Err _ => True end.

(** The last call was to remove the file's name; it is gone, and no other, if
    the system granted the call. *)
Definition aborted (p : path) (w w' : World) : Prop :=
  ∃ t, called_last w w' (CRemoveFile p) t ∧
    w_paths w' = match t with Ok _ => delete p (w_paths w) | Err _ => w_paths w end.

(** On the way the system refused to write to the file, or to set its
    permissions. *)
Definition write_refused (f : File) (w w' : World) : Prop :=
  ∃ c e, called w w' c (Err e) ∧
    ((∃ data, c = CWriteAll (f_ino f) data) ∨ ∃ mode, c = CSetPermissions (f_ino f) mode).

(** What [receive] promises about a payload [data]. *)
Definition receive_post (self : FileReceiver) (data : list byte) (w : World)
    (r : FileReceiverResult.t SyncResponse * FileReceiver) (w' : World) : Prop :=
  let '(res, self') := r in
  let '(s, out) := push_feed (recv_abs (rcv_state self)) data in
  rcv_path self' = rcv_path self ∧ rcv_mode self' = rcv_mode self ∧
  match res with
  | FileReceiverResult.Continue =>
      recv_abs (rcv_state self') = s ∧ receiver_wf self' w' ∧
      appended w (rcv_file self) w' (rcv_file self') out
  | FileReceiverResult.Done resp =>
      (∃ mtime, s = PDone mtime ∧ resp = okay_response ∧ completed self w w' out mtime) ∨
      (resp_id resp.1 = SyncFrameResponseId.Fail ∧ aborted (rcv_path self) w w' ∧
        (s = PBad ∨ write_refused (rcv_file self) w w'))
  end.

Lemma wp_fail_response {S} msg (Q : SyncResponse → S → Prop) s :
  Z.of_nat (length msg) < 2 ^ 30 →
  (∀ resp, resp_id resp.1 = SyncFrameResponseId.Fail → Q resp s) →
  wp (fail_response msg) Q s.
Proof.
  intros Hl HQ. apply wp_bind, wp_expect. pose proof (str_bytes_length msg).
  rewrite u32_try_from_u32 by (unfold u32; lia). by apply wp_ret, HQ.
Qed.

(** The messages that name the file. *)
Lemma path_message_length self w (a b : string) e :
  receiver_wf self w → short_error e → (length (lit a) ≤ 100)%nat → (length (lit b) ≤ 100)%nat →
  Z.of_nat (length (lit a ++ path_display (rcv_path self) ++ lit b ++ io_error_fmt e)) < 2 ^ 30.
Proof.
  intros Hwf He%io_error_fmt_length Ha Hb. rewrite !length_app.
  pose proof (from_utf8_lossy_length (rcv_path self)). destruct Hwf. unfold path_display. lia.
Qed.

Lemma wp_abort self (Q : unit → World → Prop) w :
  has_nul (rcv_path self) = false →
  (∀ w', aborted (rcv_path self) w w' → w_log w `suffix_of` w_log w' → Q tt w') →
  wp (abort self) Q w.
Proof.
  intros Hp HQ. apply wp_bind, wp_remove_file; [done| |].
  - intros w' n Hn Hl Hpaths _ _. apply wp_ret, HQ; [|rewrite Hl; by apply suffix_cons_r].
    exists (Ok n). split; [|done]. by exists (w_log w).
  - intros w' e He Hl Hpaths _ _. apply wp_ret, HQ; [|rewrite Hl; by apply suffix_cons_r].
    exists (Err e). split; [|done]. by exists (w_log w).
Qed.

Lemma wp_finalize self mtime (Q : FileReceiverResult.t SyncResponse → World → Prop) w :
  receiver_wf self w →
  (∀ w', completed self w w' [] mtime → Q (FileReceiverResult.Done okay_response) w') →
  (∀ w' resp, resp_id resp.1 = SyncFrameResponseId.Fail → aborted (rcv_path self) w w' →
    write_refused (rcv_file self) w w' → Q (FileReceiverResult.Done resp) w') →
  wp (finalize self mtime) Q w.
Proof.
  intros Hwf HOk HErr. destruct (wf_file _ _ Hwf) as (i & Hi & _).
  pose proof (wf_path _ _ Hwf) as Hp. unfold finalize, File_set_permissions.
  apply wp_bind, wp_bind, wp_sys.
  destruct (os_result (w_log w) _) as [n|e] eqn:Er.
  - apply wp_bind, wp_modify, wp_ret. unfold File_set_times.
    apply wp_bind, wp_bind, wp_sys.
    destruct (os_result _ (CSetTimes _ _)) as [n'|e] eqn:Et.
    + apply wp_bind, wp_modify, wp_ret, wp_ret, HOk. split; [done|].
      eexists i, _, (Ok n'). simpl. rewrite !lookup_alter_eq, Hi. simpl. rewrite app_nil_r.
      split_and!; try done. eexists. split_and!; [done|by apply suffix_cons_r|done].
    + apply wp_ret, wp_ret, HOk. split; [done|].
      eexists i, _, (Err e). simpl. rewrite lookup_alter_eq, Hi. simpl. rewrite app_nil_r.
      split_and!; try done. eexists. split_and!; [done|by apply suffix_cons_r|done].
  - apply wp_ret, wp_bind, wp_abort; [done|]. intros w' Ha Hw'.
    apply wp_bind, wp_fail_response.
    { eapply path_message_length; [done|by eapply os_result_short|vm_compute; lia..]. }
    intros resp Hr. destruct Hw' as [l Hl]. apply wp_ret, HErr; [done| |].
    + destruct Ha as (t & Ht & Hpaths). exists t. split; [|done].
      eapply called_last_suffix; [|done]. by apply suffix_cons_r.
    + exists (CSetPermissions (f_ino (rcv_file self)) (rcv_mode self)), e. split; [|by right; eexists].
      by exists l, (w_log w).
Qed.

Lemma wp_invalid_frame self (Q : FileReceiverResult.t SyncResponse * FileReceiver → World → Prop) w :
  receiver_wf self w →
  (∀ w' resp, resp_id resp.1 = SyncFrameResponseId.Fail → aborted (rcv_path self) w w' →
    Q (FileReceiverResult.Done resp, self) w') →
  wp (invalid_frame self) Q w.
Proof.
  intros Hwf HQ. apply wp_bind, wp_abort; [by destruct Hwf|]. intros w' Ha _.
  apply wp_bind, wp_fail_response; [done|]. intros resp Hr. by apply wp_ret, HQ.
Qed.

(** More of the transfer before it: what is said of its end still holds. *)
Lemma completed_appended self self1 w w1 w' out out' mtime :
  rcv_mode self1 = rcv_mode self →
  appended w (rcv_file self) w1 (rcv_file self1) out →
  completed self1 w1 w' out' mtime → completed self w w' (out ++ out') mtime.
Proof.
  intros Hm [E1 (i & i' & Hi & Hi' & _ & Hd & _) _ P1 _ _ L1]
    (P2 & j & j' & t & Hj & Hj' & Hd' & Hm' & Hc & Ht).
  split; [congruence|]. exists i, j', t. rewrite E1 in *. simplify_eq.
  rewrite Hm in *. split_and!; try done.
  - by rewrite Hd', Hd, (assoc_L (++)).
  - by eapply called_last_suffix.
Qed.

Lemma aborted_appended p w f w1 f1 out w' :
  appended w f w1 f1 out → aborted p w1 w' → aborted p w w'.
Proof.
  intros Ha (t & Ht & Hp). exists t. split.
  - eapply called_last_suffix; [|done]. by destruct Ha.
  - by rewrite <-(app_paths _ _ _ _ _ Ha).
Qed.

Lemma write_refused_suffix f w0 w w' w1 :
  w_log w0 `suffix_of` w_log w → w_log w' `suffix_of` w_log w1 →
  write_refused f w w' → write_refused f w0 w1.
Proof.
  intros H0 H1 (c & e & Hc & Hk). exists c, e. split; [|done]. by eapply called_suffix.
Qed.

Lemma write_refused_appended w f w1 f1 out w' :
  appended w f w1 f1 out → write_refused f1 w1 w' → write_refused f w w'.
Proof.
  intros Ha H. apply (write_refused_suffix f1 w w1 w' w') in H as (c & e & Hc & Hk);
    [|by destruct Ha|done].
  exists c, e. split; [done|]. by rewrite <-(app_ino _ _ _ _ _ Ha).
Qed.

(** A consumed prefix followed by the rest of the payload. *)
Lemma receive_post_step self self1 d1 d2 out1 w w1 r w' :
  push_feed (recv_abs (rcv_state self)) d1 = (recv_abs (rcv_state self1), out1) →
  rcv_path self1 = rcv_path self → rcv_mode self1 = rcv_mode self →
  appended w (rcv_file self) w1 (rcv_file self1) out1 →
  receive_post self1 d2 w1 r w' → receive_post self (d1 ++ d2) w r w'.
Proof.
  intros Hf Hp Hm Ha. unfold receive_post. destruct r as [res self']. rewrite push_feed_app, Hf.
  destruct (push_feed (recv_abs (rcv_state self1)) d2) as [s out2]. rewrite Hp, Hm.
  intros (-> & -> & H). split_and!; [done..|]. destruct res as [resp|].
  - destruct H as [(mtime & -> & -> & Hc)|(Hr & Hab & Hwhy)].
    + left. exists mtime. split_and!; [done..|]. by eapply completed_appended.
    + right. split_and!; [done|by eapply aborted_appended|].
      destruct Hwhy as [->|Hwr]; [by left|right]. exact (write_refused_appended _ _ _ _ _ _ Ha Hwr).
  - destruct H as (Hs & Hwf & Ha'). split_and!; [done..|]. by eapply appended_trans.
Qed.
Lemma parse_sync_frame_header_eq i :
  (HEADER_SIZE ≤ length i)%nat →
  parse_sync_frame_header i =
    match SyncFrameRequestId.try_from (le_value (take 4 i)) with
    | Ok id => Some (mkSyncFrameRequestHeader id (le_value (take 4 (drop 4 i))), drop 8 i)
    | Err _ => None
    end.
Proof.
  unfold HEADER_SIZE. intros Hl.
  unfold parse_sync_frame_header, parse_sync_frame_id.
  rewrite pmap_law, seq2_law, verify_map_law, le_u32_law, decide_True by lia. simpl.
  destruct (SyncFrameRequestId.try_from _) as [id|v]; simpl; [|done].
  rewrite le_u32_law, decide_True by (rewrite length_drop; lia). simpl.
  by rewrite drop_drop.
Qed.

Lemma wp_receive_header k self data d hdr rest w :
  data = d ++ rest → receiver_wf self w → length hdr = HEADER_SIZE →
  push_feed (recv_abs (rcv_state self)) d = (push_header hdr, []) →
  (∀ n, let self1 := rcv_set_state self (RecvState.Data n) in
    receiver_wf self1 w → wp (k self1 rest) (receive_post self1 rest w) w) →
  wp (receive_header k self hdr rest) (receive_post self data w) w.
Proof.
  intros -> Hwf Hl Hf Hk. unfold receive_header.
  rewrite parse_sync_frame_header_eq by lia. unfold push_header in Hf.
  destruct (SyncFrameRequestId.try_from _) as [[]|v] eqn:Eid; simpl.
  - set (n' := le_value (take 4 (drop 4 hdr))) in *.
    eapply wp_mono; [apply (Hk n'); by destruct Hwf|]. intros r w' Hr.
    eapply (receive_post_step self (rcv_set_state self (RecvState.Data n'))); [exact Hf|done|done| |exact Hr].
    apply appended_refl. by destruct Hwf.
  - apply wp_bind, wp_finalize; [done| |]; intros w' *.
    + intros Hc. apply wp_ret. unfold receive_post.
      rewrite push_feed_app, Hf, push_feed_done. simpl. split_and!; [done..|]. left. eauto.
    + intros Hr Ha Hfail. apply wp_ret. unfold receive_post.
      rewrite push_feed_app, Hf, push_feed_done. simpl. split_and!; [done..|]. right. eauto.
  - apply wp_invalid_frame; [done|]. intros w' resp Hr Ha. unfold receive_post.
    rewrite push_feed_app, Hf, push_feed_bad. split_and!; [done..|]. right. eauto.
Qed.

Lemma wp_copy_from_slice {S} buf off src (Q : list byte → S → Prop) s :
  (off + length src ≤ length buf)%nat →
  Q (take off buf ++ src ++ drop (off + length src) buf) s →
  wp (copy_from_slice buf off src) Q s.
Proof. unfold copy_from_slice. intros. rewrite decide_True by done. by apply wp_ret. Qed.

Lemma receive_post_nil self w :
  receiver_wf self w → receive_post self [] w (FileReceiverResult.Continue, self) w.
Proof.
  intros Hwf. unfold receive_post. simpl. split_and!; [done..|].
  apply appended_refl. by destruct Hwf.
Qed.

(** [Header] with fewer than eight bytes left. *)
Lemma wp_receive_short self n l rest w (b : list byte) :
  receiver_wf self w → recv_abs (rcv_state self) = PHeader b →
  length l = HEADER_SIZE → n = length (b ++ rest) → take n l = b ++ rest →
  (n < HEADER_SIZE)%nat →
  receive_post self rest w
    (FileReceiverResult.Continue, rcv_set_state self (RecvState.PartialHeader l n)) w.
Proof.
  intros Hwf Hb Hl Hn Ht Hlt. unfold receive_post. rewrite length_app in Hn.
  rewrite Hb, push_feed_header_short by lia. cbn [recv_abs rcv_state rcv_set_state].
  rewrite Ht. split_and!; [done..| |].
  - by destruct Hwf.
  - apply appended_refl. by destruct Hwf.
Qed.

(** Iterations still needed: two per byte (a header of an empty frame is
    followed by an iteration that takes nothing). *)
Definition loop_measure (self : FileReceiver) (rest : list byte) : nat :=
  2 * length rest +
  match rcv_state self with
  | RecvState.Data remaining => if decide (remaining ≤ 0) then 1 else 0
  | _ => 0
  end.

(** The data of a frame: what is written is what the protocol puts out. *)
Lemma push_feed_part remaining (data : list byte) :
  let k := Z.to_nat (Z.min remaining (Z.of_nat (length data))) in
  let remaining' := remaining - Z.of_nat k in
  push_feed (push_data remaining) (take k data) =
    (recv_abs (if decide (remaining' > 0) then RecvState.Data remaining' else RecvState.Header),
     take k data).
Proof.
  intros k remaining'. assert (length (take k data) = k) as Hk by (rewrite List.length_firstn; lia).
  destruct (decide (remaining ≤ 0)).
  { assert (k = O) as Hk0 by lia. rewrite Hk0. simpl. rewrite decide_False by lia.
    unfold push_data. by rewrite decide_True. }
  rewrite push_feed_data, Hk by (rewrite Hk; lia). fold remaining'.
  case_decide; [done|]. unfold push_data. by rewrite decide_True by lia.
Qed.

(** One turn of the loop, for any continuation that does what the loop
    promises when its measure is at most [fuel]. *)
Section turn.
Context (continue : FileReceiver → list byte → M World (FileReceiverResult.t SyncResponse * FileReceiver)).
Context (fuel : nat) (Hcontinue : ∀ self rest w,
  receiver_wf self w → (loop_measure self rest ≤ fuel)%nat →
  wp (continue self rest) (receive_post self rest w) w).
Context (self : FileReceiver) (data : list byte) (w : World) (Hwf : receiver_wf self w).
Context (Hne : (1 ≤ length data)%nat) (Hfuel : (loop_measure self data ≤ S fuel)%nat).

(** After a header the continuation gets less data. *)
Lemma continue_data n rest :
  (match rcv_state self with RecvState.Data _ => False | _ => True end) →
  (S (length rest) ≤ length data)%nat →
  let self1 := rcv_set_state self (RecvState.Data n) in
  receiver_wf self1 w → wp (continue self1 rest) (receive_post self1 rest w) w.
Proof.
  intros Hst Hr self1 Hwf1. apply Hcontinue; [done|]. unfold loop_measure in *.
  destruct (rcv_state self); [| |done]; simpl; case_decide; lia.
Qed.

Lemma wp_receive_in_header :
  rcv_state self = RecvState.Header →
  wp (receive_step continue self data) (receive_post self data w) w.
Proof.
  intros Est. pose proof continue_data as IHn. rewrite Est in IHn.
  unfold receive_step. rewrite Est. case_decide as Hl.
  - eapply wp_receive_header;
      [by rewrite take_drop|done|rewrite List.length_firstn; lia| |
       intros n; apply IHn; [done|]; rewrite length_drop; unfold HEADER_SIZE in *; lia].
    rewrite Est. apply push_feed_header_full; [simpl; unfold HEADER_SIZE; lia|].
    rewrite List.length_firstn. cbn [length]. lia.
  - apply wp_bind, wp_copy_from_slice; [rewrite length_replicate; lia|]. apply wp_ret.
    eapply (wp_receive_short _ _ _ _ _ []); try done; [by rewrite Est| | |lia].
    + rewrite !length_app, List.length_firstn, length_drop, length_replicate. lia.
    + rewrite take_0. exact (take_app_length data _).
Qed.

Lemma wp_receive_in_partial leftovers n :
  rcv_state self = RecvState.PartialHeader leftovers n →
  wp (receive_step continue self data) (receive_post self data w) w.
Proof.
  intros Est. pose proof continue_data as IHn. pose proof (wf_state _ _ Hwf) as Hst.
  rewrite Est in IHn, Hst. destruct Hst as [Hlen Hn].
  unfold receive_step. rewrite Est. case_decide as Hl.
  - apply wp_bind, wp_copy_from_slice; [rewrite List.length_firstn; lia|].
    set (need := (HEADER_SIZE - n)%nat) in *.
    rewrite List.length_firstn, Nat.min_l by done.
    rewrite (drop_ge leftovers), app_nil_r by lia.
    assert (length (take n leftovers ++ take need data) = HEADER_SIZE).
    { rewrite length_app, !List.length_firstn. lia. }
    eapply wp_receive_header;
      [by rewrite (take_drop need)|done|done| |intros m; apply IHn; [done|]; rewrite length_drop; lia].
    rewrite Est. apply push_feed_header_full; [rewrite List.length_firstn; lia|].
    by rewrite <-length_app.
  - apply wp_bind, wp_copy_from_slice; [rewrite List.length_firstn; lia|]. apply wp_ret.
    rewrite Nat.min_r, (take_ge data) by lia.
    eapply (wp_receive_short _ _ _ _ _ (take n leftovers)); try done;
      [by rewrite Est| | | |lia].
    + rewrite !length_app, List.length_firstn, length_drop. lia.
    + rewrite length_app, List.length_firstn. lia.
    + rewrite (assoc_L (++)), take_app_length'; [done|]. rewrite length_app, List.length_firstn. lia.
Qed.

Lemma wp_receive_in_data remaining :
  rcv_state self = RecvState.Data remaining →
  wp (receive_step continue self data) (receive_post self data w) w.
Proof.
  intros Est. unfold receive_step. rewrite Est. unfold loop_measure in Hfuel. rewrite Est in Hfuel.
  set (k := Z.to_nat (Z.min remaining (Z.of_nat (length data)))).
  apply wp_bind, wp_File_write_all; [by destruct Hwf| |].
  - intros w' f' Ha. set (remaining' := remaining - Z.of_nat k). set (self1 := rcv_set_state _ _).
    eapply wp_mono; [apply (Hcontinue self1)|].
    + split; [|by eapply appended_at_end|by destruct Hwf..].
      unfold self1. simpl. by destruct (decide (remaining' > 0)).
    + unfold loop_measure, self1. simpl. rewrite length_drop. fold remaining'.
      repeat case_decide; simpl; lia.
    + intros r w'' Hr. rewrite <-(take_drop k data).
      eapply (receive_post_step self self1); [|done|done|exact Ha|exact Hr].
      rewrite Est. apply push_feed_part.
  - intros w' f' e j He Ha. apply wp_bind, wp_abort; [by destruct Hwf|].
    intros w'' Hab Hlog. apply wp_bind, wp_fail_response.
    { eapply (path_message_length self); [done|by eapply called_short|vm_compute; lia..]. }
    intros resp Hr. apply wp_ret.
    unfold receive_post. destruct (push_feed _ data). split_and!; [done..|].
    right. split_and!; [done|exact (aborted_appended _ _ _ _ _ _ _ Ha Hab)|right].
    eapply (write_refused_suffix _ w w w'); [done|done|]. eexists _, e. split; [done|]. left. by eexists.
Qed.
End turn.

Lemma wp_receive_loop fuel self rest w :
  receiver_wf self w → (loop_measure self rest ≤ fuel)%nat →
  wp (receive_loop fuel self rest) (receive_post self rest w) w.
Proof.
  revert self rest w. induction fuel as [|fuel IH]; intros self [|b rest] w Hwf Hfuel;
    [by apply wp_ret, receive_post_nil| |by apply wp_ret, receive_post_nil|].
  { unfold loop_measure in Hfuel. simpl in Hfuel. lia. }
  cbn [receive_loop]. assert (1 ≤ length (b :: rest))%nat as Hne by (simpl; lia).
  destruct (rcv_state self) as [|leftovers n|remaining] eqn:Est.
  - by eapply wp_receive_in_header.
  - by eapply wp_receive_in_partial.
  - by eapply wp_receive_in_data.
Qed.

Lemma wp_receive self data w :
  receiver_wf self w → wp (receive self data) (receive_post self data w) w.
Proof.
  intros Hwf. apply wp_receive_loop; [done|]. unfold loop_measure, receive_fuel.
  destruct (rcv_state self); [lia..|]. case_decide; lia.
Qed.

(** C1: [receive] always returns (its fuel is enough and it never panics),
    and it refines the byte-at-a-time protocol.  If it asks for more, the
    protocol is still running, in the state the receiver stands for, and
    exactly the protocol's output has been appended to the file.  If it
    answers OKAY, the protocol has seen its DONE frame, the file holds what
    the protocol wrote and has the mode asked for, and the last call of the
    run was to set the time asked for: the file has that time unless the
    system refused that very call, which the code ignores.  Otherwise it
    answers FAIL; then either the protocol is in its error state or the system
    refused, in this run, to write to this file or to set its permissions, and
    the last call of the run was to remove the file's name: the name is gone,
    and nothing else, unless the system refused that very call, which the code
    ignores too. *)
Theorem receive_refines self data w :
  receiver_wf self w →
  ∃ r w', receive self data w = Done (r, w') ∧ receive_post self data w r w'.
Proof. intros Hwf. by apply wp_total, wp_receive. Qed.

(** The session feeding payloads to a receiver until it has an answer. *)
Fixpoint receive_all (self : FileReceiver) (payloads : list (list byte)) :
    M World (FileReceiverResult.t SyncResponse * FileReceiver) :=
  match payloads with
  | [] => mret (FileReceiverResult.Continue, self)
  | d :: payloads =>
      '(res, self) ← receive self d;
      match res with
      | FileReceiverResult.Continue => receive_all self payloads
      | FileReceiverResult.Done _ => mret (res, self)
      end
  end.

Lemma wp_receive_all self payloads w :
  receiver_wf self w →
  wp (receive_all self payloads) (receive_post self (mjoin payloads) w) w.
Proof.
  revert self w. induction payloads as [|d payloads IH]; intros self w Hwf.
  { by apply wp_ret, receive_post_nil. }
  cbn [receive_all mjoin list_join]. apply wp_bind.
  eapply wp_mono; [by apply wp_receive|]. intros [res self1] w1 Hr.
  destruct res as [resp|].
  - apply wp_ret. revert Hr. unfold receive_post. rewrite push_feed_app.
    destruct (push_feed _ d) as [s out]. intros (Hp & Hm & Hr).
    destruct (push_feed s _) as [s' out'] eqn:Es. split_and!; [done..|].
    destruct Hr as [(mtime & -> & -> & Hc)|(Hf & Ha & [->|Hc])].
    + left. rewrite push_feed_done in Es. simplify_eq. rewrite app_nil_r. eauto.
    + right. rewrite push_feed_bad in Es. simplify_eq. eauto.
    + right. eauto.
  - unfold receive_post in Hr.
    destruct (push_feed _ d) as [s out] eqn:Ef. destruct Hr as (Hp & Hm & <- & Hwf1 & Ha).
    eapply wp_mono; [by apply IH|]. intros r w' Hr.
    by eapply (receive_post_step self self1).
Qed.

(** C3: [adb push] stores the file, however the host's stream was cut into
    WRTE payloads.  Take any chunks and any way to split the stream of their
    DATA frames and the final DONE into payloads, headers cut in the middle
    included: a new receiver answers.  Unless the system refused, in this
    run, to write to the file or to set its permissions, the answer is OKAY and
    the file has grown by exactly the concatenation of the chunks, with the
    mode sent and, unless the system refused the last call, which sets it, the
    time sent.  If it refused and the answer is not OKAY, the answer is FAIL and
    the last call removes the file's name, which the system may refuse as well:
    then, and only then, the name stays. *)
Theorem push_any_chunking self w payloads chunks mtime :
  receiver_wf self w → rcv_state self = RecvState.Header →
  Forall (λ c, u32 (Z.of_nat (length c))) chunks → u32 mtime →
  mjoin payloads = encode_push chunks mtime →
  ∃ resp self' w',
    receive_all self payloads w = Done ((FileReceiverResult.Done resp, self'), w') ∧
    ((resp = okay_response ∧ completed self w w' (mjoin chunks) mtime) ∨
     (resp_id resp.1 = SyncFrameResponseId.Fail ∧ aborted (rcv_path self) w w' ∧
      write_refused (rcv_file self) w w')).
Proof.
  intros Hwf Hst Hc Hm Hp.
  destruct (proj1 (wp_total _ _ _) (wp_receive_all self payloads w Hwf))
    as ([res self'] & w' & Hr & Hpost).
  unfold receive_post in Hpost. rewrite Hp, Hst in Hpost. cbn [recv_abs] in Hpost.
  rewrite push_feed_encode in Hpost by done. destruct Hpost as (_ & _ & Hpost).
  destruct res as [resp|].
  - exists resp, self', w'. split; [done|].
    destruct Hpost as [(m & [= ->] & ? & ?)|(? & ? & [|?])]; [by left|done|by right].
  - destruct Hpost as [Hs _]. destruct (rcv_state self') as [| |n]; try done.
    simpl in Hs. unfold push_data in Hs. by case_decide.
Qed.
End receiver.

(** ** The sender *)

Definition data_frame_response (chunk : list byte) : SyncResponse :=
  (mkSyncFrameResponseHeader SyncFrameResponseId.Data (Z.of_nat (length chunk)), chunk).

(** What is left to send: the file from the handle's position on. *)
Definition unread (f : File) (w : World) : list byte :=
  drop (f_pos f) (default [] (i_data <$> w_inodes w !! f_ino f)).

Section sender.
Context {E : Os}.

(** One read: nothing at the end, otherwise a non-empty prefix of at most
    [len] bytes of what is left, or an error. *)
Lemma wp_File_read f len (Q : result (list byte) io_error * File → World → Prop) w :
  (0 < len)%nat →
  (∀ w' f' chunk, w_inodes w' = w_inodes w → w_paths w' = w_paths w → f_ino f' = f_ino f →
    w_log w `suffix_of` w_log w' → unread f w = chunk ++ unread f' w' → (length chunk ≤ len)%nat →
    (chunk = [] → unread f w = []) → Q (Ok chunk, f') w') →
  (∀ w' e, w_inodes w' = w_inodes w → w_paths w' = w_paths w →
    called w w' (CRead (f_ino f) len) (Err e) → Q (Err e, f) w') →
  wp (File_read f len) Q w.
Proof.
  intros Hlen HOk HErr. apply wp_bind, wp_sys.
  destruct (os_result (w_log w) _) as [n|e] eqn:Er.
  2: { apply wp_ret, HErr; [done..|]. by exists [], (w_log w). }
  apply wp_bind, wp_get, wp_ret. cbn [w_inodes w_set_log]. fold (unread f w).
  set (rest := unread f w). set (k := Nat.min _ (Nat.min len (length rest))).
  apply HOk; try done.
  - by apply suffix_cons_r.
  - unfold unread at 2. simpl. rewrite <-drop_drop. fold (unread f w). fold rest.
    by rewrite take_drop.
  - rewrite List.length_firstn. lia.
  - intros Hnil%(f_equal length). rewrite List.length_firstn in Hnil. simpl in Hnil.
    apply length_zero_iff_nil. fold rest. lia.
Qed.

(** The frames of a whole transfer: [next_frame] until it returns [None]. *)
Fixpoint send_all (fuel : nat) (self : FileSender) :
    M World (list SyncResponse * FileSender) :=
  match fuel with
  | O => panicM OutOfFuel
  | S fuel =>
      '(o, self) ← next_frame self;
      match o with
      | None => mret ([], self)
      | Some frame => '(frames, self) ← send_all fuel self; mret (frame :: frames, self)
      end
  end.

(** Between [w] and [w'] the system refused to read the sender's file. *)
Definition read_refused (f : File) (w w' : World) : Prop :=
  ∃ e, called w w' (CRead (f_ino f) PAYLOAD_SIZE_MAX_BYTES) (Err e).

Definition send_all_post (self : FileSender) (w : World)
    (r : list SyncResponse * FileSender) (w' : World) : Prop :=
  w_inodes w' = w_inodes w ∧ w_paths w' = w_paths w ∧ snd_done r.2 = true ∧
  ∃ chunks last, r.1 = (data_frame_response <$> chunks) ++ [last] ∧
    Forall (λ c, 1 ≤ length c ≤ PAYLOAD_SIZE_MAX_BYTES)%nat chunks ∧
    ((last = done_response ∧ mjoin chunks = unread (snd_file self) w) ∨
     (resp_id last.1 = SyncFrameResponseId.Fail ∧ read_refused (snd_file self) w w' ∧
      mjoin chunks `prefix_of` unread (snd_file self) w)).

Lemma send_all_done fuel self w :
  snd_done self = true → send_all (S fuel) self w = Done (([], self), w).
Proof. intros Hd. simpl. unfold next_frame. by rewrite Hd. Qed.

(** What one call yields: the next bytes of the file, or that it is at its
    end, or that the system refused the read. *)
Definition next_frame_post (self : FileSender) (w : World)
    (r : option SyncResponse * FileSender) (w' : World) : Prop :=
  w_inodes w' = w_inodes w ∧ w_paths w' = w_paths w ∧
  ∃ resp, r.1 = Some resp ∧
    ((∃ chunk, resp = data_frame_response chunk ∧ snd_done r.2 = false ∧
        (1 ≤ length chunk ≤ PAYLOAD_SIZE_MAX_BYTES)%nat ∧
        unread (snd_file self) w = chunk ++ unread (snd_file r.2) w' ∧
        f_ino (snd_file r.2) = f_ino (snd_file self) ∧ w_log w `suffix_of` w_log w') ∨
     (snd_done r.2 = true ∧ resp = done_response ∧ unread (snd_file self) w = []) ∨
     (snd_done r.2 = true ∧ resp_id resp.1 = SyncFrameResponseId.Fail ∧
        read_refused (snd_file self) w w')).

Lemma wp_next_frame self w :
  snd_done self = false → wp (next_frame self) (next_frame_post self w) w.
Proof.
  intros Hd. unfold next_frame. rewrite Hd.
  apply wp_bind, wp_File_read; [unfold PAYLOAD_SIZE_MAX_BYTES; lia| |].
  - intros w' f' [|b chunk] Hi Hp Hino Hlog Hu Hl Hnil.
    + apply wp_ret. split_and!; [done..|]. exists done_response. split; [done|]. right. left. auto.
    + unfold data_response. apply wp_bind, wp_bind, wp_expect. rewrite u32_try_from_u32
        by (unfold u32; unfold PAYLOAD_SIZE_MAX_BYTES in Hl; lia).
      apply wp_ret, wp_ret. split_and!; [done..|]. eexists. split; [done|]. left.
      exists (b :: chunk). split_and!; [done|done|simpl; lia|done|done|done|done].
  - intros w' e Hi Hp He. apply wp_bind, wp_fail_response.
    { rewrite length_app. pose proof (io_error_fmt_length e (called_short _ _ _ _ He)).
      change (length (lit "read error: ")) with 12%nat. lia. }
    intros resp Hr. apply wp_ret. split_and!; [done..|]. exists resp. split; [done|]. right. right.
    split_and!; [done..|]. by exists e.
Qed.

Lemma wp_send_all fuel self w :
  snd_done self = false → (length (unread (snd_file self) w) + 2 ≤ fuel)%nat →
  wp (send_all fuel self) (send_all_post self w) w.
Proof.
  revert self w. induction fuel as [|fuel IH]; intros self w Hd Hf; [lia|].
  cbn [send_all]. apply wp_bind. eapply wp_mono; [by apply wp_next_frame|].
  intros [o self1] w1 (Hi & Hp & resp & Ho & Hcase). cbn [fst snd] in *. rewrite Ho. apply wp_bind.
  destruct Hcase as [(chunk & -> & Hd1 & Hl & Hu & Hino & Hlog)|Hend].
  - rewrite Hu, length_app in Hf. eapply wp_mono; [apply IH; [done|lia]|].
    intros [frames self'] w'' (Hi' & Hp' & Hd' & chunks & last & Hfr & Hc & Hlast).
    apply wp_ret. cbn [fst snd] in *. split_and!; [congruence..|done|].
    exists (chunk :: chunks), last. split_and!; [by rewrite Hfr|by constructor|].
    cbn [mjoin list_join]. rewrite Hu. destruct Hlast as [[-> <-]|(? & [e He] & ?)]; [by left|].
    right. rewrite Hino in He. split_and!; [done| |by apply prefix_app].
    exists e. by eapply called_suffix.
  - assert (snd_done self1 = true) as Hd1 by by destruct Hend as [[]|[]].
    destruct fuel as [|fuel]; [lia|]. unfold wpp. rewrite send_all_done by done.
    split_and!; [done..|]. exists [], resp. split_and!; [done..|].
    destruct Hend as [(_ & -> & ->)|(_ & ? & ?)]; [by left|right].
    split_and!; [done..|apply prefix_nil].
Qed.

(** C4: [adb pull] sends the file.  From a new sender, [next_frame] yields
    DATA frames of between 1 and 65536 bytes each and then one last frame,
    after which the sender is done; within as many calls as the file has
    bytes left, plus two.  The last frame is DONE and the frames carry
    exactly the rest of the file, unless the system refused, in this run, to
    read it: then it is FAIL and they carry a prefix.  No file changes. *)
Theorem pull_sends_file self w fuel :
  snd_done self = false → (length (unread (snd_file self) w) + 2 ≤ fuel)%nat →
  ∃ r w', send_all fuel self w = Done (r, w') ∧ send_all_post self w r w'.
Proof. intros Hd Hf. by apply wp_total, wp_send_all. Qed.
End sender.
