(* ===== verification/SyncSession.v ===== *)
(** Theorems on whole sync sessions: what [handle] answers over a sequence of
    WRTE payloads, from the SEND request to the final OKAY, and the exact
    conditions under which a LSTAT request is answered. *)
From Stdlib Require Import ZArith Lia Strings.Byte.
From stdpp Require Import base numbers list gmap strings.
From S2P Require Import Prelude.
From S2P Require Import Bytes.
From S2P Require Import Str.
From S2P Require Import Winnow.
From S2P Require Import Os.
From S2P Require Import Sync.
From S2P Require Import SyncFacts.

Open Scope Z_scope.

#[local] Opaque receive.

(** ** The stream of a push ends with its last byte *)

Definition running (s : push_state) : Prop :=
  match s with PHeader _ | PData _ => True | PDone _ | PBad => False end.

(** The protocol is still running after every proper prefix. *)
Definition ends_exactly (s : push_state) (data : list byte) : Prop :=
  ∀ d d', data = d ++ d' → d' ≠ [] → running (push_feed s d).1.

(** It is running after every prefix. *)
Definition keeps_running (s : push_state) (data : list byte) : Prop :=
  ∀ d d', data = d ++ d' → running (push_feed s d).1.

Lemma running_push_data n : running (push_data n).
Proof. unfold push_data. by case_decide. Qed.

Lemma running_header_short d :
  (length d < HEADER_SIZE)%nat → running (push_feed (PHeader []) d).1.
Proof. intros H. rewrite push_feed_header_short by exact H. exact I. Qed.

Lemma push_feed_fst_app s d e :
  (push_feed s (d ++ e)).1 = (push_feed (push_feed s d).1 e).1.
Proof.
  rewrite push_feed_app. destruct (push_feed s d) as [s' o]. simpl. by destruct (push_feed s' e).
Qed.

Lemma ends_exactly_app s d e :
  keeps_running s d → ends_exactly (push_feed s d).1 e → ends_exactly s (d ++ e).
Proof.
  intros Hd He x x' Hx Hne. apply app_eq_inv in Hx as [(k & -> & ->)|(k & -> & ->)].
  - by eapply Hd.
  - rewrite push_feed_fst_app. by eapply He.
Qed.

Lemma ends_exactly_suffix s d e :
  ends_exactly s (d ++ e) → ends_exactly (push_feed s d).1 e.
Proof.
  intros H x x' -> Hne. rewrite <-push_feed_fst_app.
  eapply H; [|done]. by rewrite (assoc_L (++)).
Qed.

Lemma keeps_running_data_frame c :
  u32 (Z.of_nat (length c)) → keeps_running (PHeader []) (data_frame c).
Proof.
  intros Hc d d' Hd. unfold data_frame, length_prefixed in Hd.
  rewrite (assoc_L (++)) in Hd. apply app_eq_inv in Hd as [(k & Hk & ->)|(k & -> & ->)].
  - destruct k as [|b k].
    + rewrite app_nil_r in Hk. subst d.
      rewrite <-(app_nil_r (_ ++ _)), <-(assoc_L (++)).
      rewrite (push_feed_frame SyncFrameRequestId.Data) by done. simpl.
      apply running_push_data.
    + apply running_header_short. apply (f_equal length) in Hk.
      rewrite !length_app, !length_le_u32_bytes in Hk. simpl in Hk. unfold HEADER_SIZE. lia.
  - rewrite <-(assoc_L (++)).
    rewrite (push_feed_frame SyncFrameRequestId.Data) by done.
    rewrite push_feed_data by (rewrite length_app; lia). apply running_push_data.
Qed.

Lemma push_feed_data_frame c :
  u32 (Z.of_nat (length c)) → push_feed (PHeader []) (data_frame c) = (PHeader [], c).
Proof.
  intros Hc. unfold data_frame, length_prefixed.
  rewrite (push_feed_frame SyncFrameRequestId.Data) by done.
  rewrite push_feed_data by lia. by rewrite Z.sub_diag.
Qed.

Lemma encode_push_ends_exactly chunks mtime :
  Forall (λ c, u32 (Z.of_nat (length c))) chunks →
  ends_exactly (PHeader []) (encode_push chunks mtime).
Proof.
  intros Hc. unfold encode_push. induction Hc as [|c chunks Hc Hcs IH].
  - intros d d' Hd Hne. apply running_header_short. apply (f_equal length) in Hd.
    unfold done_frame in Hd. simpl in Hd.
    rewrite !length_app, !length_le_u32_bytes in Hd.
    destruct d'; [done|]. simpl in Hd. unfold HEADER_SIZE. lia.
  - rewrite bind_cons, <-(assoc_L (++)). apply ends_exactly_app.
    + by apply keeps_running_data_frame.
    + by rewrite push_feed_data_frame.
Qed.

(** ** A session over a sequence of payloads *)

Section session.
Context {E : Os} {W : Winnow}.

Fixpoint handle_all (self : SyncService) (payloads : list (list byte)) :
    M World (list SyncResult.t * SyncService) :=
  match payloads with
  | [] => mret ([], self)
  | d :: payloads =>
      '(r, self) ← handle self d;
      '(rs, self) ← handle_all self payloads;
      mret (r :: rs, self)
  end.

Definition okay_result : SyncResult.t := SyncResult.Data okay_response.1 okay_response.2.

(** In an environment that refuses nothing the file has the time sent. *)
Lemma completed_time self w w' out mtime :
  ¬ some_call_fails → completed self w w' out mtime →
  w_paths w' = w_paths w ∧
  ∃ i i', w_inodes w !! f_ino (rcv_file self) = Some i ∧
    w_inodes w' !! f_ino (rcv_file self) = Some i' ∧
    i_data i' = i_data i ++ out ∧ i_mode i' = Z.land (rcv_mode self) 0xfff ∧ i_mtime i' = mtime.
Proof.
  intros Hrel (Hp & i & i' & [n|e] & Hi & Hi' & Hd & Hm & Hc & Ht).
  - split; [done|]. by exists i, i'.
  - by destruct (Hrel (called_fails _ _ _ _ (called_last_called _ _ _ _ Hc))).
Qed.

(** In an environment that refuses nothing the answer of [receive] is
    decided by the protocol. *)
Lemma receive_post_reliable self data w res self' w' :
  ¬ some_call_fails → receive_post self data w (res, self') w' →
  (push_feed (recv_abs (rcv_state self)) data).1 ≠ PBad →
  let '(s, out) := push_feed (recv_abs (rcv_state self)) data in
  rcv_path self' = rcv_path self ∧ rcv_mode self' = rcv_mode self ∧
  match res with
  | FileReceiverResult.Continue =>
      running s ∧ recv_abs (rcv_state self') = s ∧ receiver_wf self' w' ∧
      appended w (rcv_file self) w' (rcv_file self') out
  | FileReceiverResult.Done resp =>
      ∃ mtime, s = PDone mtime ∧ resp = okay_response ∧ completed self w w' out mtime
  end.
Proof.
  intros Hrel. unfold receive_post. destruct (push_feed _ data) as [s out].
  intros (Hp & Hm & H) Hbad. split_and!; [done..|]. destruct res as [resp|].
  - destruct H as [(mtime & -> & -> & Hc)|(_ & _ & [->|(c & e & Hc & _)])]; [by exists mtime|done|].
    by destruct (Hrel (called_fails _ _ _ _ Hc)).
  - destruct H as (Hs & Hwf' & Ha). split_and!; [|done..]. rewrite <-Hs.
    destruct (rcv_state self') as [| |n]; try done. apply running_push_data.
Qed.

Lemma wp_receive_reliable self data w
    (Q : FileReceiverResult.t SyncResponse * FileReceiver → World → Prop) :
  ¬ some_call_fails → receiver_wf self w →
  (∀ self' w' s out, push_feed (recv_abs (rcv_state self)) data = (s, out) → running s →
    recv_abs (rcv_state self') = s → receiver_wf self' w' →
    rcv_path self' = rcv_path self → rcv_mode self' = rcv_mode self →
    appended w (rcv_file self) w' (rcv_file self') out →
    Q (FileReceiverResult.Continue, self') w') →
  (∀ self' w' mtime out,
    push_feed (recv_abs (rcv_state self)) data = (PDone mtime, out) →
    completed self w w' out mtime →
    Q (FileReceiverResult.Done okay_response, self') w') →
  (push_feed (recv_abs (rcv_state self)) data).1 ≠ PBad →
  wp (receive self data) Q w.
Proof.
  intros Hrel Hwf HC HD Hbad. eapply wp_mono; [by apply wp_receive|].
  intros [res self'] w' H%receive_post_reliable; [|done..].
  destruct (push_feed _ data) as [s out] eqn:Ef. destruct H as (Hp & Hm & H).
  destruct res as [resp|]; [|destruct H as (? & ? & ? & ?); by apply (HC self' w' s out)].
  destruct H as (mtime & -> & -> & Hc). by eapply HD.
Qed.

Lemma wp_handle_all_receiving ds self w mtime out :
  ¬ some_call_fails → receiver_wf self w → ds ≠ [] → Forall (λ d, d ≠ []) ds →
  ends_exactly (recv_abs (rcv_state self)) (mjoin ds) →
  push_feed (recv_abs (rcv_state self)) (mjoin ds) = (PDone mtime, out) →
  wp (handle_all (mkSyncService (SyncState.Receiving self)) ds)
    (λ r w', r = (replicate (length ds - 1) SyncResult.Continue ++ [okay_result],
                  SyncService_new) ∧ completed self w w' out mtime) w.
Proof.
  intros Hrel. revert self w out. induction ds as [|d ds IH]; [done|].
  intros self w out Hwf _ Hds Hex Hf. apply Forall_cons in Hds as [Hd Hds].
  cbn [mjoin list_join] in Hex, Hf.
  rewrite push_feed_app in Hf. destruct (push_feed _ d) as [s1 out1] eqn:Ef.
  destruct (push_feed s1 _) as [s2 out2] eqn:Ef2. injection Hf as -> <-.
  apply wp_bind. unfold handle. cbn [sync_state].
  apply wp_bind, wp_receive_reliable; [done|done| | |].
  - intros self1 w1 s out' Hf' Hrun Hs Hwf1 Hp Hm Ha. rewrite Ef in Hf'. simplify_eq.
    apply wp_ret, wp_bind. destruct ds as [|d' ds'].
    { simpl in Ef2. injection Ef2 as Hs1 _. by rewrite Hs1 in Hrun. }
    eapply wp_mono; [eapply (IH self1 w1 out2); try done|].
    + apply ends_exactly_suffix in Hex. by rewrite Ef in Hex.
    + intros r w2 [-> Hc]. apply wp_ret. split; [simpl; by rewrite Nat.sub_0_r|].
      by eapply completed_appended.
  - intros self1 w1 m out' Hf' Hc. rewrite Ef in Hf'. simplify_eq.
    destruct ds as [|d' ds'].
    + simpl in Ef2. simplify_eq. rewrite app_nil_r. apply wp_ret, wp_ret. done.
    + exfalso. specialize (Hex d (mjoin (d' :: ds')) eq_refl). rewrite Ef in Hex.
      apply Hex. cbn [mjoin list_join]. inversion Hds. by destruct d'.
  - rewrite Ef. simpl. intros ->. by rewrite push_feed_bad in Ef2.
Qed.
(** Names lead to inodes that exist. *)
Definition world_wf (w : World) : Prop :=
  ∀ p ino, w_paths w !! p = Some ino → is_Some (w_inodes w !! ino).

(** [File::create] leaves an empty file under the name. *)
Lemma wp_create_granted p n (Q : result File io_error → World → Prop) w :
  has_nul p = false → world_wf w → os_result (w_log w) (CCreate p) = Ok n →
  (∀ w' f i, f_pos f = O → w_paths w' !! p = Some (f_ino f) →
    w_inodes w' !! f_ino f = Some i → i_data i = [] → Q (Ok f) w') →
  wp (File_create p) Q w.
Proof.
  intros Hp Hw Hn HQ. unfold File_create. rewrite Hp. apply wp_bind, wp_sys. rewrite Hn.
  apply wp_bind, wp_get. cbn [w_paths w_set_log].
  destruct (w_paths w !! p) as [ino|] eqn:Ep.
  - destruct (Hw _ _ Ep) as [i Hi]. apply wp_bind, wp_put, wp_ret.
    eapply HQ; simpl; [done|done|by rewrite lookup_alter_eq, Hi|done].
  - apply wp_bind, wp_put, wp_ret.
    eapply HQ; simpl; [done|by rewrite lookup_insert_eq|by rewrite lookup_insert_eq|done].
Qed.

Lemma wp_File_create p (Q : result File io_error → World → Prop) w :
  ¬ some_call_fails → has_nul p = false → world_wf w →
  (∀ w' f i, f_pos f = O → w_paths w' !! p = Some (f_ino f) →
    w_inodes w' !! f_ino f = Some i → i_data i = [] → Q (Ok f) w') →
  wp (File_create p) Q w.
Proof.
  intros Hrel Hp Hw. destruct (os_result (w_log w) (CCreate p)) as [n|e] eqn:Er.
  - by eapply wp_create_granted.
  - destruct Hrel. by repeat eexists.
Qed.

(** The file that a finished push leaves under its name. *)
Definition pushed (p : path) (mode mtime : Z) (content : list byte) (w' : World) : Prop :=
  ∃ ino i, w_paths w' !! p = Some ino ∧ w_inodes w' !! ino = Some i ∧
    i_data i = content ∧ i_mode i = Z.land mode 0xfff ∧ i_mtime i = mtime.

Lemma completed_pushed f i p m w w' content mtime :
  ¬ some_call_fails → w_paths w !! p = Some (f_ino f) →
  w_inodes w !! f_ino f = Some i → i_data i = [] →
  completed (mkFileReceiver f p m RecvState.Header) w w' content mtime →
  pushed p m mtime content w'.
Proof.
  intros Hrel Hp Hi Hd Hc. destruct (completed_time _ _ _ _ _ Hrel Hc) as
    (Hpaths & j & j' & Hj & Hj' & Hdata & Hmode & Ht).
  simpl in *. exists (f_ino f), j'. rewrite Hpaths. simplify_eq.
  rewrite Hd in Hdata. done.
Qed.

Lemma wp_push_session p m d0 ds chunks mtime w :
  ¬ some_call_fails → world_wf w → has_nul p = false →
  request_wf (SyncPacket.SendV1 p m) → Z.of_nat (length p) ≤ 2 ^ 20 →
  Forall (λ c, u32 (Z.of_nat (length c))) chunks → u32 mtime →
  d0 ++ mjoin ds = encode_push chunks mtime → Forall (λ d, d ≠ []) ds →
  wp (handle_all SyncService_new ((encode_request (SyncPacket.SendV1 p m) ++ d0) :: ds))
    (λ r w', r = (replicate (length ds) SyncResult.Continue ++ [okay_result], SyncService_new) ∧
      pushed p m mtime (mjoin chunks) w') w.
Proof.
  intros Hrel Hw Hnul Hwf Hlen Hc Hm Hd Hds.
  pose proof (encode_push_ends_exactly chunks mtime Hc) as Hex. rewrite <-Hd in Hex.
  pose proof (push_feed_encode chunks mtime Hc Hm) as Hf. rewrite <-Hd in Hf.
  apply wp_bind. unfold handle. cbn [sync_state SyncService_new]. unfold handle_request.
  rewrite parse_encode_request by done. unfold handle_send_v1.
  apply wp_bind, wp_File_create; [done..|]. intros w1 f i Hpos Hpath Hino Hdata.
  set (rcv := mkFileReceiver f p m RecvState.Header).
  assert (receiver_wf rcv w1) as Hrcv.
  { split; [done| |done|done]. exists i. simpl. by rewrite Hpos, Hdata. }
  assert (∀ ds', ds' ≠ [] → Forall (λ d, d ≠ []) ds' → mjoin ds' = d0 ++ mjoin ds →
    wp (handle_all (mkSyncService (SyncState.Receiving rcv)) ds')
      (λ r w', r = (replicate (length ds' - 1) SyncResult.Continue ++ [okay_result],
          SyncService_new) ∧ pushed p m mtime (mjoin chunks) w') w1) as Hrun.
  { intros ds' Hne Hds' Hj. eapply wp_mono.
    - apply (wp_handle_all_receiving ds' rcv w1 mtime (mjoin chunks)); try done;
        simpl; by rewrite Hj.
    - intros r w' [-> Hcomp]. split; [done|]. by eapply completed_pushed. }
  destruct d0 as [|b d0].
  - apply wp_ret, wp_bind. destruct ds as [|d ds].
    { simpl in Hd. apply (f_equal length) in Hd. unfold encode_push, done_frame in Hd.
      rewrite !length_app, !length_le_u32_bytes in Hd. simpl in Hd. lia. }
    eapply wp_mono; [by apply (Hrun (d :: ds))|]. intros r w' [-> ?]. apply wp_ret.
    split; [|done]. simpl. by rewrite Nat.sub_0_r.
  - specialize (Hrun ((b :: d0) :: ds) ltac:(done) ltac:(by constructor) eq_refl).
    cbn [handle_all] in Hrun. apply wp_bind_inv in Hrun.
    eapply wp_ext; [|eapply wp_mono; [exact Hrun|]].
    + unfold handle, mbind, M_bind. cbn [sync_state].
      by destruct (receive rcv (b :: d0) w1) as [[[[[hdr payload]|] rcv'] w2]|].
    + intros [r svc] w2 H. apply wp_bind_inv in H. apply wp_bind.
      eapply wp_mono; [exact H|]. intros [rs svc'] w3 H3. apply wp_ret.
      cbn [length] in H3. by rewrite Nat.sub_succ, Nat.sub_0_r in H3.
Qed.

(** C2: a whole [adb push] session.  In an environment that refuses nothing,
    a SEND request (with any first part [d0] of the data behind it in the
    same payload) followed by payloads [ds] that carry the rest of the data
    frames, cut anywhere, is answered by nothing until the last payload and
    then by OKAY; the session is idle again, and the file has, under the name
    sent, the exact contents, the permissions and the modification time that
    the host sent. *)
Theorem push_session p m d0 ds chunks mtime w :
  ¬ some_call_fails → world_wf w → has_nul p = false →
  request_wf (SyncPacket.SendV1 p m) → Z.of_nat (length p) ≤ 2 ^ 20 →
  Forall (λ c, u32 (Z.of_nat (length c))) chunks → u32 mtime →
  d0 ++ mjoin ds = encode_push chunks mtime → Forall (λ d, d ≠ []) ds →
  ∃ w', handle_all SyncService_new
          ((encode_request (SyncPacket.SendV1 p m) ++ d0) :: ds) w =
        Done ((replicate (length ds) SyncResult.Continue ++ [okay_result], SyncService_new), w')
    ∧ pushed p m mtime (mjoin chunks) w'.
Proof.
  intros Hrel Hw Hnul Hwf Hlen Hc Hm Hd Hds.
  destruct (proj1 (wp_total _ _ _)
    (wp_push_session p m d0 ds chunks mtime w Hrel Hw Hnul Hwf Hlen Hc Hm Hd Hds))
    as (r & w' & -> & -> & ?). eauto.
Qed.
End session.

(** ** A push that is refused *)

Section refused.
Context {E : Os} {W : Winnow}.

(** [File::create] when the system refuses it. *)
Lemma wp_create_refused p e (Q : result File io_error → World → Prop) w :
  has_nul p = false → os_result (w_log w) (CCreate p) = Err e →
  Q (Err e) (w_set_log (cons (CCreate p)) w) → wp (File_create p) Q w.
Proof.
  intros Hp He HQ. unfold File_create. rewrite Hp. apply wp_bind, wp_sys. rewrite He.
  by apply wp_ret.
Qed.

(** C35: the data of a refused push are taken for requests.  When the system
    refuses to create the file of a push, the session answers FAIL and is
    idle, but the host's next payload, which carries more data of the same
    push, is parsed as a request: if the data say SEND, an existing file is
    emptied, or a new one made, under the name in the data. *)
Theorem refused_push_data_executed p0 m0 d0 e p m n w :
  request_wf (SyncPacket.SendV1 p0 m0) → Z.of_nat (length p0) ≤ 2 ^ 20 → has_nul p0 = false →
  request_wf (SyncPacket.SendV1 p m) → has_nul p = false → world_wf w →
  os_result (w_log w) (CCreate p0) = Err e →
  os_result (CCreate p0 :: w_log w) (CCreate p) = Ok n →
  ∃ resp svc w',
    handle_all SyncService_new
      [encode_request (SyncPacket.SendV1 p0 m0) ++ d0; encode_request (SyncPacket.SendV1 p m)] w =
      Done (([SyncResult.Data resp.1 resp.2; SyncResult.Continue], svc), w') ∧
    resp_id resp.1 = SyncFrameResponseId.Fail ∧
    ∃ ino i, w_paths w' !! p = Some ino ∧ w_inodes w' !! ino = Some i ∧ i_data i = [].
Proof.
  intros Hwf0 Hl0 Hn0 Hwf Hn Hw He Hok.
  assert (wp (handle_all SyncService_new
      [encode_request (SyncPacket.SendV1 p0 m0) ++ d0; encode_request (SyncPacket.SendV1 p m)])
    (λ r w', ∃ resp svc, r = ([SyncResult.Data resp.1 resp.2; SyncResult.Continue], svc) ∧
      resp_id resp.1 = SyncFrameResponseId.Fail ∧
      ∃ ino i, w_paths w' !! p = Some ino ∧ w_inodes w' !! ino = Some i ∧ i_data i = []) w) as H.
  2: { apply wp_total in H as (r & w' & Hrun & resp & svc & -> & H). by exists resp, svc, w'. }
  cbn [handle_all]. apply wp_bind. unfold handle at 1. cbn [sync_state SyncService_new].
  unfold handle_request. rewrite parse_encode_request by done. unfold handle_send_v1 at 1.
  apply wp_bind. eapply wp_create_refused; [done..|]. apply wp_bind, wp_fail_response.
  { pose proof (io_error_fmt_length e (os_result_short _ _ _ He)). rewrite !length_app.
    pose proof (from_utf8_lossy_length p0). unfold path_display.
    change (length (lit "cannot create ")) with 14%nat. change (length (lit ": ")) with 2%nat. lia. }
  intros [hdr msg] Hfail. apply wp_ret, wp_bind, wp_bind.
  unfold handle. cbn [sync_state SyncService_new]. unfold handle_request.
  rewrite <-(app_nil_r (encode_request _)), parse_encode_request by done. unfold handle_send_v1.
  apply wp_bind. eapply wp_create_granted; [done..|]. intros w' f i _ Hp Hi Hd.
  apply wp_ret, wp_bind, wp_ret, wp_ret, wp_ret. exists (hdr, msg). eexists. split; [done|].
  split; [done|]. by exists (f_ino f), i.
Qed.
End refused.

(** ** LSTAT *)

Section lstat.
Context {E : Os}.

(** C36: the answer to LSTAT, exactly: when the system knows the path, the
    answer has its mode, size and time if and only if the size is below 4 GiB
    and the time is a [u32]; for any other existing file -- one of 4 GiB or
    more, one dated before 1970 or after 2106 -- the daemon panics instead of
    answering. *)
Theorem lstat_answers_or_panics p w n :
  has_nul p = false → os_result (w_log w) (CSymlinkMetadata p) = Ok n →
  let meta := os_metadata (w_log w) p in
  if decide (u32 (m_size meta) ∧ u32 (m_mtime meta)) then
    handle_lstat_v1 p w =
      Done (SyncResult.Stat (mkSyncStat ID_LSTAT_V1 (m_mode meta) (m_size meta) (m_mtime meta)),
            w_set_log (cons (CSymlinkMetadata p)) w)
  else
    handle_lstat_v1 p w =
      Panicked (Expect (if decide (u32 (m_size meta)) then "File modified in 2038 or after"
                        else "File too large for 32-bits")).
Proof.
  intros Hp Hr meta. unfold handle_lstat_v1, symlink_metadata. rewrite Hp.
  unfold sys, mbind, M_bind, getM, putM, mret, M_ret. rewrite Hr. fold meta.
  unfold u32_try_from, u32.
  destruct (decide (0 ≤ m_size meta < 2 ^ 32)) as [Hs|Hs]; cbn.
  - destruct (decide (0 ≤ m_mtime meta < 2 ^ 32)) as [Ht|Ht]; cbn.
    + by rewrite decide_True by done.
    + by rewrite decide_False by tauto.
  - by rewrite decide_False by tauto.
Qed.

(** A path the system refuses gets the all-zero answer. *)
Lemma lstat_unknown p w e :
  has_nul p = false → os_result (w_log w) (CSymlinkMetadata p) = Err e →
  handle_lstat_v1 p w = Done (SyncResult.Stat (mkSyncStat ID_LSTAT_V1 0 0 0),
                              w_set_log (cons (CSymlinkMetadata p)) w).
Proof.
  intros Hp Hr. unfold handle_lstat_v1, symlink_metadata. rewrite Hp.
  unfold sys, mbind, M_bind, getM, putM, mret, M_ret. by rewrite Hr.
Qed.
End lstat.

(** ** Closed examples *)

(** A file of 5 GiB. *)
#[refine] Instance os_large : Os := {|
  os_result := @os_result os_plain;
  os_partial _ := 0%nat;
  os_data _ := [];
  os_metadata _ _ := mkMetadata 33188 (5 * 2 ^ 30) 1700000000;
  os_create_mode := 420;
  os_now _ := 1700000000;
  strerror _ := lit "error";
|}.
Proof.
  - intros _. vm_compute. lia.
  - done.
  - intros _ _. vm_compute. intuition discriminate.
Defined.

Lemma lstat_answers_or_panics_witness :
  @os_result os_large [] (CSymlinkMetadata (bstr "/big")) = Ok 1000000 ∧
  @handle_lstat_v1 os_large (bstr "/big") world_empty =
    Panicked (Expect "File too large for 32-bits").
Proof.
  split; [reflexivity|].
  apply (@lstat_answers_or_panics os_large (bstr "/big") world_empty 1000000).
  - vm_compute. reflexivity.
  - reflexivity.
Defined.

Lemma os_plain_never_fails : ¬ @some_call_fails os_plain.
Proof. by intros (h & c & e & H). Qed.

Definition example_path : path := bstr "/tmp/f".
Definition example_chunks : list (list byte) := [bstr "hello "; []; bstr "world"].
Definition example_stream : list byte := encode_push example_chunks 1700000000.

(** The stream is cut inside a header and inside a chunk. *)
Lemma push_session_witness :
  ∃ w', @handle_all os_plain winnow_doc SyncService_new
          ((encode_request (SyncPacket.SendV1 example_path 33188) ++ take 3 example_stream)
           :: [take 8 (drop 3 example_stream); drop 11 example_stream]) world_empty =
        Done (([SyncResult.Continue; SyncResult.Continue; okay_result], SyncService_new), w')
    ∧ pushed example_path 33188 1700000000 (bstr "hello world") w'.
Proof.
  apply (@push_session os_plain winnow_doc example_path 33188 (take 3 example_stream)
    [take 8 (drop 3 example_stream); drop 11 example_stream] example_chunks 1700000000
    world_empty).
  - exact os_plain_never_fails.
  - intros p ino H. discriminate H.
  - vm_compute. reflexivity.
  - simpl. split_and!; try (vm_compute; intuition discriminate).
    apply (bool_decide_unpack _). vm_compute. exact I.
  - vm_compute. discriminate.
  - repeat constructor; vm_compute; intuition discriminate.
  - vm_compute. intuition discriminate.
  - vm_compute. reflexivity.
  - repeat constructor; vm_compute; discriminate.
Defined.

(** A new receiver for an empty file, and a sender at the start of a file. *)
Definition example_world (content : list byte) : World :=
  mkWorld [] {[ example_path := 0%nat ]} {[ 0%nat := mkInode content 420 0 ]} ∅ 1.
Definition example_receiver : FileReceiver :=
  mkFileReceiver (mkFile 0 0) example_path 33188 RecvState.Header.
Definition example_sender : FileSender := mkFileSender (mkFile 0 0) false.

Lemma example_receiver_wf : receiver_wf example_receiver (example_world []).
Proof. split; [done|by exists (mkInode [] 420 0)|done|vm_compute; discriminate]. Qed.

Lemma receive_refines_witness :
  ∃ r w', @receive os_plain winnow_doc example_receiver (bstr "DATA") (example_world []) =
            Done (r, w') ∧
          @receive_post os_plain example_receiver (bstr "DATA") (example_world []) r w'.
Proof.
  apply (@receive_refines os_plain winnow_doc example_receiver (bstr "DATA") (example_world [])).
  exact example_receiver_wf.
Defined.

Lemma push_any_chunking_witness :
  ∃ resp self' w',
    @receive_all os_plain winnow_doc example_receiver
      [take 5 example_stream; drop 5 example_stream] (example_world []) =
      Done ((FileReceiverResult.Done resp, self'), w') ∧
    ((resp = okay_response ∧
      @completed os_plain example_receiver (example_world []) w' (mjoin example_chunks)
        1700000000) ∨
     (resp_id resp.1 = SyncFrameResponseId.Fail ∧
      @aborted os_plain example_path (example_world []) w' ∧
      @write_refused os_plain (mkFile 0 0) (example_world []) w')).
Proof.
  apply (@push_any_chunking os_plain winnow_doc example_receiver (example_world [])
    [take 5 example_stream; drop 5 example_stream] example_chunks 1700000000).
  - exact example_receiver_wf.
  - reflexivity.
  - repeat constructor; vm_compute; intuition discriminate.
  - vm_compute. intuition discriminate.
  - vm_compute. reflexivity.
Defined.

Lemma pull_sends_file_witness :
  ∃ r w', @send_all os_plain 5 example_sender (example_world (bstr "abc")) = Done (r, w') ∧
    @send_all_post os_plain example_sender (example_world (bstr "abc")) r w'.
Proof.
  apply (@pull_sends_file os_plain example_sender (example_world (bstr "abc")) 5).
  - reflexivity.
  - vm_compute. lia.
Defined.

(** A system that refuses to create /ro/f. *)
#[refine] Instance os_refusing : Os := {|
  os_result _ c :=
    match c with
    | CCreate p => if decide (p = bstr "/ro/f") then Err (OsError 30) else Ok 7
    | _ => Ok 7
    end;
  os_partial _ := 0%nat;
  os_data _ := [];
  os_metadata _ _ := mkMetadata 33188 5 1700000000;
  os_create_mode := 420;
  os_now _ := 1700000000;
  strerror _ := lit "Read-only file system";
|}.
Proof.
  - intros _. vm_compute. lia.
  - intros h c e. destruct c; simpl; repeat case_decide; try done. by intros [= <-].
  - intros _ _. vm_compute. intuition discriminate.
Defined.

Lemma refused_push_data_executed_witness :
  ∃ resp svc w',
    @handle_all os_refusing winnow_doc SyncService_new
      [encode_request (SyncPacket.SendV1 (bstr "/ro/f") 33188) ++ bstr "DATA";
       encode_request (SyncPacket.SendV1 (bstr "/tmp/g") 33188)] world_empty =
      Done (([SyncResult.Data resp.1 resp.2; SyncResult.Continue], svc), w') ∧
    resp_id resp.1 = SyncFrameResponseId.Fail ∧
    ∃ ino i, w_paths w' !! bstr "/tmp/g" = Some ino ∧ w_inodes w' !! ino = Some i ∧ i_data i = [].
Proof.
  assert (∀ p, p = bstr "/ro/f" ∨ p = bstr "/tmp/g" → request_wf (SyncPacket.SendV1 p 33188)) as Hwf.
  { intros p [->| ->]; simpl; split_and!; try (vm_compute; intuition discriminate);
      apply (bool_decide_unpack _); vm_compute; exact I. }
  apply (@refused_push_data_executed os_refusing winnow_doc (bstr "/ro/f") 33188 (bstr "DATA")
    (OsError 30) (bstr "/tmp/g") 33188 7 world_empty).
  - apply Hwf. by left.
  - vm_compute. discriminate.
  - vm_compute. reflexivity.
  - apply Hwf. by right.
  - vm_compute. reflexivity.
  - intros p ino H. discriminate H.
  - vm_compute. reflexivity.
  - vm_compute. reflexivity.
Defined.
