(* ===== verification/Shell.v ===== *)
(** The shell service (src/src/shell.rs): a child on a pseudo-terminal.  The
    terminal and process calls are calls of the environment; what is modelled
    is their order, the early return on each failure, and the descriptors,
    the read buffer and the child that the service owns and its destructor
    releases. *)
From Stdlib Require Import ZArith Lia Strings.Byte.
From stdpp Require Import base numbers list gmap strings.
From S2P Require Import Prelude.
From S2P Require Import Bytes.
From S2P Require Import Str.
From S2P Require Import Os.

Open Scope Z_scope.

Definition PTY_READ_BUF_SIZE : nat := 4096.

(** [Vec<u8>] used only through its pointer and capacity. *)
Record ReadBuf : Type := mkReadBuf { rb_ptr : nat; rb_capacity : nat }.

Record ShellService : Type := mkShellService {
  sh_master : Z;
  sh_child : Z;
  sh_read_buf : ReadBuf;
}.

Section shell.
Context {E : Os}.

(** Dropping an [OwnedFd] (or a [Stdio] or [File] that owns one). *)
Definition close_fd (fd : Z) : M World unit := _ ← sys (CClose fd); mret tt.

Fixpoint close_fds (fds : list Z) : M World unit :=
  match fds with [] => mret tt | fd :: fds => close_fd fd;; close_fds fds end.

(** [?] on a call: on failure the owned descriptors are dropped and the
    error is returned. *)
Definition try_call {A} (c : Call) (owned : list Z)
    (k : Z → M World (result A io_error)) : M World (result A io_error) :=
  r ← sys c;
  match r with
  | Err e => close_fds owned;; mret (Err e)
  | Ok v => k v
  end.

(** The arguments of [/bin/sh]. *)
Definition shell_args (command : option str) : list str :=
  match command with Some c => [lit "-c"; c] | None => [] end.

Definition spawn (command : option str) : M World (result ShellService io_error) :=
  try_call COpenpt [] (λ master_fd,
  try_call (CGrantpt master_fd) [master_fd] (λ _,
  try_call (CUnlockpt master_fd) [master_fd] (λ _,
  try_call (CTiocgptpeer master_fd) [master_fd] (λ slave_fd,
  try_call (CTryClone slave_fd) [slave_fd; master_fd] (λ stdin,
  try_call (CTryClone slave_fd) [stdin; slave_fd; master_fd] (λ stdout,
  let stderr := slave_fd in
  try_call (CSpawn (lit "/bin/sh") (shell_args command)) [stdin; stdout; stderr; master_fd]
    (λ child,
  ptr ← heap_alloc PTY_READ_BUF_SIZE;
  close_fds [stdin; stdout; stderr];;
  mret (Ok (mkShellService master_fd child (mkReadBuf ptr PTY_READ_BUF_SIZE)))))))))).

Definition master_raw_fd (self : ShellService) : Z := sh_master self.
Definition shell_read_buf_ptr (self : ShellService) : nat := rb_ptr (sh_read_buf self).

Definition shell_read_buf_capacity {S} (self : ShellService) : M S Z :=
  expectM (u32_try_from (Z.of_nat (rb_capacity (sh_read_buf self))))
    "PTY read buffer fits in u32".

Definition shell_read_buf_data (self : ShellService) (len : nat) : M World (list byte) :=
  heap_read (rb_ptr (sh_read_buf self)) len.

(** [write_all] on the terminal; an empty slice makes no call. *)
Definition shell_write_input (self : ShellService) (data : list byte) :
    M World (result unit io_error) :=
  match data with
  | [] => mret (Ok tt)
  | _ =>
      r ← sys (CWriteAllFd (sh_master self) data);
      mret (match r with Ok _ => Ok tt | Err e => Err e end)
  end.

(** [Drop], then the fields. *)
Definition shell_drop (self : ShellService) : M World unit :=
  _ ← sys (CKill (sh_child self));
  _ ← sys (CWait (sh_child self));
  close_fd (sh_master self);;
  heap_free (rb_ptr (sh_read_buf self)).

(** ** Descriptors are not leaked *)

Fixpoint remove_fd (fd : Z) (l : list Z) : list Z :=
  match l with
  | [] => []
  | x :: l => if decide (x = fd) then l else x :: remove_fd fd l
  end.

(** Descriptors opened and not closed in a history. *)
Fixpoint live_fds (h : list Call) : list Z :=
  match h with
  | [] => []
  | c :: h =>
      match c with
      | COpenpt | CTiocgptpeer _ | CTryClone _
      | CConnectTcp _ _ | CConnectAbstract _ | CConnectPath _ =>
          match os_result h c with Ok fd => fd :: live_fds h | Err _ => live_fds h end
      | CClose fd => remove_fd fd (live_fds h)
      | _ => live_fds h
      end
  end.

(** The calls that return a descriptor, and what POSIX says of it: it is one
    that is not open. *)
Definition opens_fd (c : Call) : bool :=
  match c with
  | COpenpt | CTiocgptpeer _ | CTryClone _
  | CConnectTcp _ _ | CConnectAbstract _ | CConnectPath _ => true
  | _ => false
  end.

Definition fresh_fds : Prop :=
  ∀ h c fd, opens_fd c = true → os_result h c = Ok fd → fd ∉ live_fds h.

Lemma remove_fd_sublist fd l : remove_fd fd l `sublist_of` l.
Proof.
  induction l as [|x l IH]; [done|]. cbn [remove_fd]. case_decide.
  - by apply sublist_cons.
  - by apply sublist_skip.
Qed.

Lemma live_fds_step c h :
  live_fds (c :: h) `sublist_of` live_fds h ∨
  opens_fd c = true ∧ ∃ fd, os_result h c = Ok fd ∧ live_fds (c :: h) = fd :: live_fds h.
Proof.
  destruct c; cbn [live_fds opens_fd]; try (by left); try (destruct (os_result h _) eqn:Hr; [right; eauto|by left]).
  left. apply remove_fd_sublist.
Qed.

(** No number is given out twice. *)
Lemma live_fds_distinct c h : fresh_fds → NoDup (live_fds h) → NoDup (live_fds (c :: h)).
Proof.
  intros Hf Hd. destruct (live_fds_step c h) as [Hs|(Ho & fd & Hr & ->)].
  - by eapply sublist_NoDup.
  - constructor; [by eapply Hf|done].
Qed.

Lemma remove_fd_permutation fd l l' : l ≡ₚ fd :: l' → remove_fd fd l ≡ₚ l'.
Proof.
  revert l'. induction l as [|x l IH]; intros l' Hl.
  - by apply Permutation_nil_cons in Hl.
  - simpl. case_decide as Hx; [subst; by apply Permutation_cons_inv in Hl|].
    assert (x ∈ l') as [l1 [l2 ->]]%list_elem_of_split.
    { assert (x ∈ fd :: l') as Hin by (rewrite <-Hl; left).
      by apply elem_of_cons in Hin as [|]. }
    rewrite <-Permutation_middle. constructor. apply IH.
    apply (Permutation_cons_inv (a := x)). rewrite Hl.
    rewrite <-Permutation_middle. apply Permutation_swap.
Qed.

Context (φ : panic → Prop).

Lemma wp_close_fds fds l (Q : unit → World → Prop) w :
  live_fds (w_log w) ≡ₚ fds ++ l →
  (∀ w', live_fds (w_log w') ≡ₚ l → w_heap w' = w_heap w → w_next w' = w_next w →
    w_log w' = reverse (CClose <$> fds) ++ w_log w → Q tt w') →
  wpp φ (close_fds fds) Q w.
Proof.
  revert w. induction fds as [|fd fds IH]; intros w Hl HQ; [by apply wp_ret, HQ|].
  apply wp_bind, wp_bind, wp_sys, wp_ret. apply IH; [by apply remove_fd_permutation|].
  intros w' Hl' Hh Hn Hlog. apply HQ; [done..|]. rewrite Hlog, fmap_cons, reverse_cons.
  by rewrite <-(assoc_L (++)).
Qed.

Lemma wp_try_call {A} c owned l (k : Z → M World (result A io_error))
    (Q : result A io_error → World → Prop) w :
  live_fds (w_log w) ≡ₚ owned ++ l →
  (∀ w' e, live_fds (w_log w') ≡ₚ l → w_heap w' = w_heap w → w_next w' = w_next w →
    called w w' c (Err e) → Q (Err e) w') →
  (∀ v, os_result (w_log w) c = Ok v → wpp φ (k v) Q (w_set_log (cons c) w)) →
  (∀ e, os_result (w_log w) c = Err e → live_fds (c :: w_log w) = live_fds (w_log w)) →
  wpp φ (try_call c owned k) Q w.
Proof.
  intros Hl HErr HOk Hsame. apply wp_bind, wp_sys.
  destruct (os_result (w_log w) c) as [v|e] eqn:Er; [by apply HOk|].
  apply wp_bind, (wp_close_fds owned l).
  { cbn [w_log w_set_log]. by rewrite (Hsame e). }
  intros w' Hw' Hh Hn Hlog. apply wp_ret, HErr; [done..|]. eexists _, (w_log w). by split_and!.
Qed.

(** What the system is asked for to start a shell: a terminal, its two sides,
    and the process; it runs the command, if there is one, and is interactive
    otherwise. *)
Definition shell_call (command : option str) (c : Call) : Prop :=
  match c with
  | COpenpt | CGrantpt _ | CUnlockpt _ | CTiocgptpeer _ | CTryClone _ => True
  | CSpawn program args =>
      program = lit "/bin/sh" ∧
      args = match command with Some cmd => [lit "-c"; cmd] | None => [] end
  | _ => False
  end.

(** One of these calls was refused. *)
Definition shell_refused (command : option str) (w w' : World) : Prop :=
  ∃ c e, shell_call command c ∧ called w w' c (Err e).

(** The calls that start a shell, all of them: the terminal is opened and
    unlocked, the process gets the other side of it three times, and these
    three descriptors are closed.  The service has what two of them
    returned. *)
Definition shell_started (command : option str) (s : ShellService) (w w' : World) : Prop :=
  let m := sh_master s in
  let args := match command with Some cmd => [lit "-c"; cmd] | None => [] end in
  (∃ tty stdin stdout, w_log w' =
    reverse [COpenpt; CGrantpt m; CUnlockpt m; CTiocgptpeer m; CTryClone tty; CTryClone tty;
             CSpawn (lit "/bin/sh") args; CClose stdin; CClose stdout; CClose tty] ++ w_log w) ∧
  called w w' COpenpt (Ok m) ∧ called w w' (CSpawn (lit "/bin/sh") args) (Ok (sh_child s)).

#[local] Opaque PTY_READ_BUF_SIZE.

Lemma wp_spawn command (Q : result ShellService io_error → World → Prop) w :
  (∀ w' e, live_fds (w_log w') ≡ₚ live_fds (w_log w) → w_heap w' = w_heap w →
    w_next w' = w_next w → shell_refused command w w' → Q (Err e) w') →
  (∀ w' s, live_fds (w_log w') ≡ₚ sh_master s :: live_fds (w_log w) →
    w_heap w' = <[rb_ptr (sh_read_buf s) := replicate PTY_READ_BUF_SIZE "000"%byte]> (w_heap w) →
    w_next w' = S (w_next w) → rb_ptr (sh_read_buf s) = w_next w →
    rb_capacity (sh_read_buf s) = PTY_READ_BUF_SIZE → shell_started command s w w' →
    Q (Ok s) w') →
  wpp φ (spawn command) Q w.
Proof.
  intros HErr HOk. set (l := live_fds (w_log w)) in *. unfold spawn.
  assert (∀ w0 c, w_log w `suffix_of` w_log w0 → w_heap w0 = w_heap w → w_next w0 = w_next w →
    shell_call command c → ∀ w' e, live_fds (w_log w') ≡ₚ l → w_heap w' = w_heap w0 →
    w_next w' = w_next w0 → called w0 w' c (Err e) → Q (Err e) w') as HE.
  { intros w0 c Hs Hh Hn Hc w' e Hl Hh' Hn' He. apply HErr; [done|congruence..|].
    exists c, e. split; [done|]. by eapply called_suffix. }
  apply (wp_try_call _ _ l); [done|by apply HE| |by intros e He; simpl; rewrite He].
  intros m Hm. apply (wp_try_call _ _ l); [simpl; by rewrite Hm|by apply HE; [solve_suffix|..]| |done].
  intros r1 _. apply (wp_try_call _ _ l); [simpl; by rewrite Hm|by apply HE; [solve_suffix|..]| |done].
  intros r2 _. apply (wp_try_call _ _ l); [simpl; by rewrite Hm|by apply HE; [solve_suffix|..]| |
    by intros e He; simpl in *; rewrite He].
  intros sl Hsl. apply (wp_try_call _ _ l);
    [simpl in *; by rewrite Hsl, Hm|by apply HE; [solve_suffix|..]| |
    by intros e He; simpl in *; rewrite He].
  intros si Hsi. apply (wp_try_call _ _ l);
    [simpl in *; by rewrite Hsi, Hsl, Hm|by apply HE; [solve_suffix|..]| |
    by intros e He; simpl in *; rewrite He].
  intros so Hso. simpl in Hsl, Hsi, Hso. apply (wp_try_call _ _ l).
  { simpl. rewrite Hso, Hsi, Hsl, Hm. fold l. apply Permutation_swap. }
  { by apply HE; [solve_suffix|..]. } 2: done.
  intros child Hchild. apply wp_bind, wp_heap_alloc, wp_bind.
  apply (wp_close_fds _ (m :: l)).
  { simpl. rewrite Hso, Hsi, Hsl, Hm. fold l. apply Permutation_swap. }
  intros w' Hl Hh Hn Hlog. apply wp_ret, HOk; [done|exact Hh|exact Hn|done|done|].
  cbn in Hlog. split_and!; cbn [sh_master sh_child].
  - by exists sl, si, so.
  - eexists [_; _; _; _; _; _; _; _; _], (w_log w). by rewrite Hlog.
  - eexists [_; _; _], _. rewrite Hlog. split_and!; [done|solve_suffix|exact Hchild].
Qed.

End shell.

(** What does not concern the services' resources: the heap is as it was, and
    so are the open descriptors. *)
Record keeps {E : Os} (w w' : World) : Prop := {
  keeps_heap : w_heap w' = w_heap w;
  keeps_fds : live_fds (w_log w') = live_fds (w_log w);
  keeps_next : (w_next w ≤ w_next w')%nat;
}.

#[export] Instance keeps_preorder {E : Os} : PreOrder keeps.
Proof.
  split; [by intros w; split|].
  intros w1 w2 w3 [H1 F1 N1] [H2 F2 N2]. split; [congruence..|lia].
Qed.

Lemma keeps_call {E : Os} c w :
  live_fds (c :: w_log w) = live_fds (w_log w) → keeps w (w_set_log (cons c) w).
Proof. by split. Qed.

Section shell_facts.
Context {E : Os}.

(** [ShellService::spawn] does not leak descriptors: on every failure of
    a terminal or process call all the descriptors it had opened are closed
    again, and on success exactly one is left open, the master, which the
    service owns. *)
Theorem spawn_no_fd_leak command w :
  ∃ r w', spawn command w = Done (r, w') ∧
    live_fds (w_log w') ≡ₚ
      match r with Ok s => [sh_master s] | Err _ => [] end ++ live_fds (w_log w).
Proof.
  apply (wp_total (spawn command) (λ r w', live_fds (w_log w') ≡ₚ
    match r with Ok s => [sh_master s] | Err _ => [] end ++ live_fds (w_log w))).
  apply wp_spawn; [intros w' e H _ _ _; exact H|intros w' s H _ _ _ _ _; exact H].
Qed.
End shell_facts.
