(* ===== verification/Forward.v ===== *)
(** The forwarding service (src/src/forward.rs): a socket connected to the
    destination of [adb forward].  [write_input] is a loop over partial
    writes; its fuel is the length of the data, which the loop never exceeds
    as long as a write of a non-empty buffer takes at least one byte. *)
From Stdlib Require Import ZArith Lia Strings.Byte.
From stdpp Require Import base numbers list gmap strings.
From S2P Require Import Prelude.
From S2P Require Import Bytes.
From S2P Require Import Str.
From S2P Require Import Os.
From S2P Require Import Shell.

Open Scope Z_scope.

Definition SOCKET_READ_BUF_SIZE : nat := 4096.

Record ForwardService : Type := mkForwardService {
  fwd_socket : Z;
  fwd_read_buf : ReadBuf;
}.

(** [sizeof(sun_path)]. *)
Definition SUN_PATH_LEN : nat := 108.

Section forward.
Context {E : Os}.

(** [SocketAddr::from_abstract_name] and [UnixStream::connect_addr]. *)
Definition connect_abstract (name : str) : M World (result Z io_error) :=
  let addr := str_bytes name in
  if decide (SUN_PATH_LEN < length addr + 1)%nat then
    mret (Err (SimpleMessage "abstract socket name must be shorter than SUN_LEN"))
  else sys (CConnectAbstract addr).

(** [UnixStream::connect]. *)
Definition connect_path (p : str) : M World (result Z io_error) :=
  let addr := str_bytes p in
  if has_nul addr then
    mret (Err (SimpleMessage "paths must not contain interior null bytes"))
  else if decide (SUN_PATH_LEN ≤ length addr)%nat then
    mret (Err (SimpleMessage "path must be shorter than SUN_LEN"))
  else sys (CConnectPath addr).

(** The socket of a destination. *)
Definition connect_socket (destination : str) : M World (result Z io_error) :=
  match strip_prefix (lit "tcp:") destination with
  | Some port_str =>
      match parse_u16 port_str with
      | None => mret (Err (SimpleMessage "invalid port"))
      | Some port => sys (CConnectTcp (lit "127.0.0.1") port)
      end
  | None =>
      match strip_prefix (lit "localabstract:") destination with
      | Some name => connect_abstract name
      | None =>
          match strip_prefix (lit "localfilesystem:") destination with
          | Some p => connect_path p
          | None => mret (Err (SimpleMessage "unsupported forward destination"))
          end
      end
  end.

Definition connect (destination : str) : M World (result ForwardService io_error) :=
  r ← connect_socket destination;
  match r with
  | Err e => mret (Err e)
  | Ok socket =>
      ptr ← heap_alloc SOCKET_READ_BUF_SIZE;
      mret (Ok (mkForwardService socket (mkReadBuf ptr SOCKET_READ_BUF_SIZE)))
  end.

Definition forward_read_buf_ptr (self : ForwardService) : nat := rb_ptr (fwd_read_buf self).

Definition forward_read_buf_capacity {S} (self : ForwardService) : M S Z :=
  expectM (u32_try_from (Z.of_nat (rb_capacity (fwd_read_buf self))))
    "socket read buffer fits in u32".

Definition forward_read_buf_data (self : ForwardService) (len : nat) :
    M World (list byte) :=
  heap_read (rb_ptr (fwd_read_buf self)) len.

Definition shutdown_write (self : ForwardService) : M World (result unit io_error) :=
  r ← sys (CShutdownWrite (fwd_socket self));
  mret (match r with Ok _ => Ok tt | Err e => Err e end).

(** The loop of [write_input]; [rest] is [&data[written..]]. *)
Fixpoint write_loop (fuel : nat) (fd : Z) (rest : list byte) :
    M World (result unit io_error) :=
  match rest, fuel with
  | [], _ => mret (Ok tt)
  | _, O => panicM OutOfFuel
  | _, S fuel =>
      r ← sys (CWriteFd fd rest);
      match r with
      | Err e => mret (Err e)
      | Ok n => write_loop fuel fd (drop (Z.to_nat n) rest)
      end
  end.

(** [AsRawFd]. *)
Definition forward_as_raw_fd (self : ForwardService) : Z := fwd_socket self.

Definition forward_write_input (self : ForwardService) (data : list byte) :
    M World (result unit io_error) :=
  write_loop (length data) (fwd_socket self) data.

(** Dropping the fields: the socket is closed and the buffer freed. *)
Definition forward_drop (self : ForwardService) : M World unit :=
  close_fd (fwd_socket self);; heap_free (rb_ptr (fwd_read_buf self)).

(** ** [write_input] delivers the data *)

(** [write(2)] on a socket takes between one byte and all of a non-empty
    buffer. *)
Definition writes_progress : Prop :=
  ∀ h fd data n, data ≠ [] → os_result h (CWriteFd fd data) = Ok n →
    1 ≤ n ≤ Z.of_nat (length data).

(** The bytes a descriptor has accepted in a history.  Those that a failed
    [write_all] wrote before its error are unknown, and not counted. *)
Fixpoint accepted (fd : Z) (h : list Call) : list byte :=
  match h with
  | [] => []
  | CWriteFd fd' data :: h =>
      accepted fd h ++
      if decide (fd' = fd) then
        match os_result h (CWriteFd fd' data) with
        | Ok n => take (Z.to_nat n) data
        | Err _ => []
        end
      else []
  | CWriteAllFd fd' data :: h =>
      accepted fd h ++
      if decide (fd' = fd) then
        match os_result h (CWriteAllFd fd' data) with Ok _ => data | Err _ => [] end
      else []
  | _ :: h => accepted fd h
  end.

(** No descriptor has accepted anything more. *)
Definition silent (w w' : World) : Prop :=
  ∀ fd, accepted fd (w_log w') = accepted fd (w_log w).

Lemma wp_write_loop fuel fd rest (Q : result unit io_error → World → Prop) w :
  writes_progress → (length rest ≤ fuel)%nat →
  (∀ w', accepted fd (w_log w') = accepted fd (w_log w) ++ rest → keeps w w' → Q (Ok tt) w') →
  (∀ w' e k, accepted fd (w_log w') = accepted fd (w_log w) ++ take k rest → keeps w w' →
    Q (Err e) w') →
  wp (write_loop fuel fd rest) Q w.
Proof.
  intros Hprog. revert rest w. induction fuel as [|fuel IH]; intros rest w Hl HOk HErr.
  { destruct rest; [|simpl in Hl; lia]. apply wp_ret, HOk; [by rewrite app_nil_r|done]. }
  destruct rest as [|b rest].
  { apply wp_ret, HOk; [by rewrite app_nil_r|done]. }
  cbn [write_loop]. set (data := b :: rest) in *.
  assert (1 ≤ length data)%nat by (simpl; lia).
  assert (keeps w (w_set_log (cons (CWriteFd fd data)) w)) as Hk1 by by apply keeps_call.
  apply wp_bind, wp_sys. destruct (os_result (w_log w) _) as [n|e] eqn:Er.
  - assert (accepted fd (w_log (w_set_log (cons (CWriteFd fd data)) w)) =
      accepted fd (w_log w) ++ take (Z.to_nat n) data) as Hacc.
    { cbn [w_log w_set_log accepted]. by rewrite decide_True, Er by done. }
    pose proof (Hprog _ _ data n ltac:(discriminate) Er) as Hn.
    apply IH; [rewrite length_drop; lia| |]; rewrite Hacc.
    + intros w' Ha Hk. apply HOk; [|by etrans]. by rewrite Ha, <-(assoc_L (++)), take_drop.
    + intros w' e k Ha Hk. apply (HErr w' e (Z.to_nat n + k)%nat);
        [|by etrans].
      rewrite Ha, <-(assoc_L (++)). f_equal. by rewrite take_take_drop.
  - apply wp_ret, (HErr _ e O); [|exact Hk1]. cbn [w_log w_set_log accepted].
    by rewrite decide_True, Er by done.
Qed.

(** C29: [ForwardService::write_input] terminates and loses nothing: as long
    as a write of a non-empty buffer takes at least one byte, the loop
    returns within as many writes as there are bytes; on success the socket
    has accepted exactly the data, in order and once, over however many
    partial writes; on an error, a prefix of it. *)
Theorem write_input_delivers self data w :
  writes_progress →
  ∃ r w', forward_write_input self data w = Done (r, w') ∧
    ∃ sent, accepted (fwd_socket self) (w_log w') =
              accepted (fwd_socket self) (w_log w) ++ sent ∧
      match r with Ok _ => sent = data | Err _ => sent `prefix_of` data end.
Proof.
  intros Hp. apply (wp_total (forward_write_input self data) (λ r w',
    ∃ sent, accepted (fwd_socket self) (w_log w') =
              accepted (fwd_socket self) (w_log w) ++ sent ∧
      match r with Ok _ => sent = data | Err _ => sent `prefix_of` data end)).
  apply wp_write_loop; [done..| |].
  - intros w' Ha _. eauto.
  - intros w' e k Ha _. eexists. split; [done|]. exists (drop k data). by rewrite take_drop.
Qed.
End forward.

(** An environment in which a write takes at most three bytes; descriptors
    are numbered from 7 as they are opened. *)
#[refine] Instance os_partial_writes : Os := {|
  os_result h c :=
    match c with
    | CWriteFd _ data => Ok (Z.min 3 (Z.of_nat (length data)))
    | _ => Ok (if opens_fd c then 7 + Z.of_nat (length (List.filter opens_fd h)) else 7)
    end;
  os_partial _ := 0%nat;
  os_data _ := [];
  os_metadata _ _ := mkMetadata 33188 5 1700000000;
  os_create_mode := 420;
  os_now _ := 1700000000;
  strerror _ := lit "error";
|}.
Proof.
  - intros _. vm_compute. lia.
  - intros h c msg. by destruct c.
  - intros _ _. vm_compute. intuition discriminate.
Defined.

Lemma os_partial_writes_progress : @writes_progress os_partial_writes.
Proof.
  intros h fd data n Hne. cbn [os_result os_partial_writes]. intros [= <-].
  destruct data; [done|]. cbn [length]. lia.
Qed.

Lemma os_partial_writes_fresh : @fresh_fds os_partial_writes.
Proof.
  assert (∀ h fd, fd ∈ @live_fds os_partial_writes h →
    fd < 7 + Z.of_nat (length (List.filter opens_fd h))) as Hlt.
  { induction h as [|c h IH]; intros fd Hfd; [by apply elem_of_nil in Hfd|].
    cbn [List.filter]. destruct (@live_fds_step os_partial_writes c h) as [Hs|(Ho & fd' & Hr & Heq)].
    - apply (sublist_subseteq _ _ Hs), IH in Hfd. destruct (opens_fd c); cbn [length]; lia.
    - rewrite Ho. cbn [length]. rewrite Heq in Hfd. apply elem_of_cons in Hfd as [->|Hfd%IH]; [|lia].
      destruct c; try done; cbn [os_result os_partial_writes opens_fd] in Hr; injection Hr as <-; lia. }
  intros h c fd Ho Hr Hin%Hlt.
  destruct c; try done; cbn [os_result os_partial_writes opens_fd] in Hr; injection Hr as <-; lia.
Qed.

Lemma write_input_delivers_witness :
  ∃ r w', @forward_write_input os_partial_writes (mkForwardService 9 (mkReadBuf 0 0))
            (bstr "hello world") world_empty = Done (r, w') ∧
    ∃ sent, @accepted os_partial_writes 9 (w_log w') =
              @accepted os_partial_writes 9 [] ++ sent ∧
      match r with Ok _ => sent = bstr "hello world" | Err _ => sent `prefix_of` bstr "hello world" end.
Proof.
  apply (@write_input_delivers os_partial_writes (mkForwardService 9 (mkReadBuf 0 0))
    (bstr "hello world") world_empty).
  exact os_partial_writes_progress.
Defined.
