(* ===== verification/Stream.v ===== *)
(** Streams (src/src/stream.rs): the services, the table of open streams keyed
    by device-local identifier, and the dispatch of a service name, with what
    a name asks for and which calls start its service stated apart. *)
From Stdlib Require Import ZArith Lia Strings.Byte.
From stdpp Require Import base numbers list gmap strings.
From S2P Require Import Prelude.
From S2P Require Import Bytes.
From S2P Require Import Str.
From S2P Require Import Os.
From S2P Require Import Sync.
From S2P Require Import Shell.
From S2P Require Import Forward.

Open Scope Z_scope.

Module Service.
Inductive t : Type :=
  | Sync (s : SyncService)
  | Shell (s : ShellService)
  | Reboot
  | Forward (s : ForwardService).
End Service.

Record Stream : Type := mkStream {
  remote_id : Z;
  service : Service.t;
  waiting_for_okay : bool;
  remote_closed : bool;
}.

Definition stream_set_service (s : Stream) (v : Service.t) : Stream :=
  mkStream (remote_id s) v (waiting_for_okay s) (remote_closed s).
Definition stream_set_waiting (s : Stream) (b : bool) : Stream :=
  mkStream (remote_id s) (service s) b (remote_closed s).
Definition stream_set_remote_closed (s : Stream) (b : bool) : Stream :=
  mkStream (remote_id s) (service s) (waiting_for_okay s) b.

Record StreamManager : Type := mkStreamManager {
  streams : gmap Z Stream;
  next_id : Z;
}.

Definition StreamManager_new : StreamManager := mkStreamManager ∅ 1.

Section stream.
Context {E : Os}.

(** The destructor of a service. *)
Definition service_drop (s : Service.t) : M World unit :=
  match s with
  | Service.Sync _ | Service.Reboot => mret tt
  | Service.Shell s => shell_drop s
  | Service.Forward s => forward_drop s
  end.

Definition stream_drop (o : option Stream) : M World unit :=
  match o with Some s => service_drop (service s) | None => mret tt end.

(** The service of a name; [None] after a warning. *)
Definition open_service (name : str) : M World (option Service.t) :=
  if decide (name = lit "sync:") then mret (Some (Service.Sync SyncService_new))
  else if starts_with (lit "shell:") name then
    match strip_prefix (lit "shell:") name with
    | None => panicM (Unreachable "stream.rs:94")
    | Some cmd =>
        let cmd := match cmd with [] => None | _ => Some cmd end in
        r ← spawn cmd;
        match r with
        | Ok s => mret (Some (Service.Shell s))
        | Err _ => mret None
        end
    end
  else if starts_with (lit "reboot:") name then mret (Some Service.Reboot)
  else if starts_with (lit "tcp:") name || starts_with (lit "localabstract:") name
          || starts_with (lit "localfilesystem:") name then
    r ← connect name;
    match r with
    | Ok f => mret (Some (Service.Forward f))
    | Err _ => mret None
    end
  else mret None.

(** [open]: the identifier counter wraps in a release build, and a stream
    that the insertion replaces is dropped. *)
Definition stream_open (self : StreamManager) (remote_id : Z) (name : str) :
    M World (option Z * StreamManager) :=
  o ← open_service name;
  match o with
  | None => mret (None, self)
  | Some service =>
      let local_id := next_id self in
      let prev := streams self !! local_id in
      let self := mkStreamManager
        (<[local_id := mkStream remote_id service false false]> (streams self))
        (wrap32 (next_id self + 1)) in
      stream_drop prev;;
      mret (Some local_id, self)
  end.

Definition stream_get (self : StreamManager) (local_id : Z) : option Stream :=
  streams self !! local_id.

(** [close]: the removed stream is dropped. *)
Definition stream_close (self : StreamManager) (local_id : Z) : M World StreamManager :=
  stream_drop (streams self !! local_id);;
  mret (mkStreamManager (delete local_id (streams self)) (next_id self)).
End stream.

(** ** Resources of the open streams *)

Definition service_fds (s : Service.t) : list Z :=
  match s with
  | Service.Sync _ | Service.Reboot => []
  | Service.Shell s => [sh_master s]
  | Service.Forward f => [fwd_socket f]
  end.

Definition service_buf (s : Service.t) : option ReadBuf :=
  match s with
  | Service.Sync _ | Service.Reboot => None
  | Service.Shell s => Some (sh_read_buf s)
  | Service.Forward f => Some (fwd_read_buf f)
  end.

Definition stream_fds (m : gmap Z Stream) : list Z :=
  map_to_list m ≫= λ p, service_fds (service p.2).

Lemma stream_fds_empty : stream_fds ∅ = [].
Proof. reflexivity. Qed.

Lemma stream_fds_insert m i s :
  m !! i = None → stream_fds (<[i := s]> m) ≡ₚ service_fds (service s) ++ stream_fds m.
Proof. intros Hi. unfold stream_fds. by rewrite map_to_list_insert. Qed.

Lemma stream_fds_delete m i s :
  m !! i = Some s → stream_fds m ≡ₚ service_fds (service s) ++ stream_fds (delete i m).
Proof.
  intros Hi. rewrite <-(insert_delete_id m i s Hi) at 1.
  apply stream_fds_insert, lookup_delete_eq.
Qed.

Lemma stream_fds_update m i s s' :
  m !! i = Some s → service_fds (service s') = service_fds (service s) →
  stream_fds (<[i := s']> m) ≡ₚ stream_fds m.
Proof.
  intros Hi Hs. rewrite (stream_fds_delete m i s Hi), <-Hs.
  rewrite <-insert_delete_eq. apply stream_fds_insert, lookup_delete_eq.
Qed.

(** The read buffer of a stream is allocated, with its nominal size. *)
Definition buf_live (w : World) (rb : ReadBuf) : Prop :=
  rb_capacity rb = 4096%nat ∧ ∃ b, w_heap w !! rb_ptr rb = Some b ∧ length b = rb_capacity rb.

(** The open streams own the descriptors opened and not closed beyond [base],
    and pairwise distinct live read buffers. *)
Record streams_own {E : Os} (base : list Z) (self : StreamManager) (w : World) : Prop := {
  own_fds : live_fds (w_log w) ≡ₚ stream_fds (streams self) ++ base;
  own_buf i s rb : streams self !! i = Some s → service_buf (service s) = Some rb → buf_live w rb;
  own_distinct i j s s' rb rb' : i ≠ j →
    streams self !! i = Some s → service_buf (service s) = Some rb →
    streams self !! j = Some s' → service_buf (service s') = Some rb' →
    rb_ptr rb ≠ rb_ptr rb';
  own_next a : is_Some (w_heap w !! a) → (a < w_next w)%nat;
}.

(** The read buffer of a new service was not allocated before. *)
Definition buf_fresh (w : World) (s : Service.t) : Prop :=
  ∀ rb, service_buf s = Some rb → (w_next w ≤ rb_ptr rb)%nat.

(** The names of the services: a shell with its command, a forwarded socket
    with the call that connects it, if its name leads to one. *)
Module ServiceKind.
Inductive t : Type :=
  | Sync
  | Shell (command : option str)
  | Reboot
  | Forward (target : option Call).
End ServiceKind.

(** Where the name of a forwarded socket leads: a TCP port of the device, in
    decimal; an abstract or a file system name of a local socket, which fits
    [sun_path]. *)
Definition forward_target (name : str) : option Call :=
  match strip_prefix (lit "tcp:") name with
  | Some port => CConnectTcp (lit "127.0.0.1") <$> parse_u16 port
  | None =>
      match strip_prefix (lit "localabstract:") name with
      | Some n =>
          if decide (length (str_bytes n) < 108)%nat
          then Some (CConnectAbstract (str_bytes n)) else None
      | None =>
          p ← strip_prefix (lit "localfilesystem:") name;
          if decide (length (str_bytes p) < 108 ∧ "000"%byte ∉ str_bytes p)%nat
          then Some (CConnectPath (str_bytes p)) else None
      end
  end.

(** The protocol's dispatch on the name, by its prefix up to the colon. *)
Definition service_kind (name : str) : option ServiceKind.t :=
  if decide (name = lit "sync:") then Some ServiceKind.Sync
  else match strip_prefix (lit "shell:") name with
  | Some cmd => Some (ServiceKind.Shell (match cmd with [] => None | _ => Some cmd end))
  | None =>
      if starts_with (lit "reboot:") name then Some ServiceKind.Reboot
      else if existsb (λ p, starts_with (lit p) name) ["tcp:"; "localabstract:"; "localfilesystem:"]%string
      then Some (ServiceKind.Forward (forward_target name))
      else None
  end.

(** The service is what the name asks for, and was started by exactly these
    calls: none for a session or a reboot, the connection to the named
    destination for a socket, those of [shell_started] for a shell. *)
Definition started {E : Os} (k : ServiceKind.t) (s : Service.t) (w w' : World) : Prop :=
  match k, s with
  | ServiceKind.Sync, Service.Sync s => s = SyncService_new ∧ w' = w
  | ServiceKind.Shell command, Service.Shell s => shell_started command s w w'
  | ServiceKind.Reboot, Service.Reboot => w' = w
  | ServiceKind.Forward target, Service.Forward f =>
      ∃ c, target = Some c ∧ w_log w' = c :: w_log w ∧
        os_result (w_log w) c = Ok (fwd_socket f)
  | _, _ => False
  end.

(** Why a name gets no service: it is unknown, or the name of a socket leads
    nowhere, and no call was made; or the system refused a call that starts
    the shell, or the connection.  A session or a reboot always gets one. *)
Definition refused {E : Os} (name : str) (w w' : World) : Prop :=
  match service_kind name with
  | None | Some (ServiceKind.Forward None) => w' = w
  | Some (ServiceKind.Shell command) => shell_refused command w w'
  | Some (ServiceKind.Forward (Some c)) =>
      ∃ e, w_log w' = c :: w_log w ∧ os_result (w_log w) c = Err e
  | Some ServiceKind.Sync | Some ServiceKind.Reboot => False
  end.

Section resources.
Context {E : Os} (φ : panic → Prop).

(** The socket of a name is the one of its target; without a target no call is
    made. *)
Lemma connect_socket_target name :
  match forward_target name with
  | Some c => connect_socket name = sys c ∧
      match c with CConnectTcp _ _ | CConnectAbstract _ | CConnectPath _ => True | _ => False end
  | None => ∃ e, connect_socket name = mret (Err e)
  end.
Proof.
  unfold forward_target, connect_socket, connect_abstract, connect_path, has_nul.
  destruct (strip_prefix (lit "tcp:") name) as [port|].
  { destruct (parse_u16 port); simpl; [done|by eexists]. }
  destruct (strip_prefix (lit "localabstract:") name) as [n|].
  { unfold SUN_PATH_LEN. repeat case_decide; [lia|done|by eexists|lia]. }
  destruct (strip_prefix (lit "localfilesystem:") name) as [p|]; simpl; [|by eexists].
  assert (length (str_bytes p) < 108 ↔ ¬ SUN_PATH_LEN ≤ length (str_bytes p))%nat
    by (unfold SUN_PATH_LEN; lia).
  case_bool_decide; repeat case_decide; try (by eexists); try done; tauto.
Qed.

Lemma wp_connect name (Q : result ForwardService io_error → World → Prop) w :
  (∀ w' e, live_fds (w_log w') = live_fds (w_log w) → w_heap w' = w_heap w →
    w_next w' = w_next w →
    match forward_target name with
    | Some c => w_log w' = c :: w_log w ∧ os_result (w_log w) c = Err e
    | None => w' = w
    end → Q (Err e) w') →
  (∀ w' f c, live_fds (w_log w') = fwd_socket f :: live_fds (w_log w) →
    w_heap w' = <[w_next w := replicate SOCKET_READ_BUF_SIZE "000"%byte]> (w_heap w) →
    w_next w' = S (w_next w) → fwd_read_buf f = mkReadBuf (w_next w) SOCKET_READ_BUF_SIZE →
    forward_target name = Some c → w_log w' = c :: w_log w →
    os_result (w_log w) c = Ok (fwd_socket f) → Q (Ok f) w') →
  wpp φ (connect name) Q w.
Proof.
  intros HErr HOk. unfold connect. apply wp_bind. pose proof (connect_socket_target name) as Ht.
  destruct (forward_target name) as [c|].
  - destruct Ht as [-> Hc]. apply wp_sys. destruct (os_result (w_log w) c) as [n|e] eqn:Er.
    + apply wp_bind, wp_heap_alloc, wp_ret, (HOk _ _ c); try done.
      destruct c; try done; simpl; by rewrite Er.
    + apply wp_ret, HErr; try done. destruct c; try done; simpl; by rewrite Er.
  - destruct Ht as [e ->]. by apply wp_ret, wp_ret, HErr.
Qed.

Lemma wp_service_drop s l (Q : unit → World → Prop) w :
  live_fds (w_log w) ≡ₚ service_fds s ++ l →
  (∀ w', live_fds (w_log w') ≡ₚ l → w_next w' = w_next w →
    w_heap w' = (match service_buf s with
                 | Some rb => delete (rb_ptr rb) (w_heap w) | None => w_heap w end) →
    Q tt w') →
  wpp φ (service_drop s) Q w.
Proof.
  intros Hl HQ. destruct s as [s|s| |f]; simpl in *; try by apply wp_ret, HQ.
  - unfold shell_drop. do 2 apply wp_bind, wp_sys.
    apply wp_bind, wp_bind, wp_sys, wp_ret, wp_modify, HQ; [|done..].
    simpl. by apply remove_fd_permutation.
  - apply wp_bind, wp_bind, wp_sys, wp_ret, wp_modify, HQ; [|done..].
    simpl. by apply remove_fd_permutation.
Qed.
End resources.

Lemma pty_size : PTY_READ_BUF_SIZE = 4096%nat.
Proof. reflexivity. Qed.
Lemma socket_size : SOCKET_READ_BUF_SIZE = 4096%nat.
Proof. reflexivity. Qed.

Section stream_rules.
Context {E : Os} (φ : panic → Prop).
#[local] Opaque PTY_READ_BUF_SIZE SOCKET_READ_BUF_SIZE.

(** A service was started without a buffer, or not at all. *)
Lemma streams_own_same base self w w' :
  streams_own base self w → live_fds (w_log w') ≡ₚ live_fds (w_log w) → w_heap w' = w_heap w →
  w_next w' = w_next w → streams_own base self w'.
Proof.
  intros [Hf Hb Hd Hx] Hl Hh Hn. split; [by rewrite Hl| |done|].
  - intros i s rb Hi Hs. unfold buf_live. rewrite Hh. by eapply Hb.
  - by rewrite Hh, Hn.
Qed.

(** A service was started with a new descriptor and a new buffer. *)
Lemma streams_own_started base self w w' fd c :
  streams_own base self w → live_fds (w_log w') ≡ₚ fd :: live_fds (w_log w) →
  w_heap w' = <[w_next w := replicate c "000"%byte]> (w_heap w) → c = 4096%nat →
  (w_next w < w_next w')%nat →
  streams_own (fd :: base) self w' ∧
  (buf_live w' (mkReadBuf (w_next w) c) ∧ ∀ i si rb', streams self !! i = Some si →
      service_buf (service si) = Some rb' → rb_ptr rb' ≠ w_next w).
Proof.
  intros [Hf Hb Hd Hx] Hl Hh -> Hn.
  assert (∀ i s rb, streams self !! i = Some s → service_buf (service s) = Some rb →
    rb_ptr rb ≠ w_next w) as Hne.
  { intros i s rb Hi Hs Heq. destruct (Hb i s rb Hi Hs) as (_ & b & Hin & _).
    rewrite Heq in Hin. pose proof (Hx _ (mk_is_Some _ _ Hin)). lia. }
  split; [split; [rewrite Hl, Hf; by rewrite Permutation_middle| |done|]|].
  - intros i s rb Hi Hs. destruct (Hb i s rb Hi Hs) as (Hc & b & Hin & Hlen).
    split; [done|]. exists b. rewrite Hh, lookup_insert_ne by (symmetry; eauto). done.
  - intros a. rewrite Hh. destruct (decide (a = w_next w)) as [->|Ha]; [lia|].
    rewrite lookup_insert_ne by done. intros ?%Hx. lia.
  - split; [|done]. split; [done|]. exists (replicate 4096 "000"%byte). simpl rb_ptr.
    by rewrite Hh, lookup_insert_eq, length_replicate.
Qed.

(** What opening a service does to the resources. *)
Lemma wp_open_service name base self (Q : option Service.t → World → Prop) w :
  streams_own base self w →
  (∀ w', streams_own base self w' → refused name w w' → Q None w') →
  (∀ w' k s, service_kind name = Some k → started k s w w' → buf_fresh w s →
    streams_own (service_fds s ++ base) self w' →
    match service_buf s with
    | Some rb => buf_live w' rb ∧ ∀ i si rb', streams self !! i = Some si →
        service_buf (service si) = Some rb' → rb_ptr rb' ≠ rb_ptr rb
    | None => True
    end → Q (Some s) w') →
  wpp φ (open_service name) Q w.
Proof.
  intros Hown HNone HSome. unfold open_service, refused, service_kind in *.
  pose proof (λ w', streams_own_same base self w w' Hown) as Hsame.
  pose proof (λ w' fd c, streams_own_started base self w w' fd c Hown) as Hnew.
  case_decide; [by apply wp_ret, (HSome _ ServiceKind.Sync)|].
  unfold starts_with at 1. destruct (strip_prefix (lit "shell:") name) as [cmd|] eqn:Ecmd.
  { apply wp_bind, wp_spawn.
    - intros w' e Hl Hh Hn He. apply wp_ret, HNone; [by apply Hsame; rewrite ?Hl|done].
    - intros w' s Hl Hh Hn Hp Hc Hst. destruct s as [m c [ptr cap]].
      cbn [sh_master sh_read_buf rb_ptr rb_capacity] in *. subst ptr cap.
      destruct (Hnew w' m _ Hl Hh pty_size ltac:(lia)) as [Hown' Hb].
      eapply wp_ret, HSome; [done|done|by intros rb [= <-]|done|done]. }
  case_match; [by apply wp_ret, (HSome _ ServiceKind.Reboot)|].
  cbn [existsb] in *. rewrite orb_false_r, orb_assoc in *. case_match; [|by apply wp_ret, HNone].
  apply wp_bind, wp_connect.
  - intros w' e Hl Hh Hn He. apply wp_ret, HNone; [by apply Hsame; rewrite ?Hl|].
    destruct (forward_target name); [by exists e|done].
  - intros w' [fd rb] t Hl Hh Hn. cbn [fwd_socket fwd_read_buf] in *. intros -> Ht Hlog Hr.
    destruct (Hnew w' fd _ ltac:(by rewrite Hl) Hh socket_size ltac:(lia)) as [Hown' Hb].
    apply wp_ret, (HSome _ (ServiceKind.Forward (forward_target name)));
      [done|by exists t|by intros rb [= <-]|done|done].
Qed.

(** The read buffer of a stream, if it had one, is not allocated. *)
Definition buf_freed (self : StreamManager) (i : Z) (w : World) : Prop :=
  ∀ s rb, streams self !! i = Some s → service_buf (service s) = Some rb →
    w_heap w !! rb_ptr rb = None.

(** Dropping an open stream releases what it owned. *)
Lemma wp_stream_drop base self i (Q : unit → World → Prop) w :
  streams_own base self w →
  (∀ w', streams_own base (mkStreamManager (delete i (streams self)) (next_id self)) w' →
    (∀ rb, buf_live w rb → (∀ s rb', streams self !! i = Some s →
      service_buf (service s) = Some rb' → rb_ptr rb' ≠ rb_ptr rb) → buf_live w' rb) →
    buf_freed self i w' → (streams self !! i = None → w' = w) → Q tt w') →
  wpp φ (stream_drop (streams self !! i)) Q w.
Proof.
  intros Hown HQ. destruct Hown as [Hf Hb Hd Hx].
  destruct (streams self !! i) as [s|] eqn:Hi; simpl.
  - apply (wp_service_drop φ _ (stream_fds (delete i (streams self)) ++ base)).
    { by rewrite Hf, (stream_fds_delete _ _ _ Hi), <-(assoc_L (++)). }
    intros w' Hl Hn Hh.
    assert (∀ rb, buf_live w rb → (∀ rb', service_buf (service s) = Some rb' →
      rb_ptr rb' ≠ rb_ptr rb) → buf_live w' rb) as Hkeep.
    { intros rb (Hc & b & Hin & Hlen) Hne. split; [done|]. exists b. rewrite Hh.
      destruct (service_buf (service s)) as [rb'|]; [|done].
      by rewrite lookup_delete_ne by auto. }
    apply HQ; [split; simpl| naive_solver| |done].
    5: { intros s' rb Hs' Hs. rewrite Hi in Hs'. injection Hs' as <-. rewrite Hh, Hs. apply lookup_delete_eq. }
    + done.
    + intros j sj rb [? Hj]%lookup_delete_Some Hs. apply Hkeep; [by eapply Hb|].
      intros rb' Hs'. by apply (Hd i j s sj).
    + intros j k sj sk rb rb' Hjk [? ?]%lookup_delete_Some ? [? ?]%lookup_delete_Some ?.
      by eapply (Hd j k).
    + intros a. rewrite Hh, Hn. destruct (service_buf (service s)) as [rb'|]; [|apply Hx].
      intros [b [? Hin]%lookup_delete_Some]. eauto.
  - apply wp_ret, HQ; [|by auto|by intros s rb Hs; rewrite Hi in Hs|done].
    rewrite delete_id by done. by destruct self.
Qed.

Lemma wp_stream_close base self i (Q : StreamManager → World → Prop) w :
  streams_own base self w →
  (∀ w', let self' := mkStreamManager (delete i (streams self)) (next_id self) in
    streams_own base self' w' → buf_freed self i w' → Q self' w') →
  wpp φ (stream_close self i) Q w.
Proof.
  intros Hown HQ. apply wp_bind, (wp_stream_drop base); [done|].
  intros w' Hown' _ Hfree _. by apply wp_ret, HQ.
Qed.

Lemma wp_stream_open base self rid name (Q : option Z * StreamManager → World → Prop) w :
  streams_own base self w →
  (∀ w', streams_own base self w' → refused name w w' → Q (None, self) w') →
  (∀ w1 w' k s, service_kind name = Some k → started k s w w1 → buf_fresh w s →
    (streams self !! next_id self = None → w' = w1) →
    let self' := mkStreamManager
      (<[next_id self := mkStream rid s false false]> (streams self)) (wrap32 (next_id self + 1)) in
    streams_own base self' w' → Q (Some (next_id self), self') w') →
  wpp φ (stream_open self rid name) Q w.
Proof.
  intros Hown HNone HSome. apply wp_bind, (wp_open_service _ base self); [done| |].
  { intros w' Hown' Hsame. by apply wp_ret, HNone. }
  intros w1 k s Hk Hks Hfr Hown1 Hbuf. apply wp_bind, (wp_stream_drop (service_fds s ++ base)); [done|].
  intros w2 [Hf Hb Hd Hx] Hkeep _ Heq. apply wp_ret, (HSome w1 w2 k s); [done..|].
  set (i := next_id self) in *. cbn [streams next_id] in *.
  assert (∀ rb, service_buf s = Some rb → buf_live w2 rb ∧ ∀ j sj rb', j ≠ i →
    streams self !! j = Some sj → service_buf (service sj) = Some rb' → rb_ptr rb' ≠ rb_ptr rb)
    as Hnew.
  { intros rb Hrb. rewrite Hrb in Hbuf. destruct Hbuf as [Hlive Hne]. split; [|eauto].
    apply Hkeep; [done|]. eauto. }
  split; cbn [streams].
  - rewrite <-insert_delete_eq, stream_fds_insert by apply lookup_delete_eq.
    rewrite Hf. simpl. rewrite !(assoc_L (++)). by rewrite (comm (++) (stream_fds _)).
  - intros j sj rb [[<- <-]|[? Hj]]%lookup_insert_Some Hs; [by apply Hnew|].
    apply (Hb j sj rb); [by apply lookup_delete_Some|done].
  - intros j j' sj sj' rb rb' Hne
      [[<- <-]|[Hj Hsj]]%lookup_insert_Some Hs [[<- <-]|[Hj' Hsj']]%lookup_insert_Some Hs'.
    + done.
    + symmetry. by eapply Hnew.
    + by eapply Hnew.
    + by eapply (Hd j j'); [done|by apply lookup_delete_Some|done|by apply lookup_delete_Some|].
  - done.
Qed.
End stream_rules.

(** Identifiers are handed out in increasing order from 1. *)
Definition ids_ok (self : StreamManager) : Prop :=
  1 ≤ next_id self ∧ ∀ i, is_Some (streams self !! i) → 1 ≤ i < next_id self.

Section stream_facts.
Context {E : Os}.

(** C28: [StreamManager::open] always returns, and does exactly what the name
    asks for.  If it returns an identifier, that is the next one, which no open
    stream had, and the new stream under it has the service that the name's
    prefix asks for, started by exactly the calls that it needs: none for a
    session or a reboot; for a shell, the terminal and one process, [/bin/sh]
    with the command of the name, if it has one; for a socket, the connection
    to the destination in the name.  If it returns nothing, the table is as it
    was, and the reason is the name or the system: the name is unknown or no
    destination, and then no call was made; or the system refused a call that
    starts the shell, or the connection.  Either way the open streams own
    exactly the open descriptors. *)
Theorem stream_open_spec base self rid name w :
  streams_own base self w → ids_ok self → next_id self < u32_max →
  ∃ o self' w', stream_open self rid name w = Done ((o, self'), w') ∧
    streams_own base self' w' ∧ ids_ok self' ∧
    match o with
    | None => self' = self ∧ refused name w w'
    | Some id =>
        ∃ k s, service_kind name = Some k ∧ started k s w w' ∧
          id = next_id self ∧ streams self !! id = None ∧
          streams self' = <[id := mkStream rid s false false]> (streams self)
    end.
Proof.
  intros Hown [H1 Hids] Hn.
  assert (wp (stream_open self rid name) (λ r w', streams_own base r.2 w' ∧ ids_ok r.2 ∧
    match r.1 with
    | None => r.2 = self ∧ refused name w w'
    | Some id =>
        ∃ k s, service_kind name = Some k ∧ started k s w w' ∧
          id = next_id self ∧ streams self !! id = None ∧
          streams r.2 = <[id := mkStream rid s false false]> (streams self)
    end) w) as Hwp.
  { apply (wp_stream_open _ base); [done|by intros w' Hown' Hr; split_and!|].
    intros w1 w' k s Hk Hs _ Heq self' Hown'.
    assert (streams self !! next_id self = None) as Hnone.
    { apply eq_None_not_Some. intros ?%Hids. lia. }
    rewrite (Heq Hnone) in *. split_and!; [done| |].
    - unfold ids_ok, self'. cbn [streams next_id snd]. unfold u32_max in Hn.
      rewrite wrap32_small by (unfold u32; lia). split; [lia|].
      intros i. destruct (decide (i = next_id self)) as [->|Hi]; [lia|].
      rewrite lookup_insert_ne by done. intros ?%Hids. lia.
    - by exists k, s. }
  apply wp_total in Hwp as ([o self'] & w' & Hr & Hq). by exists o, self', w'.
Qed.
End stream_facts.

Lemma streams_own_new {E : Os} : streams_own [] StreamManager_new world_empty.
Proof.
  split; simpl; try done. intros a [b Hb]. by rewrite lookup_empty in Hb.
Qed.

(** A shell with a command, and a socket whose name leads nowhere. *)
Lemma stream_open_spec_witness :
  (∃ self' w' s, @stream_open os_plain StreamManager_new 7 (lit "shell:ls") world_empty
      = Done ((Some 1, self'), w') ∧
    @streams_own os_plain [] self' w' ∧ ids_ok self' ∧
    @started os_plain (ServiceKind.Shell (Some (lit "ls"))) s world_empty w' ∧
    streams self' = <[1 := mkStream 7 s false false]> ∅) ∧
  ∃ w', @stream_open os_plain StreamManager_new 7 (lit "tcp:99999") world_empty
      = Done ((None, StreamManager_new), w') ∧ w' = world_empty.
Proof.
  assert (ids_ok StreamManager_new) as Hids.
  { split; [done|]. intros i [s Hs]. cbn in Hs. by rewrite lookup_empty in Hs. }
  split.
  - destruct (@stream_open_spec os_plain [] StreamManager_new 7 (lit "shell:ls") world_empty
      streams_own_new Hids eq_refl) as (o & self' & w' & Hrun & Hown & Hids' & H).
    assert (o = Some 1) as ->.
    { apply (f_equal (λ r, match r with Done ((o, _), _) => o | _ => None end)) in Hrun.
      vm_compute in Hrun. by symmetry. }
    destruct H as (k & s & Hk & Hst & _ & _ & Hs). vm_compute in Hk. injection Hk as <-.
    exists self', w', s. by split_and!.
  - destruct (@stream_open_spec os_plain [] StreamManager_new 7 (lit "tcp:99999") world_empty
      streams_own_new Hids eq_refl) as (o & self' & w' & Hrun & _ & _ & H).
    assert (o = None) as ->.
    { apply (f_equal (λ r, match r with Done ((o, _), _) => o | _ => None end)) in Hrun.
      vm_compute in Hrun. by symmetry. }
    destruct H as [-> Href]. exists w'. by split.
Defined.
