(* ===== verification/UserData.v ===== *)
(** The [io_uring] user data of the event loop (src/src/main.rs): an operation
    type in the upper half of a [u64] and an optional non-zero [u32] in the
    lower half. *)
From Stdlib Require Import ZArith Lia.
From stdpp Require Import base numbers list gmap strings.
From S2P Require Import Prelude.

Open Scope Z_scope.

Module UserDataOpType.
Inductive t : Type :=
  | Ep0Poll | BulkOutReadHeader | BulkOutReadPayload | BulkInWrite | PtyRead | SocketRead.

#[export] Instance t_eq_dec : EqDecision t.
Proof. solve_decision. Defined.

Definition try_from (value : Z) : result t Z :=
  if decide (value = 1) then Ok Ep0Poll
  else if decide (value = 2) then Ok BulkOutReadHeader
  else if decide (value = 3) then Ok BulkOutReadPayload
  else if decide (value = 4) then Ok BulkInWrite
  else if decide (value = 5) then Ok PtyRead
  else if decide (value = 6) then Ok SocketRead
  else Err value.

(** [value as u32]. *)
Definition to_u32 (op : t) : Z :=
  match op with
  | Ep0Poll => 1 | BulkOutReadHeader => 2 | BulkOutReadPayload => 3
  | BulkInWrite => 4 | PtyRead => 5 | SocketRead => 6
  end.
End UserDataOpType.

Export (hints) UserDataOpType.

(** [Option<NonZeroU32>] is an option of a number that [NonZero_new] made. *)
Definition NonZero_new (x : Z) : option Z := if decide (x = 0) then None else Some x.

Record UserData : Type := mkUserData {
  op_type : UserDataOpType.t;
  ud_data : option Z;
}.

#[export] Instance UserData_eq_dec : EqDecision UserData.
Proof. solve_decision. Defined.

(** [From<UserData> for u64]. *)
Definition UserData_u64 (value : UserData) : Z :=
  Z.lor (Z.shiftl (UserDataOpType.to_u32 (op_type value)) 32)
        (match ud_data value with Some x => x | None => 0 end).

(** [TryFrom<u64> for UserData].  The two [expect]s cannot fire: the masks
    leave 32 bits ([UserData_try_from_u32]). *)
Definition UserData_try_from (value : Z) : result UserData Z :=
  let op := Z.shiftr (Z.land value 0xffffffff00000000) 32 in
  match UserDataOpType.try_from op with
  | Err e => Err e
  | Ok op => Ok (mkUserData op (NonZero_new (Z.land value 0x00000000ffffffff)))
  end.

Definition user_data_wf (ud : UserData) : Prop :=
  match ud_data ud with Some x => 1 ≤ x < 2 ^ 32 | None => True end.

Lemma UserDataOpType_try_from_Ok v op :
  UserDataOpType.try_from v = Ok op ↔ v = UserDataOpType.to_u32 op.
Proof.
  split.
  - unfold UserDataOpType.try_from. repeat case_decide; intros [= <-]; done.
  - intros ->. by destruct op.
Qed.

Lemma land_low value : 0 ≤ value → Z.land value 0xffffffff = value mod 2 ^ 32.
Proof. intros. change 0xffffffff with (Z.ones 32). by rewrite Z.land_ones. Qed.

Lemma shiftr_land_high value :
  u64 value → Z.shiftr (Z.land value 0xffffffff00000000) 32 = value / 2 ^ 32.
Proof.
  intros Hv. rewrite Z.shiftr_land, Z.shiftr_div_pow2 by lia.
  change (Z.shiftr 0xffffffff00000000 32) with (Z.ones 32).
  rewrite Z.land_ones by lia. unfold u64 in Hv. apply Z.mod_small.
  split; [apply Z.div_pos; lia|apply Z.div_lt_upper_bound; lia].
Qed.

(** The arguments of both [expect]s fit in a [u32]. *)
Lemma UserData_try_from_u32 value :
  u64 value →
  u32 (Z.shiftr (Z.land value 0xffffffff00000000) 32) ∧ u32 (Z.land value 0xffffffff).
Proof.
  intros Hv. rewrite shiftr_land_high, land_low by (done || (unfold u64 in Hv; lia)).
  unfold u64 in Hv. unfold u32. split; [|apply Z.mod_pos_bound; lia].
  split; [apply Z.div_pos; lia|apply Z.div_lt_upper_bound; lia].
Qed.

Lemma UserData_u64_add ud :
  user_data_wf ud →
  UserData_u64 ud = UserDataOpType.to_u32 (op_type ud) * 2 ^ 32 + default 0 (ud_data ud).
Proof.
  intros Hwf. unfold UserData_u64. rewrite <-Z.shiftl_mul_pow2 by lia.
  set (x := match ud_data ud with Some x => x | None => 0 end).
  assert (0 ≤ x < 2 ^ 32) as Hx.
  { unfold x, user_data_wf in *. destruct (ud_data ud); lia. }
  replace (default 0 (ud_data ud)) with x by by unfold x; destruct (ud_data ud).
  rewrite Z.shiftl_mul_pow2 by lia. symmetry. apply Z.add_nocarry_lor.
  apply Z.bits_inj'. intros n Hn. rewrite Z.land_spec, Z.bits_0.
  destruct (decide (n < 32)).
  - by rewrite Z.mul_pow2_bits_low by lia.
  - rewrite (Z.bits_above_log2 x n), andb_false_r; [done|lia|].
    destruct (decide (x = 0)) as [->|]; [simpl; lia|].
    apply Z.log2_lt_pow2; [lia|]. eapply Z.lt_le_trans; [apply Hx|].
    apply Z.pow_le_mono_r; lia.
Qed.

Lemma user_data_roundtrip_aux ud :
  user_data_wf ud → u64 (UserData_u64 ud) ∧ UserData_try_from (UserData_u64 ud) = Ok ud.
Proof.
  intros Hwf. rewrite UserData_u64_add by done.
  assert (0 ≤ default 0 (ud_data ud) < 2 ^ 32) as Hx.
  { unfold user_data_wf in Hwf. destruct (ud_data ud); simpl; lia. }
  assert (1 ≤ UserDataOpType.to_u32 (op_type ud) ≤ 6) as Ho by (destruct (op_type ud); simpl; lia).
  assert (u64 (UserDataOpType.to_u32 (op_type ud) * 2 ^ 32 + default 0 (ud_data ud))) as H64.
  { unfold u64. lia. }
  split; [done|]. unfold UserData_try_from.
  rewrite shiftr_land_high, land_low by (done || (unfold u64 in H64; lia)).
  rewrite Z.div_add_l, Z.div_small, Z.add_0_r by lia.
  rewrite (proj2 (UserDataOpType_try_from_Ok _ (op_type ud)) eq_refl).
  rewrite Z.add_comm, Z.mod_add, Z.mod_small by lia.
  destruct ud as [op [x|]]; unfold NonZero_new, user_data_wf in *; simpl in *; [|done].
  destruct (decide (x = 0)); [lia|done].
Qed.

(** Packing and unpacking the [io_uring] user data: what the event loop
    attaches to an operation is a [u64], and it reads back exactly the
    operation type and the slot or stream number from it. *)
Theorem user_data_roundtrip ud :
  user_data_wf ud → u64 (UserData_u64 ud) ∧ UserData_try_from (UserData_u64 ud) = Ok ud.
Proof. apply user_data_roundtrip_aux. Qed.

Lemma user_data_roundtrip_witness :
  u64 (UserData_u64 (mkUserData UserDataOpType.BulkInWrite (Some 8))) ∧
  UserData_try_from (UserData_u64 (mkUserData UserDataOpType.BulkInWrite (Some 8))) =
    Ok (mkUserData UserDataOpType.BulkInWrite (Some 8)).
Proof.
  apply (user_data_roundtrip (mkUserData UserDataOpType.BulkInWrite (Some 8))).
  unfold user_data_wf. simpl. lia.
Defined.
