(* ===== verification/SyncSafe.v ===== *)
(** Safety of the sync service, for every session and every environment: the
    two panics that [handle] can reach, and what it leaves alone — the heap,
    the descriptors that the other services own. *)
From Stdlib Require Import ZArith Lia Strings.Byte.
From stdpp Require Import base numbers list gmap strings.
From S2P Require Import Prelude.
From S2P Require Import Bytes.
From S2P Require Import Str.
From S2P Require Import Winnow.
From S2P Require Import Os.
From S2P Require Import Sync.
From S2P Require Import SyncFacts.
From S2P Require Import Shell.

Open Scope Z_scope.

Definition err_short {A} (r : result A io_error) : Prop :=
  match r with Ok _ => True | Err e => short_error e end.

(** A call on files. *)
Definition file_call (c : Call) : Prop :=
  match c with
  | COpen _ | CCreate _ | CRead _ _ | CWriteAll _ _ | CSetPermissions _ _ | CSetTimes _ _
  | CRemoveFile _ | CSymlinkMetadata _ | CReadFd _ _ | CSpawn _ _ => True
  | _ => False
  end.

(** The length of a frame that answers the host. *)
Definition fits (data : list byte) : Prop := Z.of_nat (length data) < 2 ^ 30.

Section files.
Context {E : Os} (φ : panic → Prop).

Lemma wp_file_call c (Q : result Z io_error → World → Prop) w :
  file_call c →
  (∀ r, err_short r →
    keeps w (w_set_log (cons c) w) → Q r (w_set_log (cons c) w)) →
  wpp φ (sys c) Q w.
Proof.
  intros Hc HQ. apply wp_sys, HQ.
  { destruct (os_result (w_log w) c) as [|e] eqn:He; [done|by eapply os_result_short]. }
  destruct c; first [by destruct Hc|by split].
Qed.

Lemma nul_error_short : short_error nul_error.
Proof. vm_compute. lia. Qed.

Lemma wp_File_open_keeps p (Q : result File io_error → World → Prop) w :
  (∀ r w', keeps w w' → err_short r → Q r w') →
  wpp φ (File_open p) Q w.
Proof.
  intros HQ. unfold File_open. destruct (has_nul p).
  { apply wp_ret, HQ; [done|]. apply nul_error_short. }
  apply wp_bind, wp_file_call; [done|]. intros [n|e] Hr Hk; [|by apply wp_ret, HQ].
  apply wp_bind, wp_get. case_match; by apply wp_ret, HQ.
Qed.

Lemma wp_File_create_keeps p (Q : result File io_error → World → Prop) w :
  (∀ r w', keeps w w' → err_short r → Q r w') →
  wpp φ (File_create p) Q w.
Proof.
  intros HQ. unfold File_create. destruct (has_nul p).
  { apply wp_ret, HQ; [done|]. apply nul_error_short. }
  apply wp_bind, wp_file_call; [done|]. intros [n|e] Hr [H1 H2 H3]; [|by apply wp_ret, HQ].
  apply wp_bind, wp_get. case_match; apply wp_bind, wp_put, wp_ret, HQ; try done.
  split; [done..|]. simpl in *. lia.
Qed.

Lemma wp_File_read_keeps f len (Q : result (list byte) io_error * File → World → Prop) w :
  (∀ d f' w', keeps w w' → (length d ≤ len)%nat → Q (Ok d, f') w') →
  (∀ e f' w', keeps w w' → short_error e → Q (Err e, f') w') →
  wpp φ (File_read f len) Q w.
Proof.
  intros HOk HErr. apply wp_bind, wp_file_call; [done|]. intros [n|e] Hr Hk.
  - apply wp_bind, wp_get, wp_ret, HOk; [done|]. rewrite List.length_firstn. lia.
  - apply wp_ret, HErr; auto.
Qed.

Lemma wp_File_write_all_keeps f d (Q : result unit io_error * File → World → Prop) w :
  (∀ r f' w', keeps w w' → err_short r → Q (r, f') w') →
  wpp φ (File_write_all f d) Q w.
Proof.
  intros HQ. destruct d as [|b d]; [by apply wp_ret, HQ|].
  apply wp_bind, wp_file_call; [done|]. intros [n|e] Hr [H1 H2 H3].
  - by apply wp_bind, wp_bind, wp_get, wp_bind, wp_put, wp_ret, wp_ret, HQ.
  - by apply wp_bind, wp_get, wp_bind, wp_bind, wp_get, wp_bind, wp_put, wp_ret, wp_ret, HQ.
Qed.

Lemma wp_set_permissions_keeps f m (Q : result unit io_error → World → Prop) w :
  (∀ r w', keeps w w' → err_short r → Q r w') →
  wpp φ (File_set_permissions f m) Q w.
Proof.
  intros HQ. apply wp_bind, wp_file_call; [done|]. intros [n|e] Hr [H1 H2 H3];
    [by apply wp_bind, wp_modify, wp_ret, HQ|by apply wp_ret, HQ].
Qed.

Lemma wp_set_times_keeps f m (Q : result unit io_error → World → Prop) w :
  (∀ r w', keeps w w' → Q r w') → wpp φ (File_set_times f m) Q w.
Proof.
  intros HQ. apply wp_bind, wp_file_call; [done|]. intros [n|e] Hr [H1 H2 H3];
    [by apply wp_bind, wp_modify, wp_ret, HQ|by apply wp_ret, HQ].
Qed.

Lemma wp_remove_file_keeps p (Q : result unit io_error → World → Prop) w :
  (∀ r w', keeps w w' → Q r w') → wpp φ (remove_file p) Q w.
Proof.
  intros HQ. unfold remove_file. destruct (has_nul p); [by apply wp_ret, HQ|].
  apply wp_bind, wp_file_call; [done|]. intros [n|e] Hr [H1 H2 H3];
    [by apply wp_bind, wp_modify, wp_ret, HQ|by apply wp_ret, HQ].
Qed.

Lemma wp_symlink_metadata_keeps p (Q : result Metadata io_error → World → Prop) w :
  (∀ r w', keeps w w' → Q r w') → wpp φ (symlink_metadata p) Q w.
Proof.
  intros HQ. unfold symlink_metadata. destruct (has_nul p); [by apply wp_ret, HQ|].
  apply wp_bind, wp_get, wp_bind, wp_file_call; [done|]. intros [n|e] Hr Hk; by apply wp_ret, HQ.
Qed.

Lemma wp_fail_response_fits {S} msg (Q : SyncResponse → S → Prop) s :
  Z.of_nat (length msg) < 2 ^ 28 →
  (∀ resp, fits resp.2 → Q resp s) → wpp φ (fail_response msg) Q s.
Proof.
  intros Hl HQ. apply wp_bind, wp_expect. pose proof (str_bytes_length msg).
  rewrite u32_try_from_u32 by (unfold u32; lia). apply wp_ret, HQ. unfold fits. simpl. lia.
Qed.
End files.

(** ** Receiving *)

Record receiver_ok (self : FileReceiver) : Prop := {
  ok_state : recv_state_wf (rcv_state self);
  ok_path : Z.of_nat (length (rcv_path self)) ≤ 2 ^ 20;
}.

Definition receive_ok {E : Os} (w : World)
    (r : FileReceiverResult.t SyncResponse * FileReceiver) (w' : World) : Prop :=
  keeps w w' ∧ receiver_ok r.2 ∧
  match r.1 with FileReceiverResult.Done resp => fits resp.2 | FileReceiverResult.Continue => True end.

Lemma path_message_fits p (a b : string) e :
  Z.of_nat (length p) ≤ 2 ^ 20 → short_error e →
  (length (lit a) ≤ 100)%nat → (length (lit b) ≤ 100)%nat →
  ∀ `{E : Os}, Z.of_nat (length (lit a ++ path_display p ++ lit b ++ io_error_fmt e)) < 2 ^ 28.
Proof.
  intros Hp He Ha Hb E. apply (@io_error_fmt_length E) in He. rewrite !length_app.
  pose proof (from_utf8_lossy_length p). unfold path_display. lia.
Qed.

Lemma okay_fits : fits okay_response.2.
Proof. done. Qed.

Section receive_safe.
Context {E : Os} {W : Winnow} (φ : panic → Prop).

Lemma wp_abort_keeps self (Q : unit → World → Prop) w :
  (∀ w', keeps w w' → Q tt w') → wpp φ (abort self) Q w.
Proof. intros HQ. apply wp_bind, wp_remove_file_keeps. intros r w' Hk. by apply wp_ret, HQ. Qed.

Lemma wp_finalize_keeps self mtime (Q : FileReceiverResult.t SyncResponse → World → Prop) w :
  receiver_ok self →
  (∀ resp w', keeps w w' → fits resp.2 → Q (FileReceiverResult.Done resp) w') →
  wpp φ (finalize self mtime) Q w.
Proof.
  intros [_ Hp] HQ. apply wp_bind, wp_set_permissions_keeps. intros [[]|e] w1 H1 He.
  - apply wp_bind, wp_set_times_keeps. intros r w2 H2.
    apply wp_ret, HQ; [by etrans|apply okay_fits].
  - apply wp_bind, wp_abort_keeps. intros w2 H2. apply wp_bind, wp_fail_response_fits.
    { by apply path_message_fits; [..|vm_compute; lia|vm_compute; lia]. }
    intros resp Hr. apply wp_ret, HQ; [by etrans|done].
Qed.

Lemma wp_receive_header_safe k self hdr rest w :
  receiver_ok self → length hdr = HEADER_SIZE →
  (∀ n, wpp φ (k (rcv_set_state self (RecvState.Data n)) rest) (receive_ok w) w) →
  wpp φ (receive_header k self hdr rest) (receive_ok w) w.
Proof.
  intros Hok Hl Hk. unfold receive_header. rewrite parse_sync_frame_header_eq by lia.
  destruct (SyncFrameRequestId.try_from _) as [[]|v]; cbn [req_id req_payload_len].
  - apply Hk.
  - apply wp_bind, wp_finalize_keeps; [done|]. intros resp w' H' Hr. by apply wp_ret.
  - apply wp_bind, wp_abort_keeps. intros w' H'.
    apply wp_bind, wp_fail_response_fits; [done|]. intros resp Hr. by apply wp_ret.
Qed.

Lemma wp_copy_safe {S} buf off src (Q : list byte → S → Prop) s :
  (off + length src ≤ length buf)%nat →
  (∀ buf', length buf' = length buf → Q buf' s) → wpp φ (copy_from_slice buf off src) Q s.
Proof.
  unfold copy_from_slice. intros Hl HQ. rewrite decide_True by done. apply wp_ret, HQ.
  rewrite !length_app, List.length_firstn, length_drop. lia.
Qed.

Lemma receive_ok_trans w w1 r w2 : keeps w w1 → receive_ok w1 r w2 → receive_ok w r w2.
Proof. intros ? (? & ? & ?). split_and!; [by etrans|done..]. Qed.

Lemma wp_receive_loop_safe fuel self rest w :
  receiver_ok self → (loop_measure self rest ≤ fuel)%nat →
  wpp φ (receive_loop fuel self rest) (receive_ok w) w.
Proof.
  revert self rest w. induction fuel as [|fuel IH]; intros self [|b rest] w Hok Hfuel;
    [by apply wp_ret| |by apply wp_ret|].
  { unfold loop_measure in Hfuel. simpl in Hfuel. lia. }
  cbn [receive_loop]. assert (1 ≤ length (b :: rest))%nat as Hne by (simpl; lia).
  revert Hfuel Hne. generalize (b :: rest). clear b rest. intros data Hfuel Hne.
  assert (∀ n rest, (S (length rest) ≤ length data)%nat →
    wpp φ (receive_loop fuel (rcv_set_state self (RecvState.Data n)) rest) (receive_ok w) w)
    as IHn.
  { intros n rest Hr. apply IH; [by destruct Hok|]. unfold loop_measure in *. simpl.
    case_decide; lia. }
  unfold loop_measure in Hfuel. unfold receive_step.
  pose proof (ok_state _ Hok) as Hst. pose proof (ok_path _ Hok) as Hp.
  destruct (rcv_state self) as [|leftovers n|remaining] eqn:Est; cbn [recv_state_wf] in Hst.
  - case_decide as Hl.
    + apply wp_receive_header_safe; [done|rewrite List.length_firstn; lia|].
      intros n. apply IHn. rewrite length_drop. unfold HEADER_SIZE in *. lia.
    + apply wp_bind, wp_copy_safe; [rewrite length_replicate; lia|].
      intros buf Hb. apply wp_ret. rewrite length_replicate in Hb.
      split_and!; [done|by split; [split; [done|lia]|]|done].
  - destruct Hst as [Hlen Hn]. case_decide as Hl; apply wp_bind, wp_copy_safe;
      try (rewrite List.length_firstn; lia); intros buf Hb.
    + apply wp_receive_header_safe; [done|lia|]. intros m. apply IHn. rewrite length_drop. lia.
    + apply wp_ret. split_and!; [done|split; [split; [lia|lia]|done]|done].
  - set (k := Z.to_nat (Z.min remaining (Z.of_nat (length data)))).
    apply wp_bind, wp_File_write_all_keeps. intros [[]|e] f' w1 H1 He.
    + eapply wp_mono; [apply IH|intros r w2 Hr; by eapply receive_ok_trans].
      * destruct Hok. split; [|done]. cbn [rcv_state rcv_set_state].
        by destruct (decide (remaining - Z.of_nat k > 0)).
      * unfold loop_measure. simpl. rewrite length_drop. repeat case_decide; simpl; lia.
    + apply wp_bind, wp_abort_keeps. intros w2 H2. apply wp_bind, wp_fail_response_fits.
      { by apply path_message_fits; [..|vm_compute; lia|vm_compute; lia]. }
      intros resp Hr. apply wp_ret. split_and!; [by etrans| |done].
      by split; [simpl; rewrite Est|].
Qed.

Lemma wp_receive_safe self data (Q : FileReceiverResult.t SyncResponse * FileReceiver → World → Prop) w :
  receiver_ok self → (∀ r w', receive_ok w r w' → Q r w') → wpp φ (receive self data) Q w.
Proof.
  intros Hok HQ. eapply wp_mono; [apply wp_receive_loop_safe; [done|]|exact HQ].
  unfold loop_measure, receive_fuel.
  destruct (rcv_state self); try case_decide; lia.
Qed.
End receive_safe.

(** ** The session *)

Definition packet_path (p : SyncPacket.t) : path :=
  match p with
  | SyncPacket.LStatV1 p | SyncPacket.RecvV1 p | SyncPacket.SendV1 p _ => p
  | SyncPacket.Quit => []
  end.

Definition sync_ok (self : SyncService) : Prop :=
  match sync_state self with SyncState.Receiving r => receiver_ok r | _ => True end.

(** The panics that a request can provoke: a [STAT] of a file whose size or
    modification time is not a [u32]. *)
Definition stat_panic (p : panic) : Prop :=
  p = Expect "File too large for 32-bits" ∨ p = Expect "File modified in 2038 or after".

Definition sync_result_fits (r : SyncResult.t) : Prop :=
  match r with SyncResult.Data _ data => fits data | _ => True end.

Section session.
Context {E : Os} {W : Winnow}.

Lemma le_u32_length i x r : le_u32 i = Some (x, r) → length i = (4 + length r)%nat.
Proof. intros [_ ->]%le_u32_Some. by rewrite length_app, length_le_u32_bytes. Qed.

Lemma length_take_lengths i b r :
  length_take le_u32 i = Some (b, r) → (length b + length r ≤ length i)%nat.
Proof.
  rewrite length_take_law. intros ([n j] & H & Hr)%bind_Some. apply le_u32_length in H.
  case_decide; simplify_eq. rewrite List.length_firstn, length_drop. lia.
Qed.

Lemma take_until1_length c i b r : take_until1 c i = Some (b, r) → (length b ≤ length i)%nat.
Proof.
  rewrite take_until1_law. destruct (span _ i) as [k r'] eqn:Hs.
  apply span_spec in Hs as (-> & _). intros H. repeat case_match; simplify_eq.
  rewrite length_app. lia.
Qed.

Lemma parse_sync_packet_lengths i p r :
  parse_sync_packet i = Some (p, r) →
  (length r ≤ length i)%nat ∧ (length (packet_path p) ≤ length i)%nat.
Proof.
  unfold parse_sync_packet, parse_sync_packet_id.
  intros ([id j] & Hid & H)%bind_Some. rewrite verify_map_law in Hid.
  apply bind_Some in Hid as ([v j'] & Hv%le_u32_length & Hid).
  apply bind_Some in Hid as (id' & _ & [= -> ->]).
  destruct id.
  1,2: apply bind_Some in H as ([q j'] & Hq & [= <- <-]); rewrite pmap_law in Hq;
    apply bind_Some in Hq as ([q' j''] & Hq%length_take_lengths & [= <- <-]); simpl; lia.
  - apply bind_Some in H as ([pm j'] & Hq%length_take_lengths & H).
    rewrite separated_pair_law in H. apply bind_Some in H as ([[q m] ?] & Hs & [= <- <-]).
    apply bind_Some in Hs as ([q' ?] & Hq' & Hs).
    apply bind_Some in Hs as ([? ?] & _ & Hs). apply bind_Some in Hs as ([? ?] & _ & [= -> -> _]).
    rewrite pmap_law in Hq'. apply bind_Some in Hq' as ([? ?] & Hq'%take_until1_length & [= <- _]).
    simpl. lia.
  - injection H as <- <-. simpl. lia.
Qed.

(** [next_frame] never panics; its frames fit in a WRTE. *)
Lemma wp_next_frame_safe φ self (Q : option SyncResponse * FileSender → World → Prop) w :
  (∀ o self' w', keeps w w' → (∀ resp, o = Some resp → fits resp.2) → Q (o, self') w') →
  wpp φ (next_frame self) Q w.
Proof.
  intros HQ. unfold next_frame. destruct (snd_done self); [by apply wp_ret, HQ|].
  apply wp_bind, wp_File_read_keeps.
  - intros d f' w' Hk Hd. unfold PAYLOAD_SIZE_MAX_BYTES in Hd.
    destruct d as [|b d]; [apply wp_ret, HQ; [done|by intros ? [= <-]]|].
    apply wp_bind, wp_bind, wp_expect. rewrite u32_try_from_u32 by (unfold u32; lia).
    apply wp_ret, wp_ret, HQ; [done|]. intros resp [= <-]. unfold fits. cbn [snd]. lia.
  - intros e f' w' Hk He. apply wp_bind, wp_fail_response_fits.
    { rewrite length_app. apply (io_error_fmt_length e) in He.
      change (length (lit "read error: ")) with 12%nat. lia. }
    intros resp Hr. apply wp_ret, HQ; [done|]. by intros ? [= <-].
Qed.

Lemma wp_handle_recv_safe φ self p (Q : SyncResult.t * SyncService → World → Prop) w :
  sync_ok self → Z.of_nat (length p) ≤ 2 ^ 20 →
  (∀ r self' w', keeps w w' → sync_ok self' → sync_result_fits r → Q (r, self') w') →
  wpp φ (handle_recv_v1 self p) Q w.
Proof.
  intros Hok Hp HQ. apply wp_bind, wp_File_open_keeps. intros [f|e] w' Hk He.
  - by apply wp_ret, HQ.
  - apply wp_bind, wp_fail_response_fits.
    { by apply path_message_fits; [..|vm_compute; lia|vm_compute; lia]. }
    intros [h d] Hr. by apply wp_ret, HQ.
Qed.

Lemma wp_handle_send_safe φ self p m leftover (Q : SyncResult.t * SyncService → World → Prop) w :
  sync_ok self → Z.of_nat (length p) ≤ 2 ^ 20 →
  (∀ r self' w', keeps w w' → sync_ok self' → sync_result_fits r → Q (r, self') w') →
  wpp φ (handle_send_v1 self p m leftover) Q w.
Proof.
  intros Hok Hp HQ. apply wp_bind, wp_File_create_keeps. intros [f|e] w1 H1 He.
  - assert (receiver_ok (mkFileReceiver f p m RecvState.Header)) as Hrcv by done.
    destruct leftover as [|b l]; [by apply wp_ret, HQ|].
    apply wp_bind, wp_receive_safe; [done|]. intros [[resp|] r] w2 (H2 & Hr & Hfit).
    + apply wp_ret, HQ; [by etrans|done..].
    + apply wp_ret, HQ; [by etrans|done..].
  - apply wp_bind, wp_fail_response_fits.
    { by apply path_message_fits; [..|vm_compute; lia|vm_compute; lia]. }
    intros [h d] Hr. by apply wp_ret, HQ.
Qed.

(** A request or a piece of a transfer is answered, but for the two panics
    of [STAT]; the session stays well formed and touches nothing but
    files. *)
Lemma wp_handle_safe self data (Q : SyncResult.t * SyncService → World → Prop) w :
  sync_ok self → Z.of_nat (length data) ≤ 2 ^ 20 →
  (∀ r self' w', keeps w w' → sync_ok self' → sync_result_fits r → Q (r, self') w') →
  wpp stat_panic (handle self data) Q w.
Proof.
  intros Hok Hd HQ. unfold handle.
  assert (wpp stat_panic (handle_request self data) Q w) as Hreq.
  { unfold handle_request. destruct (parse_sync_packet data) as [[pkt rest]|] eqn:Hp.
    - apply parse_sync_packet_lengths in Hp as [_ Hl]. destruct pkt as [p|p|p m|]; simpl in Hl.
      + apply wp_bind, wp_bind, wp_symlink_metadata_keeps. intros [meta|e] w' Hk.
        * apply wp_bind, wp_expect. destruct (u32_try_from _); [|by left].
          apply wp_bind, wp_expect. destruct (u32_try_from _); [|by right].
          by apply wp_ret, wp_ret, HQ.
        * by apply wp_ret, wp_ret, HQ.
      + apply wp_handle_recv_safe; [done|lia|done].
      + apply wp_handle_send_safe; [done|lia|done].
      + by apply wp_ret, HQ.
    - apply wp_bind, wp_fail_response_fits; [done|]. intros [h d] Hr. by apply wp_ret, HQ. }
  unfold sync_ok in Hok. destruct (sync_state self) as [|s|r]; [done..|].
  apply wp_bind, wp_receive_safe; [done|]. intros [[resp|] r'] w' (Hk & Hr & Hfit).
  - destruct resp. by apply wp_ret, HQ.
  - by apply wp_ret, HQ.
Qed.
End session.
