(* ===== verification/Ring.v ===== *)
(** The interface of the [io_uring] crate that the event loop uses: entries of
    the submission queue, and the queue itself as a class with the documented
    behaviour of its operations.  A pointer in an entry is symbolic: it names
    the buffer that the program passed. *)
From Stdlib Require Import ZArith Lia.
From stdpp Require Import base numbers list gmap strings.
From S2P Require Import Prelude.
From S2P Require Import UserData.

Open Scope Z_scope.

Inductive Ptr : Type :=
  | SlotPtr (slot : Z)   (* a buffer of the pool *)
  | HeapPtr (addr : nat) (* the read buffer of a service *)
  | BulkOutPtr.          (* [bulk_out_buf] *)

Inductive Op : Type :=
  | OpRead (fd : Z) (ptr : Ptr) (len : Z)
  | OpWrite (fd : Z) (ptr : Ptr) (len : Z)
  | OpPollAdd (fd : Z) (flags : Z).

Record Sqe : Type := mkSqe { sqe_op : Op; sqe_user_data : Z; sqe_io_link : bool }.

Record Cqe : Type := mkCqe { cqe_user_data : Z; cqe_result : Z }.

(** The capacity the program asks for. *)
Definition RING_ENTRIES : nat := 32.

Class SubmissionQueue : Type := {
  SQ : Type;
  (** the queue of a fresh ring, or after a submission *)
  sq_empty : SQ;
  (** [SubmissionQueue::push]; [None] is its [PushError] *)
  sq_push : Sqe → SQ → option SQ;
  (** the entries that the next submission hands to the kernel *)
  sq_entries : SQ → list Sqe;

  sq_empty_law : sq_entries sq_empty = [];
  sq_push_law e q q' : sq_push e q = Some q' → sq_entries q' = sq_entries q ++ [e];
  sq_push_full e q : sq_push e q = None ↔ (RING_ENTRIES ≤ length (sq_entries q))%nat;
}.

(** A model of the class. *)
#[refine] Instance sq_list : SubmissionQueue := {|
  SQ := list Sqe;
  sq_empty := [];
  sq_push e q := if decide (length q < RING_ENTRIES)%nat then Some (q ++ [e]) else None;
  sq_entries q := q;
|}.
Proof.
  - done.
  - intros e q q'. case_decide; [|done]. by intros [= <-].
  - intros e q. case_decide; split; try done; lia.
Defined.
