(* ===== verification/Ffs.v ===== *)
(** FunctionFS (src/src/ffs.rs): the events of the control endpoint, and the
    configuration of the USB gadget as a sequence of file-system calls that
    stops at the first failure. *)
From Stdlib Require Import ZArith Lia Strings.Byte.
From stdpp Require Import base numbers list gmap strings.
From S2P Require Import Prelude.
From S2P Require Import Bytes.
From S2P Require Import Str.
From S2P Require Import DeviceInfo.
From S2P Require Import Os.

Open Scope Z_scope.

(** ** Events *)

Definition FUNCTIONFS_BIND : Z := 0.
Definition FUNCTIONFS_UNBIND : Z := 1.
Definition FUNCTIONFS_ENABLE : Z := 2.
Definition FUNCTIONFS_DISABLE : Z := 3.
Definition FUNCTIONFS_SETUP : Z := 4.
Definition FUNCTIONFS_SUSPEND : Z := 5.
Definition FUNCTIONFS_RESUME : Z := 6.

Module UsbFunctionFsEventType.
Inductive t : Type := Bind | Unbind | Enable | Disable | Setup | Suspend | Resume.

#[export] Instance t_eq_dec : EqDecision t.
Proof. solve_decision. Defined.

Definition try_from (value : Z) : result t Z :=
  if decide (value = FUNCTIONFS_BIND) then Ok Bind
  else if decide (value = FUNCTIONFS_UNBIND) then Ok Unbind
  else if decide (value = FUNCTIONFS_ENABLE) then Ok Enable
  else if decide (value = FUNCTIONFS_DISABLE) then Ok Disable
  else if decide (value = FUNCTIONFS_SETUP) then Ok Setup
  else if decide (value = FUNCTIONFS_SUSPEND) then Ok Suspend
  else if decide (value = FUNCTIONFS_RESUME) then Ok Resume
  else Err value.

Definition to_u8 (e : t) : Z :=
  match e with
  | Bind => FUNCTIONFS_BIND | Unbind => FUNCTIONFS_UNBIND | Enable => FUNCTIONFS_ENABLE
  | Disable => FUNCTIONFS_DISABLE | Setup => FUNCTIONFS_SETUP
  | Suspend => FUNCTIONFS_SUSPEND | Resume => FUNCTIONFS_RESUME
  end.
End UsbFunctionFsEventType.

Export (hints) UsbFunctionFsEventType.

(** [size_of::<UsbFunctionFsEvent>()] and [offset_of!(_, event_type)]: eight
    bytes of a control request, the type, three bytes of padding. *)
Definition EVENT_SIZE : nat := 12.
Definition EVENT_TYPE_OFFSET : nat := 8.

Section events.
Context {E : Os}.

(** [rustix::io::read] into a zeroed buffer: the number of bytes read, which
    are the environment's data, and the buffer after it. *)
Definition read_fd (fd : Z) (len : nat) : M World (result (nat * list byte) io_error) :=
  w ← getM;
  r ← sys (CReadFd fd len);
  match r with
  | Err e => mret (Err e)
  | Ok n =>
      let data := take (Nat.min (Z.to_nat n) len) (os_data (w_log w)) in
      mret (Ok (length data, data ++ replicate (len - length data) "000"%byte))
  end.

Definition read_next_ffs_event_type (ep0 : Z) :
    M World (result UsbFunctionFsEventType.t io_error) :=
  '(n, buf) ←? read_fd ep0 EVENT_SIZE;
  if decide (n < EVENT_SIZE)%nat then
    mret (Err (SimpleMessage "short ep0 event read"))
  else
    match buf !! EVENT_TYPE_OFFSET with
    | None => panicM IndexOutOfBounds
    | Some b =>
        match UsbFunctionFsEventType.try_from (byte_Z b) with
        | Ok e => mret (Ok e)
        | Err v => mret (Err (Custom (lit "Unknown FunctionFs Event Type: " ++ show_Z v)))
        end
    end.
End events.

(** ** USB constants (src/src/usb.rs) *)

Definition ADB_MANUFACTURER_EN : str := lit "Android".
Definition ADB_PRODUCT_EN : str := lit "Android Debug Bridge".
Definition USB_CLASS_ADB : Z := 0xff.
Definition USB_SUBCLASS_ADB : Z := 0x42.
Definition USB_PROTOCOL_ADB : Z := 0x01.
Definition USB_VENDOR_ID_GOOGLE : Z := 0x18d1.
Definition USB_PRODUCT_ID_ADB : Z := 0x4ee7.
Definition USB_LANG_EN_US : Z := 0x409.

(** ** The gadget *)

#[local] Open Scope string_scope.

Definition FFS_PATH : string := "/run/adibi/ffs".
Definition GADGET_PATH : string := "/sys/kernel/config/usb_gadget/adibi".

(** Lower-case hexadecimal digits, and [{:#x}] of a [u16]. *)
Definition hex_digit (n : Z) : Ascii.ascii :=
  Ascii.ascii_of_N (Z.to_N (if decide (n < 10) then 48 + n else 87 + n)).

Fixpoint hex_digits (fuel : nat) (n : Z) (acc : string) : string :=
  match fuel with
  | O => acc
  | S fuel =>
      let acc := String (hex_digit (n mod 16)) acc in
      if decide (n < 16) then acc else hex_digits fuel (n / 16) acc
  end.

Definition show_hex (n : Z) : string := "0x" +:+ hex_digits 4 n EmptyString.

(** [{:#06x}]: padded with zeros to four digits. *)
Definition show_hex04 (n : Z) : string :=
  let d := hex_digits 4 n EmptyString in
  "0x" +:+ String.concat EmptyString (replicate (4 - String.length d) "0") +:+ d.

(** [Path::join] of relative paths. *)
Definition join (p q : string) : string := p +:+ "/" +:+ q.

Section gadget.
Context {E : Os} `{SystemFiles} `{Dmidecode}.

Definition create_dir_all (p : string) : M World (result Z io_error) := sys (CCreateDirAll p).
Definition fs_write (p : string) (data : list byte) : M World (result Z io_error) :=
  sys (CFsWrite p data).

Definition setup_gadget : M World (result unit io_error) :=
  let gadget_path := GADGET_PATH in
  _ ←? create_dir_all FFS_PATH;
  _ ←? create_dir_all gadget_path;
  _ ←? fs_write (join gadget_path "idVendor") (bstr (show_hex04 USB_VENDOR_ID_GOOGLE));
  _ ←? fs_write (join gadget_path "idProduct") (bstr (show_hex04 USB_PRODUCT_ID_ADB));
  let strings_path := join gadget_path "strings" in
  let strings_en_path := join strings_path (show_hex USB_LANG_EN_US) in
  _ ←? create_dir_all strings_en_path;
  _ ←? fs_write (join strings_en_path "manufacturer") (str_bytes ADB_MANUFACTURER_EN);
  _ ←? fs_write (join strings_en_path "product") (str_bytes ADB_PRODUCT_EN);
  let device_info := from_system in
  _ ←? fs_write (join strings_en_path "serialnumber") (str_bytes (serial device_info));
  let config_path := join gadget_path "configs/c.1" in
  _ ←? create_dir_all config_path;
  let config_strings_path := join config_path "strings" in
  let config_strings_en_path := join config_strings_path (show_hex USB_LANG_EN_US) in
  _ ←? create_dir_all config_strings_en_path;
  _ ←? fs_write (join config_strings_en_path "configuration") (bstr "adb");
  let function := join gadget_path "functions/ffs.adb" in
  _ ←? create_dir_all function;
  let link := join config_path "ffs.adb" in
  exists_ ←? sys (CExists link);
  if decide (exists_ = 0) then
    _ ←? sys (CSymlink function link);
    mret (Ok tt)
  else mret (Ok tt).

(** The first entry of the directory: an entry's name is the environment's
    data, and a result of zero is the end of the directory. *)
Definition find_udc : M World (result (list byte) io_error) :=
  _ ←? sys (CReadDir "/sys/class/udc");
  w ← getM;
  n ←? sys (CNextDirEntry "/sys/class/udc");
  if decide (n = 0) then mret (Err (SimpleMessage "no UDC found"))
  else mret (Ok (os_data (w_log w))).

Definition bind_udc : M World (result unit io_error) :=
  udc ←? find_udc;
  _ ←? fs_write (join GADGET_PATH "UDC") udc;
  mret (Ok tt).

Definition unbind_udc : M World (result unit io_error) :=
  _ ←? fs_write (join GADGET_PATH "UDC") [];
  mret (Ok tt).
End gadget.

#[local] Close Scope string_scope.

(** ** Theorems *)

Lemma UsbFunctionFsEventType_try_from_Ok v e :
  UsbFunctionFsEventType.try_from v = Ok e ↔ v = UsbFunctionFsEventType.to_u8 e.
Proof.
  split.
  - unfold UsbFunctionFsEventType.try_from. repeat case_decide; intros [= <-]; done.
  - intros ->. by destruct e.
Qed.

Section ffs_facts.
Context {E : Os}.

(** The bytes that a read of the control endpoint delivers after a history. *)
Definition event_bytes (h : list Call) (ep0 : Z) : result (list byte) io_error :=
  match os_result h (CReadFd ep0 EVENT_SIZE) with
  | Ok n => Ok (take (Nat.min (Z.to_nat n) EVENT_SIZE) (os_data h))
  | Err e => Err e
  end.

(** The event in a history, as the kernel's interface defines it. *)
Definition is_event (h : list Call) (ep0 : Z) (e : UsbFunctionFsEventType.t) : Prop :=
  ∃ setup b pad, event_bytes h ep0 = Ok (setup ++ b :: pad) ∧
    length setup = 8%nat ∧ length pad = 3%nat ∧
    byte_Z b = UsbFunctionFsEventType.to_u8 e.

Lemma read_event_cases ep0 w :
  ∃ r, read_next_ffs_event_type ep0 w = Done (r, w_set_log (cons (CReadFd ep0 EVENT_SIZE)) w) ∧
    ∀ e, r = Ok e ↔ is_event (w_log w) ep0 e.
Proof.
  unfold read_next_ffs_event_type, read_fd, bind_ok, sys, is_event, event_bytes, getM, putM.
  cbv [mbind M_bind mret M_ret].
  destruct (os_result (w_log w) _) as [n|err] eqn:Er.
  2: { eexists. split; [done|]. intros e. split; [done|]. by intros (? & ? & ? & ? & _). }
  set (d := take _ _).
  assert (length d ≤ EVENT_SIZE)%nat as Hd by (unfold d; rewrite List.length_firstn; lia).
  case_decide as Hl.
  { eexists. split; [done|]. intros e. split; [done|].
    intros (s & b & p & [= Hp] & Hs & Hpd & _). fold d in Hp. rewrite Hp, length_app in Hl.
    simpl in Hl. unfold EVENT_SIZE in *. lia. }
  assert (∃ b, d !! 8%nat = Some b) as [b Hb].
  { apply lookup_lt_is_Some. unfold EVENT_SIZE in *. lia. }
  rewrite lookup_app_l by (unfold EVENT_TYPE_OFFSET, EVENT_SIZE in *; lia).
  unfold EVENT_TYPE_OFFSET. rewrite Hb.
  assert (∀ e, (∃ s b' p, d = s ++ b' :: p ∧ length s = 8%nat ∧ length p = 3%nat ∧
    byte_Z b' = UsbFunctionFsEventType.to_u8 e) ↔ byte_Z b = UsbFunctionFsEventType.to_u8 e) as Hiff.
  { intros e. split.
    - intros (s & b' & p & Hds & Hs & _ & <-). rewrite Hds, <-Hs, list_lookup_middle in Hb by done.
      by injection Hb as ->.
    - intros He. exists (take 8 d), b, (drop 9 d). apply take_drop_middle in Hb as Hd'.
      rewrite List.length_firstn, length_drop. unfold EVENT_SIZE in *. split_and!; [done|lia|lia|done]. }
  destruct (UsbFunctionFsEventType.try_from (byte_Z b)) as [e'|v] eqn:Et.
  - apply UsbFunctionFsEventType_try_from_Ok in Et. eexists. split; [done|]. intros e. split.
    + intros [= <-]. destruct (proj2 (Hiff e') Et) as (s & b' & p & -> & ?). by exists s, b', p.
    + intros (s & b' & p & [= Hp] & ?). fold d in Hp. f_equal.
      assert (byte_Z b = UsbFunctionFsEventType.to_u8 e) as He
        by (apply Hiff; by exists s, b', p).
      rewrite Et in He. by destruct e, e'.
  - eexists. split; [done|]. intros e. split; [done|].
    intros (s & b' & p & [= Hp] & ?). fold d in Hp.
    assert (byte_Z b = UsbFunctionFsEventType.to_u8 e) as He
      by (apply Hiff; by exists s, b', p).
    apply UsbFunctionFsEventType_try_from_Ok in He. congruence.
Qed.

(** Whatever was read, one call was made. *)
Lemma read_event_outcome ep0 w :
  ∃ r, read_next_ffs_event_type ep0 w = Done (r, w_set_log (cons (CReadFd ep0 EVENT_SIZE)) w).
Proof. destruct (read_event_cases ep0 w) as (r & Hr & _). eauto. Qed.

(** [read_next_ffs_event_type] never panics and makes one read; it
    returns an event exactly when the read delivered a whole event structure
    with that event's code in it, and an error otherwise: a failed read, a
    short one, an unknown code. *)
Theorem read_next_ffs_event_type_spec ep0 w :
  ∃ r, read_next_ffs_event_type ep0 w = Done (r, w_set_log (cons (CReadFd ep0 EVENT_SIZE)) w) ∧
    ∀ e, r = Ok e ↔ is_event (w_log w) ep0 e.
Proof. apply read_event_cases. Qed.
End ffs_facts.

(** ** The gadget's configuration *)

#[local] Open Scope string_scope.

Section gadget_facts.
Context {E : Os} `{SystemFiles} `{Dmidecode}.

(** A history continued by calls that all succeeded ... *)
Fixpoint all_ok (h : list Call) (cs : list Call) : Prop :=
  match cs with
  | [] => True
  | c :: cs => (∃ n, os_result h c = Ok n) ∧ all_ok (c :: h) cs
  end.

(** ... and the outcome of a script of calls that stops at the first failure. *)
Definition script_outcome (script : list Call) (h h' : list Call) (r : result unit io_error) :
    Prop :=
  match r with
  | Ok _ => h' = (reverse script ++ h)%list ∧ all_ok h script
  | Err e => ∃ pre c post, script = (pre ++ c :: post)%list ∧ all_ok h pre ∧
      h' = (c :: reverse pre ++ h)%list ∧ os_result (reverse pre ++ h)%list c = Err e
  end.

Lemma wp_script c script (k : Z → M World (result unit io_error)) w :
  (∀ n, os_result (w_log w) c = Ok n →
    let w1 := w_set_log (cons c) w in
    wp (k n) (λ r w', script_outcome script (w_log w1) (w_log w') r) w1) →
  wp (bind_ok (sys c) k) (λ r w', script_outcome (c :: script) (w_log w) (w_log w') r) w.
Proof.
  intros Hk. apply wp_bind_ok, wp_sys.
  destruct (os_result (w_log w) c) as [n|e] eqn:Er; [|by exists [], c, script].
  eapply wp_mono; [by apply Hk|]. intros [u|e] w'; simpl.
  - intros [-> Hok]. rewrite reverse_cons, <-(assoc_L (++)%list).
    split; [done|]. by split; [exists n|].
  - intros (pre & c' & post & -> & Hok & -> & He). exists (c :: pre), c', post.
    rewrite reverse_cons, <-!(assoc_L (++)%list). split_and!; [done|by split; [exists n|]|done..].
Qed.

Definition link_path : string := "/sys/kernel/config/usb_gadget/adibi/configs/c.1/ffs.adb".
Definition function_path : string := "/sys/kernel/config/usb_gadget/adibi/functions/ffs.adb".

(** The script of [setup_gadget] up to the link ... *)
Definition gadget_calls : list Call :=
  let g := "/sys/kernel/config/usb_gadget/adibi" in
  [ CCreateDirAll "/run/adibi/ffs";
    CCreateDirAll g;
    CFsWrite (g +:+ "/idVendor") (bstr "0x18d1");
    CFsWrite (g +:+ "/idProduct") (bstr "0x4ee7");
    CCreateDirAll (g +:+ "/strings/0x409");
    CFsWrite (g +:+ "/strings/0x409/manufacturer") (bstr "Android");
    CFsWrite (g +:+ "/strings/0x409/product") (bstr "Android Debug Bridge");
    CFsWrite (g +:+ "/strings/0x409/serialnumber") (str_bytes (serial from_system));
    CCreateDirAll (g +:+ "/configs/c.1");
    CCreateDirAll (g +:+ "/configs/c.1/strings/0x409");
    CFsWrite (g +:+ "/configs/c.1/strings/0x409/configuration") (bstr "adb");
    CCreateDirAll function_path ].

(** ... and with the link, which is made only if it is not there. *)
Definition gadget_script (h : list Call) : list Call :=
  (gadget_calls ++ CExists link_path ::
   match os_result (reverse gadget_calls ++ h)%list (CExists link_path) with
   | Ok 0 => [CSymlink function_path link_path]
   | _ => []
   end)%list.

Lemma wp_setup_gadget w :
  wp setup_gadget (λ r w', script_outcome (gadget_script (w_log w)) (w_log w) (w_log w') r) w.
Proof.
  unfold setup_gadget, gadget_script.
  set (tail := match os_result _ _ with Ok 0 => _ | _ => _ end).
  cbn [gadget_calls app]. do 12 (apply wp_script; intros _ _).
  apply wp_script. intros n Hn. unfold tail.
  replace (os_result (reverse gadget_calls ++ w_log w)%list (CExists link_path)) with (Ok (E := io_error) n)
    by (symmetry; exact Hn).
  case_decide as H0n; [subst n; by apply wp_script|]. destruct n; by apply wp_ret.
Qed.

(** C38: [setup_gadget] never panics and performs exactly the configuration
    script, in order, stopping at the first call that fails and returning
    its error; on success every call succeeded, and the function was linked
    into the configuration unless the link was there already. *)
Theorem setup_gadget_script w :
  ∃ r w', setup_gadget w = Done (r, w') ∧
    script_outcome (gadget_script (w_log w)) (w_log w) (w_log w') r.
Proof. apply wp_total, wp_setup_gadget. Qed.
End gadget_facts.
