(* ===== verification/Connection.v ===== *)
(** The ADB connection (src/src/main.rs): one Definition per method of
    [AdbConnection], the completion handler of the event loop, and what comes
    before it.  The theorems are in ConnectionFacts and System. *)
From Stdlib Require Import ZArith Lia Strings.Byte.
From stdpp Require Import base numbers list gmap strings.
From S2P Require Import Prelude.
From S2P Require Import Bytes.
From S2P Require Import Str.
From S2P Require Import Winnow.
From S2P Require Import DeviceInfo.
From S2P Require Import Message.
From S2P Require Import Buffers.
From S2P Require Import Os.
From S2P Require Import Sync.
From S2P Require Import Shell.
From S2P Require Import Forward.
From S2P Require Import Stream.
From S2P Require Import UserData.
From S2P Require Import Ring.
From S2P Require Import Ffs.

Open Scope Z_scope.

(** ** State *)

Record AdbConnection : Type := mkAdbConnection {
  ep0 : Z;
  bulk_in : Z;
  bulk_out : Z;
  info : DeviceInfo;
  conn_buffers : BufferManager;
  conn_streams : StreamManager;
  version : ProtocolVersion;
}.

Definition AdbConnection_new (ep0 bulk_out bulk_in : Z) (info : DeviceInfo) : AdbConnection :=
  mkAdbConnection ep0 bulk_in bulk_out info BufferManager_new StreamManager_new V0.

(** [CStr::from_bytes_until_nul]: the bytes before the first NUL. *)
Fixpoint from_bytes_until_nul (bytes : list byte) : option (list byte) :=
  match bytes with
  | [] => None
  | b :: bytes =>
      if decide (b = "000"%byte) then Some []
      else match from_bytes_until_nul bytes with Some s => Some (b :: s) | None => None end
  end.

(** [&buf[..len]]. *)
Definition slice_to {S} (len : nat) (buf : list byte) : M S (list byte) :=
  if decide (len ≤ length buf)%nat then mret (take len buf) else panicM IndexOutOfBounds.

Section connection.
Context {E : Os} {W : Winnow} {R : SubmissionQueue}.

(** What a method of [AdbConnection] works on: the connection, the
    submission queue it is passed, and the system. *)
Record Daemon : Type := mkDaemon { conn : AdbConnection; sq : SQ; os : World }.

Definition d_buffers (d : Daemon) : BufferManager := conn_buffers (conn d).
Definition d_streams (d : Daemon) : StreamManager := conn_streams (conn d).
Definition d_version (d : Daemon) : ProtocolVersion := version (conn d).

Definition set_buffers (b : BufferManager) (d : Daemon) : Daemon :=
  let c := conn d in
  mkDaemon (mkAdbConnection (ep0 c) (bulk_in c) (bulk_out c) (info c) b (conn_streams c)
              (version c)) (sq d) (os d).
Definition set_streams (m : StreamManager) (d : Daemon) : Daemon :=
  let c := conn d in
  mkDaemon (mkAdbConnection (ep0 c) (bulk_in c) (bulk_out c) (info c) (conn_buffers c) m
              (version c)) (sq d) (os d).
Definition set_version (v : ProtocolVersion) (d : Daemon) : Daemon :=
  let c := conn d in
  mkDaemon (mkAdbConnection (ep0 c) (bulk_in c) (bulk_out c) (info c) (conn_buffers c)
              (conn_streams c) v) (sq d) (os d).
Definition set_sq (q : SQ) (d : Daemon) : Daemon := mkDaemon (conn d) q (os d).
Definition set_os (w : World) (d : Daemon) : Daemon := mkDaemon (conn d) (sq d) w.

Definition on_buffers {A} (m : M BufferManager A) : M Daemon A := zoom d_buffers set_buffers m.
Definition on_os {A} (m : M World A) : M Daemon A := zoom os set_os m.

(** [streams.get], and a change through the reference it returned. *)
Definition get_stream (local_id : Z) : M Daemon (option Stream) :=
  d ← getM; mret (stream_get (d_streams d) local_id).

Definition set_stream (local_id : Z) (s : Stream) : M Daemon unit :=
  modifyM (λ d, set_streams
    (mkStreamManager (<[local_id := s]> (streams (d_streams d))) (next_id (d_streams d))) d).

Definition open_stream (remote_id : Z) (name : str) : M Daemon (option Z) :=
  d ← getM;
  '(o, m) ← on_os (stream_open (d_streams d) remote_id name);
  modifyM (set_streams m);;
  mret o.

Definition close_stream (local_id : Z) : M Daemon unit :=
  d ← getM;
  m ← on_os (stream_close (d_streams d) local_id);
  modifyM (set_streams m).

(** ** Submissions *)

(** [sq.push(&sqe).expect("SQ full")]. *)
Definition push (sqe : Sqe) : M Daemon unit :=
  d ← getM;
  q ← expectM (sq_push sqe (sq d)) "SQ full";
  modifyM (set_sq q).

(** A write of the pool's buffer [slot] on [bulk_in]. *)
Definition write_sqe (slot : Z) (io_link : bool) : M Daemon Sqe :=
  d ← getM;
  len ← on_buffers (buf_len slot);
  len ← expectM (u32_try_from len) "buffer length fits in u32";
  data ← expectM (NonZero_new slot) "Buffer slot 0 cannot exist";
  mret (mkSqe (OpWrite (bulk_in (conn d)) (SlotPtr slot) len)
          (UserData_u64 (mkUserData UserDataOpType.BulkInWrite (Some data))) io_link).

(** The half of [submit_message] that its two messages share: a buffer of the
    pool is filled and its write queued. *)
Definition submit_buffer (capacity : Z) (data : list byte) (io_link : bool) :
    M Daemon unit :=
  slot ← on_buffers (alloc capacity);
  on_buffers (buf_extend slot data);;
  sqe ← write_sqe slot io_link;
  push sqe.

Definition submit_message (header : AdbHeader) (payload : option (list byte)) :
    M Daemon unit :=
  let payload := match payload with Some [] => None | _ => payload end in
  submit_buffer 24 (AdbHeader_bytes header)
    (match payload with Some _ => true | None => false end);;
  match payload with
  | None => mret tt
  | Some payload => submit_buffer (Z.of_nat (length payload)) payload false
  end.

Definition submit_bulk_out_read (bulk_out_buf : list byte) (user_data : UserData) :
    M Daemon unit :=
  d ← getM;
  len ← expectM (u32_try_from (Z.of_nat (length bulk_out_buf)))
    "The buffer is at most 1MB and will fit in a u32";
  push (mkSqe (OpRead (bulk_out (conn d)) BulkOutPtr len) (UserData_u64 user_data) false).

Definition submit_ep0_poll : M Daemon unit :=
  d ← getM;
  push (mkSqe (OpPollAdd (ep0 (conn d)) 0x0001)
          (UserData_u64 (mkUserData UserDataOpType.Ep0Poll None)) false).

Definition maybe_submit_pty_read (local_id : Z) : M Daemon unit :=
  o ← get_stream local_id;
  match o with
  | None => mret tt
  | Some stream =>
      if waiting_for_okay stream then mret tt
      else match service stream with
      | Service.Shell shell =>
          capacity ← shell_read_buf_capacity shell;
          data ← expectM (NonZero_new local_id) "Service ID 0 cannot exist";
          push (mkSqe (OpRead (master_raw_fd shell) (HeapPtr (shell_read_buf_ptr shell)) capacity)
                  (UserData_u64 (mkUserData UserDataOpType.PtyRead (Some data))) false)
      | _ => mret tt
      end
  end.

Definition maybe_submit_socket_read (local_id : Z) : M Daemon unit :=
  o ← get_stream local_id;
  match o with
  | None => mret tt
  | Some stream =>
      if waiting_for_okay stream then mret tt
      else match service stream with
      | Service.Forward fwd =>
          capacity ← forward_read_buf_capacity fwd;
          data ← expectM (NonZero_new local_id) "Service ID 0 cannot exist";
          push (mkSqe (OpRead (forward_as_raw_fd fwd) (HeapPtr (forward_read_buf_ptr fwd)) capacity)
                  (UserData_u64 (mkUserData UserDataOpType.SocketRead (Some data))) false)
      | _ => mret tt
      end
  end.

Definition submit_wrte_sync (local_id remote_id : Z) (hdr : SyncFrameResponseHeader)
    (payload : list byte) : M Daemon unit :=
  d ← getM;
  let sync_payload := SyncFrameResponseHeader_bytes hdr ++ payload in
  wrte ← wrte_header (d_version d) local_id remote_id sync_payload;
  submit_message wrte (Some sync_payload).

Definition maybe_submit_wrte_sync (local_id : Z) : M Daemon unit :=
  o ← get_stream local_id;
  match o with
  | None => mret tt
  | Some stream =>
      if waiting_for_okay stream then mret tt
      else match service stream with
      | Service.Sync sync_svc =>
          match sync_state sync_svc with
          | SyncState.Sending sender =>
              '(frame, sender) ← on_os (next_frame sender);
              let sending := Service.Sync (mkSyncService (SyncState.Sending sender)) in
              match frame with
              | Some (hdr, data) =>
                  set_stream local_id
                    (stream_set_waiting (stream_set_service stream sending) true);;
                  submit_wrte_sync local_id (remote_id stream) hdr data
              | None =>
                  set_stream local_id (stream_set_service stream
                    (Service.Sync (mkSyncService SyncState.Idle)))
              end
          | _ => mret tt
          end
      | _ => mret tt
      end
  end.

Definition maybe_continue_stream (local_id : Z) : M Daemon unit :=
  o ← get_stream local_id;
  match o with
  | None => mret tt
  | Some stream =>
      match service stream with
      | Service.Sync _ => maybe_submit_wrte_sync local_id
      | Service.Shell _ => maybe_submit_pty_read local_id
      | Service.Forward _ => maybe_submit_socket_read local_id
      | Service.Reboot => panicM (Unreachable "main.rs:808")
      end
  end.

(** ** Commands *)

(** A CLSE message without a payload. *)
Definition submit_clse (local_id remote_id : Z) : M Daemon unit :=
  d ← getM;
  clse ← clse_header (d_version d) local_id remote_id;
  submit_message clse None.

Definition submit_okay (local_id remote_id : Z) : M Daemon unit :=
  d ← getM;
  okay ← okay_header (d_version d) local_id remote_id;
  submit_message okay None.

Definition handle_command_clse (header : AdbHeader) : M Daemon unit :=
  let local_id := arg1 header in
  o ← get_stream local_id;
  match o with
  | None => mret tt
  | Some stream =>
      assertM (bool_decide (remote_id stream = arg0 header)) "CLSE remote_id mismatch";;
      match service stream with
      | Service.Forward fwd =>
          _ ← on_os (shutdown_write fwd);
          set_stream local_id (stream_set_remote_closed stream true)
      | _ =>
          submit_clse local_id (remote_id stream);;
          close_stream local_id
      end
  end.

Definition handle_command_cnxn (header : AdbHeader) : M Daemon unit :=
  let recv_version :=
    match ProtocolVersion_try_from (arg0 header) with Ok v => v | Err _ => V0 end in
  modifyM (set_version recv_version);;
  d ← getM;
  '(response_header, response_payload) ← cnxn_response recv_version (info (conn d));
  submit_message response_header (Some response_payload).

Definition handle_command_okay (header : AdbHeader) : M Daemon unit :=
  let local_id := arg1 header in
  o ← get_stream local_id;
  match o with
  | Some stream => set_stream local_id (stream_set_waiting stream false)
  | None => mret tt
  end;;
  maybe_continue_stream local_id.

Definition handle_command_open (header : AdbHeader) (payload : list byte) : M Daemon unit :=
  let remote_id := arg0 header in
  match from_bytes_until_nul payload with
  | None => submit_clse 0 remote_id
  | Some c_service =>
      match from_utf8 c_service with
      | None => submit_clse 0 remote_id
      | Some name =>
          o ← open_stream remote_id name;
          match o with
          | Some local_id =>
              submit_okay local_id remote_id;;
              o ← get_stream local_id;
              stream ← expectM o "We just opened our stream successfully.";
              match service stream with
              | Service.Shell _ => maybe_submit_pty_read local_id
              | Service.Forward _ => maybe_submit_socket_read local_id
              | Service.Sync _ => mret tt
              | Service.Reboot => _ ← on_os (sys (CSpawn (lit "reboot") [])); mret tt
              end
          | None => submit_clse 0 remote_id
          end
      end
  end.

(** The end of a stream whose service failed or quit. *)
Definition close_with_clse (local_id remote_id : Z) : M Daemon unit :=
  submit_clse local_id remote_id;;
  close_stream local_id.

Definition handle_command_wrte (header : AdbHeader) (payload : list byte) : M Daemon unit :=
  let local_id := arg1 header in
  submit_okay local_id (arg0 header);;
  o ← get_stream local_id;
  match o with
  | None => mret tt
  | Some stream =>
      let remote_id := remote_id stream in
      match service stream with
      | Service.Sync sync_svc =>
          '(r, sync_svc) ← on_os (handle sync_svc payload);
          set_stream local_id (stream_set_service stream (Service.Sync sync_svc));;
          match r with
          | SyncResult.Stat stat =>
              d ← getM;
              wrte ← wrte_header (d_version d) local_id remote_id (SyncStat_bytes stat);
              submit_message wrte (Some (SyncStat_bytes stat))
          | SyncResult.Data hdr data => submit_wrte_sync local_id remote_id hdr data
          | SyncResult.Continue => maybe_submit_wrte_sync local_id
          | SyncResult.Quit => close_with_clse local_id remote_id
          end
      | Service.Shell shell =>
          r ← on_os (shell_write_input shell payload);
          match r with
          | Ok _ => mret tt
          | Err _ => close_with_clse local_id remote_id
          end
      | Service.Forward fwd =>
          r ← on_os (forward_write_input fwd payload);
          match r with
          | Ok _ => mret tt
          | Err _ => close_with_clse local_id remote_id
          end
      | Service.Reboot => panicM (Unreachable "main.rs:353")
      end
  end.

Definition handle_command (header : AdbHeader) (payload : option (list byte)) :
    M Daemon unit :=
  match command header with
  | Cnxn => _ ← expectM payload "CNXN requires a payload"; handle_command_cnxn header
  | Open =>
      payload ← expectM payload "OPEN requires a payload"; handle_command_open header payload
  | Wrte =>
      payload ← expectM payload "WRTE requires a payload"; handle_command_wrte header payload
  | Okay =>
      assertM (match payload with None => true | Some _ => false end)
        "OKAY must not carry a payload";;
      handle_command_okay header
  | Clse => handle_command_clse header
  | Auth | Stls => mret tt
  end.

(** [true] to stop. *)
Definition handle_ep0_event : M Daemon bool :=
  d ← getM;
  r ← on_os (read_next_ffs_event_type (ep0 (conn d)));
  mret (match r with
        | Ok UsbFunctionFsEventType.Disable | Ok UsbFunctionFsEventType.Unbind => true
        | Ok _ => false
        | Err _ => true
        end).

(** ** The event loop *)

(** The locals of [run], and what its methods work on. *)
Record Loop : Type := mkLoop {
  dm : Daemon;
  pending_header : option AdbHeader;
  bulk_out_buf : list byte;
}.

Definition set_dm (d : Daemon) (l : Loop) : Loop := mkLoop d (pending_header l) (bulk_out_buf l).
Definition set_pending (h : option AdbHeader) (l : Loop) : Loop :=
  mkLoop (dm l) h (bulk_out_buf l).

Definition on_dm {A} (m : M Daemon A) : M Loop A := zoom dm set_dm m.

Definition listen (op : UserDataOpType.t) : M Loop unit :=
  l ← getM; on_dm (submit_bulk_out_read (bulk_out_buf l) (mkUserData op None)).

(** The end of a stream whose shell or socket is at its end. *)
Definition service_read_end (local_id : Z) : M Daemon unit :=
  o ← get_stream local_id;
  match o with
  | Some stream => submit_clse local_id (remote_id stream)
  | None => mret tt
  end;;
  close_stream local_id.

(** A completed read of [len] bytes is sent on. *)
Definition service_read (local_id : Z) (stream : Stream) (read_buf_data : M World (list byte)) :
    M Daemon unit :=
  set_stream local_id (stream_set_waiting stream true);;
  data ← on_os read_buf_data;
  d ← getM;
  wrte ← wrte_header (d_version d) local_id (remote_id stream) data;
  submit_message wrte (Some data).

Definition pty_read (local_id res : Z) : M Daemon unit :=
  if decide (res ≤ 0) then service_read_end local_id
  else
    o ← get_stream local_id;
    match o with
    | None => mret tt
    | Some stream =>
        match service stream with
        | Service.Shell shell =>
            service_read local_id stream (shell_read_buf_data shell (Z.to_nat res))
        | _ => mret tt
        end
    end.

Definition socket_read (local_id res : Z) : M Daemon unit :=
  if decide (res ≤ 0) then service_read_end local_id
  else
    o ← get_stream local_id;
    match o with
    | None => mret tt
    | Some stream =>
        match service stream with
        | Service.Forward fwd =>
            service_read local_id stream (forward_read_buf_data fwd (Z.to_nat res))
        | _ => mret tt
        end
    end.

Definition bulk_out_read_header (res : Z) : M Loop unit :=
  l ← getM;
  data ← slice_to (Z.to_nat res) (bulk_out_buf l);
  match parse_header data with
  | Some (header, _) =>
      if decide (data_length header > 0) then
        modifyM (set_pending (Some header));;
        listen UserDataOpType.BulkOutReadPayload
      else
        on_dm (handle_command header None);;
        listen UserDataOpType.BulkOutReadHeader
  | None => listen UserDataOpType.BulkOutReadHeader
  end.

Definition bulk_out_read_payload (res : Z) : M Loop unit :=
  l ← getM;
  modifyM (set_pending None);;
  match pending_header l with
  | Some header =>
      data ← slice_to (Z.to_nat res) (bulk_out_buf l);
      if requires_checksum (d_version (dm l)) && negb (bool_decide (checksum data = data_check header))
      then mret tt
      else on_dm (handle_command header (Some data))
  | None => mret tt
  end;;
  listen UserDataOpType.BulkOutReadHeader.

(** [Debug for UserDataOpType]. *)
Definition op_type_debug (op : UserDataOpType.t) : string :=
  match op with
  | UserDataOpType.Ep0Poll => "Ep0Poll"
  | UserDataOpType.BulkOutReadHeader => "BulkOutReadHeader"
  | UserDataOpType.BulkOutReadPayload => "BulkOutReadPayload"
  | UserDataOpType.BulkInWrite => "BulkInWrite"
  | UserDataOpType.PtyRead => "PtyRead"
  | UserDataOpType.SocketRead => "SocketRead"
  end.

Definition op_error (op : UserDataOpType.t) (res : Z) : io_error :=
  Custom (lit (op_type_debug op) ++ lit " error: " ++ io_error_fmt (OsError (- res))).

(** The body of the loop over the completions; [Some] is a [return]. *)
Definition handle_cqe (cqe : Cqe) : M Loop (option (result unit io_error)) :=
  let res := cqe_result cqe in
  match UserData_try_from (cqe_user_data cqe) with
  | Err _ => mret None
  | Ok user_data =>
      match op_type user_data, ud_data user_data with
      | UserDataOpType.PtyRead, Some local_id => on_dm (pty_read local_id res);; mret None
      | UserDataOpType.PtyRead, None | UserDataOpType.SocketRead, None =>
          panicM (Unreachable "main.rs:520")
      | UserDataOpType.SocketRead, Some local_id => on_dm (socket_read local_id res);; mret None
      | UserDataOpType.BulkInWrite, Some slot => on_dm (on_buffers (free slot));; mret None
      | op, _ =>
          if decide (res < 0) then mret (Some (Err (op_error op res)))
          else match op with
          | UserDataOpType.Ep0Poll =>
              stop ← on_dm handle_ep0_event;
              if (stop : bool) then mret (Some (Ok tt))
              else on_dm submit_ep0_poll;; mret None
          | UserDataOpType.BulkOutReadHeader => bulk_out_read_header res;; mret None
          | UserDataOpType.BulkOutReadPayload => bulk_out_read_payload res;; mret None
          | _ => panicM (Unreachable "main.rs:684")
          end
      end
  end.

(** The loop over one batch of completions. *)
Fixpoint handle_cqes (cqes : list Cqe) : M Loop (option (result unit io_error)) :=
  match cqes with
  | [] => mret None
  | cqe :: cqes =>
      o ← handle_cqe cqe;
      match o with
      | Some r => mret (Some r)
      | None => handle_cqes cqes
      end
  end.

(** [run] up to its loop; the ring is empty when it is made. *)
Definition run_start : M Loop (result unit io_error) :=
  _ ←? on_dm (on_os (sys (CIoUringNew 32)));
  on_dm (modifyM (set_sq sq_empty));;
  on_dm submit_ep0_poll;;
  listen UserDataOpType.BulkOutReadHeader;;
  mret (Ok tt).

Definition BULK_OUT_BUF_SIZE : nat := Z.to_nat (max_payload PROTOCOL_VERSION).

Definition Loop_new (ep0 bulk_out bulk_in : Z) (info : DeviceInfo) (w : World) : Loop :=
  mkLoop (mkDaemon (AdbConnection_new ep0 bulk_out bulk_in info) sq_empty w) None
    (replicate BULK_OUT_BUF_SIZE "000"%byte).
End connection.
