(* ===== verification/Tame.v ===== *)
(** What the program leaves alone, whatever it does.  A relation between
    worlds is tame if every system call but the writes to descriptors keeps it,
    and so do allocations, frees and changes of files; then all of the program
    keeps it, but perhaps the handling of a WRTE.  Three relations matter
    later: memory that is allocated is never written to, descriptors accept
    nothing more, and the log of calls only grows. *)
From Stdlib Require Import ZArith Lia Strings.Byte.
From stdpp Require Import base numbers list gmap strings.
From S2P Require Import Prelude.
From S2P Require Import Winnow.
From S2P Require Import Message.
From S2P Require Import Buffers.
From S2P Require Import Os.
From S2P Require Import Sync.
From S2P Require Import Shell.
From S2P Require Import Forward.
From S2P Require Import Stream.
From S2P Require Import UserData.
From S2P Require Import Ring.
From S2P Require Import Ffs.
From S2P Require Import Connection.

Open Scope Z_scope.

(** A write to a descriptor. *)
Definition writes_fd (c : Call) : bool :=
  match c with CWriteFd _ _ | CWriteAllFd _ _ => true | _ => false end.

Class Tame {E : Os} (T : relation World) : Prop := {
  #[global] tame_refl :: Reflexive T;
  #[global] tame_trans :: Transitive T;
  tame_call c w : writes_fd c = false → T w (w_set_log (cons c) w);
  tame_alloc n : Respects T (heap_alloc n);
  tame_free p : Respects T (heap_free p);
  tame_files w w' : w_log w' = w_log w → w_heap w' = w_heap w →
    (w_next w ≤ w_next w')%nat → T w w';
}.

(** A relation that writes to descriptors keep, too. *)
Definition tame_writes {E : Os} (T : relation World) : Prop := ∀ c w, T w (w_set_log (cons c) w).

Section tame.
Context {E : Os} {W : Winnow} {R : SubmissionQueue} (T : relation World) `{!Tame T}.

(** ** The system *)

Lemma sys_tame c : writes_fd c = false → Respects T (sys c).
Proof. intros Hc w r w' [= _ <-]. by apply tame_call. Qed.

Lemma heap_read_tame p n : Respects T (heap_read p n).
Proof. by intros w b w' [= _ <-]. Qed.

Lemma modify_tame f :
  (∀ w, w_log (f w) = w_log w ∧ w_heap (f w) = w_heap w ∧ w_next (f w) = w_next w) →
  Respects T (modifyM f).
Proof. intros Hf. apply respects_modify. intros w. destruct (Hf w) as (? & ? & ?). apply tame_files; lia || done.
Qed.

Hint Resolve tame_alloc tame_free heap_read_tame : respects.
Hint Extern 1 (Respects T (sys _)) => apply sys_tame; reflexivity : respects.
Hint Extern 1 (Respects T (modifyM _)) => apply modify_tame; done : respects.

Lemma inode_write_tame f data : Respects T (inode_write f data).
Proof. intros w r w' [= _ <-]. by apply tame_files. Qed.

Hint Resolve inode_write_tame : respects.

Lemma File_open_tame p : Respects T (File_open p).
Proof. unfold File_open. solve_respects. Qed.

Lemma File_create_tame p : Respects T (File_create p).
Proof.
  unfold File_create. destruct (has_nul p); [solve_respects|].
  apply respects_bind; [apply _|by apply sys_tame|]. intros [_|e]; [|solve_respects].
  intros w r w'. cbv [mbind M_bind getM putM mret M_ret].
  destruct (w_paths w !! p); intros [= _ <-]; apply tame_files; cbn; lia || done.
Qed.

Lemma File_read_tame f n : Respects T (File_read f n).
Proof. unfold File_read. solve_respects. Qed.

Lemma File_write_all_tame f data : Respects T (File_write_all f data).
Proof. unfold File_write_all. solve_respects. Qed.

Lemma File_set_permissions_tame f m : Respects T (File_set_permissions f m).
Proof. unfold File_set_permissions. solve_respects. Qed.

Lemma File_set_times_tame f m : Respects T (File_set_times f m).
Proof. unfold File_set_times. solve_respects. Qed.

Lemma remove_file_tame p : Respects T (remove_file p).
Proof. unfold remove_file. solve_respects. Qed.

Lemma symlink_metadata_tame p : Respects T (symlink_metadata p).
Proof. unfold symlink_metadata. solve_respects. Qed.

Hint Resolve File_open_tame File_create_tame File_read_tame File_write_all_tame
  File_set_permissions_tame File_set_times_tame remove_file_tame symlink_metadata_tame : respects.

(** ** The services *)

Lemma close_fd_tame fd : Respects T (close_fd fd).
Proof. unfold close_fd. solve_respects. Qed.

Hint Resolve close_fd_tame : respects.

Lemma close_fds_tame fds : Respects T (close_fds fds).
Proof. induction fds; cbn [close_fds]; solve_respects. Qed.

Hint Resolve close_fds_tame : respects.

Lemma try_call_tame {A} c owned (k : Z → M World (result A io_error)) :
  writes_fd c = false → (∀ v, Respects T (k v)) → Respects T (try_call c owned k).
Proof. intros Hc Hk. pose proof (sys_tame c Hc). unfold try_call. solve_respects. Qed.

Lemma spawn_tame command : Respects T (spawn command).
Proof. unfold spawn. cbv zeta. do 7 (apply try_call_tame; [reflexivity|]; intros ?). solve_respects. Qed.

Lemma shell_drop_tame s : Respects T (shell_drop s).
Proof. unfold shell_drop. solve_respects. Qed.

Lemma connect_tame destination : Respects T (connect destination).
Proof. unfold connect, connect_socket, connect_abstract, connect_path. solve_respects. Qed.

Lemma forward_drop_tame f : Respects T (forward_drop f).
Proof. unfold forward_drop. solve_respects. Qed.

(** Input of the services. *)
Lemma sys_writes c : tame_writes T → Respects T (sys c).
Proof. intros Hw w r w' [= _ <-]. apply Hw. Qed.

Lemma shell_write_input_tame s data : tame_writes T → Respects T (shell_write_input s data).
Proof. intros Hw. pose proof (λ c, sys_writes c Hw). unfold shell_write_input. solve_respects. Qed.

Lemma write_loop_tame fuel fd rest : tame_writes T → Respects T (write_loop fuel fd rest).
Proof.
  intros Hw. pose proof (λ c, sys_writes c Hw). revert rest.
  induction fuel; intros rest; destruct rest; cbn [write_loop]; solve_respects.
Qed.

Lemma forward_write_input_tame f data : tame_writes T → Respects T (forward_write_input f data).
Proof. apply write_loop_tame. Qed.

Lemma shutdown_write_tame f : Respects T (shutdown_write f).
Proof. unfold shutdown_write. solve_respects. Qed.

Hint Resolve spawn_tame shell_drop_tame connect_tame forward_drop_tame shutdown_write_tame : respects.

Lemma stream_open_tame self r name : Respects T (stream_open self r name).
Proof. unfold stream_open, open_service, stream_drop, service_drop. solve_respects. Qed.

Lemma stream_close_tame self i : Respects T (stream_close self i).
Proof. unfold stream_close, stream_drop, service_drop. solve_respects. Qed.
Hint Resolve stream_open_tame stream_close_tame : respects.

(** ** The sessions *)

Lemma fail_response_tame msg : Respects T (fail_response msg).
Proof. unfold fail_response. solve_respects. Qed.

Hint Resolve fail_response_tame : respects.

Lemma next_frame_tame self : Respects T (next_frame self).
Proof. unfold next_frame, data_response. solve_respects. Qed.

Lemma abort_tame self : Respects T (abort self).
Proof. unfold abort. solve_respects. Qed.

Lemma copy_from_slice_tame buf off src : Respects T (copy_from_slice buf off src).
Proof. unfold copy_from_slice. solve_respects. Qed.

Hint Resolve abort_tame copy_from_slice_tame : respects.

Lemma receive_header_tame k self hs rest :
  (∀ self rest, Respects T (k self rest)) → Respects T (receive_header k self hs rest).
Proof. intros Hk. unfold receive_header, invalid_frame, finalize. solve_respects. Qed.

Lemma receive_step_tame k self rest :
  (∀ self rest, Respects T (k self rest)) → Respects T (receive_step k self rest).
Proof.
  intros Hk. pose proof (λ self hs rest, receive_header_tame k self hs rest Hk) as Hh.
  unfold receive_step. solve_respects.
Qed.

Lemma receive_tame self data : Respects T (receive self data).
Proof.
  unfold receive. generalize (receive_fuel data) as fuel. intros fuel. revert self data.
  induction fuel as [|fuel IH]; intros self data; destruct data; cbn [receive_loop]; [solve_respects..|].
  by apply receive_step_tame.
Qed.

Hint Resolve receive_tame : respects.

Lemma handle_tame self data : Respects T (handle self data).
Proof.
  unfold handle, handle_request, handle_lstat_v1, handle_recv_v1, handle_send_v1. solve_respects.
Qed.
Hint Resolve next_frame_tame handle_tame : respects.

(** ** The handlers *)

(** The identity of the device is left alone, too. *)
Definition on_daemon (d d' : Daemon) : Prop := T (os d) (os d') ∧ info (conn d') = info (conn d).
Definition on_loop (l l' : Loop) : Prop := on_daemon (dm l) (dm l').

#[export] Instance on_daemon_refl : Reflexive on_daemon.
Proof. by intros d. Qed.
#[export] Instance on_daemon_trans : Transitive on_daemon.
Proof. intros d1 d2 d3 [H1 Hi1] [H2 Hi2]. split; [by etrans|by rewrite Hi2]. Qed.
#[export] Instance on_loop_refl : Reflexive on_loop.
Proof. intros l. unfold on_loop. done. Qed.
#[export] Instance on_loop_trans : Transitive on_loop.
Proof. intros l1 l2 l3. unfold on_loop. apply transitivity. Qed.

Lemma on_daemon_same d d' : os d' = os d → info (conn d') = info (conn d) → on_daemon d d'.
Proof. unfold on_daemon. by intros ->. Qed.

Lemma on_os_on {A} (m : M World A) : Respects T m → Respects on_daemon (on_os m).
Proof. apply respects_zoom. by split. Qed.

Lemma on_buffers_on {A} (m : M BufferManager A) : Respects on_daemon (on_buffers m).
Proof. eapply respects_zoom, respects_any. intros d b _. by apply on_daemon_same. Qed.

Lemma modify_on (f : Daemon → Daemon) :
  (∀ d, os (f d) = os d ∧ info (conn (f d)) = info (conn d)) → Respects on_daemon (modifyM f).
Proof. intros Hf. apply respects_modify. intros d. by apply on_daemon_same; apply Hf. Qed.

Hint Resolve on_os_on on_buffers_on : respects.
Hint Extern 1 (Respects on_daemon (modifyM _)) => apply modify_on; done : respects.

Lemma push_on e : Respects on_daemon (push e).
Proof. unfold push. solve_respects. Qed.

Hint Resolve push_on : respects.

Lemma submit_message_on h payload : Respects on_daemon (submit_message h payload).
Proof. unfold submit_message, submit_buffer, write_sqe. solve_respects. Qed.

Lemma header_on v c a0 a1 payload : Respects on_daemon (header_from_payload v c a0 a1 payload).
Proof. unfold header_from_payload. solve_respects. Qed.

Lemma get_stream_on i : Respects on_daemon (get_stream i).
Proof. unfold get_stream. solve_respects. Qed.
Lemma set_stream_on i s : Respects on_daemon (set_stream i s).
Proof. unfold set_stream. solve_respects. Qed.
Lemma open_stream_on r name : Respects on_daemon (open_stream r name).
Proof. unfold open_stream. solve_respects. Qed.
Lemma close_stream_on i : Respects on_daemon (close_stream i).
Proof. unfold close_stream. solve_respects. Qed.

Hint Resolve submit_message_on header_on get_stream_on set_stream_on open_stream_on
  close_stream_on : respects.

Lemma continue_on i : Respects on_daemon (maybe_continue_stream i).
Proof.
  unfold maybe_continue_stream, maybe_submit_wrte_sync, maybe_submit_pty_read,
    maybe_submit_socket_read, shell_read_buf_capacity, forward_read_buf_capacity, submit_wrte_sync,
    wrte_header. solve_respects.
Qed.

Hint Resolve continue_on : respects.

Lemma handle_command_open_on h payload : Respects on_daemon (handle_command_open h payload).
Proof.
  unfold handle_command_open, submit_clse, submit_okay, clse_header, okay_header,
    maybe_submit_pty_read, maybe_submit_socket_read, shell_read_buf_capacity,
    forward_read_buf_capacity. solve_respects.
Qed.

Lemma handle_command_wrte_on h payload :
  tame_writes T → Respects on_daemon (handle_command_wrte h payload).
Proof.
  intros Hw. pose proof (λ s data, shell_write_input_tame s data Hw).
  pose proof (λ f data, forward_write_input_tame f data Hw).
  unfold handle_command_wrte, close_with_clse, submit_clse, submit_okay, clse_header, okay_header,
    submit_wrte_sync, wrte_header, maybe_submit_wrte_sync, submit_wrte_sync, wrte_header. solve_respects.
Qed.

Hint Resolve handle_command_open_on : respects.

Lemma handle_command_on h payload :
  (command h = Wrte → tame_writes T) → Respects on_daemon (handle_command h payload).
Proof.
  intros Hw. unfold handle_command. destruct (command h);
    unfold handle_command_cnxn, handle_command_okay, handle_command_clse, close_with_clse,
      cnxn_response, cnxn_header, submit_clse, clse_header; solve_respects.
  by apply handle_command_wrte_on, Hw.
Qed.

Lemma pty_read_on i res : Respects on_daemon (pty_read i res).
Proof.
  unfold pty_read, service_read_end, service_read, submit_clse, clse_header, wrte_header,
    shell_read_buf_data. solve_respects.
Qed.

Lemma socket_read_on i res : Respects on_daemon (socket_read i res).
Proof.
  unfold socket_read, service_read_end, service_read, submit_clse, clse_header, wrte_header,
    forward_read_buf_data. solve_respects.
Qed.

Lemma read_event_tame fd : Respects T (read_next_ffs_event_type fd).
Proof. unfold read_next_ffs_event_type, read_fd, bind_ok. solve_respects. Qed.

Hint Resolve read_event_tame : respects.

Lemma handle_ep0_event_on : Respects on_daemon handle_ep0_event.
Proof. unfold handle_ep0_event. solve_respects. Qed.

Hint Resolve pty_read_on socket_read_on handle_ep0_event_on : respects.

Lemma on_dm_loop {A} (m : M Daemon A) : Respects on_daemon m → Respects on_loop (on_dm m).
Proof. by apply respects_zoom. Qed.

Lemma set_pending_loop h : Respects on_loop (modifyM (set_pending h)).
Proof. apply respects_modify. intros l. by apply on_daemon_same. Qed.

Hint Resolve on_dm_loop set_pending_loop : respects.

Lemma bulk_out_on buf t : Respects on_daemon (submit_bulk_out_read buf t).
Proof. unfold submit_bulk_out_read. solve_respects. Qed.

Hint Resolve bulk_out_on : respects.

Lemma listen_loop op : Respects on_loop (listen op).
Proof. unfold listen. solve_respects. Qed.

Hint Resolve listen_loop : respects.

Lemma ep0_poll_on : Respects on_daemon submit_ep0_poll.
Proof. unfold submit_ep0_poll. solve_respects. Qed.

Hint Resolve ep0_poll_on : respects.

(** A completion that is not of a read of the host. *)
Lemma handle_other_on c t :
  UserData_try_from (cqe_user_data c) = Ok t → op_type t ≠ UserDataOpType.BulkOutReadHeader →
  op_type t ≠ UserDataOpType.BulkOutReadPayload → Respects on_loop (handle_cqe c).
Proof.
  intros Ht Hh Hp. unfold handle_cqe. rewrite Ht.
  destruct t as [[] [i|]]; cbn [op_type ud_data] in *; try done; solve_respects.
Qed.

Lemma handle_cqe_on c : tame_writes T → Respects on_loop (handle_cqe c).
Proof.
  intros Hw. pose proof (λ h payload, handle_command_on h payload (λ _, Hw)).
  unfold handle_cqe, bulk_out_read_header, bulk_out_read_payload, slice_to. solve_respects.
Qed.

Lemma run_start_on : Respects on_loop run_start.
Proof. unfold run_start, bind_ok. solve_respects. Qed.
End tame.

(** ** Memory *)

(** Allocated memory is left as it is or freed, and addresses are not reused. *)
Record mem (w w' : World) : Prop := {
  mem_next : (w_next w ≤ w_next w')%nat;
  mem_heap : ∀ a, (a < w_next w)%nat → w_heap w' !! a = w_heap w !! a ∨ w_heap w' !! a = None;
}.

Lemma mem_same w w' : w_heap w' = w_heap w → (w_next w ≤ w_next w')%nat → mem w w'.
Proof. intros Hh Hn. split; [done|]. rewrite Hh. by left. Qed.

#[export] Instance mem_tame {E : Os} : Tame mem.
Proof.
  split.
  - split; [done|by left].
  - intros w1 w2 w3 [N1 H1] [N2 H2]. split; [lia|]. intros a Ha.
    destruct (H2 a ltac:(lia)) as [->|]; [by apply H1|by right].
  - intros c w _. by apply mem_same.
  - intros n w p w' [= _ <-]. split; cbn; [lia|]. intros a Ha. left. apply lookup_insert_ne. lia.
  - intros p. apply respects_modify. intros w. split; cbn; [done|]. intros a _.
    destruct (decide (p = a)) as [<-|Hne]; [right; apply lookup_delete_eq|].
    left. by apply lookup_delete_ne.
  - intros w w' _ Hh Hn. by apply mem_same.
Qed.

Lemma mem_writes {E : Os} : tame_writes mem.
Proof. intros c w. by apply mem_same. Qed.

(** ** Calls *)

#[export] Instance silent_tame {E : Os} : Tame silent.
Proof.
  split.
  - by intros w fd.
  - intros w1 w2 w3 H12 H23 fd. by rewrite H23, H12.
  - intros c w Hc fd. by destruct c.
  - by intros n w p w' [= _ <-] fd.
  - intros p. apply respects_modify. by intros w fd.
  - intros w w' Hl _ _ fd. by rewrite Hl.
Qed.

(** The log only grows. *)
Definition logged (w w' : World) : Prop := ∃ new, w_log w' = new ++ w_log w.

#[export] Instance logged_tame {E : Os} : Tame logged.
Proof.
  split.
  - intros w. by exists [].
  - intros w1 w2 w3 [new H12] [new' H23]. exists (new' ++ new). by rewrite H23, H12, (assoc_L (++)).
  - intros c w _. by exists [c].
  - intros n w p w' [= _ <-]. by exists [].
  - intros p. apply respects_modify. intros w. by exists [].
  - intros w w' Hl _ _. by exists [].
Qed.

Lemma logged_writes {E : Os} : tame_writes logged.
Proof. intros c w. by exists [c]. Qed.
