(* ===== verification/Wire.v ===== *)
(** What the connection puts on the wire: the messages of the device as the
    buffers they are written from, the reader of the host, which splits the
    stream of their bytes back into messages, and the messages that are in a
    submission queue. *)
From Stdlib Require Import ZArith Lia Strings.Byte.
From stdpp Require Import base numbers list gmap strings.
From S2P Require Import Prelude.
From S2P Require Import Bytes.
From S2P Require Import Winnow.
From S2P Require Import Message.
From S2P Require Import Buffers.
From S2P Require Import Os.
From S2P Require Import Ring.
From S2P Require Import Connection.

Open Scope Z_scope.

(** ** Messages and buffers *)

(** The buffers that a message is written from, each with its link flag: the
    header is linked to its payload, and an empty payload is not written. *)
Definition message (h : AdbHeader) (payload : list byte) : list (list byte * bool) :=
  match payload with
  | [] => [(AdbHeader_bytes h, false)]
  | _ => [(AdbHeader_bytes h, true); (payload, false)]
  end.

Definition buffers_of (ms : list (AdbHeader * list byte)) : list (list byte * bool) :=
  ms ≫= λ m, message m.1 m.2.

(** The chains that the link flags make: the kernel starts a linked write's
    successor when it is done.  Different chains may run in parallel; what is
    said of them below is for chains that are run one after the other. *)
Fixpoint chains (ws : list (list byte * bool)) : list (list (list byte * bool)) :=
  match ws with
  | [] => []
  | w :: ws =>
      match snd w, chains ws with
      | true, c :: cs => (w :: c) :: cs
      | _, cs => [w] :: cs
      end
  end.

(** The bytes of a sequence of writes. *)
Definition wire (ws : list (list byte * bool)) : list byte := mjoin ws.*1.

(** A well-formed message of the device: its header fits the wire and has the
    right magic and length, a check field that is the checksum or zero, and
    only CNXN and WRTE carry a payload. *)
Record device_message (m : AdbHeader * list byte) : Prop := {
  dm_u32 : header_u32 m.1;
  dm_magic : magic m.1 = command_magic (command m.1);
  dm_length : data_length m.1 = Z.of_nat (length m.2);
  dm_check : data_check m.1 = checksum m.2 ∨ data_check m.1 = 0;
  dm_command : match command m.1 with
               | Cnxn | Wrte => True
               | Okay | Clse => m.2 = []
               | _ => False
               end;
}.

Lemma payload_header_device v c a0 a1 payload :
  u32 a0 → u32 a1 → Z.of_nat (length payload) < 2 ^ 32 →
  match c with Cnxn | Wrte => True | Okay | Clse => payload = [] | _ => False end →
  device_message (payload_header v c a0 a1 payload, payload).
Proof.
  intros H0 H1 Hl Hc. split; cbn; try done.
  - unfold header_u32; cbn. split_and!; [done|done|unfold u32; lia|].
    destruct (requires_checksum v); [apply checksum_u32|done].
  - destruct (requires_checksum v); auto.
Qed.

(** Writes that are messages of the device, one after the other. *)
Definition whole_messages (ws : list (list byte * bool)) : Prop :=
  ∃ ms, Forall device_message ms ∧ ws = buffers_of ms.

Lemma wire_app ws ws' : wire (ws ++ ws') = wire ws ++ wire ws'.
Proof. unfold wire. by rewrite fmap_app, join_app. Qed.

Lemma wire_message h payload : wire (message h payload) = AdbHeader_bytes h ++ payload.
Proof. unfold wire. destruct payload; simpl; by rewrite !app_nil_r. Qed.

Lemma buffers_of_cons m ms : buffers_of (m :: ms) = message m.1 m.2 ++ buffers_of ms.
Proof. done. Qed.

Lemma buffers_of_app ms ms' : buffers_of (ms ++ ms') = buffers_of ms ++ buffers_of ms'.
Proof. apply bind_app. Qed.

(** The chains of messages are the messages. *)
Lemma chains_buffers ms : chains (buffers_of ms) = (λ m, message m.1 m.2) <$> ms.
Proof.
  induction ms as [|[h p] ms IH]; [done|]. rewrite buffers_of_cons, fmap_cons, <-IH.
  by destruct p as [|b p].
Qed.

Lemma join_messages ms : mjoin ((λ m, message m.1 m.2) <$> ms) = buffers_of ms.
Proof. induction ms as [|m ms IH]; [done|]. rewrite fmap_cons, buffers_of_cons, <-IH. done. Qed.

Lemma buffers_of_one h payload : buffers_of [(h, payload)] = message h payload.
Proof. apply app_nil_r. Qed.

Lemma whole_messages_app ws ws' :
  whole_messages ws → whole_messages ws' → whole_messages (ws ++ ws').
Proof.
  intros (ms & Hms & ->) (ms' & Hms' & ->). exists (ms ++ ms').
  split; [by apply Forall_app|by rewrite buffers_of_app].
Qed.

(** ** The reader of the host *)

Section host.
Context {W : Winnow}.

(** Reads messages until the stream ends; [None] is a stream that does not
    split into messages.  One unit of fuel is enough for each message. *)
Fixpoint host_read (fuel : nat) (bs : list byte) : option (list (AdbHeader * list byte)) :=
  match bs, fuel with
  | [], _ => Some []
  | _, O => None
  | _, S fuel =>
      '(h, bs) ← parse_header bs;
      let len := Z.to_nat (data_length h) in
      if decide (len ≤ length bs)%nat then
        ms ← host_read fuel (drop len bs);
        Some ((h, take len bs) :: ms)
      else None
  end.

(** The host reads the messages of the device back. *)
Lemma host_read_messages fuel ms :
  (length ms ≤ fuel)%nat → Forall device_message ms →
  host_read fuel (wire (buffers_of ms)) = Some ms.
Proof.
  revert fuel. induction ms as [|[h payload] ms IH]; intros fuel Hf Hms; [by destruct fuel|].
  apply Forall_cons in Hms as [[Hu Hm Hl _ _] Hms]. cbn [fst snd] in *.
  destruct fuel as [|fuel]; simpl in Hf; [lia|].
  rewrite buffers_of_cons, wire_app, wire_message, <-(assoc_L (++)). cbn [fst snd].
  pose proof (length_AdbHeader_bytes h) as Hh.
  assert (parse_header (AdbHeader_bytes h ++ payload ++ wire (buffers_of ms)) =
    Some (h, payload ++ wire (buffers_of ms))) as Hparse by by apply parse_header_Some.
  remember (AdbHeader_bytes h ++ payload ++ wire (buffers_of ms)) as i eqn:Hi.
  destruct i as [|b i]; [apply (f_equal length) in Hi; rewrite length_app, Hh in Hi; simpl in Hi; lia|].
  cbn [host_read]. rewrite Hparse. cbn [mbind option_bind].
  assert (Z.to_nat (data_length h) = length payload) as Hlen by lia. rewrite Hlen.
  rewrite decide_True by (rewrite length_app; lia).
  rewrite drop_app_length, take_app_length, IH by (done || lia). done.
Qed.
End host.

(** Whatever the order in which the chains are written, one after the other, the
    host reads whole messages. *)
Lemma chains_read {W : Winnow} ms cs :
  Forall device_message ms → cs ≡ₚ chains (buffers_of ms) →
  ∃ ms', ms' ≡ₚ ms ∧ host_read (length ms') (wire (mjoin cs)) = Some ms'.
Proof.
  intros Hms Hcs. rewrite chains_buffers in Hcs.
  apply Permutation_map_inv in Hcs as (ms' & -> & Hp). exists ms'. split; [by symmetry|].
  change (map ?f ms') with (f <$> ms'). rewrite join_messages.
  apply host_read_messages; [done|]. by rewrite <-Hp.
Qed.

(** ** The writes in a queue *)

Section queue.
Context {E : Os} {R : SubmissionQueue}.
Implicit Types d : Daemon.

(** What an entry writes, with its link flag, while the pool is [v]. *)
Definition write_of (v : gmap nat (list byte)) (e : Sqe) : option (list byte * bool) :=
  match sqe_op e with
  | OpWrite _ (SlotPtr k) _ => Some (default [] (v !! Z.to_nat k), sqe_io_link e)
  | _ => None
  end.

Definition writes_of (v : gmap nat (list byte)) (es : list Sqe) : list (list byte * bool) :=
  omap (write_of v) es.

Definition sq_writes (d : Daemon) : list (list byte * bool) :=
  writes_of (view (d_buffers d)) (sq_entries (sq d)).

(** The queue holds whole messages of the device, one after the other. *)
Definition spoken (d : Daemon) : Prop := whole_messages (sq_writes d).

Lemma spoken_empty d : sq_entries (sq d) = [] → spoken d.
Proof. intros Hd. exists []. split; [done|]. unfold sq_writes. by rewrite Hd. Qed.

(** A write refers to an occupied slot. *)
Definition write_live (v : gmap nat (list byte)) (e : Sqe) : Prop :=
  match sqe_op e with
  | OpWrite _ (SlotPtr k) _ => is_Some (v !! Z.to_nat k)
  | _ => True
  end.

Lemma writes_of_cons v e es :
  writes_of v (e :: es) =
    match write_of v e with Some w => w :: writes_of v es | None => writes_of v es end.
Proof. done. Qed.

Lemma write_of_mono v v' e : write_live v e → v ⊆ v' → write_of v' e = write_of v e.
Proof.
  unfold write_of, write_live. intros He Hv.
  destruct (sqe_op e) as [|fd [k| |] len|]; try done.
  destruct He as [data Hk]. by rewrite Hk, (lookup_weaken _ _ _ _ Hk Hv).
Qed.

(** A pool that keeps the occupied slots keeps the writes. *)
Lemma writes_of_mono v v' es :
  Forall (write_live v) es → v ⊆ v' → writes_of v' es = writes_of v es.
Proof.
  intros Hes Hv. induction Hes as [|e es He _ IH]; [done|].
  by rewrite !writes_of_cons, IH, (write_of_mono v).
Qed.

Lemma writes_of_app v es es' : writes_of v (es ++ es') = writes_of v es ++ writes_of v es'.
Proof. apply omap_app. Qed.
End queue.
