(* ===== verification/ConnectionFacts.v ===== *)
(** Theorems on the methods of the connection: the invariant of what is queued
    and in flight, the messages each command is answered with, and the panics
    each can reach. *)
From Stdlib Require Import ZArith Lia Strings.Byte.
From stdpp Require Import base numbers list gmap strings.
From S2P Require Import Prelude.
From S2P Require Import Bytes.
From S2P Require Import Str.
From S2P Require Import Winnow.
From S2P Require Import DeviceInfo.
From S2P Require Import Message.
From S2P Require Import Buffers.
From S2P Require Import Os.
From S2P Require Import Sync.
From S2P Require Import SyncFacts.
From S2P Require Import SyncSafe.
From S2P Require Import Shell.
From S2P Require Import Forward.
From S2P Require Import Stream.
From S2P Require Import UserData.
From S2P Require Import Ring.
From S2P Require Import Ffs.
From S2P Require Import Connection.
From S2P Require Import Tame.
From S2P Require Import Wire.

Open Scope Z_scope.

#[local] Opaque le_u32_bytes UserData_u64.

(** ** Tokens: the user data of what is queued *)

Definition sqe_token (e : Sqe) : option UserData := result_ok (UserData_try_from (sqe_user_data e)).
Definition tokens (es : list Sqe) : list UserData := omap sqe_token es.

Definition is_write (t : UserData) : Prop := op_type t = UserDataOpType.BulkInWrite.
#[export] Instance is_write_dec t : Decision (is_write t).
Proof. unfold is_write. apply _. Defined.

Definition write_token (k : nat) : UserData :=
  mkUserData UserDataOpType.BulkInWrite (Some (Z.of_nat k)).

(** The slots of the writes that are not completed. *)
Definition occupied (b : BufferManager) : list nat := elements (dom (view b)).

Lemma tokens_app es es' : tokens (es ++ es') = tokens es ++ tokens es'.
Proof. unfold tokens. apply omap_app. Qed.

Lemma sqe_token_eq e t :
  sqe_user_data e = UserData_u64 t → user_data_wf t → sqe_token e = Some t.
Proof.
  intros He Ht. unfold sqe_token. by rewrite He, (proj2 (user_data_roundtrip_aux t Ht)).
Qed.

Lemma tokens_one e t :
  sqe_user_data e = UserData_u64 t → user_data_wf t → tokens [e] = [t].
Proof.
  intros He Ht. unfold tokens. cbn [omap list_omap]. by rewrite (sqe_token_eq e t).
Qed.

Lemma occupied_insert b b' k data :
  view b !! k = None → view b' = <[k := data]> (view b) → occupied b' ≡ₚ k :: occupied b.
Proof.
  intros Hk Hb. unfold occupied. rewrite Hb, dom_insert.
  apply elements_union_singleton. by apply not_elem_of_dom.
Qed.

Lemma occupied_delete b b' k :
  is_Some (view b !! k) → view b' = delete k (view b) → occupied b ≡ₚ k :: occupied b'.
Proof.
  intros [data Hk] Hb. apply (occupied_insert b' b k data).
  - rewrite Hb. apply lookup_delete_eq.
  - by rewrite Hb, insert_delete_id.
Qed.

Lemma occupied_length b : buffers_wf b → (length (occupied b) ≤ 8)%nat.
Proof.
  intros Hwf. assert (occupied b ⊆+ seq 1 8) as Hsub.
  { apply NoDup_submseteq; [apply (NoDup_elements (dom (view b)))|].
    intros k Hk%(elem_of_elements (dom (view b)))%elem_of_dom. apply elem_of_seq.
    pose proof (view_bound b k Hwf Hk). lia. }
  apply submseteq_length in Hsub. by rewrite length_seq in Hsub.
Qed.

(** A pool without a free slot has eight occupied ones. *)
Lemma occupied_full b :
  (∀ j, (1 ≤ j ≤ 8)%nat → is_Some (view b !! j)) → (8 ≤ length (occupied b))%nat.
Proof.
  intros Hfull. assert (seq 1 8 ⊆+ occupied b) as Hsub.
  { apply NoDup_submseteq; [apply NoDup_seq|]. intros j Hj%elem_of_seq.
    apply (elem_of_elements (dom (view b))), elem_of_dom, Hfull. lia. }
  apply submseteq_length in Hsub. by rewrite length_seq in Hsub.
Qed.

(** ** Well-formed submissions *)

(** What an operation with a given token is, for a connection with endpoints
    [ep0], [bulk_in], [bulk_out] and a pool whose occupied slots are [v].  A
    write refers to a slot that is occupied, and to all of it. *)
Definition op_ok (c : AdbConnection) (t : UserData) (op : Op) : Prop :=
  match op_type t, ud_data t with
  | UserDataOpType.Ep0Poll, None => op = OpPollAdd (ep0 c) 1
  | UserDataOpType.BulkOutReadHeader, None | UserDataOpType.BulkOutReadPayload, None =>
      op = OpRead (bulk_out c) BulkOutPtr (2 ^ 20)
  | UserDataOpType.BulkInWrite, Some k =>
      ∃ b, view (conn_buffers c) !! Z.to_nat k = Some b ∧
        op = OpWrite (bulk_in c) (SlotPtr k) (Z.of_nat (length b))
  | UserDataOpType.PtyRead, Some _ | UserDataOpType.SocketRead, Some _ =>
      ∃ fd a, op = OpRead fd (HeapPtr a) 4096
  | _, _ => False
  end.

Definition sqe_ok (c : AdbConnection) (e : Sqe) : Prop :=
  ∃ t, sqe_user_data e = UserData_u64 t ∧ user_data_wf t ∧ op_ok c t (sqe_op e).

Lemma sqe_ok_mono c c' e :
  ep0 c' = ep0 c → bulk_in c' = bulk_in c → bulk_out c' = bulk_out c →
  view (conn_buffers c) ⊆ view (conn_buffers c') → sqe_ok c e → sqe_ok c' e.
Proof.
  intros H0 Hi Ho Hv (t & Ht & Hwf & Hop). exists t. split_and!; [done..|].
  unfold op_ok in *. rewrite H0, Hi, Ho.
  destruct (op_type t), (ud_data t); try done.
  destruct Hop as (b & Hb & ->). exists b. split; [|done]. by eapply lookup_weaken.
Qed.

Lemma tokens_length c es : Forall (sqe_ok c) es → length (tokens es) = length es.
Proof.
  induction 1 as [|e es (t & Ht & Hwf & _) _ IH]; [done|].
  change (e :: es) with ([e] ++ es). rewrite tokens_app, !length_app, IH.
  by rewrite (tokens_one e t).
Qed.

Lemma filter_length_split (ts : list UserData) :
  length ts = (length (filter is_write ts) + length (filter (λ t, ¬ is_write t) ts))%nat.
Proof. rewrite <-length_app. by rewrite filter_app_complement. Qed.

Section facts.
Context {E : Os} {W : Winnow} {R : SubmissionQueue}.
Implicit Types d : Daemon.

Definition sq_tokens (d : Daemon) : list UserData := tokens (sq_entries (sq d)).
Definition others (ts : list UserData) : list UserData := filter (λ t, ¬ is_write t) ts.

(** A stream's session is well formed. *)
Definition service_ok (s : Service.t) : Prop :=
  match s with Service.Sync s => sync_ok s | _ => True end.

Definition stream_ok (s : Stream) : Prop := service_ok (service s) ∧ u32 (remote_id s).

(** The operations that the kernel has, and the tokens of those that are
    completed but not handled. *)
Record Outside : Type := mkOutside { o_flight : list Sqe; o_done : list UserData }.

Definition out_tokens (out : Outside) : list UserData := tokens (o_flight out) ++ o_done out.

(** The invariant of the connection.  [base] are the descriptors that are not
    the streams', [n] bounds the identifiers handed out, [ns] are the tokens
    of the queued operations other than writes, and [out] what was handed
    to the kernel: each occupied slot of the pool is that of exactly one
    write that is queued or outside. *)
Record dcore (base : list Z) (n : Z) (out : Outside) (ns : list UserData) (d : Daemon) :
    Prop := {
  di_buffers : buffers_wf (d_buffers d);
  di_writes : filter is_write (sq_tokens d ++ out_tokens out) ≡ₚ
    write_token <$> occupied (d_buffers d);
  di_others : others (sq_tokens d) = ns;
  di_sqes : Forall (sqe_ok (conn d)) (sq_entries (sq d));
  di_own : streams_own base (d_streams d) (os d);
  di_ids : ids_ok (d_streams d) ∧ next_id (d_streams d) ≤ n ∧ n ≤ u32_max;
  di_services : ∀ i s, streams (d_streams d) !! i = Some s → stream_ok s;
  di_info : Z.of_nat (length (cnxn_payload (info (conn d)))) < 2 ^ 32;
  di_flight : Forall (sqe_ok (conn d)) (o_flight out);
}.

(** Between two commands the queue also holds whole messages only. *)
Record dinv (base : list Z) (n : Z) (out : Outside) (ns : list UserData) (d : Daemon) :
    Prop := {
  di_core :> dcore base n out ns d;
  di_wire : spoken d;
}.

(** A message of the pool was queued: nothing else has changed. *)
Record queued (d : Daemon) (data : list byte) (link : bool) (d' : Daemon) : Prop := {
  q_slot : ∃ k, 1 ≤ k ≤ 8 ∧ view (d_buffers d) !! Z.to_nat k = None ∧
    view (d_buffers d') = <[Z.to_nat k := data]> (view (d_buffers d)) ∧
    sq_entries (sq d') = sq_entries (sq d) ++
      [mkSqe (OpWrite (bulk_in (conn d)) (SlotPtr k) (Z.of_nat (length data)))
         (UserData_u64 (mkUserData UserDataOpType.BulkInWrite (Some k))) link];
  q_wf : buffers_wf (d_buffers d');
  q_rest : ∃ b q, d' = set_sq q (set_buffers b d);
}.

(** A queue with few operations other than writes has room. *)
Lemma room base n out ns d e :
  dcore base n out ns d → (length ns ≤ 20)%nat →
  ∃ q, sq_push e (sq d) = Some q ∧ sq_entries q = sq_entries (sq d) ++ [e].
Proof.
  intros Hd Hns. destruct (sq_push e (sq d)) as [q|] eqn:Hp.
  { exists q. split; [done|]. by apply sq_push_law. }
  apply sq_push_full in Hp. exfalso. pose proof (di_sqes _ _ _ _ _ Hd) as Hok.
  apply tokens_length in Hok. fold (sq_tokens d) in Hok.
  pose proof (filter_length_split (sq_tokens d)) as Hsplit.
  pose proof (di_others _ _ _ _ _ Hd) as Ho. unfold others in Ho. rewrite Ho in Hsplit.
  pose proof (di_writes _ _ _ _ _ Hd) as Hw. rewrite filter_app in Hw.
  apply Permutation_length in Hw. rewrite length_app, length_fmap in Hw.
  pose proof (occupied_length _ (di_buffers _ _ _ _ _ Hd)).
  unfold RING_ENTRIES in Hp. lia.
Qed.
End facts.

Section sent.
Context {E : Os} {R : SubmissionQueue}.

(** From [d] to [d'] exactly these buffers were queued, in this order. *)
Inductive sent (d : Daemon) : list (list byte * bool) → Daemon → Prop :=
  | sent_nil : sent d [] d
  | sent_cons d1 data link msgs d' :
      queued d data link d1 → sent d1 msgs d' → sent d ((data, link) :: msgs) d'.

Lemma sent_one d data link d' : queued d data link d' → sent d [(data, link)] d'.
Proof. intros. eapply sent_cons; [done|apply sent_nil]. Qed.

Lemma sent_app d d1 d' l l' : sent d l d1 → sent d1 l' d' → sent d (l ++ l') d'.
Proof. induction 1 as [|d d2 data link msgs d3 Hq _ IH]; [done|]. intros. eapply sent_cons; eauto. Qed.

Lemma sent_rest d l d' : sent d l d' → ∃ b q, d' = set_sq q (set_buffers b d).
Proof.
  induction 1 as [d|d d2 data link msgs d3 [_ _ (b & q & ->)] _ (b' & q' & ->)].
  - exists (d_buffers d), (sq d). destruct d as [[] q w]. done.
  - by exists b', q'.
Qed.
End sent.

(** A panic for want of a buffer, where fewer than [k] are free; and a set of
    panics that has it. *)
Definition no_room {E : Os} {R : SubmissionQueue} (k : nat) (d : Daemon) (p : panic) : Prop :=
  p = Expect "all write slots in use" ∧ (8 < length (occupied (d_buffers d)) + k)%nat.

Definition slots {E : Os} {R : SubmissionQueue} (φ : panic → Prop) (k : nat) (d : Daemon) : Prop :=
  ∀ p, no_room k d p → φ p.

Section rules.
Context {E : Os} {W : Winnow} {R : SubmissionQueue} (φ : panic → Prop).
Implicit Types d : Daemon.

Lemma write_token_eq k : 1 ≤ k → write_token (Z.to_nat k) = mkUserData UserDataOpType.BulkInWrite (Some k).
Proof. intros. unfold write_token. by rewrite Z2Nat.id by lia. Qed.

Lemma sqe_ok_live c e : sqe_ok c e → write_live (view (conn_buffers c)) e.
Proof.
  intros (t & _ & _ & Hop). unfold op_ok, write_live in *.
  destruct (op_type t), (ud_data t); try done; try (by rewrite Hop); [|by destruct Hop as (? & ? & ->)..].
  destruct Hop as (b & Hb & ->). eauto.
Qed.

(** The queued writes refer to occupied slots. *)
Lemma dcore_live base n out ns d :
  dcore base n out ns d → Forall (write_live (view (d_buffers d))) (sq_entries (sq d)).
Proof.
  intros Hd. eapply Forall_impl; [apply (di_sqes _ _ _ _ _ Hd)|]. intros e. apply sqe_ok_live.
Qed.

Lemma queued_occupied d data link d' :
  queued d data link d' → length (occupied (d_buffers d')) = S (length (occupied (d_buffers d))).
Proof.
  intros [(k & Hk & Hfree & Hview & _) _ _].
  by rewrite (occupied_insert (d_buffers d) _ _ data Hfree Hview).
Qed.

Lemma sent_occupied d l d' :
  sent d l d' →
  length (occupied (d_buffers d')) = (length (occupied (d_buffers d)) + length l)%nat.
Proof.
  induction 1 as [d|d d1 data link l d' Hq%queued_occupied _ IH]; simpl; lia.
Qed.

Lemma slots_le k k' d : (k' ≤ k)%nat → slots φ k d → slots φ k' d.
Proof. intros Hk Hs p [-> Hp]. apply Hs. split; [done|lia]. Qed.

Lemma slots_eq k d d' : d_buffers d' = d_buffers d → slots φ k d → slots φ k d'.
Proof. intros Hb Hs p [-> Hp]. apply Hs. split; [done|by rewrite <-Hb]. Qed.

Lemma length_message h payload : (length (message h payload) ≤ 2)%nat.
Proof. destruct payload; simpl; lia. Qed.

Lemma slots_sent k l d d' : slots φ (length l + k) d → sent d l d' → slots φ k d'.
Proof. intros Hs Hl%sent_occupied p [-> Hp]. apply Hs. split; [done|lia]. Qed.

(** A queued write is at the end of the writes, and live. *)
Lemma queued_live d data link d' :
  Forall (write_live (view (d_buffers d))) (sq_entries (sq d)) → queued d data link d' →
  sq_writes d' = sq_writes d ++ [(data, link)] ∧
  Forall (write_live (view (d_buffers d'))) (sq_entries (sq d')).
Proof.
  intros Hl [(k & Hk & Hfree & Hview & Hsq) _ _].
  assert (view (d_buffers d) ⊆ view (d_buffers d')) as Hsub
    by (rewrite Hview; by apply insert_subseteq).
  split.
  - unfold sq_writes. rewrite Hsq, writes_of_app, (writes_of_mono _ _ _ Hl Hsub).
    f_equal. rewrite writes_of_cons. cbn. by rewrite Hview, lookup_insert_eq.
  - rewrite Hsq. apply Forall_app. split.
    + eapply Forall_impl; [exact Hl|]. intros e. unfold write_live.
      destruct (sqe_op e) as [|? [] ?|]; try done. intros [b Hb]. exists b. by eapply lookup_weaken.
    + apply Forall_singleton. cbn. rewrite Hview, lookup_insert_eq. eauto.
Qed.

Lemma sent_live d l d' :
  sent d l d' → Forall (write_live (view (d_buffers d))) (sq_entries (sq d)) →
  Forall (write_live (view (d_buffers d'))) (sq_entries (sq d')).
Proof.
  induction 1 as [d|d d1 data link l d' Hq _ IH]; intros Hl; [done|].
  apply IH. by apply (queued_live d data link d1).
Qed.

Lemma sent_writes d l d' :
  sent d l d' → Forall (write_live (view (d_buffers d))) (sq_entries (sq d)) →
  sq_writes d' = sq_writes d ++ l.
Proof.
  induction 1 as [d|d d1 data link l d' Hq _ IH]; intros Hl; [by rewrite app_nil_r|].
  destruct (queued_live d data link d1 Hl Hq) as [Hw Hl1].
  rewrite IH, Hw by done. by rewrite <-(assoc_L (++)).
Qed.

Lemma queued_writes base n out ns d data link d' :
  dcore base n out ns d → queued d data link d' → sq_writes d' = sq_writes d ++ [(data, link)].
Proof. intros Hd%dcore_live Hq. by eapply queued_live. Qed.

Lemma dcore_queued base n out ns d data link d' :
  dcore base n out ns d → queued d data link d' → dcore base n out ns d'.
Proof.
  intros Hd [(k & Hk & Hfree & Hview & Hsq) Hwf' (b & q & ->)]. cbn in Hview, Hsq, Hfree.
  set (t := mkUserData UserDataOpType.BulkInWrite (Some k)) in *.
  assert (user_data_wf t) as Ht by (unfold user_data_wf; cbn; lia).
  set (d' := set_sq q (set_buffers b d)).
  assert (sq_tokens d' = sq_tokens d ++ [t]) as Htok.
  { unfold sq_tokens. cbn [sq d' set_sq]. rewrite Hsq, tokens_app. f_equal.
    by apply tokens_one. }
  assert (∀ e, sqe_ok (conn d) e → sqe_ok (conn d') e) as Hmono.
  { intros e. apply sqe_ok_mono; try done.
    change (conn_buffers (conn d')) with b. rewrite Hview. by apply insert_subseteq. }
  split; try apply Hd; [done| | | |by eapply Forall_impl; [apply Hd|]].
  - rewrite Htok, <-(assoc_L (++)), filter_app.
    pose proof (di_writes _ _ _ _ _ Hd) as Hw. rewrite filter_app in Hw.
    rewrite (occupied_insert (d_buffers d) (d_buffers d') (Z.to_nat k) data) by done.
    rewrite fmap_cons, write_token_eq, <-Hw by lia.
    rewrite filter_app. cbn. rewrite decide_True by done. rewrite Permutation_middle. reflexivity.
  - rewrite Htok. unfold others. rewrite filter_app. cbn. rewrite decide_False by (intros Hn; by apply Hn).
    rewrite app_nil_r. apply Hd.
  - cbn [sq d' set_sq]. rewrite Hsq. apply Forall_app. split.
    + by eapply Forall_impl; [apply (di_sqes _ _ _ _ _ Hd)|].
    + apply Forall_singleton. exists t. split_and!; [done..|]. unfold op_ok. cbn.
      exists data. change (conn_buffers (conn d')) with b. by rewrite Hview, lookup_insert_eq.
Qed.

Lemma wp_alloc capacity (Q : Z → BufferManager → Prop) b :
  buffers_wf b →
  ((8 ≤ length (occupied b))%nat → φ (Expect "all write slots in use")) →
  (∀ k b', 1 ≤ k ≤ 8 → view b !! Z.to_nat k = None →
    view b' = <[Z.to_nat k := []]> (view b) → buffers_wf b' → Q k b') →
  wpp φ (alloc capacity) Q b.
Proof.
  intros Hwf Hφ HQ. pose proof (alloc_cases capacity b Hwf) as H. unfold wpp.
  destruct (alloc capacity b) as [[k b']|p].
  - destruct H as (? & ? & _ & ? & ?). by apply HQ.
  - destruct H as [-> Hfull]. by apply Hφ, occupied_full.
Qed.

Lemma buf_len_view k b data :
  1 ≤ k → view b !! Z.to_nat k = Some data → buf_len k b = Done (Z.of_nat (length data), b).
Proof.
  intros Hk Hv. replace (Z.to_nat k) with (S (Z.to_nat (k - 1))) in Hv by lia.
  rewrite view_lookup_S in Hv. unfold buf_len, getM. cbv [mbind M_bind mret M_ret]. by rewrite Hv.
Qed.

Lemma wp_submit_buffer base n out ns capacity data link (Q : unit → Daemon → Prop) d :
  slots φ 1 d → dcore base n out ns d → (length ns ≤ 20)%nat → Z.of_nat (length data) < 2 ^ 32 →
  (∀ d', dcore base n out ns d' → queued d data link d' →
    sq_writes d' = sq_writes d ++ [(data, link)] → Q tt d') →
  wpp φ (submit_buffer capacity data link) Q d.
Proof.
  intros Hφ Hd Hns Hl HQ. unfold submit_buffer.
  apply wp_bind, wp_zoom, wp_alloc; [apply Hd|intros Hfull; apply Hφ; split; [done|lia]|]. intros k b1 Hk Hfree Hv1 Hwf1.
  destruct (buf_extend_view k data b1) as (b2 & Hb2 & Hwf2 & Hv2); [lia|done|].
  rewrite Hv1, alter_insert_eq in Hv2. cbn [app] in Hv2.
  apply wp_bind, wp_zoom. unfold wpp at 1. cbn [d_buffers conn set_buffers conn_buffers].
  rewrite Hb2. set (d2 := set_buffers b2 _).
  unfold write_sqe. apply wp_bind, wp_bind, wp_get, wp_bind, wp_zoom.
  unfold wpp at 1. rewrite (buf_len_view k _ data) by
    (try lia; cbn; by rewrite Hv2, lookup_insert_eq).
  apply wp_bind, wp_expect. rewrite u32_try_from_u32 by (unfold u32; lia).
  apply wp_bind, wp_expect. unfold NonZero_new. rewrite decide_False by lia.
  apply wp_ret. unfold push. apply wp_bind, wp_get, wp_bind, wp_expect.
  edestruct (room base n out ns d) as (q & Hq & Hes); [done|done|].
  cbn [sq set_buffers d2]. rewrite Hq. apply wp_modify.
  assert (queued d data link (set_sq q (set_buffers (d_buffers d2) d2))) as Hqd.
  { split; [|done|by exists b2, q]. exists k. split_and!; [lia|lia|done|done|]. exact Hes. }
  apply HQ; [by eapply dcore_queued|done|by eapply queued_writes].
Qed.

(** A whole message was queued. *)
Lemma dinv_message base n out ns h payload d d' :
  dinv base n out ns d → dcore base n out ns d' → device_message (h, payload) →
  sq_writes d' = sq_writes d ++ message h payload → dinv base n out ns d'.
Proof.
  intros [_ (ms & Hms & Hw)] Hd' Hm Hw'. split; [done|]. exists (ms ++ [(h, payload)]).
  split; [apply Forall_app; by split; [|apply Forall_singleton]|].
  by rewrite buffers_of_app, buffers_of_one, <-Hw.
Qed.

Lemma wp_submit_message base n out ns h payload (Q : unit → Daemon → Prop) d :
  slots φ (length (message h payload)) d → dinv base n out ns d → (length ns ≤ 20)%nat → device_message (h, payload) →
  (∀ d', dinv base n out ns d' → sent d (message h payload) d' → Q tt d') →
  wpp φ (submit_message h (Some payload)) Q d.
Proof.
  intros Hφ Hd Hns Hm HQ. unfold submit_message. apply wp_bind.
  assert (Z.of_nat (length payload) < 2 ^ 32) as Hl.
  { destruct Hm as [(_ & _ & Hu & _) _ Hl _ _]. cbn in Hl. unfold u32 in Hu. cbn in Hu. lia. }
  assert (Z.of_nat (length (AdbHeader_bytes h)) < 2 ^ 32) as Hh
    by by rewrite length_AdbHeader_bytes.
  destruct payload as [|b payload].
  - eapply wp_submit_buffer; [done|exact Hd|done..|].
    intros d1 Hd1 Hq Hw. apply wp_ret, HQ; [by eapply dinv_message|]. by apply sent_one.
  - eapply wp_submit_buffer; [by eapply slots_le; [|exact Hφ]; simpl; lia|exact Hd|done..|].
    intros d1 Hd1 Hq1 Hw1. apply sent_one in Hq1 as Hs1.
    eapply wp_submit_buffer; [eapply slots_sent; [|exact Hs1]; exact Hφ|done..|]. intros d2 Hd2 Hq2 Hw2. apply HQ.
    + eapply dinv_message; [done..|]. by rewrite Hw2, Hw1, <-(assoc_L (++)).
    + eapply sent_cons; [done|]. by apply sent_one.
Qed.

Lemma wp_submit_header base n out ns h (Q : unit → Daemon → Prop) d :
  slots φ 1 d → dinv base n out ns d → (length ns ≤ 20)%nat → device_message (h, []) →
  (∀ d', dinv base n out ns d' → sent d (message h []) d' → Q tt d') →
  wpp φ (submit_message h None) Q d.
Proof. exact (wp_submit_message base n out ns h [] Q d). Qed.

Lemma wp_submit_clse base n out ns l r (Q : unit → Daemon → Prop) d :
  slots φ 1 d → dinv base n out ns d → (length ns ≤ 20)%nat → u32 l → u32 r →
  (∀ d', dinv base n out ns d' →
    sent d (message (payload_header (d_version d) Clse l r []) []) d' → Q tt d') →
  wpp φ (submit_clse l r) Q d.
Proof.
  intros Hφ Hd Hns Hl Hr HQ. unfold submit_clse. apply wp_bind, wp_get, wp_bind.
  unfold wpp at 1. rewrite clse_header_eq. eapply wp_submit_header; [done..| |done].
  by apply payload_header_device.
Qed.

Lemma wp_submit_okay base n out ns l r (Q : unit → Daemon → Prop) d :
  slots φ 1 d → dinv base n out ns d → (length ns ≤ 20)%nat → u32 l → u32 r →
  (∀ d', dinv base n out ns d' →
    sent d (message (payload_header (d_version d) Okay l r []) []) d' → Q tt d') →
  wpp φ (submit_okay l r) Q d.
Proof.
  intros Hφ Hd Hns Hl Hr HQ. unfold submit_okay. apply wp_bind, wp_get, wp_bind.
  unfold wpp at 1. rewrite okay_header_eq. eapply wp_submit_header; [done..| |done].
  by apply payload_header_device.
Qed.

(** A WRTE with its payload. *)
Lemma wp_submit_wrte base n out ns l r payload (Q : unit → Daemon → Prop) d :
  slots φ 2 d → dinv base n out ns d → (length ns ≤ 20)%nat → u32 l → u32 r → Z.of_nat (length payload) < 2 ^ 32 →
  (∀ d', dinv base n out ns d' →
    sent d (message (payload_header (d_version d) Wrte l r payload) payload) d' → Q tt d') →
  wpp φ (wrte ← wrte_header (d_version d) l r payload; submit_message wrte (Some payload)) Q d.
Proof.
  intros Hφ Hd Hns Hl Hr Hp HQ. apply wp_bind. unfold wpp at 1. rewrite wrte_header_eq by done.
  eapply wp_submit_message; [|done..| |done]; [|by apply payload_header_device].
  eapply slots_le; [|exact Hφ]. destruct payload; simpl; lia.
Qed.

Lemma op_ok_not_write c t e v : op_ok c t (sqe_op e) → ¬ is_write t → write_of v e = None.
Proof.
  unfold op_ok, is_write, write_of. intros Hop Hw.
  destruct (op_type t), (ud_data t); try done; try (by rewrite Hop); by destruct Hop as (? & ? & ->).
Qed.

(** An operation other than a write is queued. *)
Lemma wp_push base n out ns e t (Q : unit → Daemon → Prop) d :
  dinv base n out ns d → (length ns ≤ 20)%nat →
  sqe_user_data e = UserData_u64 t → user_data_wf t → ¬ is_write t →
  op_ok (conn d) t (sqe_op e) →
  (∀ q, sq_entries q = sq_entries (sq d) ++ [e] →
    dinv base n out (ns ++ [t]) (set_sq q d) → Q tt (set_sq q d)) →
  wpp φ (push e) Q d.
Proof.
  intros Hd Hns He Ht Hw Hop HQ. destruct (room _ _ _ _ _ e Hd Hns) as (q & Hq & Hes).
  unfold push. apply wp_bind, wp_get, wp_bind, wp_expect. rewrite Hq.
  apply wp_modify, HQ; [done|].
  assert (sq_tokens (set_sq q d) = sq_tokens d ++ [t]) as Htok.
  { unfold sq_tokens. cbn [sq set_sq]. rewrite Hes, tokens_app. f_equal. by apply tokens_one. }
  destruct Hd as [[] (ms & Hms & Hwire)]. split.
  2: { exists ms. split; [done|]. unfold sq_writes in *. cbn [sq set_sq]. rewrite Hes, writes_of_app.
       change (d_buffers (set_sq q d)) with (d_buffers d).
       by rewrite writes_of_cons, (op_ok_not_write _ _ _ _ Hop Hw), app_nil_r. }
  split; try done.
  - rewrite Htok, <-(assoc_L (++)). rewrite filter_app in *. rewrite filter_app.
    cbn [app]. by rewrite filter_cons_False.
  - rewrite Htok. unfold others in *. rewrite filter_app. cbn. rewrite decide_True by done.
    by f_equal.
  - cbn [sq set_sq conn]. rewrite Hes. apply Forall_app. split; [done|].
    apply Forall_singleton. by exists t.
Qed.

Lemma wp_get_stream i (Q : option Stream → Daemon → Prop) d :
  Q (streams (d_streams d) !! i) d → wpp φ (get_stream i) Q d.
Proof. done. Qed.

(** The identifiers of an open stream. *)
Lemma dinv_stream_u32 base n out ns i s d :
  dinv base n out ns d → streams (d_streams d) !! i = Some s → u32 i ∧ u32 (remote_id s).
Proof.
  intros Hd Hi. pose proof (di_ids _ _ _ _ _ Hd) as ([_ Hids] & Hn & Hmax).
  specialize (Hids i (mk_is_Some _ _ Hi)). split; [unfold u32, u32_max in *; lia|].
  by destruct (di_services _ _ _ _ _ Hd i s Hi).
Qed.

(** A change of the streams and of the system. *)
Lemma dinv_streams base n n' out ns m w d :
  dinv base n out ns d → streams_own base m w →
  ids_ok m ∧ next_id m ≤ n' ∧ n' ≤ u32_max →
  (∀ i s, streams m !! i = Some s → stream_ok s) →
  dinv base n' out ns (set_streams m (set_os w d)).
Proof. intros [[] ?] Hown Hids Hok. by split. Qed.

(** The same stream in another state. *)
Lemma streams_own_update base m w i s s' :
  streams_own base m w → streams m !! i = Some s →
  service_fds (service s') = service_fds (service s) →
  service_buf (service s') = service_buf (service s) →
  streams_own base (mkStreamManager (<[i := s']> (streams m)) (next_id m)) w.
Proof.
  intros [Hf Hb Hd Hx] Hi Hfds Hbuf. split; cbn [streams].
  - by rewrite (stream_fds_update _ _ s).
  - intros j sj rb [[<- <-]|[_ Hj]]%lookup_insert_Some Hs; [|by eapply Hb].
    rewrite Hbuf in Hs. by eapply Hb.
  - intros j k sj sk rb rb' Hjk [[<- <-]|[_ Hj]]%lookup_insert_Some Hs
      [[<- <-]|[_ Hk]]%lookup_insert_Some Hs'; rewrite ?Hbuf in *; eauto; naive_solver.
  - done.
Qed.

Lemma streams_own_keeps base m w w' : streams_own base m w → keeps w w' → streams_own base m w'.
Proof.
  intros [Hf Hb Hd Hx] [Hh Hl Hn]. split; [by rewrite Hl| |done|].
  - intros i s rb Hi Hs. unfold buf_live. rewrite Hh. by eapply Hb.
  - intros a. rewrite Hh. intros ?%Hx. lia.
Qed.

Lemma ids_ok_update m i s s' :
  ids_ok m → streams m !! i = Some s →
  ids_ok (mkStreamManager (<[i := s']> (streams m)) (next_id m)).
Proof.
  intros [H1 Hids] Hi. split; [done|]. intros j. cbn [streams next_id].
  destruct (decide (j = i)) as [->|]; [intros _; eauto|].
  rewrite lookup_insert_ne by done. apply Hids.
Qed.

(** An update of a stream, in a state whose world was kept. *)
Lemma dinv_update base n out ns i s s' w d :
  dinv base n out ns d → streams (d_streams d) !! i = Some s → keeps (os d) w →
  service_fds (service s') = service_fds (service s) →
  service_buf (service s') = service_buf (service s) → stream_ok s' →
  dinv base n out ns (set_streams
    (mkStreamManager (<[i := s']> (streams (d_streams d))) (next_id (d_streams d)))
    (set_os w d)).
Proof.
  intros Hd Hi Hk Hf Hb Hs. pose proof Hd as [[_ _ _ _ Hown [Hids Hn] Hok _ _] _].
  eapply dinv_streams; [done| | |].
  - eapply streams_own_keeps; [|done]. by eapply streams_own_update.
  - split; [by eapply ids_ok_update|done].
  - intros j sj. cbn [streams]. intros [[<- <-]|[_ ?]]%lookup_insert_Some; [done|by eapply Hok].
Qed.

Lemma set_os_id d : set_os (os d) d = d.
Proof. by destruct d. Qed.

Lemma set_streams_os m w d : set_streams m (set_os w d) = set_os w (set_streams m d).
Proof. done. Qed.

Lemma wp_set_stream base n out ns i s s' (Q : unit → Daemon → Prop) d :
  dinv base n out ns d → streams (d_streams d) !! i = Some s →
  service_fds (service s') = service_fds (service s) →
  service_buf (service s') = service_buf (service s) → stream_ok s' →
  (let d' := set_streams
    (mkStreamManager (<[i := s']> (streams (d_streams d))) (next_id (d_streams d))) d in
   dinv base n out ns d' → Q tt d') →
  wpp φ (set_stream i s') Q d.
Proof.
  intros Hd Hi Hf Hb Hs HQ. apply wp_modify, HQ.
  pose proof (dinv_update _ _ _ _ _ _ s' (os d) _ Hd Hi (reflexivity _) Hf Hb Hs) as H.
  by rewrite set_os_id in H.
Qed.

(** A call that does not concern the streams. *)
Lemma dinv_keeps base n out ns w d :
  dinv base n out ns d → keeps (os d) w → dinv base n out ns (set_os w d).
Proof. intros [[] ?] Hk. split; [split|]; try done. by eapply streams_own_keeps. Qed.

(** The table without a stream. *)
Definition removed (i : Z) (m : StreamManager) : StreamManager :=
  mkStreamManager (delete i (streams m)) (next_id m).

Lemma removed_id i m : streams m !! i = None → removed i m = m.
Proof. intros Hi. unfold removed. rewrite delete_id by done. by destruct m. Qed.

Lemma wp_close_stream base n out ns i (Q : unit → Daemon → Prop) d :
  dinv base n out ns d →
  (∀ d', dinv base n out ns d' → d_streams d' = removed i (d_streams d) →
    d_buffers d' = d_buffers d → sq d' = sq d → buf_freed (d_streams d) i (os d') →
    silent (os d) (os d') → Q tt d') →
  wpp φ (close_stream i) Q d.
Proof.
  intros Hd HQ. pose proof Hd as [[_ _ _ _ Hown [Hids Hn] Hok _ _] _].
  apply (wp_respects φ (on_daemon silent)); [apply close_stream_on, _|].
  unfold close_stream. apply wp_bind, wp_get, wp_bind, wp_zoom.
  eapply wp_stream_close; [done|]. intros w' m Hown' Hfree. apply wp_modify. intros [Hsil _].
  apply HQ; try done.
  eapply dinv_streams; [done..| |].
  - split; [|done]. destruct Hids as [H1 Hids]. split; [done|]. intros j.
    cbn [streams m next_id]. intros [s [_ Hj]%lookup_delete_Some]. eauto.
  - intros j s. cbn [m streams]. intros [_ Hj]%lookup_delete_Some. by eapply Hok.
Qed.

Lemma wp_open_stream base n out ns r name (Q : option Z → Daemon → Prop) d :
  dinv base n out ns d → n < u32_max → u32 r →
  (∀ d', dinv base (n + 1) out ns d' → d_streams d' = d_streams d →
    d_buffers d' = d_buffers d → sq d' = sq d → refused name (os d) (os d') → Q None d') →
  (∀ d' k s, dinv base (n + 1) out ns d' → service_kind name = Some k →
    started k s (os d) (os d') →
    buf_fresh (os d) s →
    streams (d_streams d) !! next_id (d_streams d) = None →
    streams (d_streams d') =
      <[next_id (d_streams d) := mkStream r s false false]> (streams (d_streams d)) →
    next_id (d_streams d') = next_id (d_streams d) + 1 →
    d_buffers d' = d_buffers d → sq d' = sq d → d_version d' = d_version d →
    Q (Some (next_id (d_streams d))) d') →
  wpp φ (open_stream r name) Q d.
Proof.
  intros Hd Hlt Hr HNone HSome. pose proof Hd as [[_ _ _ _ Hown [[H1 Hids] Hn] Hok _ _] _].
  unfold open_stream. apply wp_bind, wp_get, wp_bind, wp_zoom.
  assert (∀ i s, streams (d_streams d) !! i = Some s → i ≠ next_id (d_streams d)) as Hne.
  { intros i s Hi ->. specialize (Hids _ (mk_is_Some _ _ Hi)). lia. }
  eapply wp_stream_open; [done| |].
  - intros w' Hown' Href. apply wp_bind, wp_modify, wp_ret.
    replace (set_streams (d_streams d) (set_os w' d)) with (set_os w' d)
      by by destruct d as [[] q w].
    apply HNone; try done. destruct Hd as [[] ?]. split; [|done]. split; try done.
    change (d_streams (set_os w' d)) with (d_streams d). split; [done|lia].
  - intros w1 w' k s Hk Hs Hfr Heq m Hown'. apply wp_bind, wp_modify, wp_ret.
    assert (streams (d_streams d) !! next_id (d_streams d) = None) as Hnone.
    { apply eq_None_not_Some. intros [s' Hi]. by eapply Hne. }
    rewrite (Heq Hnone) in *. apply (HSome _ k s); try done; cbn [m d_streams set_streams conn conn_streams streams next_id].
    + eapply dinv_streams; [done..| |].
      * unfold ids_ok. cbn [m streams next_id]. rewrite wrap32_small by (unfold u32, u32_max in *; lia).
        split; [split; [lia|]|lia]. intros i [s' [[<- _]|[_ Hi]]%lookup_insert_Some]; [lia|].
        specialize (Hids _ (mk_is_Some _ _ Hi)). lia.
      * intros i s'. cbn [m streams]. intros [[<- <-]|[_ Hi]]%lookup_insert_Some; [|by eapply Hok].
        destruct k, s; simpl in Hs |- *; try done. by destruct Hs as [-> _].
    + apply wrap32_small. unfold u32, u32_max in *. lia.
Qed.
End rules.

(** ** Continuing a stream *)

Definition is_service_read (t : UserData) : Prop :=
  match op_type t, ud_data t with
  | UserDataOpType.PtyRead, Some _ | UserDataOpType.SocketRead, Some _ => True
  | _, _ => False
  end.

#[export] Instance is_service_read_dec t : Decision (is_service_read t).
Proof. unfold is_service_read. destruct (op_type t), (ud_data t); apply _. Defined.

(** A command queues at most one read of a service. *)
Definition may_read (ns ns' : list UserData) : Prop :=
  ns' = ns ∨ ∃ t, ns' = ns ++ [t] ∧ is_service_read t.

(** The read that keeps a stream going. *)
Definition service_read_sqe (i : Z) (s : Stream) : option Sqe :=
  match service s with
  | Service.Shell sh =>
      Some (mkSqe (OpRead (sh_master sh) (HeapPtr (rb_ptr (sh_read_buf sh))) 4096)
              (UserData_u64 (mkUserData UserDataOpType.PtyRead (Some i))) false)
  | Service.Forward f =>
      Some (mkSqe (OpRead (fwd_socket f) (HeapPtr (rb_ptr (fwd_read_buf f))) 4096)
              (UserData_u64 (mkUserData UserDataOpType.SocketRead (Some i))) false)
  | _ => None
  end.

Section continue.
Context {E : Os} {W : Winnow} {R : SubmissionQueue} (φ : panic → Prop).
Implicit Types d : Daemon.

(** One step of a stream that the host is ready for: its read is queued
    again, or its file is sent on by a frame, or it is done. *)
Definition continued (i : Z) (s : Stream) (d d' : Daemon) : Prop :=
  match service_read_sqe i s with
  | Some e => ∃ q, d' = set_sq q d ∧ sq_entries q = sq_entries (sq d) ++ [e]
  | None =>
      match service s with
      | Service.Sync (mkSyncService (SyncState.Sending sender)) =>
          ∃ o sender' w', next_frame sender (os d) = Done ((o, sender'), w') ∧
          let update s' := set_streams
            (mkStreamManager (<[i := s']> (streams (d_streams d))) (next_id (d_streams d)))
            (set_os w' d) in
          match o with
          | Some (hdr, data) =>
              let payload := SyncFrameResponseHeader_bytes hdr ++ data in
              sent (update (mkStream (remote_id s) (Service.Sync (mkSyncService
                      (SyncState.Sending sender'))) true (remote_closed s)))
                (message (payload_header (d_version d) Wrte i (remote_id s) payload) payload) d'
          | None => d' = update (stream_set_service s (Service.Sync SyncService_new))
          end
      | _ => d' = d
      end
  end.

Lemma wp_push_service_read base n out ns i s e (Q : unit → Daemon → Prop) d :
  dinv base n out ns d → (length ns ≤ 20)%nat →
  streams (d_streams d) !! i = Some s → service_read_sqe i s = Some e →
  (∀ d' ns', dinv base n out ns' d' → may_read ns ns' → continued i s d d' → Q tt d') →
  wpp φ (push e) Q d.
Proof.
  intros Hd Hns Hi He HQ. pose proof (di_ids _ _ _ _ _ Hd) as ([_ Hids] & Hn & Hmax).
  specialize (Hids i (mk_is_Some _ _ Hi)). unfold u32_max in Hmax.
  assert (∃ t, sqe_user_data e = UserData_u64 t ∧ user_data_wf t ∧ is_service_read t ∧
    op_ok (conn d) t (sqe_op e)) as (t & Ht & Hwf & Hsvc & Hop).
  { unfold service_read_sqe in He. destruct (service s); try done; injection He as <-;
      eexists; (split; [reflexivity|]); (split; [unfold user_data_wf; cbn; lia|]);
      (split; [exact I|]); unfold op_ok; cbn; eauto. }
  eapply wp_push; [done..| |done|].
  { unfold is_write. intros Heq. unfold is_service_read in Hsvc. by rewrite Heq in Hsvc. }
  intros q Hq Hd'. eapply HQ; [done|right; eauto|]. unfold continued. rewrite He. eauto.
Qed.

Lemma buf_capacity base n out ns i s rb d :
  dinv base n out ns d → streams (d_streams d) !! i = Some s → service_buf (service s) = Some rb →
  rb_capacity rb = 4096%nat.
Proof. intros Hd Hi Hb. by destruct (own_buf _ _ _ (di_own _ _ _ _ _ Hd) i s rb Hi Hb). Qed.

Lemma wp_maybe_submit_pty_read base n out ns i s sh (Q : unit → Daemon → Prop) d :
  dinv base n out ns d → (length ns ≤ 20)%nat →
  streams (d_streams d) !! i = Some s → service s = Service.Shell sh →
  (waiting_for_okay s = true → Q tt d) →
  (waiting_for_okay s = false →
   ∀ d' ns', dinv base n out ns' d' → may_read ns ns' → continued i s d d' → Q tt d') →
  wpp φ (maybe_submit_pty_read i) Q d.
Proof.
  intros Hd Hns Hi Hs Hwait HQ. apply wp_bind, wp_get_stream. rewrite Hi.
  destruct (waiting_for_okay s); [by apply wp_ret, Hwait|]. rewrite Hs.
  pose proof (buf_capacity _ _ _ _ i s (sh_read_buf sh) d Hd Hi) as Hc.
  rewrite Hs in Hc. specialize (Hc eq_refl).
  unfold shell_read_buf_capacity. apply wp_bind, wp_expect. rewrite Hc. cbn [u32_try_from].
  apply wp_bind, wp_expect. unfold NonZero_new.
  pose proof (di_ids _ _ _ _ _ Hd) as ([_ Hids] & _). specialize (Hids i (mk_is_Some _ _ Hi)).
  rewrite decide_False by lia.
  eapply wp_push_service_read; [done..| |by apply HQ]. unfold service_read_sqe. by rewrite Hs.
Qed.

Lemma wp_maybe_submit_socket_read base n out ns i s f (Q : unit → Daemon → Prop) d :
  dinv base n out ns d → (length ns ≤ 20)%nat →
  streams (d_streams d) !! i = Some s → service s = Service.Forward f →
  (waiting_for_okay s = true → Q tt d) →
  (waiting_for_okay s = false →
   ∀ d' ns', dinv base n out ns' d' → may_read ns ns' → continued i s d d' → Q tt d') →
  wpp φ (maybe_submit_socket_read i) Q d.
Proof.
  intros Hd Hns Hi Hs Hwait HQ. apply wp_bind, wp_get_stream. rewrite Hi.
  destruct (waiting_for_okay s); [by apply wp_ret, Hwait|]. rewrite Hs.
  pose proof (buf_capacity _ _ _ _ i s (fwd_read_buf f) d Hd Hi) as Hc.
  rewrite Hs in Hc. specialize (Hc eq_refl).
  unfold forward_read_buf_capacity. apply wp_bind, wp_expect. rewrite Hc.
  apply wp_bind, wp_expect. unfold NonZero_new.
  pose proof (di_ids _ _ _ _ _ Hd) as ([_ Hids] & _). specialize (Hids i (mk_is_Some _ _ Hi)).
  rewrite decide_False by lia.
  eapply wp_push_service_read; [done..| |by apply HQ]. unfold service_read_sqe. by rewrite Hs.
Qed.

Lemma length_frame_header h : length (SyncFrameResponseHeader_bytes h) = 8%nat.
Proof. unfold SyncFrameResponseHeader_bytes. by rewrite length_app, !length_le_u32_bytes. Qed.

(** A response frame in a WRTE. *)
Lemma wp_submit_wrte_sync base n out ns l r hdr data (Q : unit → Daemon → Prop) d :
  slots φ 2 d → dinv base n out ns d → (length ns ≤ 20)%nat → u32 l → u32 r → fits data →
  (∀ d', dinv base n out ns d' →
    (let payload := SyncFrameResponseHeader_bytes hdr ++ data in
     sent d (message (payload_header (d_version d) Wrte l r payload) payload) d') → Q tt d') →
  wpp φ (submit_wrte_sync l r hdr data) Q d.
Proof.
  intros Hφ Hd Hns Hl Hr Hf HQ. apply wp_bind, wp_get. eapply wp_submit_wrte; [done..| |done].
  unfold fits in Hf. rewrite length_app, length_frame_header. lia.
Qed.

Lemma wp_maybe_submit_wrte_sync base n out ns i s svc (Q : unit → Daemon → Prop) d :
  slots φ 2 d → dinv base n out ns d → (length ns ≤ 20)%nat →
  streams (d_streams d) !! i = Some s → service s = Service.Sync svc →
  (waiting_for_okay s = true → Q tt d) →
  (waiting_for_okay s = false →
   ∀ d', dinv base n out ns d' → continued i s d d' → Q tt d') →
  wpp φ (maybe_submit_wrte_sync i) Q d.
Proof.
  intros Hφ Hd Hns Hi Hs Hwait HQ. apply wp_bind, wp_get_stream. rewrite Hi.
  destruct (waiting_for_okay s) eqn:Hw; [by apply wp_ret, Hwait|]. specialize (HQ eq_refl).
  unfold continued, service_read_sqe in HQ. rewrite Hs in HQ |- *. destruct svc as [[|sender|r]];
    cbn [sync_state]; try (by apply wp_ret, HQ).
  destruct (dinv_stream_u32 _ _ _ _ _ _ _ Hd Hi) as [Hiu Hru].
  apply wp_bind, wp_zoom.
  apply (wp_case φ (next_frame sender) (λ r w', keeps (os d) w' ∧
    ∀ resp, r.1 = Some resp → fits resp.2)).
  { apply wp_next_frame_safe. intros o sender' w' Hk Hf. by split. }
  intros [o sender'] w' Heq [Hk Hf]. rewrite Heq in HQ.
  assert (∀ s', service_fds (service s') = [] → service_buf (service s') = None →
    stream_ok s' → dinv base n out ns (set_streams
    (mkStreamManager (<[i := s']> (streams (d_streams d))) (next_id (d_streams d)))
    (set_os w' d))) as Hupd.
  { intros s' Hfd Hbuf Hok. eapply dinv_update; [done..| | |done]; by rewrite Hs. }
  destruct o as [[hdr data]|].
  - apply wp_bind, wp_modify.
    eapply wp_submit_wrte_sync; [exact Hφ|by apply Hupd|done|done|done|by apply (Hf (hdr, data))|].
    intros d' Hd' Hsent. apply HQ; [done|]. exists (Some (hdr, data)), sender', w'. split; [done|].
    exact Hsent.
  - apply wp_modify, HQ; [by apply Hupd|]. by exists None, sender', w'.
Qed.

(** [maybe_continue_stream] on an open stream. *)
Lemma wp_maybe_continue_stream base n out ns i s (Q : unit → Daemon → Prop) d :
  slots φ 2 d → dinv base n out ns d → (length ns ≤ 20)%nat → streams (d_streams d) !! i = Some s →
  (service s = Service.Reboot → φ (Unreachable "main.rs:808")) →
  (waiting_for_okay s = true → Q tt d) →
  (waiting_for_okay s = false →
   ∀ d' ns', dinv base n out ns' d' → may_read ns ns' → continued i s d d' → Q tt d') →
  wpp φ (maybe_continue_stream i) Q d.
Proof.
  intros Hφ Hd Hns Hi Hreboot Hwait HQ. apply wp_bind, wp_get_stream. rewrite Hi.
  destruct (service s) as [svc|sh| |f] eqn:Hs.
  - eapply wp_maybe_submit_wrte_sync; [done..|]. intros Hw d' Hd' Hc.
    apply (HQ Hw d' ns); [done| |done]. by left.
  - by eapply wp_maybe_submit_pty_read.
  - by apply wp_panic, Hreboot.
  - by eapply wp_maybe_submit_socket_read.
Qed.
End continue.
