(* ===== verification/Commands.v ===== *)
(** What each ADB command does to the connection: the messages it is answered
    with, the stream it opens, continues or closes, and the panics it can
    reach. *)
From Stdlib Require Import ZArith Lia Strings.Byte.
From stdpp Require Import base numbers list gmap strings.
From S2P Require Import Prelude.
From S2P Require Import Bytes.
From S2P Require Import Str.
From S2P Require Import Winnow.
From S2P Require Import DeviceInfo.
From S2P Require Import Message.
From S2P Require Import Buffers.
From S2P Require Import Os.
From S2P Require Import Sync.
From S2P Require Import SyncFacts.
From S2P Require Import SyncSafe.
From S2P Require Import Shell.
From S2P Require Import Forward.
From S2P Require Import Stream.
From S2P Require Import UserData.
From S2P Require Import Ring.
From S2P Require Import Ffs.
From S2P Require Import Connection.
From S2P Require Import Wire.
From S2P Require Import ConnectionFacts.

Open Scope Z_scope.

(** The pool of write buffers is exhausted. *)
Definition no_slot (p : panic) : Prop := p = Expect "all write slots in use".

(** All the panics that a message of the host can provoke. *)
Definition host_panic (p : panic) : Prop :=
  no_slot p ∨ stat_panic p ∨
  p = AssertFailed "CLSE remote_id mismatch" ∨ p = AssertFailed "OKAY must not carry a payload" ∨
  p = Expect "CNXN requires a payload" ∨ p = Expect "OPEN requires a payload" ∨
  p = Expect "WRTE requires a payload" ∨
  p = Unreachable "main.rs:353" ∨ p = Unreachable "main.rs:808".

(** A header without payload, and a WRTE, as they are sent. *)
Definition control (v : ProtocolVersion) (c : Command) (l r : Z) : list (list byte * bool) :=
  message (payload_header v c l r []) [].
Definition wrte (v : ProtocolVersion) (l r : Z) (payload : list byte) : list (list byte * bool) :=
  message (payload_header v Wrte l r payload) payload.

Section commands.
Context {E : Os} {W : Winnow} {R : SubmissionQueue}.
Implicit Types d : Daemon.

(** ** CNXN *)

Definition negotiated (arg0 : Z) : ProtocolVersion :=
  if decide (arg0 = A_VERSION_V1) then V1 else V0.

Definition cnxn_answer (v : ProtocolVersion) (d : Daemon) : list (list byte * bool) :=
  message (payload_header v Cnxn A_VERSION_V1 (1024 * 1024) (cnxn_payload (info (conn d))))
    (cnxn_payload (info (conn d))).

Lemma wp_cnxn φ base n out ns h (Q : unit → Daemon → Prop) d :
  slots φ 2 d → dinv base n out ns d → (length ns ≤ 20)%nat →
  (∀ d', dinv base n out ns d' → d_version d' = negotiated (arg0 h) →
    sent (set_version (negotiated (arg0 h)) d) (cnxn_answer (negotiated (arg0 h)) d) d' →
    Q tt d') →
  wpp φ (handle_command_cnxn h) Q d.
Proof.
  intros Hφ Hd Hns HQ. unfold handle_command_cnxn.
  replace (match ProtocolVersion_try_from (arg0 h) with Ok v => v | Err _ => V0 end)
    with (negotiated (arg0 h)).
  2: { unfold negotiated, ProtocolVersion_try_from. repeat case_decide; try done.
     unfold A_VERSION_V0, A_VERSION_V1 in *. lia. }
  set (v := negotiated (arg0 h)) in *.
  apply wp_bind, wp_modify, wp_bind, wp_get, wp_bind.
  assert (dinv base n out ns (set_version v d)) as Hd' by (destruct Hd as [[] ?]; by split).
  unfold cnxn_response, cnxn_header. apply wp_bind. unfold wpp at 1.
  rewrite header_from_payload_eq by apply Hd'. apply wp_ret.
  eapply wp_submit_message; [|done..| |].
  { eapply slots_le; [apply length_message|exact Hφ]. }
  { by apply payload_header_device; [..|apply Hd'|]. }
  intros d' Hd'' Hsent.
  apply HQ; [done| |exact Hsent]. by apply sent_rest in Hsent as (b & q & ->).
Qed.

(** CNXN negotiates the version the host offers, or the older one when it
    is unknown, and is answered by exactly one CNXN message with the
    device's version, its payload limit and its identity, its header
    checksummed as the negotiated version asks; the only other outcome is
    a panic because fewer than two buffers of the pool are free. *)
Theorem cnxn_negotiates base n out ns h d :
  dinv base n out ns d → (length ns ≤ 20)%nat →
  wpp (no_room 2 d) (handle_command_cnxn h) (λ _ d', dinv base n out ns d' ∧
    d_version d' = negotiated (arg0 h) ∧
    sent (set_version (negotiated (arg0 h)) d) (cnxn_answer (negotiated (arg0 h)) d) d') d.
Proof. intros Hd Hns. eapply wp_cnxn; [by intros p|done..|]. by intros. Qed.

(** ** OPEN *)

(** The service name: the bytes before the first NUL, if they are UTF-8. *)
Definition service_name (payload : list byte) : option str :=
  from_bytes_until_nul payload ≫= from_utf8.

(** What opening a named service leaves behind; [d1] is the state in which
    the answer is sent. *)
Definition opened (rid : Z) (name : str) (d d' : Daemon) : Prop :=
  (∃ d1, d_streams d1 = d_streams d ∧ d_buffers d1 = d_buffers d ∧ sq d1 = sq d ∧
    refused name (os d) (os d1) ∧
    sent d1 (control (d_version d1) Clse 0 rid) d') ∨
  (∃ k svc d1 d2, let i := next_id (d_streams d) in
    service_kind name = Some k ∧ started k svc (os d) (os d1) ∧ buf_fresh (os d) svc ∧
    streams (d_streams d) !! i = None ∧
    streams (d_streams d1) = <[i := mkStream rid svc false false]> (streams (d_streams d)) ∧
    next_id (d_streams d1) = i + 1 ∧
    d_buffers d1 = d_buffers d ∧ sq d1 = sq d ∧ d_version d1 = d_version d ∧
    sent d1 (control (d_version d1) Okay i rid) d2 ∧
    match service_read_sqe i (mkStream rid svc false false) with
    | Some e => ∃ q, d' = set_sq q d2 ∧ sq_entries q = sq_entries (sq d2) ++ [e]
    | None => d' = d2 ∨ (k = ServiceKind.Reboot ∧
        d' = set_os (w_set_log (cons (CSpawn (lit "reboot") [])) (os d2)) d2)
    end).

Lemma sent_streams d l d' : sent d l d' → d_streams d' = d_streams d ∧ os d' = os d ∧
  d_version d' = d_version d.
Proof. intros (b & q & ->)%sent_rest. done. Qed.

Lemma wp_open φ base n out ns h payload (Q : unit → Daemon → Prop) d :
  slots φ 1 d → dinv base n out ns d → (length ns ≤ 20)%nat →
  n < u32_max → u32 (arg0 h) →
  (∀ d' ns', dinv base (n + 1) out ns' d' → may_read ns ns' →
    match service_name payload with
    | None => sent d (control (d_version d) Clse 0 (arg0 h)) d'
    | Some name => opened (arg0 h) name d d'
    end → Q tt d') →
  wpp φ (handle_command_open h payload) Q d.
Proof.
  intros Hφ Hd Hns Hn Hu HQ. unfold handle_command_open.
  assert (dinv base (n + 1) out ns d) as Hd1.
  { destruct Hd as [[? ? ? ? ? [? ?] ? ? ?] ?]. split; [split|]; try done. split; [done|lia]. }
  unfold service_name in HQ. destruct (from_bytes_until_nul payload) as [c|] eqn:Hc; simpl in HQ.
  2: { eapply wp_submit_clse; [done..|]. intros d' Hd' Hs. eapply HQ; [done|by left|done]. }
  destruct (from_utf8 c) as [name|] eqn:Hname.
  2: { eapply wp_submit_clse; [done..|]. intros d' Hd' Hs. eapply HQ; [done|by left|done]. }
  apply wp_bind. apply (wp_open_stream _ base n out ns); [done..| |].
  - intros d1 Hd1' Hst Hbuf Hsq Hr. eapply wp_submit_clse; [by apply (slots_eq φ 1 d d1)|done..|].
    intros d' Hd' Hs. eapply HQ; [done|by left|]. left. by exists d1.
  - intros d1 k svc Hd1' Hk Hsvc Hfr Hfresh Hst Hnx Hbuf Hsq Hver. set (i := next_id (d_streams d)) in *.
    set (s := mkStream (arg0 h) svc false false) in *.
    apply wp_bind. eapply wp_submit_okay; [by apply (slots_eq φ 1 d d1)|done|done| |done|].
    { pose proof (di_ids _ _ _ _ _ Hd) as ([? _] & ? & ?). unfold u32, u32_max in *. lia. }
    intros d2 Hd2 Hs.
    pose proof (sent_streams _ _ _ Hs) as (Hst2 & _ & _).
    assert (streams (d_streams d2) !! i = Some s) as Hi
      by (rewrite Hst2, Hst; apply lookup_insert_eq).
    apply wp_bind, wp_get_stream. rewrite Hi. apply wp_bind, wp_expect.
    assert (∀ d' ns', dinv base (n + 1) out ns' d' → may_read ns ns' →
      match service_read_sqe i s with
      | Some e => ∃ q, d' = set_sq q d2 ∧ sq_entries q = sq_entries (sq d2) ++ [e]
      | None => d' = d2 ∨ (k = ServiceKind.Reboot ∧
          d' = set_os (w_set_log (cons (CSpawn (lit "reboot") [])) (os d2)) d2)
      end → Q tt d') as HQ'.
    { intros d' ns' Hd' Hm Hc'. eapply HQ; [done..|]. right. by exists k, svc, d1, d2. }
    destruct svc as [sv|sh| |f]; cbn [service s].
    + apply wp_ret, (HQ' d2 ns); [done|by left|by left].
    + eapply wp_maybe_submit_pty_read; [done|done|exact Hi|done|done|]. intros _ d' ns' Hd' Hm Hc'.
      by apply (HQ' d' ns').
    + apply wp_bind, wp_zoom, wp_sys, wp_ret, (HQ' _ ns); [|by left|right].
      * by apply dinv_keeps.
      * by destruct k.
    + eapply wp_maybe_submit_socket_read; [done|done|exact Hi|done|done|]. intros _ d' ns' Hd' Hm Hc'.
      by apply (HQ' d' ns').
Qed.

(** C24: OPEN is answered in exactly one way.  If the payload holds no
    NUL-terminated UTF-8 name, or the name is unknown or no destination, or the
    system refused a call that the service needs, the answer is a CLSE with
    local identifier 0 and no stream is opened; otherwise the service of that
    name was started, by the calls that it needs, a stream for it is opened
    under the next identifier, which was free, and the answer is an OKAY that carries it,
    followed for a shell or a socket by the first read of its output.  With
    one free buffer in the pool there is no panic. *)
Theorem open_answers base n out ns h payload d :
  dinv base n out ns d → (length ns ≤ 20)%nat → n < u32_max → u32 (arg0 h) →
  wpp (no_room 1 d) (handle_command_open h payload) (λ _ d',
    (∃ ns', may_read ns ns' ∧ dinv base (n + 1) out ns' d') ∧
    match service_name payload with
    | None => sent d (control (d_version d) Clse 0 (arg0 h)) d'
    | Some name => opened (arg0 h) name d d'
    end) d.
Proof. intros Hd Hns Hn Hu. eapply wp_open; [by intros p|done..|]. eauto. Qed.

(** ** OKAY *)

Definition with_stream (i : Z) (s : Stream) (d : Daemon) : Daemon :=
  set_streams (mkStreamManager (<[i := s]> (streams (d_streams d))) (next_id (d_streams d))) d.

Definition okay_post (i : Z) (d d' : Daemon) : Prop :=
  match streams (d_streams d) !! i with
  | None => d' = d
  | Some s =>
      let s := stream_set_waiting s false in continued i s (with_stream i s d) d'
  end.

Lemma lookup_with_stream i s d : streams (d_streams (with_stream i s d)) !! i = Some s.
Proof. cbn. apply lookup_insert_eq. Qed.

Lemma wp_okay φ base n out ns h (Q : unit → Daemon → Prop) d :
  slots φ 2 d → dinv base n out ns d → (length ns ≤ 20)%nat →
  (∀ s, streams (d_streams d) !! arg1 h = Some s → service s = Service.Reboot →
    φ (Unreachable "main.rs:808")) →
  (∀ d' ns', dinv base n out ns' d' → may_read ns ns' → okay_post (arg1 h) d d' → Q tt d') →
  wpp φ (handle_command_okay h) Q d.
Proof.
  intros Hφ Hd Hns Hr HQ. unfold handle_command_okay, okay_post in *.
  apply wp_bind, wp_get_stream. destruct (streams (d_streams d) !! arg1 h) as [s|] eqn:Hi.
  - apply wp_bind. eapply wp_set_stream; [done..|exact (di_services _ _ _ _ _ Hd _ s Hi)|].
    intros d1 Hd1. eapply (wp_maybe_continue_stream φ _ _ _ _ _ (stream_set_waiting s false));
      [exact Hφ|exact Hd1|done| |by eauto|done|].
    { apply lookup_with_stream. }
    intros _ d' ns' Hd' Hm Hc. by apply (HQ d' ns').
  - apply wp_bind, wp_ret, wp_bind, wp_get_stream. rewrite Hi.
    apply wp_ret, (HQ d ns); [done|by left|done].
Qed.

(** C25: OKAY clears the flow-control flag of its stream and moves exactly
    that stream on by one step: the next frame of the file being sent, or
    the next read of the shell or the socket; an OKAY for a stream that is
    not open changes nothing.  The only other outcomes are a panic for
    want of two free buffers and an OKAY on a reboot stream, which is a panic. *)
Theorem okay_continues base n out ns h d :
  dinv base n out ns d → (length ns ≤ 20)%nat →
  wpp (λ p, no_room 2 d p ∨ p = Unreachable "main.rs:808" ∧
        ∃ s, streams (d_streams d) !! arg1 h = Some s ∧ service s = Service.Reboot)
    (handle_command_okay h) (λ _ d',
    (∃ ns', may_read ns ns' ∧ dinv base n out ns' d') ∧ okay_post (arg1 h) d d') d.
Proof.
  intros Hd Hns. eapply wp_okay; [by intros p; left|done..| |by eauto].
  intros s Hi Hs. right. eauto.
Qed.

(** ** CLSE *)

(** A stream closed after its CLSE was sent. *)
Definition closed_by_device (i r : Z) (d d' : Daemon) : Prop :=
  ∃ d1, sent d (control (d_version d) Clse i r) d1 ∧
    d_streams d' = removed i (d_streams d) ∧
    d_buffers d' = d_buffers d1 ∧ sq d' = sq d1 ∧ buf_freed (d_streams d) i (os d') ∧
    silent (os d) (os d').

Definition clse_post (i : Z) (d d' : Daemon) : Prop :=
  match streams (d_streams d) !! i with
  | None => d' = d
  | Some s =>
      match service s with
      | Service.Forward f =>
          d' = with_stream i (stream_set_remote_closed s true)
                 (set_os (w_set_log (cons (CShutdownWrite (fwd_socket f))) (os d)) d)
      | _ => closed_by_device i (remote_id s) d d'
      end
  end.

(** A CLSE is sent and the stream is dropped. *)
Lemma wp_close_with_clse φ base n out ns i r (Q : unit → Daemon → Prop) d :
  slots φ 1 d → dinv base n out ns d → (length ns ≤ 20)%nat →
  u32 i → u32 r →
  (∀ d', dinv base n out ns d' → closed_by_device i r d d' → Q tt d') →
  wpp φ (close_with_clse i r) Q d.
Proof.
  intros Hφ Hd Hns Hi Hr HQ. apply wp_bind. eapply wp_submit_clse; [done..|]. intros d1 Hd1 Hs.
  eapply wp_close_stream; [done|]. intros d' Hd' Hst Hb Hq Hfree Hsil.
  destruct (sent_streams _ _ _ Hs) as (Hs1 & Ho1 & _). rewrite Hs1 in Hst, Hfree. rewrite Ho1 in Hsil.
  apply HQ; [done|]. by exists d1.
Qed.

Lemma wp_clse φ base n out ns h (Q : unit → Daemon → Prop) d :
  slots φ 1 d → dinv base n out ns d → (length ns ≤ 20)%nat →
  (∀ s, streams (d_streams d) !! arg1 h = Some s → remote_id s ≠ arg0 h →
    φ (AssertFailed "CLSE remote_id mismatch")) →
  (∀ d', dinv base n out ns d' →
    (∀ s, streams (d_streams d) !! arg1 h = Some s → remote_id s = arg0 h) →
    clse_post (arg1 h) d d' → Q tt d') →
  wpp φ (handle_command_clse h) Q d.
Proof.
  intros Hφ Hd Hns Hmis HQ. unfold handle_command_clse, clse_post in *. set (i := arg1 h) in *.
  apply wp_bind, wp_get_stream. destruct (streams (d_streams d) !! i) as [s|] eqn:Hi.
  2: { by apply wp_ret, HQ. }
  apply wp_bind. unfold assertM. case_bool_decide as Hr; [|by apply wp_panic, (Hmis s)].
  assert (∀ s', Some s = Some s' → remote_id s' = arg0 h) as Hr' by congruence.
  assert (wpp φ (close_with_clse i (remote_id s)) (λ _ d', dinv base n out ns d' ∧
    closed_by_device i (remote_id s) d d') d) as Hclose.
  { destruct (dinv_stream_u32 _ _ _ _ _ _ _ Hd Hi).
    by eapply wp_close_with_clse. }
  apply wp_ret. destruct (service s) as [sv|sh| |f] eqn:Hs;
    try (eapply wp_mono; [exact Hclose|]; intros [] d' [Hd' Hc]; by apply HQ).
  apply wp_bind, wp_zoom. unfold shutdown_write. apply wp_bind, wp_sys, wp_ret.
  set (w' := w_set_log _ _).
  assert (keeps (os d) w') as Hk by by apply keeps_call.
  apply wp_modify, HQ; [|done|done]. pose proof (di_services _ _ _ _ _ Hd i s Hi).
  by apply (dinv_update base n out ns i s (stream_set_remote_closed s true) w' d).
Qed.

(** C26: CLSE for an open stream must name the stream's peer, else the daemon
    panics.  A forwarded socket is only shut down for writing and its stream
    marked, which stays open; any other stream is answered with a CLSE and
    removed, its descriptors and its buffer released.  A CLSE for a stream
    that is not open changes nothing. *)
Theorem clse_closes base n out ns h d :
  dinv base n out ns d → (length ns ≤ 20)%nat →
  wpp (λ p, no_room 1 d p ∨ p = AssertFailed "CLSE remote_id mismatch" ∧
        ∃ s, streams (d_streams d) !! arg1 h = Some s ∧ remote_id s ≠ arg0 h)
    (handle_command_clse h) (λ _ d',
    dinv base n out ns d' ∧
    (∀ s, streams (d_streams d) !! arg1 h = Some s → remote_id s = arg0 h) ∧
    clse_post (arg1 h) d d') d.
Proof.
  intros Hd Hns. eapply wp_clse; [by intros p; left|done..| |by eauto].
  intros s Hi Hs. right. eauto.
Qed.

(** ** WRTE *)

(** What a service makes of a payload, in the state after the OKAY. *)
Definition wrte_service (i : Z) (s : Stream) (payload : list byte) (d d' : Daemon) : Prop :=
  let rid := remote_id s in
  match service s with
  | Service.Sync svc =>
      ∃ r svc' w', handle svc payload (os d) = Done ((r, svc'), w') ∧
      let s' := stream_set_service s (Service.Sync svc') in
      let d2 := with_stream i s' (set_os w' d) in
      match r with
      | SyncResult.Stat st => sent d2 (wrte (d_version d) i rid (SyncStat_bytes st)) d'
      | SyncResult.Data hdr data =>
          sent d2 (wrte (d_version d) i rid (SyncFrameResponseHeader_bytes hdr ++ data)) d'
      | SyncResult.Continue => if waiting_for_okay s then d' = d2 else continued i s' d2 d'
      | SyncResult.Quit => closed_by_device i rid d2 d'
      end
  | Service.Shell sh =>
      ∃ r w', shell_write_input sh payload (os d) = Done (r, w') ∧
      match r with Ok _ => d' = set_os w' d | Err _ => closed_by_device i rid (set_os w' d) d' end
  | Service.Forward f =>
      ∃ r w', forward_write_input f payload (os d) = Done (r, w') ∧
      match r with Ok _ => d' = set_os w' d | Err _ => closed_by_device i rid (set_os w' d) d' end
  | Service.Reboot => False
  end.

Definition wrte_post (i r : Z) (payload : list byte) (d d' : Daemon) : Prop :=
  ∃ d1, sent d (control (d_version d) Okay i r) d1 ∧
    match streams (d_streams d) !! i with
    | None => d' = d1
    | Some s => wrte_service i s payload d1 d'
    end.

Lemma wp_forward_write_input f data w :
  writes_progress → wp (forward_write_input f data) (λ _ w', keeps w w') w.
Proof. intros Hp. by apply wp_write_loop. Qed.

Lemma wp_shell_write_input sh data w : wp (shell_write_input sh data) (λ _ w', keeps w w') w.
Proof.
  destruct data as [|b data]; [by apply wp_ret|].
  apply wp_bind, wp_sys, wp_ret. by apply keeps_call.
Qed.

Lemma wp_handle_eq φ base n out ns i s svc payload (Q : _ → World → Prop) d :
  wpp φ (handle svc payload) (λ _ _, True) (os d) → dinv base n out ns d →
  streams (d_streams d) !! i = Some s → service s = Service.Sync svc →
  Z.of_nat (length payload) ≤ 2 ^ 20 →
  (∀ r svc' w', handle svc payload (os d) = Done ((r, svc'), w') → keeps (os d) w' →
    sync_ok svc' → sync_result_fits r → Q (r, svc') w') →
  wpp φ (handle svc payload) Q (os d).
Proof.
  intros Hφ Hd Hi Hs Hl HQ. destruct (di_services _ _ _ _ _ Hd i s Hi) as [Hok _]. rewrite Hs in Hok.
  pose proof (wp_handle_safe svc payload
    (λ r w', keeps (os d) w' ∧ sync_ok r.2 ∧ sync_result_fits r.1) (os d) Hok Hl) as H.
  unfold wpp in *. destruct (handle svc payload (os d)) as [[[r svc'] w']|p] eqn:Hh; [|done].
  destruct H as (? & ? & ?); [done|]. by apply HQ.
Qed.

(** A session panics in STAT only. *)
Lemma wp_handle_stat φ svc payload w :
  (∀ p, stat_panic p → φ p) → sync_ok svc → Z.of_nat (length payload) ≤ 2 ^ 20 →
  wpp φ (handle svc payload) (λ _ _, True) w.
Proof.
  intros Hφ Hok Hl. eapply wp_weaken; [exact Hφ|]. by apply (wp_handle_safe svc payload).
Qed.

Lemma length_stat s : length (SyncStat_bytes s) = 16%nat.
Proof. unfold SyncStat_bytes. by rewrite !length_app, !length_le_u32_bytes. Qed.

(** A session's part of WRTE. *)
Lemma wp_wrte_sync φ base n out ns i s svc payload (Q : unit → Daemon → Prop) d :
  slots φ 2 d → wpp φ (handle svc payload) (λ _ _, True) (os d) →
  dinv base n out ns d → (length ns ≤ 20)%nat → Z.of_nat (length payload) ≤ 2 ^ 20 →
  streams (d_streams d) !! i = Some s → service s = Service.Sync svc →
  (∀ d' ns', dinv base n out ns' d' → may_read ns ns' → wrte_service i s payload d d' → Q tt d') →
  wpp φ ('(r, sync_svc) ← on_os (handle svc payload);
    set_stream i (stream_set_service s (Service.Sync sync_svc));;
    match r with
    | SyncResult.Stat stat =>
        d ← getM;
        wrte ← wrte_header (d_version d) i (remote_id s) (SyncStat_bytes stat);
        submit_message wrte (Some (SyncStat_bytes stat))
    | SyncResult.Data hdr data => submit_wrte_sync i (remote_id s) hdr data
    | SyncResult.Continue => maybe_submit_wrte_sync i
    | SyncResult.Quit => close_with_clse i (remote_id s)
    end) Q d.
Proof.
  intros Hφ Hstat Hd Hns Hl Hi Hs HQ. apply wp_bind, wp_zoom.
  eapply wp_handle_eq; [done..|]. intros r svc' w' Hh Hk Hok Hfit.
  set (s' := stream_set_service s (Service.Sync svc')).
  destruct (dinv_stream_u32 _ _ _ _ _ _ _ Hd Hi) as [Hiu Hru].
  assert (dinv base n out ns (with_stream i s' (set_os w' d))) as Hd2.
  { apply (dinv_update base n out ns i s s' w' d); try done; by rewrite ?Hs. }
  apply wp_bind, wp_modify. fold (with_stream i s' (set_os w' d)).
  set (d2 := with_stream i s' (set_os w' d)) in *.
  assert (streams (d_streams d2) !! i = Some s') as Hi2 by apply lookup_with_stream.
  assert (slots φ 2 d2) as Hφ2 by by apply (slots_eq φ 2 d d2).
  assert (slots φ 1 d2) as Hφ1 by (eapply slots_le; [|exact Hφ2]; lia).
  assert (∀ d' ns', dinv base n out ns' d' → may_read ns ns' →
    match r with
    | SyncResult.Stat st => sent d2 (wrte (d_version d) i (remote_id s) (SyncStat_bytes st)) d'
    | SyncResult.Data hdr data =>
        sent d2 (wrte (d_version d) i (remote_id s) (SyncFrameResponseHeader_bytes hdr ++ data)) d'
    | SyncResult.Continue => if waiting_for_okay s then d' = d2 else continued i s' d2 d'
    | SyncResult.Quit => closed_by_device i (remote_id s) d2 d'
    end → Q tt d') as HQ'.
  { intros d' ns' Hd' Hm Hc. apply (HQ d' ns'); [done..|]. unfold wrte_service. rewrite Hs.
    by exists r, svc', w'. }
  destruct r as [st|hdr data| |].
  - apply wp_bind, wp_get. eapply wp_submit_wrte; [done..|by rewrite length_stat|].
    intros d' Hd' Hsent. apply (HQ' d' ns); [done|by left|done].
  - eapply wp_submit_wrte_sync; [done..|].
    intros d' Hd' Hsent. apply (HQ' d' ns); [done|by left|done].
  - eapply (wp_maybe_submit_wrte_sync φ); [exact Hφ2|exact Hd2|done|exact Hi2|done| |].
    + cbn. intros Hw. apply (HQ' d2 ns); [done|by left|]. by rewrite Hw.
    + cbn. intros Hw d' Hd' Hc. apply (HQ' d' ns); [done|by left|]. by rewrite Hw.
  - eapply wp_close_with_clse; [done..|].
    intros d' Hd' Hc. by apply (HQ' d' ns); [|left|].
Qed.

(** A shell's or a socket's part of WRTE. *)
Lemma wp_wrte_write φ base n out ns i rid (m : M World (result unit io_error)) Q d :
  slots φ 1 d → dinv base n out ns d → (length ns ≤ 20)%nat →
  u32 i → u32 rid →
  wp m (λ _ w', keeps (os d) w') (os d) →
  (∀ d' r w', dinv base n out ns d' → m (os d) = Done (r, w') →
    match r with Ok _ => d' = set_os w' d | Err _ => closed_by_device i rid (set_os w' d) d' end →
    Q tt d') →
  wpp φ (r ← on_os m;
         match r with Ok _ => mret tt | Err _ => close_with_clse i rid end) Q d.
Proof.
  intros Hφ Hd Hns Hi Hr Hm HQ. apply wp_bind, wp_zoom. eapply wp_case; [exact Hm|].
  intros r w' Heq Hk. pose proof (dinv_keeps _ _ _ _ _ _ Hd Hk) as Hd'.
  destruct r as [[]|e]; [by eapply wp_ret, HQ|].
  eapply wp_close_with_clse; [by apply (slots_eq φ 1 d (set_os w' d))|done..|]. intros d' Hd1 Hc.
  by eapply HQ.
Qed.

Lemma wp_wrte φ base n out ns h payload (Q : unit → Daemon → Prop) d :
  writes_progress → slots φ 3 d →
  (∀ s svc, streams (d_streams d) !! arg1 h = Some s → service s = Service.Sync svc →
    wpp φ (handle svc payload) (λ _ _, True) (os d)) →
  dinv base n out ns d → (length ns ≤ 20)%nat → Z.of_nat (length payload) ≤ 2 ^ 20 →
  u32 (arg0 h) → u32 (arg1 h) →
  (∀ s, streams (d_streams d) !! arg1 h = Some s → service s = Service.Reboot →
    φ (Unreachable "main.rs:353")) →
  (∀ d' ns', dinv base n out ns' d' → may_read ns ns' →
    wrte_post (arg1 h) (arg0 h) payload d d' → Q tt d') →
  wpp φ (handle_command_wrte h payload) Q d.
Proof.
  intros Hp Hφ Hstat Hd Hns Hl Hu0 Hu1 Hr HQ. unfold handle_command_wrte, wrte_post in *.
  set (i := arg1 h) in *. apply wp_bind.
  eapply wp_submit_okay; [by eapply slots_le; [|exact Hφ]; lia|done..|]. intros d1 Hd1 Hs.
  assert (slots φ 2 d1) as Hφ2 by (eapply slots_sent; [|exact Hs]; exact Hφ).
  assert (slots φ 1 d1) as Hφ1 by (eapply slots_le; [|exact Hφ2]; lia).
  pose proof (sent_streams _ _ _ Hs) as (Hst & Hos & _).
  apply wp_bind, wp_get_stream. rewrite Hst.
  destruct (streams (d_streams d) !! i) as [s|] eqn:Hi.
  2: { apply wp_ret, (HQ d1 ns); [done|by left|]. by exists d1. }
  assert (∀ d' ns', dinv base n out ns' d' → may_read ns ns' → wrte_service i s payload d1 d' →
    Q tt d') as HQ' by (intros d' ns' ? ? ?; apply (HQ d' ns'); [done..|]; by exists d1).
  destruct (dinv_stream_u32 _ _ _ _ _ _ _ Hd Hi) as [Hiu Hru].
  destruct (service s) as [svc|sh| |f] eqn:Hsv.
  - eapply (wp_wrte_sync φ base n out ns i s); try done; [rewrite Hos; by eapply Hstat|by rewrite Hst].
  - eapply wp_wrte_write; [done..|apply wp_shell_write_input|].
    intros d' r w' Hd' Heq Hc. apply (HQ' d' ns); [done|by left|].
    unfold wrte_service. rewrite Hsv. eauto.
  - apply wp_panic. by eapply Hr.
  - eapply wp_wrte_write; [done..|by apply wp_forward_write_input|].
    intros d' r w' Hd' Heq Hc. apply (HQ' d' ns); [done|by left|].
    unfold wrte_service. rewrite Hsv. eauto.
Qed.

(** C23: WRTE is acknowledged first, whatever stream it names, and then its
    payload goes to the stream's service: a session's answer, if it has
    one, is sent as one WRTE, a session that is done or a service that
    cannot take the data is closed with a CLSE.  A payload for a stream that
    is not open is acknowledged and dropped.  The other outcomes are a
    panic for want of three free buffers, the two panics of STAT, and a WRTE on a reboot stream. *)
Theorem wrte_acknowledged base n out ns h payload d :
  writes_progress →
  dinv base n out ns d → (length ns ≤ 20)%nat → Z.of_nat (length payload) ≤ 2 ^ 20 →
  u32 (arg0 h) → u32 (arg1 h) →
  wpp (λ p, no_room 3 d p ∨ stat_panic p ∨ p = Unreachable "main.rs:353" ∧
        ∃ s, streams (d_streams d) !! arg1 h = Some s ∧ service s = Service.Reboot)
    (handle_command_wrte h payload) (λ _ d',
    (∃ ns', may_read ns ns' ∧ dinv base n out ns' d') ∧
    wrte_post (arg1 h) (arg0 h) payload d d') d.
Proof.
  intros Hp Hd Hns Hl Hu0 Hu1. eapply wp_wrte; [done|by intros p; left| |done..| |by eauto].
  { intros s svc Hi Hs. apply wp_handle_stat; [by right; left| |done].
    pose proof (proj1 (di_services _ _ _ _ _ Hd _ s Hi)) as Hok. by rewrite Hs in Hok. }
  intros s Hi Hs. right. right. eauto.
Qed.

(** ** Dispatch *)

Lemma dinv_le base n n' out ns d :
  dinv base n out ns d → n ≤ n' → n' ≤ u32_max → dinv base n' out ns d.
Proof. intros [[? ? ? ? ? [? ?] ? ? ?] ?] Hle Hmax. split; [split|]; try done. split; [done|lia]. Qed.

(** The panics that a command provokes by what it is, in the state in which it
    is handled. *)
Definition misuse (h : AdbHeader) (payload : option (list byte)) (d : Daemon) (p : panic) : Prop :=
  match command h, payload with
  | Cnxn, None => p = Expect "CNXN requires a payload"
  | Open, None => p = Expect "OPEN requires a payload"
  | Wrte, None => p = Expect "WRTE requires a payload"
  | Okay, Some _ => p = AssertFailed "OKAY must not carry a payload"
  | Okay, None => p = Unreachable "main.rs:808" ∧
      ∃ s, streams (d_streams d) !! arg1 h = Some s ∧ service s = Service.Reboot
  | Clse, _ => p = AssertFailed "CLSE remote_id mismatch" ∧
      ∃ s, streams (d_streams d) !! arg1 h = Some s ∧ remote_id s ≠ arg0 h
  | Wrte, Some payload => ∃ s, streams (d_streams d) !! arg1 h = Some s ∧
      match service s with
      | Service.Reboot => p = Unreachable "main.rs:353"
      | Service.Sync svc => stat_panic p ∧ handle svc payload (os d) = Panicked p
      | _ => False
      end
  | _, _ => False
  end.

Lemma misuse_host_panic h payload d p : misuse h payload d p → host_panic p.
Proof.
  unfold misuse, host_panic. destruct (command h), payload; try tauto.
  intros (s & _ & Hs). destruct (service s); tauto.
Qed.

(** What a command does, whatever it is. *)
Definition command_post (h : AdbHeader) (payload : option (list byte)) d d' : Prop :=
  match command h, payload with
  | Cnxn, Some _ =>
      sent (set_version (negotiated (arg0 h)) d) (cnxn_answer (negotiated (arg0 h)) d) d'
  | Open, Some payload =>
      match service_name payload with
      | None => sent d (control (d_version d) Clse 0 (arg0 h)) d'
      | Some name => opened (arg0 h) name d d'
      end
  | Okay, None => okay_post (arg1 h) d d'
  | Clse, _ => clse_post (arg1 h) d d'
  | Wrte, Some payload => wrte_post (arg1 h) (arg0 h) payload d d'
  | Auth, _ | Stls, _ => d' = d
  | _, _ => False
  end.

(** It keeps the invariant, or panics for want of three free buffers or for what
    the command is. *)
Lemma wp_handle_command φ base n out ns h payload (Q : unit → Daemon → Prop) d :
  writes_progress → slots φ 3 d → (∀ p, misuse h payload d p → φ p) →
  dinv base n out ns d → (length ns ≤ 20)%nat → n < u32_max → header_u32 h →
  (∀ p, payload = Some p → Z.of_nat (length p) ≤ 2 ^ 20) →
  (∀ d' ns', dinv base (n + 1) out ns' d' → may_read ns ns' → command_post h payload d d' →
    Q tt d') →
  wpp φ (handle_command h payload) Q d.
Proof.
  intros Hp Hslot Hmis Hd Hns Hn (Hu0 & Hu1 & _) Hl HQ.
  assert (∀ d' ns', dinv base n out ns' d' → may_read ns ns' → command_post h payload d d' →
    Q tt d') as HQ'.
  { intros d' ns' Hd' Hm Hc. apply (HQ d' ns'); [|done..]. eapply dinv_le; [done|lia..]. }
  assert (slots φ 1 d ∧ slots φ 2 d) as [Hslot1 Hslot2] by (split; (eapply slots_le; [|exact Hslot]; lia)).
  unfold handle_command, command_post, misuse in *. destruct (command h).
  - apply wp_bind, wp_expect. destruct payload; [|by apply Hmis].
    eapply wp_cnxn; [exact Hslot2|done..|]. intros d' Hd' _ Hc. eapply HQ'; [done|by left|done].
  - apply wp_ret, (HQ' d ns); [done|by left|done].
  - apply wp_bind, wp_expect. destruct payload; [|by apply Hmis].
    eapply wp_open; [exact Hslot1|done..|]. intros d' ns' Hd' Hm Hc. by eapply HQ.
  - apply wp_bind. unfold assertM. destruct payload; [by apply wp_panic, Hmis|].
    apply wp_ret. eapply wp_okay; [exact Hslot2|done..|intros s Hi Hs; apply Hmis; eauto|].
    intros d' ns' Hd' Hm Hc. by eapply HQ'.
  - eapply wp_clse; [exact Hslot1|done..|intros s Hi Hs; apply Hmis; eauto|].
    intros d' Hd' _ Hc. eapply HQ'; [done|by left|done].
  - apply wp_bind, wp_expect. destruct payload as [p|]; [|by apply Hmis].
    eapply wp_wrte; [done|exact Hslot| |done|done|by apply Hl|done|done| |].
    + intros s svc Hi Hs.
      assert (wpp stat_panic (handle svc p) (λ _ _, True) (os d)) as Hstat.
      { apply wp_handle_stat; [by intros| |by apply Hl].
        pose proof (proj1 (di_services _ _ _ _ _ Hd _ s Hi)) as Hok. by rewrite Hs in Hok. }
      unfold wpp in *. destruct (handle svc p (os d)) as [[]|q] eqn:Hh; [done|].
      apply Hmis. exists s. by rewrite Hs.
    + intros s Hi Hs. apply Hmis. exists s. by rewrite Hs.
    + intros d' ns' Hd' Hm Hc. by eapply HQ'.
  - apply wp_ret, (HQ' d ns); [done|by left|done].
Qed.
End commands.
