(* ===== verification/System.v ===== *)
(** The daemon and the kernel as a step relation: submission, completion of
    any operation in flight with any result and any data, and the handling of
    one completion by the event loop.  The invariant of the reachable states
    says what is queued and in flight, and the theorems read off it: why the
    daemon can stop, that it always listens, that its queue never overflows,
    and that a buffer is never reused under a write. *)
From Stdlib Require Import ZArith Lia Strings.Byte.
From stdpp Require Import base numbers list gmap strings.
From S2P Require Import Prelude.
From S2P Require Import Bytes.
From S2P Require Import Str.
From S2P Require Import Winnow.
From S2P Require Import DeviceInfo.
From S2P Require Import Message.
From S2P Require Import Buffers.
From S2P Require Import Os.
From S2P Require Import Sync.
From S2P Require Import SyncFacts.
From S2P Require Import SyncSafe.
From S2P Require Import Shell.
From S2P Require Import Forward.
From S2P Require Import Stream.
From S2P Require Import UserData.
From S2P Require Import Ring.
From S2P Require Import Ffs.
From S2P Require Import Connection.
From S2P Require Import Wire.
From S2P Require Import ConnectionFacts.
From S2P Require Import Commands.

Open Scope Z_scope.

Lemma bulk_buf_size : Z.of_nat BULK_OUT_BUF_SIZE = 2 ^ 20.
Proof. unfold BULK_OUT_BUF_SIZE. by rewrite Z2Nat.id. Qed.

#[local] Opaque UserData_u64 BULK_OUT_BUF_SIZE.

Section system.
Context {E : Os} {W : Winnow} {R : SubmissionQueue}.

(** A write to the host that the kernel has completed: its bytes, whether it
    was the oldest write in flight then, and its result, which is the number
    of bytes that reached the host or an error. *)
Record Finished : Type := mkFinished {
  fin_data : list byte;
  fin_oldest : bool;
  fin_result : Z;
}.

(** History variables: all the writes to the host that were submitted so far,
    each as its bytes and its link flag; those that were completed, in that
    order; what completed reads of services delivered, each with the stream it
    was read for; and the commands that were received, each with the system
    calls made before it was handled. *)
Record History : Type := mkHistory {
  hi_written : list (list byte * bool);
  hi_done : list Finished;
  hi_output : list (Z * list byte);
  hi_heard : list (AdbHeader * option (list byte));
  hi_calls : list (list Call);
}.

Definition no_history : History := mkHistory [] [] [] [] [].
Definition hi_write (ws : list (list byte * bool)) (hi : History) : History :=
  mkHistory (hi_written hi ++ ws) (hi_done hi) (hi_output hi) (hi_heard hi) (hi_calls hi).
Definition hi_deliver (os : list (Z * list byte)) (ds : list Finished) (hi : History) : History :=
  mkHistory (hi_written hi) (hi_done hi ++ ds) (hi_output hi ++ os) (hi_heard hi) (hi_calls hi).
Definition hi_hear (cs : list (AdbHeader * option (list byte))) (log : list Call) (hi : History) :
    History :=
  mkHistory (hi_written hi) (hi_done hi) (hi_output hi) (hi_heard hi ++ cs)
    (hi_calls hi ++ replicate (length cs) log).

(** The event loop, the operations that the kernel has, the completions it
    has posted, those of the batch that the loop is working on, and the
    history. *)
Record Sys : Type := mkSys {
  s_loop : Loop;
  s_inflight : list Sqe;
  s_cq : list Cqe;
  s_batch : list Cqe;
  s_hist : History;
}.

Definition s_written (s : Sys) : list (list byte * bool) := hi_written (s_hist s).
Definition s_done (s : Sys) : list Finished := hi_done (s_hist s).
Definition s_calls (s : Sys) : list (list Call) := hi_calls (s_hist s).
Definition s_output (s : Sys) : list (Z * list byte) := hi_output (s_hist s).
Definition s_heard (s : Sys) : list (AdbHeader * option (list byte)) := hi_heard (s_hist s).

(** The token of a completion. *)
Definition cqe_token (c : Cqe) : option UserData :=
  result_ok (UserData_try_from (cqe_user_data c)).

Definition is_bulk (t : UserData) : Prop :=
  op_type t = UserDataOpType.BulkOutReadHeader ∨ op_type t = UserDataOpType.BulkOutReadPayload.
#[global] Instance is_bulk_dec t : Decision (is_bulk t).
Proof. unfold is_bulk. apply _. Defined.

(** The command that a completed read of [res] bytes of the host brings: a
    header without a payload, or the payload of the header that waits for it,
    if its checksum holds. *)
Definition heard_in (res : Z) (l : Loop) : list (AdbHeader * option (list byte)) :=
  let data := take (Z.to_nat res) (bulk_out_buf l) in
  match pending_header l with
  | None =>
      match parse_header data with
      | Some (h, _) => if decide (data_length h > 0) then [] else [(h, None)]
      | None => []
      end
  | Some h =>
      if requires_checksum (d_version (dm l)) && negb (bool_decide (checksum data = data_check h))
      then [] else [(h, Some data)]
  end.

Definition heard_by (c : Cqe) (l : Loop) : list (AdbHeader * option (list byte)) :=
  match cqe_token c with
  | Some t => if decide (is_bulk t) then heard_in (cqe_result c) l else []
  | None => []
  end.

(** What a completed read of a service delivered, once memory is as in [l]. *)
Definition read_output (e : Sqe) (res : Z) (l : Loop) : list (Z * list byte) :=
  match sqe_op e, sqe_token e with
  | OpRead _ (HeapPtr a) _, Some t =>
      match ud_data t with
      | Some i => [(i, take (Z.to_nat res) (default [] (w_heap (os (dm l)) !! a)))]
      | None => []
      end
  | _, _ => []
  end.

(** What the completion of a write to the host did, when the operations in
    flight before it are [pre]. *)
Definition write_done (pre : list Sqe) (e : Sqe) (res : Z) (l : Loop) : list Finished :=
  let v := view (d_buffers (dm l)) in
  match write_of v e with
  | Some w =>
      [mkFinished w.1 (match writes_of v pre with [] => true | _ => false end) res]
  | None => []
  end.

Inductive Config : Type :=
  | Running (s : Sys)
  | Exited (r : result unit io_error)
  | Crashed (p : panic)
  | Corrupted. (* the kernel wrote to memory that was freed *)

Definition set_heap_at (a : nat) (b : list byte) (l : Loop) : Loop :=
  set_dm (set_os (w_set_heap (<[a := b]>) (os (dm l))) (dm l)) l.

(** What the completion of an operation does to memory: a read of at most
    [len] bytes leaves anything in its buffer, whose size is kept.  One that
    fails, or finds the end of the file, need not write at all, and so it may
    complete although its buffer was freed. *)
Definition kernel_effect (e : Sqe) (res : Z) (l l' : Loop) : Prop :=
  match sqe_op e with
  | OpRead _ BulkOutPtr len =>
      res ≤ len ∧ ∃ buf, length buf = length (bulk_out_buf l) ∧
        l' = mkLoop (dm l) (pending_header l) buf
  | OpRead _ (HeapPtr a) len =>
      res ≤ len ∧
      (res ≤ 0 ∧ l' = l ∨
       ∃ b b', w_heap (os (dm l)) !! a = Some b ∧ length b' = length b ∧
         l' = set_heap_at a b' l)
  | OpRead _ (SlotPtr _) _ => False
  | OpWrite _ _ _ | OpPollAdd _ _ => l' = l
  end.

Definition writes_freed_memory (e : Sqe) (l : Loop) : Prop :=
  match sqe_op e with
  | OpRead _ (HeapPtr a) _ => w_heap (os (dm l)) !! a = None
  | _ => False
  end.

(** [submit_and_wait]: the queue goes to the kernel. *)
Definition submitted (l : Loop) : Loop :=
  set_dm (set_sq sq_empty (set_os (w_set_log (cons (CSubmitAndWait 1)) (os (dm l))) (dm l))) l.

Inductive step (s : Sys) : Config → Prop :=
  | step_submit n :
      s_batch s = [] → os_result (w_log (os (dm (s_loop s)))) (CSubmitAndWait 1) = Ok n →
      step s (Running (mkSys (submitted (s_loop s))
        (s_inflight s ++ sq_entries (sq (dm (s_loop s)))) (s_cq s) []
        (hi_write (sq_writes (dm (s_loop s))) (s_hist s))))
  | step_submit_error e :
      s_batch s = [] → os_result (w_log (os (dm (s_loop s)))) (CSubmitAndWait 1) = Err e →
      step s (Exited (Err e))
  | step_wait b c :
      s_batch s = [] → sq_entries (sq (dm (s_loop s))) = [] → s_cq s = b ++ c → b ≠ [] →
      step s (Running (mkSys (s_loop s) (s_inflight s) c b (s_hist s)))
  | step_complete pre e post res l :
      s_inflight s = pre ++ e :: post → kernel_effect e res (s_loop s) l →
      step s (Running (mkSys l (pre ++ post) (s_cq s ++ [mkCqe (sqe_user_data e) res]) (s_batch s)
        (hi_deliver (read_output e res l) (write_done pre e res l) (s_hist s))))
  | step_corrupt pre e post :
      s_inflight s = pre ++ e :: post → writes_freed_memory e (s_loop s) → step s Corrupted
  | step_handle c rest l :
      s_batch s = c :: rest → handle_cqe c (s_loop s) = Done (None, l) →
      step s (Running (mkSys l (s_inflight s) (s_cq s) rest
        (hi_hear (heard_by c (s_loop s)) (w_log (os (dm (s_loop s)))) (s_hist s))))
  | step_return c rest r l :
      s_batch s = c :: rest → handle_cqe c (s_loop s) = Done (Some r, l) → step s (Exited r)
  | step_panic c rest p :
      s_batch s = c :: rest → handle_cqe c (s_loop s) = Panicked p → step s (Crashed p).

(** ** The invariant *)

(** What the daemon has handed to the kernel and not yet handled. *)
Definition outside (s : Sys) : Outside :=
  mkOutside (s_inflight s) (omap cqe_token (s_cq s) ++ omap cqe_token (s_batch s)).

Definition poll_token : UserData := mkUserData UserDataOpType.Ep0Poll None.
Definition bulk_token (pending : option AdbHeader) : UserData :=
  mkUserData (match pending with
              | Some _ => UserDataOpType.BulkOutReadPayload
              | None => UserDataOpType.BulkOutReadHeader
              end) None.

Definition is_poll (t : UserData) : Prop := op_type t = UserDataOpType.Ep0Poll.
#[global] Instance is_poll_dec t : Decision (is_poll t).
Proof. unfold is_poll. apply _. Defined.

Definition cqe_ok (c : Cqe) : Prop :=
  ∃ t, cqe_user_data c = UserData_u64 t ∧ user_data_wf t ∧
    (is_bulk t → cqe_result c ≤ 2 ^ 20).

(** The fields of a pending header are [u32]s. *)
Definition pending_ok (l : Loop) : Prop := ∀ h, pending_header l = Some h → header_u32 h.

(** Among the operations that are queued or outstanding there are one poll of
    the control endpoint, one read of [bulk_out], for a payload exactly if a
    header is pending, and reads of services; the queue has few of them.  What
    was submitted are whole messages. *)
Record sys_inv (base : list Z) (n : Z) (s : Sys) : Prop := {
  si_dinv : dinv base n (outside s) (others (sq_tokens (dm (s_loop s)))) (dm (s_loop s));
  si_cqes : Forall cqe_ok (s_cq s ++ s_batch s);
  si_others : ∃ svc, others (sq_tokens (dm (s_loop s)) ++ out_tokens (outside s)) ≡ₚ
    poll_token :: bulk_token (pending_header (s_loop s)) :: svc ∧ Forall is_service_read svc;
  si_queue : let ns := others (sq_tokens (dm (s_loop s))) in
    (length ns ≤ length (filter is_poll ns) + 2 * length (filter is_bulk ns))%nat;
  si_buf : length (bulk_out_buf (s_loop s)) = BULK_OUT_BUF_SIZE;
  si_pending : pending_ok (s_loop s);
  si_written : whole_messages (s_written s);
}.

(** ** Handling one completion *)

Lemma dinv_out base n out out' ns d :
  dinv base n out ns d → o_flight out' = o_flight out →
  filter is_write (out_tokens out) ≡ₚ filter is_write (out_tokens out') →
  dinv base n out' ns d.
Proof.
  intros [[] ?] Hf Ho. split; [split|]; try done; [|by rewrite Hf].
  rewrite filter_app, <-Ho. by rewrite <-filter_app.
Qed.

(** The identifiers of streams are in range and handed out already. *)
Lemma stream_id base n out ns d i s :
  dinv base n out ns d → streams (d_streams d) !! i = Some s →
  1 ≤ i < 2 ^ 32 ∧ i < next_id (d_streams d).
Proof.
  intros Hd Hi. pose proof (di_ids _ _ _ _ _ Hd) as ([_ Hids] & Hn & Hmax).
  specialize (Hids i (mk_is_Some _ _ Hi)). unfold u32_max in Hmax. lia.
Qed.

Lemma others_cons t ts : ¬ is_write t → others (t :: ts) = t :: others ts.
Proof. intros Ht. unfold others. by rewrite filter_cons_True. Qed.

Lemma others_cons_write t ts : is_write t → others (t :: ts) = others ts.
Proof. intros Ht. unfold others. rewrite filter_cons_False; [done|]. by intros H. Qed.

(** What an outstanding token is. *)
Lemma token_cases base n s t :
  sys_inv base n s → t ∈ out_tokens (outside s) →
  t = poll_token ∨ t = bulk_token (pending_header (s_loop s)) ∨ is_service_read t ∨
  ∃ k, t = write_token k ∧ k ∈ occupied (d_buffers (dm (s_loop s))).
Proof.
  intros Hinv Hout. destruct (decide (is_write t)) as [Hw|Hw].
  - right. right. right. pose proof (di_writes _ _ _ _ _ (si_dinv _ _ _ Hinv)) as Hp.
    assert (t ∈ write_token <$> occupied (d_buffers (dm (s_loop s)))) as Hin.
    { rewrite <-Hp. apply list_elem_of_filter. split; [done|]. apply elem_of_app. by right. }
    apply list_elem_of_fmap in Hin as (k & -> & Hk). eauto.
  - destruct (si_others _ _ _ Hinv) as (svc & Hp & Hsvc).
    assert (t ∈ poll_token :: bulk_token (pending_header (s_loop s)) :: svc) as Hin.
    { rewrite <-Hp. apply list_elem_of_filter. split; [done|]. apply elem_of_app. by right. }
    apply elem_of_cons in Hin as [->|Hin]; [by left|].
    apply elem_of_cons in Hin as [->|Hin]; [by right; left|].
    right. right. left. by eapply Forall_forall in Hsvc.
Qed.

#[export] Instance write_token_inj : Inj (=) (=) write_token.
Proof. intros k k' [=]. lia. Qed.

(** Freeing the slot of a handled write: no other write refers to it. *)
Lemma wp_free φ base n out out' ns k (Q : unit → Daemon → Prop) d :
  dinv base n out ns d → k ∈ occupied (d_buffers d) → o_flight out' = o_flight out →
  filter is_write (out_tokens out) ≡ₚ write_token k :: filter is_write (out_tokens out') →
  (∀ d', dinv base n out' ns d' → d_streams d' = d_streams d → sq d' = sq d →
    view (d_buffers d') ⊆ view (d_buffers d) → Q tt d') →
  wpp φ (on_buffers (free (Z.of_nat k))) Q d.
Proof.
  intros Hd Hk Hf Ho HQ. pose proof Hd as [[Hwf Hw _ Hsq _ _ _ _ Hfl] _].
  assert (is_Some (view (d_buffers d) !! k)) as Hv
    by (by apply elem_of_dom, (elem_of_elements (dom (view (d_buffers d))))).
  pose proof (view_bound _ _ Hwf Hv) as Hb. apply wp_zoom.
  pose proof (free_cases (Z.of_nat k) (d_buffers d) Hwf) as Hfree.
  rewrite decide_True in Hfree by lia.
  destruct Hfree as (b' & Hfree & Hwf' & Hv'); [unfold u32; lia|]. rewrite Nat2Z.id in Hv'.
  unfold wpp. rewrite Hfree. apply HQ; [|done|done|cbn; rewrite Hv'; apply delete_subseteq].
  rewrite filter_app, Ho, <-Permutation_middle in Hw.
  rewrite (occupied_delete _ b' k Hv Hv'), fmap_cons in Hw.
  assert (write_token k ∉ filter is_write (sq_tokens d) ++ filter is_write (out_tokens out')) as Hnot.
  { assert (NoDup (write_token k :: filter is_write (sq_tokens d) ++ filter is_write (out_tokens out')))
      as Hnd; [|by inversion Hnd].
    rewrite Hw, <-fmap_cons, <-(occupied_delete _ b' k Hv Hv').
    apply NoDup_fmap_2; [apply _|]. apply (NoDup_elements (dom (view (d_buffers d)))). }
  apply Permutation_cons_inv in Hw.
  assert (∀ es, (∀ t, t ∈ tokens es → is_write t → t ≠ write_token k) →
    Forall (sqe_ok (conn d)) es → Forall (sqe_ok (conn (set_buffers b' d))) es) as Hmono.
  { intros es Hes. rewrite !Forall_forall. intros Hok e He.
    destruct (Hok e He) as (t & Ht & Htwf & Hop). exists t. split_and!; [done..|].
    assert (is_write t → t ≠ write_token k) as Hne.
    { apply Hes. apply list_elem_of_omap. exists e. split; [done|]. by apply sqe_token_eq. }
    unfold op_ok in *. destruct (op_type t) eqn:Eop, (ud_data t) as [j|] eqn:Ej; try done.
    destruct Hop as (b & Hj & ->). exists b. split; [|done]. cbn. rewrite Hv'.
    rewrite lookup_delete_ne; [done|]. intros ->. apply Hne; [done|].
    unfold user_data_wf in Htwf. rewrite Ej in Htwf. rewrite write_token_eq by lia.
    destruct t; simpl in *; congruence. }
  assert (Forall (sqe_ok (conn (set_buffers b' d))) (sq_entries (sq d))) as Hsq'.
  { apply Hmono; [|done]. intros t Ht Hwt ->. apply Hnot, elem_of_app. left.
    by apply list_elem_of_filter. }
  destruct Hd as [[] (ms & Hms & Hwire)]. split.
  2: { exists ms. split; [done|]. rewrite <-Hwire. unfold sq_writes. symmetry.
       apply writes_of_mono; [|cbn; rewrite Hv'; apply delete_subseteq].
       eapply Forall_impl; [exact Hsq'|]. intros e. apply sqe_ok_live. }
  split; try done.
  - rewrite filter_app. exact Hw.
  - rewrite Hf. apply Hmono; [|done]. intros t Ht Hwt ->. apply Hnot, elem_of_app. right.
    apply list_elem_of_filter. split; [done|]. unfold out_tokens. rewrite Hf. apply elem_of_app. by left.
Qed.

(** The next poll, or the next read of the host, is queued. *)
Definition relistened (d d' : Daemon) : Prop :=
  d_streams d' = d_streams d ∧ d_buffers d' = d_buffers d ∧
  ∃ e t, sqe_token e = Some t ∧ (is_poll t ∨ is_bulk t) ∧
    sq_entries (sq d') = sq_entries (sq d) ++ [e] ∧ ∀ fd p len, sqe_op e ≠ OpWrite fd p len.

(** And nothing else is done. *)
Definition listened (d d' : Daemon) : Prop := relistened d d' ∧ os d' = os d.

Lemma relistened_push d q e t :
  sq_entries q = sq_entries (sq d) ++ [e] → sqe_user_data e = UserData_u64 t → user_data_wf t →
  is_poll t ∨ is_bulk t → (∀ fd p len, sqe_op e ≠ OpWrite fd p len) → relistened d (set_sq q d).
Proof.
  intros Hq He Hwf Ht Hop. do 2 (split; [done|]). exists e, t. split_and!; [by apply sqe_token_eq|done..].
Qed.

Lemma relistened_writes d d' : relistened d d' → sq_writes d' = sq_writes d.
Proof.
  intros (_ & Hb & e & t & _ & _ & Hq & He). unfold sq_writes. rewrite Hq, Hb, writes_of_app.
  rewrite writes_of_cons. unfold write_of. destruct (sqe_op e) as [|fd p len|]; [by rewrite app_nil_r| |by rewrite app_nil_r].
  by destruct (He fd p len).
Qed.

Lemma wp_submit_ep0_poll φ base n out ns (Q : unit → Daemon → Prop) d :
  dinv base n out ns d → (length ns ≤ 20)%nat →
  (∀ d', dinv base n out (ns ++ [poll_token]) d' → relistened d d' → Q tt d') →
  wpp φ submit_ep0_poll Q d.
Proof.
  intros Hd Hns HQ. apply wp_bind, wp_get.
  eapply wp_push; [done|done|reflexivity|done|done|done|]. intros q Hq Hd'. apply HQ; [done|].
  by eapply relistened_push; [exact Hq|reflexivity| |left|].
Qed.

Lemma wp_listen φ base n out ns pending op (Q : unit → Loop → Prop) l :
  dinv base n out ns (dm l) → (length ns ≤ 20)%nat →
  length (bulk_out_buf l) = BULK_OUT_BUF_SIZE → op = op_type (bulk_token pending) →
  (∀ d', dinv base n out (ns ++ [bulk_token pending]) d' → listened (dm l) d' →
    Q tt (set_dm d' l)) →
  wpp φ (listen op) Q l.
Proof.
  intros Hd Hns Hbuf -> HQ. unfold listen. apply wp_bind, wp_get, wp_zoom.
  apply wp_bind, wp_get, wp_bind, wp_expect. rewrite Hbuf, bulk_buf_size. cbn [u32_try_from].
  rewrite u32_try_from_u32 by done.
  eapply wp_push; [done|done|reflexivity|by destruct pending| |by destruct pending|].
  { by destruct pending. }
  intros q Hq Hd'. apply HQ; [by destruct pending|]. split; [|done].
  eapply (relistened_push _ _ _ (bulk_token pending)); [exact Hq|reflexivity|by destruct pending|right|done].
  destruct pending; [by right|by left].
Qed.

Lemma wp_handle_ep0_event φ base n out ns (Q : bool → Daemon → Prop) d :
  dinv base n out ns d → (∀ b w', dinv base n out ns (set_os w' d) → Q b (set_os w' d)) →
  wpp φ handle_ep0_event Q d.
Proof.
  intros Hd HQ. apply wp_bind, wp_get, wp_bind, wp_zoom.
  destruct (read_event_outcome (ep0 (conn d)) (os d)) as [r Hr].
  unfold wpp at 1. rewrite Hr. apply wp_ret, HQ, dinv_keeps; [done|]. by apply keeps_call.
Qed.

(** ** Output of a service *)

Lemma wp_service_read_end φ base n out ns i (Q : unit → Daemon → Prop) d :
  slots φ 1 d → dinv base n out ns d → (length ns ≤ 20)%nat →
  (∀ d', dinv base n out ns d' →
    match streams (d_streams d) !! i with
    | Some s => closed_by_device i (remote_id s) d d'
    | None => d_streams d' = d_streams d ∧ d_buffers d' = d_buffers d ∧ sq d' = sq d
    end → Q tt d') →
  wpp φ (service_read_end i) Q d.
Proof.
  intros Hφ Hd Hns HQ. apply wp_bind, wp_get_stream.
  destruct (streams (d_streams d) !! i) as [s|] eqn:Hi.
  - destruct (dinv_stream_u32 _ _ _ _ _ _ _ Hd Hi).
    eapply (wp_close_with_clse φ base n out ns i (remote_id s)); [done..|]. intros d' Hd' Hc.
    by apply HQ.
  - apply wp_bind, wp_ret. eapply wp_close_stream; [done|]. intros d' Hd' Hst Hb Hq _ _.
    apply HQ; [done|]. split; [|done]. rewrite Hst. by apply removed_id.
Qed.

(** The bytes of a live read buffer. *)
Lemma wp_service_read φ base n out ns i s rb len (Q : unit → Daemon → Prop) d :
  slots φ 2 d → dinv base n out ns d → (length ns ≤ 20)%nat →
  streams (d_streams d) !! i = Some s → service_buf (service s) = Some rb →
  (∀ buf d', w_heap (os d) !! rb_ptr rb = Some buf → dinv base n out ns d' →
    sent (with_stream i (stream_set_waiting s true) d)
      (wrte (d_version d) i (remote_id s) (take len buf)) d' → Q tt d') →
  wpp φ (service_read i s (heap_read (rb_ptr rb) len)) Q d.
Proof.
  intros Hφ Hd Hns Hi Hrb HQ.
  destruct (own_buf _ _ _ (di_own _ _ _ _ _ Hd) i s rb Hi Hrb) as (Hcap & buf & Hbuf & Hlen).
  apply wp_bind. eapply wp_set_stream; [done..|exact (di_services _ _ _ _ _ Hd i s Hi)|].
  intros d1 Hd1. apply wp_bind, wp_zoom, wp_bind, wp_get, wp_ret. rewrite set_os_id.
  change (w_heap (os d1)) with (w_heap (os d)). rewrite Hbuf.
  change (default [] (Some buf)) with buf. apply wp_bind, wp_get.
  destruct (dinv_stream_u32 _ _ _ _ _ _ _ Hd Hi).
  eapply wp_submit_wrte; [by apply (slots_eq φ 2 d d1)|exact Hd1|done|done|done| |].
  { rewrite List.length_firstn. lia. }
  intros d' Hd' Hs. by apply (HQ buf).
Qed.

Definition pty_buf (s : Service.t) : option ReadBuf :=
  match s with Service.Shell sh => Some (sh_read_buf sh) | _ => None end.
Definition socket_buf (s : Service.t) : option ReadBuf :=
  match s with Service.Forward f => Some (fwd_read_buf f) | _ => None end.

(** What a completion of a service's read does: the end of the output closes
    the stream, output is sent on and the stream then waits for its OKAY. *)
Definition output_post (rb : Service.t → option ReadBuf) (i res : Z) (d d' : Daemon) : Prop :=
  match streams (d_streams d) !! i with
  | None => d_streams d' = d_streams d ∧ d_buffers d' = d_buffers d ∧ sq d' = sq d
  | Some s =>
      if decide (res ≤ 0) then closed_by_device i (remote_id s) d d'
      else match rb (service s) with
      | None => d' = d
      | Some rb => ∃ buf, w_heap (os d) !! rb_ptr rb = Some buf ∧
          sent (with_stream i (stream_set_waiting s true) d)
            (wrte (d_version d) i (remote_id s) (take (Z.to_nat res) buf)) d'
      end
  end.

Lemma wp_pty_read φ base n out ns i res (Q : unit → Daemon → Prop) d :
  slots φ 2 d → dinv base n out ns d → (length ns ≤ 20)%nat →
  (∀ d', dinv base n out ns d' → output_post pty_buf i res d d' → Q tt d') →
  wpp φ (pty_read i res) Q d.
Proof.
  intros Hφ Hd Hns HQ. unfold pty_read, output_post in *. case_decide.
  - eapply wp_service_read_end; [by eapply slots_le; [|exact Hφ]; lia|done..|]. intros d' Hd' Hp. apply HQ; [done|]. by case_match.
  - apply wp_bind, wp_get_stream. destruct (streams (d_streams d) !! i) as [s|] eqn:Hi.
    2: { by apply wp_ret, HQ. }
    destruct (service s) as [sv|sh| |f] eqn:Hs; try by apply wp_ret, HQ.
    eapply (wp_service_read φ base n out ns i s (sh_read_buf sh)); [done..|by rewrite Hs|].
    intros buf d' Hb Hd' Hsent. apply HQ; [done|]. by exists buf.
Qed.

Lemma wp_socket_read φ base n out ns i res (Q : unit → Daemon → Prop) d :
  slots φ 2 d → dinv base n out ns d → (length ns ≤ 20)%nat →
  (∀ d', dinv base n out ns d' → output_post socket_buf i res d d' → Q tt d') →
  wpp φ (socket_read i res) Q d.
Proof.
  intros Hφ Hd Hns HQ. unfold socket_read, output_post in *. case_decide.
  - eapply wp_service_read_end; [by eapply slots_le; [|exact Hφ]; lia|done..|]. intros d' Hd' Hp. apply HQ; [done|]. by case_match.
  - apply wp_bind, wp_get_stream. destruct (streams (d_streams d) !! i) as [s|] eqn:Hi.
    2: { by apply wp_ret, HQ. }
    destruct (service s) as [sv|sh| |f] eqn:Hs; try by apply wp_ret, HQ.
    eapply (wp_service_read φ base n out ns i s (fwd_read_buf f)); [done..|by rewrite Hs|].
    intros buf d' Hb Hd' Hsent. apply HQ; [done|]. by exists buf.
Qed.

(** C27: a completed read of a shell's terminal or of a forwarded socket is
    turned into exactly one WRTE that carries the bytes the kernel put in the
    service's buffer, and the stream then waits for the host's OKAY before it
    reads again; an end of file or an error closes the stream with a CLSE.  A
    completion for a stream that is gone is dropped.  The only other outcome
    is a panic because fewer than two buffers of the pool are free. *)
Theorem service_output base n out ns i res d :
  dinv base n out ns d → (length ns ≤ 20)%nat →
  wpp (no_room 2 d) (pty_read i res)
    (λ _ d', dinv base n out ns d' ∧ output_post pty_buf i res d d') d ∧
  wpp (no_room 2 d) (socket_read i res)
    (λ _ d', dinv base n out ns d' ∧ output_post socket_buf i res d d') d.
Proof.
  intros Hd Hns.
  split; [eapply (wp_pty_read (no_room 2 d))|eapply (wp_socket_read (no_room 2 d))];
    try done; try by intros p.
Qed.

(** ** Messages of the host *)

(** What the handling of a completion adds to the queue besides writes. *)
Definition relistens (pending : option AdbHeader) (add : list UserData) : Prop :=
  ∃ sv, add = sv ++ [bulk_token pending] ∧ Forall is_service_read sv ∧ (length sv ≤ 1)%nat.

Lemma may_read_add ns ns' :
  may_read ns ns' → ∃ sv, ns' = ns ++ sv ∧ Forall is_service_read sv ∧ (length sv ≤ 1)%nat.
Proof.
  intros [->|(t & -> & Ht)]; [exists []|exists [t]]; rewrite ?app_nil_r; split_and!; auto.
Qed.

Lemma slice_length {S} φ len buf (Q : list byte → S → Prop) s :
  (len ≤ length buf)%nat →
  (∀ data, (length data ≤ length buf)%nat → data = take len buf → Q data s) →
  wpp φ (slice_to len buf) Q s.
Proof.
  intros Hl HQ. unfold slice_to. rewrite decide_True by done. apply wp_ret, HQ; [|done].
  rewrite List.length_firstn. lia.
Qed.

(** A command, and the next read of the host. *)
Definition commanded (base : list Z) (n : Z) (out : Outside) (h : AdbHeader)
    (payload : option (list byte)) (d d' : Daemon) : Prop :=
  header_u32 h ∧ ∃ d1 ns1, dinv base (n + 1) out ns1 d1 ∧
    handle_command h payload d = Done (tt, d1) ∧ command_post h payload d d1 ∧ listened d1 d'.

(** What a completed read of the host does: nothing but to listen again, or
    the command that it brings. *)
Definition message_post (base : list Z) (n : Z) (out : Outside) (res : Z) (l : Loop)
    (d d' : Daemon) : Prop :=
  match heard_in res l with
  | [] => listened d d'
  | cs => ∃ h payload, cs = [(h, payload)] ∧ commanded base n out h payload d d'
  end.

(** A command and the next read of [bulk_out]. *)
Lemma wp_command_listen φ base n out ns h payload (Q : unit → Loop → Prop) l :
  writes_progress → slots φ 3 (dm l) → (∀ p, misuse h payload (dm l) p → φ p) → dinv base n out ns (dm l) → (length ns ≤ 15)%nat → n < u32_max →
  length (bulk_out_buf l) = BULK_OUT_BUF_SIZE → pending_header l = None → header_u32 h →
  (∀ p, payload = Some p → Z.of_nat (length p) ≤ 2 ^ 20) →
  (∀ d' add, relistens None add → dinv base (n + 1) out (ns ++ add) d' →
    commanded base n out h payload (dm l) d' → Q tt (set_dm d' l)) →
  wpp φ (on_dm (handle_command h payload);; listen UserDataOpType.BulkOutReadHeader) Q l.
Proof.
  intros Hp Hφ Hmis Hd Hns Hn Hbuf Hpend Hu Hpay HQ. apply wp_bind, wp_zoom, wp_run.
  eapply wp_handle_command; [done|done|done|done|lia|done|done|done|].
  intros d1 ns1 Hd1 (sv & -> & Hsv & Hlen)%may_read_add Hc Hrun.
  eapply (wp_listen _ _ _ _ _ None); [exact Hd1|rewrite length_app; lia|done|done|].
  intros d2 Hd2 Hl. apply (HQ d2 (sv ++ [bulk_token None])).
  - by exists sv.
  - by rewrite (assoc_L (++)).
  - split; [done|]. by exists d1, (ns ++ sv).
Qed.

Definition bulk_post (base : list Z) (n : Z) (out : Outside) (ns : list UserData) (res : Z)
    (l l' : Loop) : Prop :=
  length (bulk_out_buf l') = length (bulk_out_buf l) ∧ pending_ok l' ∧
  message_post base n out res l (dm l) (dm l') ∧
  ∃ add, relistens (pending_header l') add ∧ dinv base (n + 1) out (ns ++ add) (dm l').

(** Why a completed read of the host can panic. *)
Definition read_panic (res : Z) (l : Loop) (p : panic) : Prop :=
  ∃ h payload, heard_in res l = [(h, payload)] ∧
    (no_room 3 (dm l) p ∨ misuse h payload (dm l) p).

Lemma relistens_only pending : relistens pending [bulk_token pending].
Proof. exists []. split_and!; [done|constructor|simpl; lia]. Qed.

Lemma wp_bulk_out_read_header base n out ns res l :
  writes_progress → dinv base n out ns (dm l) → (length ns ≤ 15)%nat → n < u32_max →
  length (bulk_out_buf l) = BULK_OUT_BUF_SIZE → pending_header l = None →
  0 ≤ res ≤ 2 ^ 20 →
  wpp (read_panic res l) (bulk_out_read_header res) (λ _ l', bulk_post base n out ns res l l') l.
Proof.
  intros Hp Hd Hns Hn Hbuf Hpend Hres. pose proof bulk_buf_size.
  assert (∀ pending l1, dm l1 = dm l → bulk_out_buf l1 = bulk_out_buf l →
    pending_header l1 = pending → pending_ok l1 → heard_in res l = [] →
    wpp (read_panic res l) (listen (op_type (bulk_token pending))) (λ _ l', bulk_post base n out ns res l l') l1)
    as Hlisten.
  { intros pending l1 Hl1 Hb1 Hp1 Hok1 Hrec. eapply (wp_listen _ base n out ns pending);
      [by rewrite Hl1|lia|by rewrite Hb1|done|].
    intros d' Hd' Hl'. split; [cbn [set_dm bulk_out_buf]; by rewrite Hb1|]. split; [exact Hok1|].
    rewrite Hl1 in Hl'. split; [unfold message_post; by rewrite Hrec|].
    exists [bulk_token pending]. cbn [set_dm pending_header dm]. rewrite Hp1.
    split; [apply relistens_only|]. eapply dinv_le; [done|lia..]. }
  unfold bulk_out_read_header. apply wp_bind, wp_get, wp_bind, slice_length; [lia|].
  intros data Hdata Htake. destruct (parse_header data) as [[h r]|] eqn:Hparse.
  - assert (heard_in res l = if decide (data_length h > 0) then [] else [(h, None)]) as Hrec
      by (unfold heard_in; by rewrite Hpend, <-Htake, Hparse).
    apply parse_header_Some in Hparse as (_ & Hu & _). case_decide.
    + apply wp_bind, wp_modify. apply (Hlisten (Some h)); [reflexivity..| |exact Hrec].
      intros h' Hh'. injection Hh' as <-. exact Hu.
    + eapply wp_command_listen; [done| | |done..|].
      { intros p Hno. exists h, None. split; [exact Hrec|by left]. }
      { intros p Hm. exists h, None. split; [exact Hrec|by right]. }
      intros d' add Hadd Hd' Hc. split; [done|]. split; [by intros h'; cbn; rewrite Hpend|].
      split; [unfold message_post; rewrite Hrec; exists h, None; split; [done|exact Hc]|]. exists add.
      cbn [set_dm pending_header dm]. rewrite Hpend. split; [exact Hadd|exact Hd'].
  - apply (Hlisten None); [reflexivity|reflexivity|exact Hpend| |].
    + intros h'. by rewrite Hpend.
    + unfold heard_in. by rewrite Hpend, <-Htake, Hparse.
Qed.

Lemma wp_bulk_out_read_payload base n out ns res l :
  writes_progress → dinv base n out ns (dm l) → (length ns ≤ 15)%nat → n < u32_max →
  length (bulk_out_buf l) = BULK_OUT_BUF_SIZE → pending_ok l → is_Some (pending_header l) →
  0 ≤ res ≤ 2 ^ 20 →
  wpp (read_panic res l) (bulk_out_read_payload res) (λ _ l', bulk_post base n out ns res l l') l.
Proof.
  intros Hp Hd Hns Hn Hbuf Hok [h Hpend] Hres. pose proof bulk_buf_size.
  unfold bulk_out_read_payload. apply wp_bind, wp_get, wp_bind, wp_modify.
  set (l1 := set_pending None l).
  assert (heard_in res l = [] → wpp (read_panic res l) (listen UserDataOpType.BulkOutReadHeader)
    (λ _ l', bulk_post base n out ns res l l') l1) as Hlisten.
  { intros Hrec. eapply (wp_listen _ base n out ns None); [done|lia|done|done|].
    intros d' Hd' Hl'. split; [done|]. split; [done|].
    split; [unfold message_post; rewrite Hrec; exact Hl'|]. exists [bulk_token None].
    split; [apply relistens_only|]. eapply dinv_le; [done|lia..]. }
  rewrite Hpend.
  (* the payload's branch is a bind in the head of a bind *)
  apply wp_bind, wp_bind, slice_length; [lia|]. intros data Hdata Htake.
  assert (heard_in res l = if requires_checksum (d_version (dm l)) &&
    negb (bool_decide (checksum data = data_check h)) then [] else [(h, Some data)]) as Hrec
    by (unfold heard_in; by rewrite Hpend, <-Htake).
  destruct (requires_checksum _ && _); [by apply wp_ret, Hlisten|].
  apply wp_bind_inv, (wp_command_listen _ base n out ns); [done| | |done..|by apply Hok| |].
  - intros p Hno. exists h, (Some data). split; [exact Hrec|by left].
  - intros p Hm. exists h, (Some data). split; [exact Hrec|by right].
  - intros p [= <-]. lia.
  - intros d' add Hadd Hd' Hc. split; [done|]. split; [done|].
    split; [unfold message_post; rewrite Hrec; exists h, (Some data); split; [done|exact Hc]|].
    exists add. split; [exact Hadd|exact Hd'].
Qed.

(** ** The invariant after one completion *)

Lemma others_app ts ts' : others (ts ++ ts') = others ts ++ others ts'.
Proof. apply filter_app. Qed.

(** The state after the first completion of the batch was handled. *)
Definition handled (s : Sys) (c : Cqe) (rest : list Cqe) (l : Loop) : Sys :=
  mkSys l (s_inflight s) (s_cq s) rest
    (hi_hear (heard_by c (s_loop s)) (w_log (os (dm (s_loop s)))) (s_hist s)).

Lemma out_tokens_handled s c rest l t :
  s_batch s = c :: rest → cqe_token c = Some t →
  out_tokens (outside s) ≡ₚ t :: out_tokens (outside (handled s c rest l)).
Proof.
  intros Hb Ht. unfold out_tokens, outside. cbn [o_flight o_done handled s_inflight s_cq s_batch].
  rewrite Hb. cbn [omap list_omap]. rewrite Ht. rewrite !(assoc_L (++)).
  by rewrite Permutation_middle.
Qed.

Definition few (ns : list UserData) : Prop :=
  (length ns ≤ length (filter is_poll ns) + 2 * length (filter is_bulk ns))%nat.

(** What is needed of the loop after the completion. *)
Lemma sys_inv_handled base n n' s c rest l add :
  sys_inv base n s → s_batch s = c :: rest →
  let s' := handled s c rest l in
  let ns := others (sq_tokens (dm (s_loop s))) in
  dinv base n' (outside s') (ns ++ add) (dm l) →
  length (bulk_out_buf l) = length (bulk_out_buf (s_loop s)) →
  (∃ svc, (ns ++ add) ++ others (out_tokens (outside s')) ≡ₚ
    poll_token :: bulk_token (pending_header l) :: svc ∧ Forall is_service_read svc) →
  few (ns ++ add) → pending_ok l →
  sys_inv base n' s'.
Proof.
  intros Hinv Hb s' ns Hd Hbuf (svc & Hp & Hsvc) Hfew Hpend.
  pose proof (di_others _ _ _ _ _ Hd) as Ho. split; cbn [s' handled s_loop].
  - by rewrite Ho.
  - pose proof (si_cqes _ _ _ Hinv) as Hc. rewrite Hb in Hc. cbn.
    apply Forall_app in Hc as [H1 H2]. apply Forall_app. split; [done|]. by inversion H2.
  - exists svc. rewrite others_app, Ho. done.
  - rewrite Ho. exact Hfew.
  - rewrite Hbuf. apply Hinv.
  - exact Hpend.
  - apply Hinv.
Qed.

Lemma few_app ns add : few ns → few add → few (ns ++ add).
Proof. unfold few. rewrite !filter_app, !length_app. lia. Qed.

Lemma few_nil : few [].
Proof. unfold few. simpl. lia. Qed.

Lemma few_poll : few [poll_token].
Proof. unfold few. vm_compute. lia. Qed.

Lemma few_relistens pending add : relistens pending add → few add.
Proof.
  intros (sv & -> & _ & Hl). unfold few. rewrite !filter_app, !length_app.
  assert (length (filter is_bulk [bulk_token pending]) = 1%nat) as -> by by destruct pending.
  simpl. lia.
Qed.

Lemma filter_none (P : UserData → Prop) `{∀ t, Decision (P t)} ts :
  Forall (λ t, ¬ P t) ts → filter P ts = [].
Proof. induction 1; [done|]. by rewrite filter_cons_False. Qed.

Lemma service_read_not t : is_service_read t → ¬ is_write t ∧ ¬ is_poll t ∧ ¬ is_bulk t.
Proof.
  unfold is_service_read, is_write, is_poll, is_bulk.
  destruct (op_type t); try done; intros _; (split_and!; [done|done|by intros [|]]).
Qed.

(** The queue holds at most three operations besides writes. *)
Lemma few_length base n s :
  sys_inv base n s → (length (others (sq_tokens (dm (s_loop s)))) ≤ 3)%nat.
Proof.
  intros Hinv. destruct (si_others _ _ _ Hinv) as (svc & Hp & Hsvc).
  pose proof (si_queue _ _ _ Hinv) as Hq. cbv zeta in Hq. rewrite others_app in Hp.
  set (ns := others (sq_tokens _)) in *.
  assert (filter is_poll svc = []) as Hpoll.
  { apply filter_none. eapply Forall_impl; [exact Hsvc|]. intros t Ht. by apply service_read_not. }
  assert (filter is_bulk svc = []) as Hbulk.
  { apply filter_none. eapply Forall_impl; [exact Hsvc|]. intros t Ht. by apply service_read_not. }
  assert (length (filter is_poll (ns ++ others (out_tokens (outside s)))) = 1%nat) as H1.
  { rewrite Hp, filter_cons_True by done. rewrite filter_cons_False by by destruct (pending_header _).
    by rewrite Hpoll. }
  assert (length (filter is_bulk (ns ++ others (out_tokens (outside s)))) = 1%nat) as H2.
  { rewrite Hp, filter_cons_False by (intros [?|?]; done).
    rewrite filter_cons_True; [by rewrite Hbulk|]. destruct (pending_header _); [by right|by left]. }
  rewrite filter_app, length_app in H1, H2. lia.
Qed.

(** The other tokens when [t] is taken out of those outside. *)
Lemma others_take base n s c rest l t :
  sys_inv base n s → s_batch s = c :: rest → cqe_token c = Some t → ¬ is_write t →
  ∃ svc, others (sq_tokens (dm (s_loop s))) ++ t :: others (out_tokens (outside (handled s c rest l)))
      ≡ₚ poll_token :: bulk_token (pending_header (s_loop s)) :: svc ∧
    Forall is_service_read svc.
Proof.
  intros Hinv Hb Ht Hw. destruct (si_others _ _ _ Hinv) as (svc & Hp & Hsvc). exists svc.
  split; [|done]. rewrite <-Hp, others_app, <-others_cons by done. f_equiv.
  unfold others. symmetry. apply filter_Permutation. by eapply out_tokens_handled.
Qed.

(** Completions of writes and of services' reads queue nothing but writes. *)
Lemma others_write base n s c rest l t :
  sys_inv base n s → s_batch s = c :: rest → cqe_token c = Some t →
  is_write t ∨ is_service_read t → pending_header l = pending_header (s_loop s) →
  ∃ svc, (others (sq_tokens (dm (s_loop s))) ++ []) ++ others (out_tokens (outside (handled s c rest l)))
    ≡ₚ poll_token :: bulk_token (pending_header l) :: svc ∧ Forall is_service_read svc.
Proof.
  intros Hinv Hb Ht Hor Hpend. rewrite app_nil_r, Hpend.
  destruct (decide (is_write t)) as [Hw|Hw].
  - destruct (si_others _ _ _ Hinv) as (svc & Hp & Hsvc). exists svc. split; [|done].
    rewrite <-Hp, others_app. f_equiv. unfold others.
    rewrite (filter_Permutation _ _ _ (out_tokens_handled s c rest l t Hb Ht)).
    symmetry. by apply Permutation_refl', others_cons_write.
  - destruct Hor as [|Hr]; [done|].
    destruct (others_take base n s c rest l t Hinv Hb Ht Hw) as (svc & Hp & Hsvc).
    rewrite <-Permutation_middle in Hp. pose proof (service_read_not t Hr) as (_ & Hnp & Hnb).
    assert (t ∈ poll_token :: bulk_token (pending_header (s_loop s)) :: svc) as Hin
      by (rewrite <-Hp; left).
    apply elem_of_cons in Hin as [->|Hin]; [by destruct Hnp|].
    apply elem_of_cons in Hin as [->|Hin].
    { destruct Hnb. destruct (pending_header _); [by right|by left]. }
    apply list_elem_of_split in Hin as (l1 & l2 & ->).
    exists (l1 ++ l2). split.
    + apply (Permutation_cons_inv (a := t)). rewrite Hp.
      rewrite <-Permutation_middle. solve_Permutation.
    + apply Forall_app in Hsvc as [? [? ?]%Forall_cons]. by apply Forall_app.
Qed.

(** A poll: [add] is the next one.  A read of [bulk_out]: the next one and at
    most a read of a service. *)
Lemma others_poll base n s c rest l :
  sys_inv base n s → s_batch s = c :: rest → cqe_token c = Some poll_token →
  pending_header l = pending_header (s_loop s) →
  ∃ svc, (others (sq_tokens (dm (s_loop s))) ++ [poll_token])
      ++ others (out_tokens (outside (handled s c rest l)))
    ≡ₚ poll_token :: bulk_token (pending_header l) :: svc ∧ Forall is_service_read svc.
Proof.
  intros Hinv Hb Ht Hpend. rewrite Hpend, <-(assoc_L (++)).
  by eapply (others_take base n s c rest l poll_token).
Qed.

Lemma others_bulk base n s c rest l add :
  sys_inv base n s → s_batch s = c :: rest →
  cqe_token c = Some (bulk_token (pending_header (s_loop s))) →
  relistens (pending_header l) add →
  ∃ svc, (others (sq_tokens (dm (s_loop s))) ++ add)
      ++ others (out_tokens (outside (handled s c rest l)))
    ≡ₚ poll_token :: bulk_token (pending_header l) :: svc ∧ Forall is_service_read svc.
Proof.
  intros Hinv Hb Ht (sv & -> & Hsv & _).
  destruct (others_take base n s c rest l _ Hinv Hb Ht) as (svc & Hp & Hsvc);
    [by destruct (pending_header (s_loop s))|].
  exists (sv ++ svc). split; [|by apply Forall_app].
  rewrite <-Permutation_middle, Permutation_swap in Hp. apply Permutation_cons_inv in Hp.
  set (out := others (out_tokens _)) in *. set (ns := others (sq_tokens _)) in *.
  transitivity (bulk_token (pending_header l) :: sv ++ (ns ++ out)); [solve_Permutation|].
  rewrite Hp. solve_Permutation.
Qed.

(** What the completion of an operation does to the daemon, by its token. *)
Inductive handled_as (base : list Z) (n : Z) (out : Outside) (t : UserData) (res : Z)
    (l l' : Loop) : Prop :=
  | handled_poll : is_poll t → relistened (dm l) (dm l') → handled_as base n out t res l l'
  | handled_bulk :
      is_bulk t → message_post base n out res l (dm l) (dm l') → handled_as base n out t res l l'
  | handled_write :
      is_write t → d_streams (dm l') = d_streams (dm l) → sq (dm l') = sq (dm l) →
      sq_writes (dm l') = sq_writes (dm l) →
      handled_as base n out t res l l'
  | handled_pty i :
      t = mkUserData UserDataOpType.PtyRead (Some i) →
      output_post pty_buf i res (dm l) (dm l') → handled_as base n out t res l l'
  | handled_socket i :
      t = mkUserData UserDataOpType.SocketRead (Some i) →
      output_post socket_buf i res (dm l) (dm l') → handled_as base n out t res l l'.

(** Why handling a completion can panic: it is of a service's read, and fewer
    than two buffers are free; or it brings a command, and fewer than three
    are free, or the command is one that cannot be handled. *)
Definition crash_cause (c : Cqe) (l : Loop) (p : panic) : Prop :=
  (∃ t, cqe_token c = Some t ∧ is_service_read t ∧ no_room 2 (dm l) p) ∨
  ∃ h payload, heard_by c l = [(h, payload)] ∧ (no_room 3 (dm l) p ∨ misuse h payload (dm l) p).

Lemma crash_cause_host_panic c l p : crash_cause c l p → host_panic p.
Proof.
  intros [(t & _ & _ & -> & _)|(h & payload & _ & [[-> _]|Hm])]; [by left..|].
  by eapply misuse_host_panic.
Qed.

(** One completion, of an operation whose token is [t]. *)
Section completion.
Context (base : list Z) (n : Z) (s : Sys) (c : Cqe) (rest : list Cqe) (t : UserData).
Context (Hp : writes_progress) (Hinv : sys_inv base n s) (Hn : n < u32_max).
Context (Hb : s_batch s = c :: rest) (Hdec : UserData_try_from (cqe_user_data c) = Ok t).
Context (Hres : is_bulk t → cqe_result c ≤ 2 ^ 20).

Definition completion_post (o : option (result unit io_error)) (l : Loop) : Prop :=
  o = None → sys_inv base (n + 1) (handled s c rest l) ∧
    handled_as base n (outside (handled s c rest l)) t (cqe_result c) (s_loop s) l.

Lemma completion_token : cqe_token c = Some t.
Proof. unfold cqe_token. by rewrite Hdec. Qed.

Lemma completion_out : t ∈ out_tokens (outside s).
Proof.
  rewrite (out_tokens_handled s c rest (s_loop s) t) by (done || apply completion_token). left.
Qed.

(** The daemon once the completion, if not of a write, is taken out. *)
Lemma completion_dinv l :
  ¬ is_write t →
  dinv base n (outside (handled s c rest l)) (others (sq_tokens (dm (s_loop s)))) (dm (s_loop s)).
Proof.
  intros Hw. eapply dinv_out; [apply (si_dinv _ _ _ Hinv)|done|].
  rewrite (out_tokens_handled s c rest l t) by (done || apply completion_token).
  by rewrite filter_cons_False.
Qed.

(** The control endpoint. *)
Lemma wp_handle_poll :
  t = poll_token → wpp (crash_cause c (s_loop s)) (handle_cqe c) completion_post (s_loop s).
Proof.
  intros Ht. unfold handle_cqe. rewrite Hdec, Ht. cbn [op_type ud_data poll_token].
  case_decide; [by apply wp_ret|]. pose proof (few_length _ _ _ Hinv) as Hlen.
  assert (¬ is_write t) as Hw by by rewrite Ht.
  apply wp_bind, wp_zoom. eapply wp_handle_ep0_event; [by apply (completion_dinv (s_loop s))|].
  intros [] w1 Hd2; [by apply wp_ret|].
  apply wp_bind, wp_zoom. eapply wp_submit_ep0_poll; [done|cbn; lia|]. intros d2 Hd3 Hl.
  pose proof completion_token as Htok. rewrite Ht in Htok.
  apply wp_ret. intros _. split; [|by rewrite Ht; apply handled_poll].
  eapply (sys_inv_handled _ n);
    [exact Hinv|exact Hb| |reflexivity| | |exact (si_pending _ _ _ Hinv)].
  - eapply dinv_le; [exact Hd3|lia..].
  - by eapply others_poll.
  - apply few_app; [apply Hinv|apply few_poll].
Qed.

(** A header or a payload of the host. *)
Lemma wp_handle_bulk :
  t = bulk_token (pending_header (s_loop s)) →
  wpp (crash_cause c (s_loop s)) (handle_cqe c) completion_post (s_loop s).
Proof.
  intros Ht. pose proof (few_length _ _ _ Hinv) as Hlen. pose proof completion_token as Htok.
  assert (¬ is_write t) as Hw by (rewrite Ht; by destruct (pending_header _)).
  pose proof (completion_dinv (s_loop s) Hw) as Hd1.
  assert (∀ l', bulk_post base n (outside (handled s c rest (s_loop s)))
    (others (sq_tokens (dm (s_loop s)))) (cqe_result c) (s_loop s) l' →
    completion_post None l') as Hpost.
  { intros l' (Hbuf' & Hpok' & Hm & add & Hadd & Hd2) _.
    split; [|apply handled_bulk; [by rewrite Ht; destruct (pending_header _); [right|left]|exact Hm]].
    rewrite Ht in Htok.
    eapply (sys_inv_handled _ n); [exact Hinv|exact Hb|exact Hd2|exact Hbuf'| | |exact Hpok'].
    - by eapply others_bulk.
    - apply few_app; [apply Hinv|]. by eapply few_relistens. }
  assert (is_bulk t) as Hbulk by (rewrite Ht; destruct (pending_header _); [by right|by left]).
  assert (∀ p, read_panic (cqe_result c) (s_loop s) p → crash_cause c (s_loop s) p) as Hcause.
  { intros p Hp'. right. unfold heard_by. by rewrite completion_token, decide_True. }
  specialize (Hres Hbulk). unfold handle_cqe. rewrite Hdec, Ht.
  pose proof (si_buf _ _ _ Hinv) as Hbuf. pose proof (si_pending _ _ _ Hinv) as Hpok.
  destruct (pending_header (s_loop s)) as [h|] eqn:Hpend;
    cbn [op_type ud_data bulk_token]; (case_decide; [by apply wp_ret|]); apply wp_bind;
    (apply (wp_mono _ _ (λ _ l', bulk_post base n (outside (handled s c rest (s_loop s)))
      (others (sq_tokens (dm (s_loop s)))) (cqe_result c) (s_loop s) l'));
     [apply (wp_weaken (read_panic (cqe_result c) (s_loop s))); [exact Hcause|]|
      intros [] l' Hl'; by apply wp_ret, Hpost]).
  - apply wp_bulk_out_read_payload; try done; lia.
  - apply wp_bulk_out_read_header; try done; lia.
Qed.

(** A completion that queues no operation but writes. *)
Lemma completion_writes d :
  is_service_read t ∨ is_write t →
  dinv base n (outside (handled s c rest (s_loop s))) (others (sq_tokens (dm (s_loop s)))) d →
  sys_inv base (n + 1) (handled s c rest (set_dm d (s_loop s))).
Proof.
  intros Ht Hd. pose proof completion_token as Htok.
  eapply (sys_inv_handled _ n _ _ _ _ _ []);
    [exact Hinv|exact Hb| |reflexivity| | |exact (si_pending _ _ _ Hinv)].
  - rewrite app_nil_r. eapply dinv_le; [exact Hd|lia..].
  - destruct Ht as [Hr|Hw]; [by eapply others_write; [..|right|]|by eapply others_write; [..|left|]].
  - rewrite app_nil_r. apply Hinv.
Qed.

(** The output of a service. *)
Lemma wp_handle_service :
  is_service_read t → wpp (crash_cause c (s_loop s)) (handle_cqe c) completion_post (s_loop s).
Proof.
  intros Hr. pose proof (few_length _ _ _ Hinv) as Hlen.
  destruct (service_read_not t Hr) as [Hw _].
  pose proof (completion_dinv (s_loop s) Hw) as Hd1.
  assert (∀ d', dinv base n (outside (handled s c rest (s_loop s)))
    (others (sq_tokens (dm (s_loop s)))) d' →
    handled_as base n (outside (handled s c rest (s_loop s))) t (cqe_result c) (s_loop s)
      (set_dm d' (s_loop s)) →
    wpp (crash_cause c (s_loop s)) (mret None) completion_post (set_dm d' (s_loop s))) as Hpost.
  { intros d' Hd' Hh. apply wp_ret. intros _. split; [|exact Hh].
    apply completion_writes; [by left|done]. }
  assert (t = mkUserData (op_type t) (ud_data t)) as Heta by by destruct t.
  assert (slots (crash_cause c (s_loop s)) 2 (dm (s_loop s))) as Hslot
    by (intros p Hno; left; exists t; split; [apply completion_token|done]).
  unfold handle_cqe. rewrite Hdec. unfold is_service_read in Hr. destruct (op_type t); try done;
    (destruct (ud_data t) as [i|]; [|done]); apply wp_bind, wp_zoom.
  - eapply wp_pty_read; [exact Hslot|exact Hd1|cbn; lia|]. intros d' Hd2 Ho.
    by eapply Hpost, handled_pty.
  - eapply wp_socket_read; [exact Hslot|exact Hd1|cbn; lia|]. intros d' Hd2 Ho.
    by eapply Hpost, handled_socket.
Qed.

(** A write. *)
Lemma wp_handle_write k :
  t = write_token k → k ∈ occupied (d_buffers (dm (s_loop s))) →
  wpp (crash_cause c (s_loop s)) (handle_cqe c) completion_post (s_loop s).
Proof.
  intros Ht Hk. pose proof completion_token as Htok.
  unfold handle_cqe. rewrite Hdec, Ht. cbn [op_type ud_data write_token]. apply wp_bind, wp_zoom.
  eapply (wp_free _ base n (outside s) (outside (handled s c rest (s_loop s))));
    [apply (si_dinv _ _ _ Hinv)|exact Hk|done| |].
  { rewrite Ht in Htok. rewrite (out_tokens_handled s c rest (s_loop s) (write_token k)) by done.
    by rewrite filter_cons_True. }
  intros d' Hd2 Hst Hsq Hv. apply wp_ret. intros _.
  change (set_dm (set_dm d' (s_loop s)).(dm) (s_loop s)) with (set_dm d' (s_loop s)).
  split; [apply completion_writes; [right; by rewrite Ht|done]|].
  apply handled_write; [by rewrite Ht|done|done|]. cbn [set_dm dm]. unfold sq_writes.
  rewrite <-Hsq. symmetry. apply writes_of_mono; [|exact Hv]. by eapply dcore_live, Hd2.
Qed.
End completion.

(** Handling a completion keeps the invariant, unless the loop returns, or
    panics for one of the listed reasons. *)
Lemma wp_handle_cqe base n s c rest :
  writes_progress → sys_inv base n s → n < u32_max → s_batch s = c :: rest →
  wpp (crash_cause c (s_loop s)) (handle_cqe c) (λ o l, o = None → sys_inv base (n + 1) (handled s c rest l) ∧
    ∃ t, cqe_token c = Some t ∧
      handled_as base n (outside (handled s c rest l)) t (cqe_result c) (s_loop s) l) (s_loop s).
Proof.
  intros Hp Hinv Hn Hb.
  assert (cqe_ok c) as (t & Ht & Hwf & Hres).
  { pose proof (si_cqes _ _ _ Hinv) as Hc. rewrite Hb in Hc.
    apply Forall_app in Hc as [_ Hc]. by inversion Hc. }
  assert (UserData_try_from (cqe_user_data c) = Ok t) as Hdec
    by (rewrite Ht; by apply user_data_roundtrip_aux).
  pose proof (completion_out s c rest t Hb Hdec) as Hin.
  apply (wp_mono _ _ (completion_post base n s c rest t)).
  2: { intros o l Hpost Ho. destruct (Hpost Ho) as [H1 H2]. split; [exact H1|]. exists t.
       split; [|exact H2]. unfold cqe_token. by rewrite Hdec. }
  destruct (token_cases _ _ _ _ Hinv Hin) as [Hpoll|[Hbulk|[Hr|(k & Hk & Hocc)]]].
  - by eapply wp_handle_poll.
  - by eapply wp_handle_bulk.
  - by eapply wp_handle_service.
  - by eapply wp_handle_write.
Qed.

(** ** The other steps *)

Lemma dinv_outside base n out out' ns d :
  dinv base n out ns d → out_tokens out ≡ₚ out_tokens out' →
  Forall (sqe_ok (conn d)) (o_flight out') → dinv base n out' ns d.
Proof.
  intros [[] ?] Ho Hf. split; [split|]; try done. by rewrite <-Ho.
Qed.

Lemma others_permutation ts ts' : ts ≡ₚ ts' → others ts ≡ₚ others ts'.
Proof. apply filter_Permutation. Qed.

(** The queue goes to the kernel. *)
Lemma dinv_submit base n out ns d :
  dinv base n out ns d →
  dinv base n (mkOutside (o_flight out ++ sq_entries (sq d)) (o_done out)) [] (set_sq sq_empty d).
Proof.
  intros [[Hwf Hw Ho Hsq Hown Hids Hsv Hi Hfl] Hwire].
  split; [|by apply spoken_empty; cbn; rewrite sq_empty_law]. split; try done.
  - unfold sq_tokens, out_tokens in *. cbn [sq set_sq o_flight o_done].
    rewrite sq_empty_law, tokens_app. cbn [app].
    change (d_buffers (set_sq sq_empty d)) with (d_buffers d). rewrite <-Hw.
    apply filter_Permutation. solve_Permutation.
  - unfold sq_tokens. cbn [sq set_sq]. by rewrite sq_empty_law.
  - cbn [sq set_sq]. rewrite sq_empty_law. constructor.
  - by apply Forall_app.
Qed.

(** What the outstanding operations become in the other steps. *)
Lemma submit_out s w l b :
  s_batch s = [] →
  out_tokens (outside (mkSys l (s_inflight s ++ sq_entries (sq (dm (s_loop s)))) (s_cq s) b w))
    ≡ₚ sq_tokens (dm (s_loop s)) ++ out_tokens (outside s) ++ omap cqe_token b.
Proof.
  intros Hb. unfold out_tokens, outside, sq_tokens. cbn [o_flight o_done s_inflight s_cq s_batch].
  rewrite Hb, tokens_app. cbn [omap list_omap]. solve_Permutation.
Qed.

Lemma wait_out s b c w :
  s_batch s = [] → s_cq s = b ++ c →
  out_tokens (outside (mkSys (s_loop s) (s_inflight s) c b w)) ≡ₚ out_tokens (outside s).
Proof.
  intros Hb Hcq. unfold out_tokens, outside. cbn [o_flight o_done s_inflight s_cq s_batch].
  rewrite Hb, Hcq, omap_app. cbn [omap list_omap]. solve_Permutation.
Qed.

Lemma complete_out s pre e post res l t w :
  s_inflight s = pre ++ e :: post → sqe_user_data e = UserData_u64 t → user_data_wf t →
  out_tokens (outside (mkSys l (pre ++ post) (s_cq s ++ [mkCqe (sqe_user_data e) res]) (s_batch s) w))
    ≡ₚ out_tokens (outside s).
Proof.
  intros Hfl Ht Hwf. unfold out_tokens, outside. cbn [o_flight o_done s_inflight s_cq s_batch].
  rewrite Hfl. change (e :: post) with ([e] ++ post).
  rewrite !tokens_app, omap_app, (tokens_one e t) by done. cbn [omap list_omap].
  assert (cqe_token (mkCqe (sqe_user_data e) res) = Some t) as ->.
  { unfold cqe_token. cbn [cqe_user_data]. by rewrite Ht, (proj2 (user_data_roundtrip_aux t Hwf)). }
  solve_Permutation.
Qed.

Lemma submit_inv base n s :
  sys_inv base n s → s_batch s = [] →
  sys_inv base n (mkSys (submitted (s_loop s))
    (s_inflight s ++ sq_entries (sq (dm (s_loop s)))) (s_cq s) []
    (hi_write (sq_writes (dm (s_loop s))) (s_hist s))).
Proof.
  intros Hinv Hb. pose proof Hinv as [Hd Hc (svc & Hp & Hsvc) _ Hbuf Hpok]. rewrite Hb in Hc.
  set (d := dm (s_loop s)) in *. set (s' := mkSys _ _ _ _ _).
  assert (sq_tokens (dm (s_loop s')) = []) as Hempty.
  { unfold sq_tokens. cbn. by rewrite sq_empty_law. }
  assert (out_tokens (outside s') ≡ₚ sq_tokens d ++ out_tokens (outside s)) as Hout.
  { etrans; [by apply submit_out|]. cbn [omap list_omap]. by rewrite app_nil_r. }
  split; [|exact Hc| | |exact Hbuf|exact Hpok|]; rewrite ?Hempty.
  - apply dinv_submit in Hd.
    apply (dinv_keeps _ _ _ _ (w_set_log (cons (CSubmitAndWait 1)) (os d))) in Hd;
      [|by apply keeps_call].
    eapply dinv_outside; [exact Hd| |apply Hd].
    unfold out_tokens, outside. cbn [o_flight o_done s' s_inflight s_cq s_batch]. by rewrite Hb.
  - exists svc. split; [|done]. cbn [app s_loop s' submitted set_dm pending_header].
    rewrite <-Hp. apply others_permutation, Hout.
  - apply few_nil.
  - apply whole_messages_app; [apply Hinv|apply Hd].
Qed.

Lemma wait_inv base n s b c :
  sys_inv base n s → s_batch s = [] → s_cq s = b ++ c →
  sys_inv base n (mkSys (s_loop s) (s_inflight s) c b (s_hist s)).
Proof.
  intros Hinv Hb Hcq. pose proof Hinv as [Hd Hc (svc & Hp & Hsvc) Hq Hbuf Hpok].
  rewrite Hb, Hcq, app_nil_r in Hc. set (s' := mkSys _ _ _ _ _).
  assert (out_tokens (outside s') ≡ₚ out_tokens (outside s)) as Hout by by apply wait_out.
  split; cbn [s' s_loop s_cq s_batch]; [| | |exact Hq|exact Hbuf|exact Hpok|apply Hinv].
  - eapply dinv_outside; [exact Hd|by symmetry|apply Hd].
  - by rewrite (comm (++)) in Hc.
  - exists svc. split; [|done]. rewrite <-Hp. apply others_permutation. by f_equiv.
Qed.

Lemma streams_own_heap base m a b b' w :
  streams_own base m w → w_heap w !! a = Some b → length b' = length b →
  streams_own base m (w_set_heap (<[a := b']>) w).
Proof.
  intros [Hf Hb Hd Hx] Ha Hl. split; cbn; try done.
  - intros i s rb Hi Hs. destruct (Hb i s rb Hi Hs) as (Hc & b0 & Hb0 & Hl0). split; [done|].
    destruct (decide (a = rb_ptr rb)) as [->|Hne].
    + exists b'. cbn [w_heap w_set_heap]. rewrite lookup_insert_eq. split; [done|].
      rewrite Ha in Hb0. injection Hb0 as ->. by rewrite Hl.
    + exists b0. cbn [w_heap w_set_heap]. by rewrite lookup_insert_ne.
  - intros a'. destruct (decide (a = a')) as [<-|Hne].
    + intros _. apply Hx. eauto.
    + rewrite lookup_insert_ne by done. apply Hx.
Qed.

(** What a completion changes is memory. *)
Lemma kernel_effect_inv base n out ns e res l l' :
  dinv base n out ns (dm l) → kernel_effect e res l l' →
  dinv base n out ns (dm l') ∧ conn (dm l') = conn (dm l) ∧ sq (dm l') = sq (dm l) ∧
  pending_header l' = pending_header l ∧ length (bulk_out_buf l') = length (bulk_out_buf l).
Proof.
  intros Hd. unfold kernel_effect. destruct (sqe_op e) as [fd [slot|a|] len|fd ptr len|fd flags].
  - done.
  - intros (_ & [[_ ->]|(b & b' & Ha & Hl & ->)]); [by split_and!|]. cbn. split_and!; try done.
    destruct Hd as [[] ?]. split; [split|]; try done. cbn. by eapply streams_own_heap.
  - intros (_ & buf & Hl & ->). by split_and!.
  - intros ->. by split_and!.
  - intros ->. by split_and!.
Qed.

Lemma complete_same base n s pre e post res l :
  dinv base n (outside s) (others (sq_tokens (dm (s_loop s)))) (dm (s_loop s)) →
  s_inflight s = pre ++ e :: post → kernel_effect e res (s_loop s) l →
  d_streams (dm l) = d_streams (dm (s_loop s)) ∧ sq (dm l) = sq (dm (s_loop s)) ∧
  ∃ t, sqe_user_data e = UserData_u64 t ∧ user_data_wf t.
Proof.
  intros Hd Hfl He. destruct (kernel_effect_inv _ _ _ _ _ _ _ _ Hd He) as (_ & Hc & Hq & _).
  split; [unfold d_streams; by rewrite Hc|]. split; [done|].
  pose proof (di_flight _ _ _ _ _ Hd) as Hok. cbn [outside o_flight] in Hok. rewrite Hfl in Hok.
  apply Forall_app in Hok as [_ [(t & Ht & Hwf & _) _]%Forall_cons]. by exists t.
Qed.

Lemma complete_inv base n s pre e post res l :
  sys_inv base n s → s_inflight s = pre ++ e :: post → kernel_effect e res (s_loop s) l →
  sys_inv base n (mkSys l (pre ++ post) (s_cq s ++ [mkCqe (sqe_user_data e) res]) (s_batch s)
    (hi_deliver (read_output e res l) (write_done pre e res l) (s_hist s))).
Proof.
  intros Hinv Hfl He. pose proof Hinv as [Hd Hc (svc & Hp & Hsvc) Hq Hbuf Hpok].
  set (s' := mkSys _ _ _ _ _).
  destruct (kernel_effect_inv _ _ _ _ _ _ _ _ Hd He) as (Hd' & Hconn & Hsq & Hpend & Hlen).
  pose proof (di_flight _ _ _ _ _ Hd) as Hok. cbn [outside o_flight] in Hok. rewrite Hfl in Hok.
  apply Forall_app in Hok as [Hpre [(t & Ht & Hwf & Hop) Hpost]%Forall_cons].
  assert (out_tokens (outside s) ≡ₚ out_tokens (outside s')) as Hout
    by (symmetry; by eapply complete_out).
  assert (sq_tokens (dm l) = sq_tokens (dm (s_loop s))) as Htok by (unfold sq_tokens; by rewrite Hsq).
  split; cbn [s' s_loop s_cq s_batch]; rewrite ?Htok; [| | |exact Hq| | |apply Hinv].
  - eapply dinv_outside; [exact Hd'|exact Hout|]. rewrite Hconn. by apply Forall_app.
  - rewrite <-(assoc_L (++)). apply Forall_app in Hc as [H1 H2]. apply Forall_app. split; [done|].
    constructor; [|done]. exists t. split_and!; [done..|]. cbn [cqe_result].
    unfold is_bulk, op_ok, kernel_effect in *.
    intros [Hb|Hb]; rewrite Hb in Hop; (destruct (ud_data t); [done|]); rewrite Hop in He; apply He.
  - exists svc. split; [|done]. rewrite Hpend, <-Hp. apply others_permutation. by f_equiv.
  - by rewrite Hlen.
  - unfold pending_ok. by rewrite Hpend.
Qed.
End system.
