(* ===== verification/Safety.v ===== *)
(** The reachable states of the daemon and the kernel, and what holds in all of
    them. *)
From Stdlib Require Import ZArith Lia Strings.Byte.
From stdpp Require Import base numbers list gmap strings.
From S2P Require Import Prelude.
From S2P Require Import Bytes.
From S2P Require Import Str.
From S2P Require Import Winnow.
From S2P Require Import DeviceInfo.
From S2P Require Import Message.
From S2P Require Import Buffers.
From S2P Require Import Os.
From S2P Require Import Sync.
From S2P Require Import SyncFacts.
From S2P Require Import SyncSafe.
From S2P Require Import Shell.
From S2P Require Import Forward.
From S2P Require Import Stream.
From S2P Require Import UserData.
From S2P Require Import Ring.
From S2P Require Import Ffs.
From S2P Require Import Connection.
From S2P Require Import Wire.
From S2P Require Import ConnectionFacts.
From S2P Require Import Commands.
From S2P Require Import System.

Open Scope Z_scope.

#[local] Opaque UserData_u64 BULK_OUT_BUF_SIZE.

Section safety.
Context {E : Os} {W : Winnow} {R : SubmissionQueue}.

(** [n] steps of a run. *)
Inductive steps : nat → Sys → Sys → Prop :=
  | steps_refl s : steps 0 s s
  | steps_snoc n s s' s'' : steps n s s' → step s' (Running s'') → steps (S n) s s''.

(** [n] steps of a run whose states, before each step, satisfy [P]. *)
Inductive steps_if (P : Sys → Prop) : nat → Sys → Sys → Prop :=
  | steps_if_refl s : steps_if P 0 s s
  | steps_if_snoc n s s' s'' :
      steps_if P n s s' → P s' → step s' (Running s'') → steps_if P (S n) s s''.

Lemma steps_if_steps P n s s' : steps_if P n s s' → steps n s s'.
Proof. induction 1; [constructor|by econstructor]. Qed.

Lemma steps_steps_if n s s' : steps n s s' → steps_if (λ _, True) n s s'.
Proof. induction 1; [constructor|by econstructor]. Qed.

(** No command is about to be handled. *)
Definition quiet (s : Sys) : Prop :=
  ∀ c rest, s_batch s = c :: rest → heard_by c (s_loop s) = [].

Lemma idle_quiet s : s_batch s = [] → quiet s.
Proof. intros Hb c rest. by rewrite Hb. Qed.

(** What the daemon is started with: endpoints and an identity, in a world
    where no service has been started. *)
Record start_ok (base : list Z) (info : DeviceInfo) (w : World) : Prop := {
  st_fds : live_fds (w_log w) = base;
  st_heap : w_heap w = ∅;
  st_info : Z.of_nat (length (cnxn_payload info)) < 2 ^ 32;
}.

(** [n] steps after the loop of [run] was entered. *)
Definition reachable (n : nat) (e0 eo ei : Z) (info : DeviceInfo) (w : World) (s : Sys) : Prop :=
  ∃ l, run_start (Loop_new e0 eo ei info w) = Done (Ok tt, l) ∧ steps n (mkSys l [] [] [] no_history) s.

Lemma dinv_start base e0 eo ei info w :
  start_ok base info w →
  dinv base 1 (mkOutside [] []) []
    (mkDaemon (AdbConnection_new e0 eo ei info) sq_empty w).
Proof.
  intros [Hf Hh Hi]. split; [|by apply spoken_empty; cbn; rewrite sq_empty_law]. split; cbn.
  - apply BufferManager_new_wf.
  - unfold sq_tokens. cbn [sq conn d_buffers conn_buffers AdbConnection_new].
    rewrite sq_empty_law. reflexivity.
  - unfold sq_tokens. cbn. by rewrite sq_empty_law.
  - rewrite sq_empty_law. constructor.
  - split; cbn; [by rewrite Hf| | |].
    + intros i s rb Hi'. by rewrite lookup_empty in Hi'.
    + intros i j s s' rb rb' _ Hi'. by rewrite lookup_empty in Hi'.
    + intros a [b Hb]. by rewrite Hh, lookup_empty in Hb.
  - split; [|unfold u32_max; lia]. split; cbn; [lia|].
    intros i [s Hs]. by rewrite lookup_empty in Hs.
  - intros i s Hs. by rewrite lookup_empty in Hs.
  - done.
  - constructor.
Qed.

(** The start of [run] never panics, and establishes the invariant. *)
Lemma wp_run_start base e0 eo ei info w :
  start_ok base info w →
  wp run_start (λ r l, r = Ok tt → sys_inv base 1 (mkSys l [] [] [] no_history) ∧
    d_streams (dm l) = StreamManager_new ∧
    others (sq_tokens (dm l)) = [poll_token; bulk_token None] ∧ sq_writes (dm l) = [])
    (Loop_new e0 eo ei info w).
Proof.
  intros Hst. pose proof (dinv_start base e0 eo ei info w Hst) as Hd.
  apply wp_bind_ok, wp_zoom, wp_zoom, wp_sys.
  destruct (os_result _ _) as [n|e]; [|done].
  set (w' := w_set_log _ _).
  assert (keeps w w') as Hk by by apply keeps_call.
  apply (dinv_keeps _ _ _ _ _ _ Hd) in Hk as Hd1. cbn [set_os conn sq] in Hd1.
  apply wp_bind, wp_zoom, wp_modify, wp_bind, wp_zoom.
  eapply wp_submit_ep0_poll; [exact Hd1|simpl; lia|]. intros d1 Hd2 Hl1. apply wp_bind.
  eapply (wp_listen _ base 1 _ _ None); [exact Hd2|simpl; lia|apply length_replicate|done|].
  intros d2 Hd3 Hl2. apply wp_ret. intros _.
  pose proof (di_others _ _ _ _ _ Hd3) as Ho.
  assert (sq_writes d2 = []) as Hw.
  { destruct Hl2 as [Hl2 _]. apply relistened_writes in Hl1, Hl2. etrans; [exact Hl2|]. etrans; [exact Hl1|].
    unfold sq_writes. cbn. by rewrite sq_empty_law. }
  destruct Hl1 as [Hs1 _], Hl2 as [[Hs2 _] _].
  split; [|split_and!; [cbn in *; by rewrite Hs2, Hs1|exact Ho|exact Hw]].
  split; cbn [s_loop set_dm dm pending_header bulk_out_buf s_cq s_batch].
  - rewrite Ho. exact Hd3.
  - constructor.
  - exists []. rewrite others_app, Ho. done.
  - rewrite Ho. vm_compute. lia.
  - apply length_replicate.
  - done.
  - by exists [].
Qed.

Lemma run_start_inv base e0 eo ei info w l :
  start_ok base info w → run_start (Loop_new e0 eo ei info w) = Done (Ok tt, l) →
  sys_inv base 1 (mkSys l [] [] [] no_history) ∧ d_streams (dm l) = StreamManager_new ∧
  others (sq_tokens (dm l)) = [poll_token; bulk_token None] ∧ sq_writes (dm l) = [].
Proof.
  intros Hst Hrun. by apply (wp_done _ _ _ _ _ _ (wp_run_start _ _ _ _ _ _ Hst) Hrun).
Qed.

(** All the operations that were submitted and whose completion was not
    handled. *)
Definition pending_tokens (s : Sys) : list UserData :=
  sq_tokens (dm (s_loop s)) ++ out_tokens (outside s).

(** A step handles a completion, or moves operations on their way. *)
Lemma step_cases base n s s' :
  sys_inv base n s → step s (Running s') →
  (pending_tokens s' ≡ₚ pending_tokens s ∧ d_streams (dm (s_loop s')) = d_streams (dm (s_loop s))) ∨
  ∃ c rest l, s_batch s = c :: rest ∧ handle_cqe c (s_loop s) = Done (None, l) ∧
    s' = handled s c rest l.
Proof.
  intros Hinv Hstep.
  inversion Hstep as [| | |pre e post res l Hfl Heff| |c rest l Hb Hh| |]; subst; [left..|right].
  - split; [|done]. unfold pending_tokens at 1. rewrite submit_out by done. cbn [omap list_omap].
    unfold sq_tokens at 1. cbn. by rewrite sq_empty_law, app_nil_r.
  - split; [|done]. unfold pending_tokens. by rewrite wait_out.
  - destruct (complete_same base n s _ _ _ _ _ (si_dinv _ _ _ Hinv) Hfl Heff) as (Hst & Hq & t & Ht & Hwf).
    split; [|exact Hst]. unfold pending_tokens. rewrite (complete_out _ _ _ _ _ _ _ _ Hfl Ht Hwf).
    unfold sq_tokens. cbn. by rewrite Hq.
  - by exists c, rest, l.
Qed.

(** Every step keeps the invariant. *)
Lemma step_inv base n s s' :
  writes_progress → sys_inv base n s → n < u32_max → step s (Running s') →
  sys_inv base (n + 1) s'.
Proof.
  intros Hp Hinv Hn Hstep.
  assert (∀ s1, sys_inv base n s1 → sys_inv base (n + 1) s1) as Hle.
  { intros s1 []. split; try done. eapply dinv_le; [done|lia..]. }
  inversion Hstep; subst.
  - apply Hle. by apply submit_inv.
  - apply Hle. by eapply wait_inv.
  - apply Hle. by eapply complete_inv.
  - match goal with Hb : s_batch s = ?c :: ?rest, Hh : handle_cqe _ _ = _ |- _ =>
      by destruct (wp_done _ _ _ _ _ _ (wp_handle_cqe base n s c rest Hp Hinv Hn Hb) Hh) end.
Qed.

Lemma steps_inv base n k s s' :
  writes_progress → sys_inv base n s → steps k s s' → n + Z.of_nat k ≤ u32_max →
  sys_inv base (n + Z.of_nat k) s'.
Proof.
  intros Hp Hinv. induction 1 as [s|k s s' s'' _ IH Hstep]; intros Hn.
  - by rewrite Z.add_0_r.
  - replace (n + Z.of_nat (S k)) with (n + Z.of_nat k + 1) by lia.
    eapply step_inv; [done| |lia|done]. apply IH; [done|lia].
Qed.

(** A further invariant of the states of such a run. *)
Lemma steps_if_inv P (I : Sys → Prop) base n k s s' :
  writes_progress →
  (∀ m s1 s2, sys_inv base m s1 → m < u32_max → I s1 → P s1 → step s1 (Running s2) → I s2) →
  sys_inv base n s → I s → steps_if P k s s' → n + Z.of_nat k ≤ u32_max → I s'.
Proof.
  intros Hp HI Hinv Hs. induction 1 as [s|k s s' s'' Hsteps IH HP Hstep]; intros Hn; [done|].
  pose proof (steps_inv base n k s s' Hp Hinv (steps_if_steps _ _ _ _ Hsteps) ltac:(lia)) as Hinv'.
  eapply (HI (n + Z.of_nat k) s' s''); [done|lia| |done|done]. apply IH; [done..|lia].
Qed.

Context (base : list Z) (e0 eo ei : Z) (info : DeviceInfo) (w : World).

(** [n] steps of such a run after the loop of [run] was entered. *)
Definition reachable_if (P : Sys → Prop) (n : nat) (s : Sys) : Prop :=
  ∃ l, run_start (Loop_new e0 eo ei info w) = Done (Ok tt, l) ∧
    steps_if P n (mkSys l [] [] [] no_history) s.

Lemma reachable_if_reachable P n s : reachable_if P n s → reachable n e0 eo ei info w s.
Proof. intros (l & Hrun & Hs). exists l. split; [done|]. by eapply steps_if_steps. Qed.

(** The invariant of the reachable states.  Stream identifiers are 32 bits
    wide, and a step opens at most one stream, so they last for the first
    2^32 - 2 steps of a run. *)
Lemma reachable_inv n s :
  writes_progress → start_ok base info w → 1 + Z.of_nat n < u32_max →
  reachable n e0 eo ei info w s → sys_inv base (1 + Z.of_nat n) s.
Proof.
  intros Hp Hst Hn (l & Hrun & Hsteps). eapply steps_inv; [done| |done|lia].
  by eapply (run_start_inv base).
Qed.

(** C13: why the daemon can crash.  Starting the event loop never panics; and
    in the first 2^32 - 2 steps of any run, whatever the host sends, the
    kernel completes and the system answers, a panic of the event loop is
    while handling one completion, which is of a service's read when fewer
    than two write buffers are free, or brings a command when fewer than
    three are, or brings a STAT of a file too large or too recent, a CLSE
    that names the wrong peer, a message that lacks or has a payload against
    its command, or a WRTE or an OKAY on a reboot stream: ten panics in all.
    In particular the submission queue never overflows, no slot or stream
    number is zero, no index is out of bounds and no other [unreachable!] is
    reached. *)
Theorem crash_reasons n s p :
  writes_progress → start_ok base info w → 1 + Z.of_nat n < u32_max →
  (∃ r l, run_start (Loop_new e0 eo ei info w) = Done (r, l)) ∧
  (reachable n e0 eo ei info w s → step s (Crashed p) →
    host_panic p ∧ ∃ c rest, s_batch s = c :: rest ∧ crash_cause c (s_loop s) p).
Proof.
  intros Hp Hst Hn. split.
  { pose proof (wp_run_start base e0 eo ei info w Hst) as (r & l & Hr & _)%wp_total. eauto. }
  intros Hreach Hstep.
  pose proof (reachable_inv n s Hp Hst Hn Hreach) as Hinv. inversion Hstep; subst.
  match goal with Hb : s_batch s = ?c :: ?rest, Hh : handle_cqe _ _ = Panicked _ |- _ =>
    pose proof (wp_handle_cqe base _ s c rest Hp Hinv Hn Hb) as H; unfold wpp in H;
    rewrite Hh in H; split; [by eapply crash_cause_host_panic|by eauto] end.
Qed.

Lemma filter_others (P : UserData → Prop) `{∀ t, Decision (P t)} ts :
  (∀ t, P t → ¬ is_write t) → filter P (others ts) = filter P ts.
Proof.
  intros HP. unfold others. induction ts as [|t ts IH]; [done|].
  destruct (decide (is_write t)).
  - rewrite (filter_cons_False (λ t, ¬ is_write t)) by auto.
    rewrite (filter_cons_False P) by (intros Ht; by eapply HP). done.
  - rewrite (filter_cons_True (λ t, ¬ is_write t)) by done.
    destruct (decide (P t)).
    + by rewrite !(filter_cons_True P), IH by done.
    + by rewrite !(filter_cons_False P), IH by done.
Qed.

(** C14: the daemon always listens, and only once: in every reachable state
    exactly one poll of the control endpoint and exactly one read of
    [bulk_out] are submitted and not yet handled, and that read is for a
    payload exactly when a header waits for its payload. *)
Theorem always_listening n s :
  writes_progress → start_ok base info w → 1 + Z.of_nat n < u32_max →
  reachable n e0 eo ei info w s →
  filter is_poll (pending_tokens s) = [poll_token] ∧
  filter is_bulk (pending_tokens s) = [bulk_token (pending_header (s_loop s))].
Proof.
  intros Hp Hst Hn Hreach. pose proof (reachable_inv n s Hp Hst Hn Hreach) as Hinv.
  destruct (si_others _ _ _ Hinv) as (svc & Hperm & Hsvc). fold (pending_tokens s) in Hperm.
  set (pend := pending_header (s_loop s)) in *.
  assert (∀ (P : UserData → Prop) (Pdec : ∀ t, Decision (P t)), (∀ t, P t → ¬ is_write t) →
    (∀ t, is_service_read t → ¬ P t) →
    filter P (pending_tokens s) ≡ₚ filter P [poll_token; bulk_token pend]) as Hfilter.
  { intros P Pdec HPw HPs. rewrite <-(filter_others P) by done. rewrite Hperm.
    change (poll_token :: bulk_token pend :: svc) with ([poll_token; bulk_token pend] ++ svc).
    rewrite filter_app, (filter_none P svc), app_nil_r; [done|].
    eapply Forall_impl; [exact Hsvc|]. exact HPs. }
  split; symmetry; apply Permutation_singleton_l; symmetry.
  - rewrite Hfilter; [by destruct pend| |].
    + unfold is_poll, is_write. intros t -> [=].
    + intros t Ht. by apply service_read_not.
  - rewrite Hfilter; [by destruct pend| |].
    + unfold is_bulk, is_write. intros t [->| ->] [=].
    + intros t Ht. by apply service_read_not.
Qed.

(** C22: the submission queue stays far from full: of its 32 entries at most
    eleven are ever used, one write per slot of the pool, one poll, one read
    of [bulk_out] and one read of a service. *)
Theorem queue_bounded n s :
  writes_progress → start_ok base info w → 1 + Z.of_nat n < u32_max →
  reachable n e0 eo ei info w s →
  (length (sq_entries (sq (dm (s_loop s)))) ≤ 11)%nat.
Proof.
  intros Hp Hst Hn Hreach. pose proof (reachable_inv n s Hp Hst Hn Hreach) as Hinv.
  pose proof (few_length _ _ _ Hinv) as Hfew.
  pose proof (si_dinv _ _ _ Hinv) as Hd. destruct Hd as [[Hwf Hw _ Hsq _ _ _ _ _] _].
  rewrite <-(tokens_length _ _ Hsq). fold (sq_tokens (dm (s_loop s))).
  rewrite filter_length_split. rewrite filter_app in Hw.
  apply Permutation_length in Hw. rewrite length_app, length_fmap in Hw.
  pose proof (occupied_length _ Hwf). unfold others in Hfew. lia.
Qed.

(** C16: a write buffer belongs to one write until that write's completion is
    handled: in every reachable state the occupied slots of the pool are in
    bijection with the writes that are queued, in flight or completed but
    not handled, and each queued or in-flight write refers to the whole
    contents of its own slot. *)
Theorem write_slots_owned n s :
  writes_progress → start_ok base info w → 1 + Z.of_nat n < u32_max →
  reachable n e0 eo ei info w s →
  let d := dm (s_loop s) in
  filter is_write (pending_tokens s) ≡ₚ write_token <$> elements (dom (view (d_buffers d))) ∧
  ∀ e fd ptr len, e ∈ sq_entries (sq d) ++ s_inflight s → sqe_op e = OpWrite fd ptr len →
    fd = bulk_in (conn d) ∧ ∃ k b, ptr = SlotPtr (Z.of_nat k) ∧
      view (d_buffers d) !! k = Some b ∧ len = Z.of_nat (length b).
Proof.
  intros Hp Hst Hn Hreach d. pose proof (reachable_inv n s Hp Hst Hn Hreach) as Hinv.
  destruct (si_dinv _ _ _ Hinv) as [[Hwf Hw _ Hsq _ _ _ _ Hfl] _]. split; [exact Hw|].
  intros e fd ptr len He Hop.
  assert (sqe_ok (conn d) e) as (t & _ & Hwft & Hok).
  { apply elem_of_app in He as [He|He]; [by eapply Forall_forall in Hsq|].
    by eapply Forall_forall in Hfl. }
  rewrite Hop in Hok. unfold op_ok, user_data_wf in *.
  destruct (op_type t), (ud_data t) as [k|]; try done; try (by destruct Hok as (? & ? & [=])).
  destruct Hok as (b & Hb & [= -> -> ->]). split; [done|]. exists (Z.to_nat k), b.
  split_and!; [|done|done]. by rewrite Z2Nat.id by lia.
Qed.

(** C17: what the daemon writes to the host is always well framed: in every
    reachable state, the writes submitted so far and those queued are, in
    order, the buffers of a sequence of whole messages, each a header with
    the right magic, length and checksum field, linked to its payload.  A
    host that reads their bytes gets exactly these messages back; and since
    the chains that the links make are the messages, it gets them whole even
    if the kernel runs the chains in another order, one after the other. *)
Theorem wire_well_framed n s :
  writes_progress → start_ok base info w → 1 + Z.of_nat n < u32_max →
  reachable n e0 eo ei info w s →
  ∃ ms, Forall device_message ms ∧
    s_written s ++ sq_writes (dm (s_loop s)) = buffers_of ms ∧
    host_read (length ms) (wire (s_written s ++ sq_writes (dm (s_loop s)))) = Some ms ∧
    ∀ cs, cs ≡ₚ chains (s_written s ++ sq_writes (dm (s_loop s))) →
      ∃ ms', ms' ≡ₚ ms ∧ host_read (length ms') (wire (mjoin cs)) = Some ms'.
Proof.
  intros Hp Hst Hn Hreach. pose proof (reachable_inv n s Hp Hst Hn Hreach) as Hinv.
  destruct (whole_messages_app (s_written s) (sq_writes (dm (s_loop s)))) as (ms & Hms & Hw).
  - apply Hinv.
  - apply (si_dinv _ _ _ Hinv).
  - exists ms. rewrite Hw. split_and!; [done..|by apply host_read_messages|].
    intros cs. by apply chains_read.
Qed.

(** C15: every operation is what its token says, at every point of its way
    through the ring: in every reachable state the user data of each queued
    entry, of each operation in flight and of each completion decodes to a
    token, and an entry is the operation of its token's type: a poll of the
    control endpoint, a read of [bulk_out] into the whole receive buffer, a
    write to [bulk_in] of an occupied slot with its whole length, or a read
    of a service into memory.  A completed read of the host is never longer
    than that buffer. *)
Theorem operations_typed n s :
  writes_progress → start_ok base info w → 1 + Z.of_nat n < u32_max →
  reachable n e0 eo ei info w s →
  Forall (sqe_ok (conn (dm (s_loop s)))) (sq_entries (sq (dm (s_loop s))) ++ s_inflight s) ∧
  Forall cqe_ok (s_cq s ++ s_batch s).
Proof.
  intros Hp Hst Hn Hreach. pose proof (reachable_inv n s Hp Hst Hn Hreach) as Hinv.
  pose proof (si_dinv _ _ _ Hinv) as Hd. split; [|apply Hinv].
  apply Forall_app. split; apply Hd.
Qed.

(** C21: the daemon leaks nothing: in every reachable state the terminals and
    sockets that are open are exactly those of the streams in the table, and
    each such stream has a read buffer of its own, allocated and of full
    size. *)
Theorem resources_owned n s :
  writes_progress → start_ok base info w → 1 + Z.of_nat n < u32_max →
  reachable n e0 eo ei info w s →
  let d := dm (s_loop s) in
  live_fds (w_log (os d)) ≡ₚ stream_fds (streams (d_streams d)) ++ base ∧
  (∀ i st rb, streams (d_streams d) !! i = Some st → service_buf (service st) = Some rb →
    buf_live (os d) rb) ∧
  (∀ i j si sj ri rj, i ≠ j →
    streams (d_streams d) !! i = Some si → service_buf (service si) = Some ri →
    streams (d_streams d) !! j = Some sj → service_buf (service sj) = Some rj →
    rb_ptr ri ≠ rb_ptr rj).
Proof.
  intros Hp Hst Hn Hreach d. pose proof (reachable_inv n s Hp Hst Hn Hreach) as Hinv.
  destruct (di_own _ _ _ _ _ (si_dinv _ _ _ Hinv)) as [Hf Hb Hdis _]. split_and!; eauto.
Qed.
End safety.

Section faults.
Context {E : Os} {W : Winnow} {R : SubmissionQueue}.

(** C34: closing a shell frees memory that the kernel still writes to.  When
    the host closes a shell stream whose terminal read is in flight, which it
    is from OPEN until the shell prints something, handling the CLSE drops
    the service with its read buffer and does not cancel the read; from the
    state it leaves, the completion of that read writes to freed memory. *)
Theorem clse_frees_buffer_in_flight base n out ns h d st sh e fd len :
  dinv base n out ns d → (length ns ≤ 20)%nat →
  streams (d_streams d) !! arg1 h = Some st → service st = Service.Shell sh →
  remote_id st = arg0 h →
  e ∈ o_flight out → sqe_op e = OpRead fd (HeapPtr (rb_ptr (sh_read_buf sh))) len →
  wpp (no_room 1 d) (handle_command_clse h) (λ _ d',
    ∀ s, dm (s_loop s) = d' → s_inflight s = o_flight out → step s Corrupted) d.
Proof.
  intros Hd Hns Hi Hs Hr He Hop. eapply wp_clse; [by intros p|done..| |].
  - intros s' Hi' Hne. congruence.
  - intros d' _ _ Hpost s <- Hfl. unfold clse_post in Hpost. rewrite Hi, Hs in Hpost.
    destruct Hpost as (d1 & _ & _ & _ & _ & Hfree & _).
    apply list_elem_of_split in He as (pre & post & He).
    eapply (step_corrupt _ pre e post); [congruence|]. unfold writes_freed_memory. rewrite Hop.
    apply (Hfree st); [done|]. by rewrite Hs.
Qed.

(** C32: a payload that fails its checksum has no effect: as long as the
    version requires checksums, which it does until a newer one is
    negotiated, a payload whose bytes do not sum to the header's check field
    is dropped; no command is handled, no message is sent, and the daemon
    reads the next header. *)
Theorem corrupted_payload_dropped base n out ns h l res :
  dinv base n out ns (dm l) → (length ns ≤ 20)%nat →
  length (bulk_out_buf l) = BULK_OUT_BUF_SIZE → 0 ≤ res ≤ 2 ^ 20 →
  pending_header l = Some h → d_version (dm l) = V0 →
  checksum (take (Z.to_nat res) (bulk_out_buf l)) ≠ data_check h →
  ∃ q, bulk_out_read_payload res l =
      Done (tt, mkLoop (set_sq q (dm l)) None (bulk_out_buf l)) ∧
    sq_entries q = sq_entries (sq (dm l)) ++
      [mkSqe (OpRead (bulk_out (conn (dm l))) BulkOutPtr (2 ^ 20))
         (UserData_u64 (bulk_token None)) false].
Proof.
  intros Hd Hns Hbuf Hres Hpend Hv Hck. pose proof bulk_buf_size.
  edestruct (room base n out ns (dm l)) as (q & Hq & Hes); [exact Hd|done|]. exists q.
  split; [|exact Hes].
  assert (wp (bulk_out_read_payload res)
    (λ _ l', l' = mkLoop (set_sq q (dm l)) None (bulk_out_buf l)) l) as Hwp.
  { unfold bulk_out_read_payload. apply wp_bind, wp_get, wp_bind, wp_modify, wp_bind.
    rewrite Hpend. apply wp_bind, slice_length; [lia|]. intros data _ ->.
    rewrite Hv. change (requires_checksum V0) with true.
    rewrite bool_decide_false by done. cbn [andb negb]. apply wp_ret.
    apply wp_bind, wp_get, wp_zoom, wp_bind, wp_get, wp_bind, wp_expect.
    change (bulk_out_buf (set_pending None l)) with (bulk_out_buf l).
    rewrite Hbuf. rewrite bulk_buf_size. rewrite u32_try_from_u32 by (unfold u32; lia).
    apply wp_bind, wp_get, wp_bind, wp_expect.
    change (dm (set_pending None l)) with (dm l). unfold bulk_token in Hq. rewrite Hq. by apply wp_modify. }
  apply wp_total in Hwp as ([] & l' & Hrun & ->). exact Hrun.
Qed.
End faults.
