(* ===== verification/Flow.v ===== *)
(** Flow control: which reads of services are outstanding, what a command adds
    to them, and that against a host that acknowledges only what it was sent
    every open stream has exactly the read it should have. *)
From Stdlib Require Import ZArith Lia Strings.Byte.
From stdpp Require Import base numbers list gmap strings.
From S2P Require Import Prelude.
From S2P Require Import Bytes.
From S2P Require Import Winnow.
From S2P Require Import DeviceInfo.
From S2P Require Import Message.
From S2P Require Import Buffers.
From S2P Require Import Os.
From S2P Require Import Sync.
From S2P Require Import SyncFacts.
From S2P Require Import SyncSafe.
From S2P Require Import Shell.
From S2P Require Import Forward.
From S2P Require Import Stream.
From S2P Require Import UserData.
From S2P Require Import Ring.
From S2P Require Import Ffs.
From S2P Require Import Connection.
From S2P Require Import Wire.
From S2P Require Import ConnectionFacts.
From S2P Require Import Commands.
From S2P Require Import System.
From S2P Require Import Safety.

Open Scope Z_scope.

#[local] Opaque UserData_u64 BULK_OUT_BUF_SIZE.

(** The read of a service of stream [i]. *)
Definition reads_stream (i : Z) (t : UserData) : Prop := is_service_read t ∧ ud_data t = Some i.
#[global] Instance reads_stream_dec i t : Decision (reads_stream i t).
Proof. unfold reads_stream, is_service_read. destruct (op_type t), (ud_data t); apply _. Defined.

Definition reads_of (i : Z) (ts : list UserData) : list UserData := filter (reads_stream i) ts.

(** The token of the read that keeps a stream going. *)
Definition service_token (i : Z) (s : Stream) : option UserData :=
  match service s with
  | Service.Shell _ => Some (mkUserData UserDataOpType.PtyRead (Some i))
  | Service.Forward _ => Some (mkUserData UserDataOpType.SocketRead (Some i))
  | _ => None
  end.

(** The reads that a stream should have outstanding: one, unless the stream
    waits for the host or has nothing to read. *)
Definition owed (i : Z) (s : Stream) : list UserData :=
  if waiting_for_okay s then [] else option_list (service_token i s).

Lemma reads_of_app i ts ts' : reads_of i (ts ++ ts') = reads_of i ts ++ reads_of i ts'.
Proof. apply filter_app. Qed.

Lemma reads_of_none i ts : Forall (λ t, ¬ is_service_read t) ts → reads_of i ts = [].
Proof. induction 1 as [|t ts Ht _ IH]; [done|]. unfold reads_of. rewrite filter_cons_False; [done|]. by intros []. Qed.

Lemma reads_of_token j i s t :
  service_token i s = Some t → reads_of j [t] = if decide (i = j) then [t] else [].
Proof.
  unfold service_token, reads_of. intros Ht.
  assert (is_service_read t ∧ ud_data t = Some i) as [Hr Hd]
    by (destruct (service s); try done; by injection Ht as <-).
  case_decide as Hij.
  - subst j. by rewrite filter_cons_True.
  - rewrite filter_cons_False; [done|]. intros [_ Hd']. congruence.
Qed.

Section flow.
Context {E : Os} {W : Winnow} {R : SubmissionQueue}.
Implicit Types d : Daemon.

Definition queued_reads (i : Z) d : list UserData := reads_of i (sq_tokens d).

Definition owed_at (i : Z) d : option (list UserData) := owed i <$> streams (d_streams d) !! i.

(** What a command does: identifiers are not reused; a stream that it leaves
    open has the reads it had, if it is owed what it was owed, or also what it
    is owed now, if it was owed none; no read is queued for a stream to come,
    or for one that it leaves closed. *)
Record flow d d' : Prop := {
  fl_next : next_id (d_streams d) ≤ next_id (d_streams d');
  fl_open : ∀ i o', owed_at i d' = Some o' →
    match owed_at i d with
    | None => next_id (d_streams d) ≤ i ∧ queued_reads i d' = queued_reads i d ++ o'
    | Some o =>
        o' = o ∧ queued_reads i d' = queued_reads i d ∨
        o = [] ∧ queued_reads i d' = queued_reads i d ++ o'
    end;
  fl_fresh : ∀ i, next_id (d_streams d') ≤ i → queued_reads i d' = queued_reads i d;
  fl_closed : ∀ i, owed_at i d' = None → queued_reads i d' = queued_reads i d;
}.

(** Two states with the same reads, queued and owed. *)
Record same_reads d d' : Prop := {
  sr_queued : ∀ i, queued_reads i d' = queued_reads i d;
  sr_next : next_id (d_streams d') = next_id (d_streams d);
  sr_owed : ∀ i, owed_at i d' = owed_at i d;
}.

Lemma same_flow d d' : same_reads d d' → flow d d'.
Proof.
  intros [Hq Hn Ho]. split; [lia| |done|done].
  intros i o'. rewrite Ho. intros ->. left. by rewrite Hq.
Qed.

Lemma flow_from d d1 d' : same_reads d d1 → flow d1 d' → flow d d'.
Proof.
  intros [Hq Hn Ho] [Hn' Ho' Hf Hc]. split; [lia| | |].
  - intros i o' Hi%Ho'. by rewrite Ho, Hq, Hn in Hi.
  - intros i Hi. by rewrite Hf, Hq.
  - intros i Hi. by rewrite Hc, Hq.
Qed.

Lemma same_reads_trans d d1 d2 : same_reads d d1 → same_reads d1 d2 → same_reads d d2.
Proof. intros [Hq Hn Ho] [Hq' Hn' Ho']. split; [|lia|]; intros i; by rewrite ?Hq', ?Ho'. Qed.

Lemma same_streams d d' :
  (∀ i, queued_reads i d' = queued_reads i d) → d_streams d' = d_streams d → same_reads d d'.
Proof. intros Hq Hs. split; [done|by rewrite Hs|]. intros i. unfold owed_at. by rewrite Hs. Qed.

(** A stream is replaced by one that is owed the same. *)
Lemma same_with_stream i s s' d :
  streams (d_streams d) !! i = Some s → owed i s' = owed i s →
  same_reads d (with_stream i s' d).
Proof.
  intros Hi Ho. split; [done|done|]. intros j. unfold owed_at. cbn [with_stream d_streams].
  cbn. destruct (decide (i = j)) as [<-|Hne].
  - rewrite lookup_insert_eq, Hi. simpl. by rewrite Ho.
  - by rewrite lookup_insert_ne.
Qed.

Lemma flow_removed i d d' :
  (∀ j, queued_reads j d' = queued_reads j d) → d_streams d' = removed i (d_streams d) → flow d d'.
Proof.
  intros Hq Hs. split; [by rewrite Hs|intros j o'|done|done]. unfold owed_at. rewrite Hs. cbn.
  destruct (decide (i = j)) as [<-|Hne]; [by rewrite lookup_delete_eq|].
  rewrite lookup_delete_ne by done. intros ->. left. by rewrite Hq.
Qed.

(** Messages are no reads. *)
Lemma queued_reads_same i d data link d' : queued d data link d' → queued_reads i d' = queued_reads i d.
Proof.
  intros [(k & Hk & _ & _ & Hsq) _ _]. unfold queued_reads, sq_tokens.
  rewrite Hsq, tokens_app, reads_of_app. rewrite (reads_of_none _ (tokens [_])); [apply app_nil_r|].
  set (t := mkUserData UserDataOpType.BulkInWrite (Some k)).
  assert (user_data_wf t) as Hwf by (unfold user_data_wf; cbn; lia).
  rewrite (tokens_one _ t) by done. constructor; [by intros []|constructor].
Qed.

Lemma sent_reads i d l d' : sent d l d' → queued_reads i d' = queued_reads i d.
Proof. induction 1 as [|d d1 data link l d' Hq _ IH]; [done|]. rewrite IH. by eapply queued_reads_same. Qed.

(** A read of a service. *)
Lemma service_read_reads i s e q d j :
  1 ≤ i < 2 ^ 32 → service_read_sqe i s = Some e → sq_entries q = sq_entries (sq d) ++ [e] →
  ∃ t, service_token i s = Some t ∧
    queued_reads j (set_sq q d) = queued_reads j d ++ if decide (i = j) then [t] else [].
Proof.
  intros Hi He Hq.
  assert (∃ t, service_token i s = Some t ∧ sqe_user_data e = UserData_u64 t ∧ user_data_wf t)
    as (t & Ht & Hu & Hwf).
  { unfold service_read_sqe, service_token in *. destruct (service s); try done;
      injection He as <-; (eexists; split; [done|]; split; [reflexivity|]);
      unfold user_data_wf; cbn; lia. }
  exists t. split; [done|]. unfold queued_reads, sq_tokens. cbn [sq set_sq].
  rewrite Hq, tokens_app, reads_of_app. f_equal. rewrite (tokens_one e t) by done.
  by apply (reads_of_token j i s).
Qed.

Lemma sent_same d l d' : sent d l d' → same_reads d d'.
Proof.
  intros Hs. apply same_streams; [intros i; by eapply sent_reads|by apply sent_streams in Hs as []].
Qed.

Lemma closed_flow i r d d' : closed_by_device i r d d' → flow d d'.
Proof.
  intros (d1 & Hs & Hst & _ & Hq & _). apply (flow_removed i); [|done].
  intros j. rewrite <-(sent_reads j _ _ _ Hs). unfold queued_reads, sq_tokens. by rewrite Hq.
Qed.

(** One step of a stream: what it then is owed is queued. *)
Lemma continued_flow i s d d' :
  1 ≤ i < 2 ^ 32 → streams (d_streams d) !! i = Some s → waiting_for_okay s = false →
  continued i s d d' →
  next_id (d_streams d') = next_id (d_streams d) ∧
  (∀ j, j ≠ i → owed_at j d' = owed_at j d) ∧
  (∀ j, j ≠ i → queued_reads j d' = queued_reads j d) ∧
  ∃ o', owed_at i d' = Some o' ∧ o' = owed i s ∧ queued_reads i d' = queued_reads i d ++ o'.
Proof.
  intros Hid Hi Hw. unfold continued.
  destruct (service_read_sqe i s) as [e|] eqn:He.
  - intros (q & -> & Hq). split_and!; [done|done| |].
    + intros j Hj. destruct (service_read_reads i s e q d j Hid He Hq) as (t & _ & ->).
      rewrite decide_False by done. apply app_nil_r.
    + exists (owed i s). split_and!; [change (owed_at i d = Some (owed i s)); unfold owed_at; by rewrite Hi|done|].
      destruct (service_read_reads i s e q d i Hid He Hq) as (t & Ht & ->).
      rewrite decide_True by done. unfold owed. by rewrite Hw, Ht.
  - assert (service_token i s = None) as Ht.
    { unfold service_read_sqe, service_token in *. by destruct (service s). }
    assert (owed i s = []) as Hnone by (unfold owed; rewrite Ht; by destruct (waiting_for_okay s)).
    assert (∀ d'', same_reads d d'' → next_id (d_streams d'') = next_id (d_streams d) ∧
      (∀ j, j ≠ i → owed_at j d'' = owed_at j d) ∧
      (∀ j, j ≠ i → queued_reads j d'' = queued_reads j d) ∧
      ∃ o', owed_at i d'' = Some o' ∧ o' = owed i s ∧ queued_reads i d'' = queued_reads i d ++ o')
      as Hsame.
    { intros d'' [Hq Hn Ho]. split_and!; [done|done|done|]. exists []. rewrite Hnone, app_nil_r, Hq.
      split_and!; [|done|done]. rewrite Ho. unfold owed_at. rewrite Hi. simpl. by rewrite Hnone. }
    destruct (service s) as [[st]|sh| |f] eqn:Hsv; try by intros ->; apply Hsame, same_streams.
    destruct st as [|sender|rcv]; try by intros ->; apply Hsame, same_streams.
    intros (o & sender' & w' & _ & Hcont). apply Hsame.
    assert (∀ s', service_token i s' = None → same_reads d (set_streams
      (mkStreamManager (<[i := s']> (streams (d_streams d))) (next_id (d_streams d)))
      (set_os w' d))) as Hupd.
    { intros s' Hs'. apply (same_reads_trans _ (set_os w' d)); [by apply same_streams|].
      apply (same_with_stream i s s' (set_os w' d)); [done|]. rewrite Hnone. unfold owed.
      rewrite Hs'. by destruct (waiting_for_okay s'). }
    destruct o as [[hdr data]|].
    + eapply same_reads_trans; [|eapply sent_same, Hcont]. by apply Hupd.
    + subst d'. apply Hupd. done.
Qed.

(** From what a stream was owed to what it is owed. *)
Lemma step_flow i s d d1 d' :
  1 ≤ i < 2 ^ 32 → i < next_id (d_streams d) →
  streams (d_streams d1) !! i = Some s → waiting_for_okay s = false →
  (∀ j, queued_reads j d1 = queued_reads j d) → next_id (d_streams d1) = next_id (d_streams d) →
  (∀ j, j ≠ i → owed_at j d1 = owed_at j d) → owed_at i d = Some [] →
  continued i s d1 d' → flow d d'.
Proof.
  intros Hid Hlt Hi Hw Hq Hn Ho Hnone Hc.
  destruct (continued_flow i s d1 d' Hid Hi Hw Hc) as (Hn' & Ho' & Hq' & o' & Hoi & _ & Hqi).
  split; [lia| | |].
  - intros j oj Hj. destruct (decide (j = i)) as [->|Hne].
    + rewrite Hnone. right. split; [done|]. rewrite Hoi in Hj. injection Hj as <-.
      by rewrite Hqi, Hq.
    + rewrite (Ho' j Hne), (Ho j Hne) in Hj. rewrite Hj. left. split; [done|].
      by rewrite (Hq' j Hne).
  - intros j Hj. destruct (decide (j = i)) as [->|Hne]; [|by rewrite (Hq' j Hne)].
    lia.
  - intros j Hj. destruct (decide (j = i)) as [->|Hne]; [congruence|by rewrite (Hq' j Hne)].
Qed.

(** ** The commands *)

(** An OKAY is earned if its stream is open and waits for one, or has nothing
    to read. *)
Definition earned (h : AdbHeader) d : Prop :=
  command h = Okay → ∀ s, streams (d_streams d) !! arg1 h = Some s → owed (arg1 h) s = [].

Lemma opened_flow base n out ns rid name d d' :
  dinv base n out ns d' → ids_ok (d_streams d) → opened rid name d d' → flow d d'.
Proof.
  intros Hd' [_ Hids] [(d1 & Hst & _ & Hq & _ & Hs)|(k & svc & d1 & d2 & H)].
  - assert (same_reads d d1) as H1.
    { apply same_streams; [|done]. intros i. unfold queued_reads, sq_tokens. by rewrite Hq. }
    eapply flow_from; [exact H1|]. by eapply same_flow, sent_same.
  - set (i := next_id (d_streams d)) in *. set (s := mkStream rid svc false false) in *.
    destruct H as (_ & _ & _ & Hfresh & Hst & _ & _ & Hq & _ & Hs & Hend).
    destruct (sent_same _ _ _ Hs) as [Hq2 _ _]. apply sent_streams in Hs as (Hst2 & _ & _).
    assert (∀ j, queued_reads j d2 = queued_reads j d) as Hq2'.
    { intros j. rewrite Hq2. unfold queued_reads, sq_tokens. by rewrite Hq. }
    assert (d_streams d' = d_streams d2) as Hst'.
    { destruct (service_read_sqe i s); [by destruct Hend as (q & -> & _)|].
      by destruct Hend as [->|[_ ->]]. }
    assert (streams (d_streams d') !! i = Some s) as Hi
      by (rewrite Hst', Hst2, Hst; apply lookup_insert_eq).
    destruct (stream_id _ _ _ _ _ _ _ Hd' Hi) as [Hid Hlt].
    assert (∀ j, queued_reads j d' = queued_reads j d ++ if decide (i = j) then owed i s else [])
      as Hq'.
    { intros j. rewrite <-Hq2'. destruct (service_read_sqe i s) as [e|] eqn:He.
      - destruct Hend as (q & -> & Hqe).
        destruct (service_read_reads i s e q d2 j Hid He Hqe) as (t & Ht & ->).
        f_equal. unfold owed. by rewrite Ht.
      - assert (owed i s = []) as ->.
        { unfold owed, service_read_sqe, service_token in *. by destruct (service s). }
        case_decide; rewrite app_nil_r; by destruct Hend as [->|[_ ->]]. }
    split; [lia| | |].
    + intros j o'. unfold owed_at. rewrite Hst', Hst2, Hst, Hq'.
      destruct (decide (i = j)) as [<-|Hne].
      * rewrite lookup_insert_eq, Hfresh. simpl. intros [= <-]. done.
      * rewrite lookup_insert_ne, app_nil_r by done. intros ->. by left.
    + intros j Hj. rewrite Hq', decide_False by lia. apply app_nil_r.
    + intros j. unfold owed_at. rewrite Hst', Hst2, Hst, Hq'.
      destruct (decide (i = j)) as [<-|Hne]; [by rewrite lookup_insert_eq|].
      intros _. apply app_nil_r.
Qed.

Lemma okay_flow base n out ns h d d' :
  dinv base n out ns d →
  (∀ s, streams (d_streams d) !! arg1 h = Some s → owed (arg1 h) s = []) →
  okay_post (arg1 h) d d' → flow d d'.
Proof.
  intros Hd Hearned. unfold okay_post.
  destruct (streams (d_streams d) !! arg1 h) as [s|] eqn:Hi;
    [|intros ->; by apply same_flow, same_streams].
  destruct (stream_id _ _ _ _ _ _ _ Hd Hi) as [Hid Hlt]. apply step_flow; try done.
  - apply lookup_with_stream.
  - intros j Hj. unfold owed_at. cbn. by rewrite lookup_insert_ne.
  - unfold owed_at. rewrite Hi. simpl. by rewrite Hearned.
Qed.

Lemma clse_flow i d d' : clse_post i d d' → flow d d'.
Proof.
  unfold clse_post. destruct (streams (d_streams d) !! i) as [s|] eqn:Hi;
    [|intros ->; by apply same_flow, same_streams].
  destruct (service s) as [sv|sh| |f] eqn:Hs; try by intros Hc; eapply closed_flow.
  intros ->. apply same_flow. set (w' := w_set_log _ _).
  apply (same_reads_trans _ (set_os w' d)); [by apply same_streams|].
  by apply (same_with_stream i s _ (set_os w' d)).
Qed.

Lemma wrte_flow base n out ns i r payload d d' :
  dinv base n out ns d → wrte_post i r payload d d' → flow d d'.
Proof.
  intros Hd (d1 & Hokay & Hserve). pose proof (sent_same _ _ _ Hokay) as H1.
  destruct (sent_streams _ _ _ Hokay) as (Hst1 & _ & _). eapply flow_from; [exact H1|].
  destruct (streams (d_streams d) !! i) as [s|] eqn:Hi; [|subst d'; by apply same_flow, same_streams].
  destruct (stream_id _ _ _ _ _ _ _ Hd Hi) as [Hid Hlt]. rewrite <-Hst1 in Hi, Hlt.
  assert (∀ w', same_reads d1 (set_os w' d1)) as Hos by (intros w'; by apply same_streams).
  unfold wrte_service in Hserve. destruct (service s) as [svc|sh| |f] eqn:Hs; [| |done|].
  - destruct Hserve as (res & svc' & w' & _ & Hserve).
    set (s' := stream_set_service s (Service.Sync svc')) in *.
    set (d2 := with_stream i s' (set_os w' d1)) in *.
    assert (owed i s = [] ∧ owed i s' = []) as [Ho Ho'].
    { unfold owed, service_token. rewrite Hs. cbn. by destruct (waiting_for_okay s). }
    assert (same_reads d1 d2) as H2.
    { apply (same_reads_trans _ (set_os w' d1)); [done|].
      apply (same_with_stream i s s' (set_os w' d1)); [done|by rewrite Ho']. }
    destruct res as [st|hdr data| |].
    + eapply flow_from; [exact H2|]. by eapply same_flow, sent_same.
    + eapply flow_from; [exact H2|]. by eapply same_flow, sent_same.
    + destruct (waiting_for_okay s) eqn:Hw; [subst d'; by apply same_flow|].
      eapply flow_from; [exact H2|]. apply (step_flow i s' d2 d2 d'); try done.
      * cbn. apply lookup_insert_eq.
      * unfold owed_at. cbn. rewrite lookup_insert_eq. simpl. by rewrite Ho'.
    + eapply flow_from; [exact H2|]. by eapply closed_flow.
  - destruct Hserve as ([[]|e] & w' & _ & Hserve); [subst d'; by apply same_flow|].
    eapply flow_from; [apply Hos|]. by eapply closed_flow.
  - destruct Hserve as ([[]|e] & w' & _ & Hserve); [subst d'; by apply same_flow|].
    eapply flow_from; [apply Hos|]. by eapply closed_flow.
Qed.

Lemma flow_to d d1 d' : flow d d1 → same_reads d1 d' → flow d d'.
Proof.
  intros [Hn Ho Hf Hc] [Hq' Hn' Ho']. split; [lia| | |].
  - intros i o'. rewrite Ho', Hq'. apply Ho.
  - intros i Hi. rewrite Hq'. apply Hf. lia.
  - intros i. rewrite Ho', Hq'. apply Hc.
Qed.

Lemma command_flow base n out ns n' out' ns' h payload d d' :
  dinv base n out ns d → dinv base n' out' ns' d' → (payload = None → earned h d) →
  command_post h payload d d' → flow d d'.
Proof.
  intros Hd Hd' Hearned. unfold command_post.
  destruct (command h) eqn:Hc, payload as [p|]; try done; try (intros ->; by apply same_flow, same_streams).
  - intros Hs. eapply flow_from; [|by eapply same_flow, sent_same]. by apply same_streams.
  - destruct (service_name p) as [name|].
    + eapply opened_flow; [exact Hd'|]. by apply (di_ids _ _ _ _ _ Hd).
    + intros Hs. by eapply same_flow, sent_same.
  - eapply okay_flow; [exact Hd|]. by apply Hearned.
  - apply clse_flow.
  - apply clse_flow.
  - by eapply wrte_flow.
Qed.

Lemma relistened_same d d' : relistened d d' → same_reads d d'.
Proof.
  intros (Hst & _ & e & t & He & Ht & Hq & _). apply same_streams; [|done]. intros i.
  unfold queued_reads, sq_tokens. rewrite Hq, tokens_app, reads_of_app.
  assert (tokens [e] = [t]) as -> by (unfold tokens; cbn [omap list_omap]; by rewrite He).
  rewrite (reads_of_none i [t]); [apply app_nil_r|].
  constructor; [|constructor]. intros Hr%service_read_not. tauto.
Qed.

Lemma message_flow base n out out' ns res l d' :
  dinv base n out ns (dm l) → (∀ h, heard_in res l = [(h, None)] → earned h (dm l)) →
  message_post base n out' res l (dm l) d' → flow (dm l) d'.
Proof.
  intros Hd Hearned. unfold message_post. destruct (heard_in res l) as [|hp cs] eqn:Hrec.
  - intros [Hl _]. by apply same_flow, relistened_same.
  - intros (h & p & [= -> ->] & _ & d1 & ns1 & Hd1 & _ & Hc & Hl & _).
    eapply flow_to; [|by apply relistened_same]. eapply command_flow; [exact Hd|exact Hd1| |exact Hc].
    intros ->. by apply Hearned.
Qed.

(** ** The invariant *)

(** Every open stream has the reads it is owed, and no stream to come has any. *)
Record flow_inv (s : Sys) : Prop := {
  fi_open : ∀ i o, owed_at i (dm (s_loop s)) = Some o → reads_of i (pending_tokens s) ≡ₚ o;
  fi_fresh : ∀ i, next_id (d_streams (dm (s_loop s))) ≤ i → reads_of i (pending_tokens s) = [];
}.

Lemma flow_inv_permutation s s' :
  flow_inv s → d_streams (dm (s_loop s')) = d_streams (dm (s_loop s)) →
  pending_tokens s' ≡ₚ pending_tokens s → flow_inv s'.
Proof.
  intros [Ho Hf] Hst Hp.
  assert (∀ i, reads_of i (pending_tokens s') ≡ₚ reads_of i (pending_tokens s)) as Hr.
  { intros i. by apply filter_Permutation. }
  split.
  - intros i o. unfold owed_at. rewrite Hst, Hr. apply Ho.
  - rewrite Hst. intros i Hi. apply Permutation_nil. rewrite Hr, Hf; [done|lia].
Qed.

Lemma reads_of_pending i s :
  reads_of i (pending_tokens s) = queued_reads i (dm (s_loop s)) ++ reads_of i (out_tokens (outside s)).
Proof. apply reads_of_app. Qed.

(** A completion that is not of a service's read. *)
Lemma flow_handled s s' t :
  flow_inv s → out_tokens (outside s) ≡ₚ t :: out_tokens (outside s') → ¬ is_service_read t →
  flow (dm (s_loop s)) (dm (s_loop s')) → flow_inv s'.
Proof.
  intros [Ho Hf] Hout Ht [Hn Hopen Hfresh _].
  assert (∀ i, reads_of i (out_tokens (outside s')) ≡ₚ reads_of i (out_tokens (outside s))) as Hr.
  { intros i. symmetry. etrans; [by apply filter_Permutation|].
    rewrite filter_cons_False; [done|]. by intros []. }
  assert (∀ i, next_id (d_streams (dm (s_loop s))) ≤ i →
    queued_reads i (dm (s_loop s)) = [] ∧ reads_of i (out_tokens (outside s')) = []) as Hnone.
  { intros i Hi%Hf. rewrite reads_of_pending in Hi. apply app_eq_nil in Hi as [Hq Hi]. split; [done|].
    apply Permutation_nil. by rewrite Hr, Hi. }
  split.
  - intros i o' Hi. rewrite reads_of_pending, Hr. specialize (Hopen i o' Hi).
    destruct (owed_at i (dm (s_loop s))) as [o|] eqn:Hio.
    + apply Ho in Hio. rewrite reads_of_pending in Hio.
      destruct Hopen as [[-> ->]|[-> ->]]; [done|]. rewrite <-(assoc_L (++)), (comm (++) o'), (assoc_L (++)).
      by rewrite Hio.
    + destruct Hopen as [Hi' ->]. destruct (Hnone i Hi') as [-> Hi2]. by rewrite <-Hr, Hi2, app_nil_r.
  - intros i Hi. rewrite reads_of_pending, Hfresh by done.
    assert (next_id (d_streams (dm (s_loop s))) ≤ i) as Hi' by lia.
    by destruct (Hnone i Hi') as [-> ->].
Qed.

(** The stream [i] is no longer owed a read, and nothing else changes. *)
Record settled (i : Z) d d' : Prop := {
  se_queued : ∀ j, queued_reads j d' = queued_reads j d;
  se_next : next_id (d_streams d') = next_id (d_streams d);
  se_others : ∀ j, j ≠ i → owed_at j d' = owed_at j d;
  se_stream : ∀ o, owed_at i d' = Some o → o = [] ∧ is_Some (streams (d_streams d) !! i);
}.

Lemma settled_from i d d1 d' : settled i d d1 → same_reads d1 d' → settled i d d'.
Proof.
  intros [Hq Hn Ho Hi] [Hq' Hn' Ho']. split; [|lia| |].
  - intros j. by rewrite Hq'.
  - intros j Hj. by rewrite Ho', Ho.
  - intros o. rewrite Ho'. apply Hi.
Qed.

Lemma settled_closed i r d d' : closed_by_device i r d d' → settled i d d'.
Proof.
  intros (d1 & Hs & Hst & _ & Hq & _). split.
  - intros j. rewrite <-(sent_reads j _ _ _ Hs). unfold queued_reads, sq_tokens. by rewrite Hq.
  - by rewrite Hst.
  - intros j Hj. unfold owed_at. rewrite Hst. cbn. by rewrite lookup_delete_ne.
  - intros o. unfold owed_at. rewrite Hst. cbn. by rewrite lookup_delete_eq.
Qed.

Lemma settled_waiting i s d :
  streams (d_streams d) !! i = Some s → settled i d (with_stream i (stream_set_waiting s true) d).
Proof.
  intros Hi. split; [done|done| |].
  - intros j Hj. unfold owed_at. cbn. by rewrite lookup_insert_ne.
  - intros o. unfold owed_at. cbn. rewrite lookup_insert_eq. intros [= <-]. by split; [|exists s].
Qed.

(** The completion of the read of stream [i]. *)
Section output.
Context (s s' : Sys) (i : Z) (t : UserData).
Context (Hinv : flow_inv s) (Ht : reads_stream i t).
Context (Hout : out_tokens (outside s) ≡ₚ t :: out_tokens (outside s')).

Lemma output_reads j :
  reads_of j (pending_tokens s) ≡ₚ (if decide (i = j) then [t] else []) ++
    queued_reads j (dm (s_loop s)) ++ reads_of j (out_tokens (outside s')).
Proof.
  rewrite reads_of_pending.
  assert (reads_of j (out_tokens (outside s)) ≡ₚ
    (if decide (i = j) then [t] else []) ++ reads_of j (out_tokens (outside s'))) as ->.
  { etrans; [by apply filter_Permutation|]. unfold reads_of. destruct Ht as [Hr Hd]. case_decide.
    - subst j. by rewrite filter_cons_True.
    - rewrite filter_cons_False; [done|]. intros [_ Hd']. congruence. }
  rewrite !(assoc_L (++)). by rewrite (comm (++) (queued_reads _ _)).
Qed.

(** The read was the only one, and the stream was not waiting. *)
Lemma output_only st :
  streams (d_streams (dm (s_loop s))) !! i = Some st →
  service_token i st = Some t ∧ queued_reads i (dm (s_loop s)) = [] ∧
  reads_of i (out_tokens (outside s')) = [].
Proof.
  intros Hi. pose proof (fi_open _ Hinv i (owed i st)) as Ho. rewrite output_reads, decide_True in Ho by done.
  unfold owed_at in Ho. rewrite Hi in Ho. specialize (Ho eq_refl). unfold owed in Ho.
  destruct (waiting_for_okay st); [by apply Permutation_nil_r in Ho|].
  destruct (service_token i st) as [t'|]; cbn in Ho; [|by apply Permutation_nil_r in Ho].
  symmetry in Ho. apply Permutation_singleton_l in Ho. injection Ho as <- Ho. split; [done|].
  by apply app_eq_nil.
Qed.

Lemma output_old : i < next_id (d_streams (dm (s_loop s))).
Proof.
  apply Z.lt_nge. intros Hi%(fi_fresh _ Hinv). pose proof (output_reads i) as Hr.
  rewrite Hi, decide_True in Hr by done. by apply Permutation_nil_l in Hr.
Qed.

Lemma settled_flow : settled i (dm (s_loop s)) (dm (s_loop s')) → flow_inv s'.
Proof.
  intros [Hq Hn Ho Hi]. split.
  - intros j o Hj. rewrite reads_of_pending, Hq. destruct (decide (j = i)) as [->|Hne].
    + destruct (Hi o Hj) as [-> [st Hst]]. by destruct (output_only st Hst) as (_ & -> & ->).
    + rewrite (Ho j Hne) in Hj. apply (fi_open _ Hinv) in Hj.
      by rewrite output_reads, decide_False in Hj.
  - intros j Hj. rewrite Hn in Hj. pose proof output_old.
    pose proof (fi_fresh _ Hinv j Hj) as Hnil. pose proof (output_reads j) as Hr.
    rewrite Hnil, decide_False in Hr by lia. rewrite reads_of_pending, Hq.
    by apply Permutation_nil.
Qed.

Lemma output_flow rb res :
  (∀ st, service_token i st = Some t → is_Some (rb (service st))) →
  output_post rb i res (dm (s_loop s)) (dm (s_loop s')) → flow_inv s'.
Proof.
  intros Hrb Hpost. apply settled_flow. unfold output_post in Hpost.
  destruct (streams (d_streams (dm (s_loop s))) !! i) as [st|] eqn:Hi.
  - case_decide; [by eapply settled_closed|]. destruct (output_only st Hi) as [Htok _].
    destruct (Hrb st Htok) as [b Hb]. rewrite Hb in Hpost. destruct Hpost as (buf & _ & Hs).
    eapply settled_from; [by apply settled_waiting|]. by eapply sent_same.
  - destruct Hpost as (Hst & _ & Hq). split.
    + intros j. unfold queued_reads, sq_tokens. by rewrite Hq.
    + by rewrite Hst.
    + intros j _. unfold owed_at. by rewrite Hst.
    + intros o. unfold owed_at. by rewrite Hst, Hi.
Qed.
End output.

(** A host that acknowledges only what it was sent: an OKAY that is being
    handled, if it names an open stream with a shell or a socket, finds it
    waiting. *)
Definition okays_earned (s : Sys) : Prop := ∀ c rest t h,
  s_batch s = c :: rest → cqe_token c = Some t → is_bulk t →
  heard_in (cqe_result c) (s_loop s) = [(h, None)] → earned h (dm (s_loop s)).

Lemma handled_flow base n s c rest t l :
  sys_inv base n s → flow_inv s → okays_earned s → s_batch s = c :: rest → cqe_token c = Some t →
  handled_as base n (outside (handled s c rest l)) t (cqe_result c) (s_loop s) l →
  flow_inv (handled s c rest l).
Proof.
  intros Hinv Hflow Hok Hb Ht Hh. pose proof (out_tokens_handled s c rest l t Hb Ht) as Hout.
  destruct Hh as [Hp Hl|Hp Hm|Hp Hst Hq _|i -> Ho|i -> Ho].
  - eapply flow_handled; [done..| |by apply same_flow, relistened_same].
    intros Hr%service_read_not. tauto.
  - eapply flow_handled; [done..| |].
    + intros Hr%service_read_not. tauto.
    + eapply message_flow; [apply (si_dinv _ _ _ Hinv)| |exact Hm]. intros h. by eapply Hok.
  - eapply flow_handled; [done..| |].
    + intros Hr%service_read_not. tauto.
    + apply same_flow, same_streams; [|done]. intros i. unfold queued_reads, sq_tokens. 
      cbn [handled s_loop]. by rewrite Hq.
  - eapply (output_flow s _ i _ Hflow); [|exact Hout| |exact Ho]; [by split|].
    intros st. unfold service_token. by destruct (service st).
  - eapply (output_flow s _ i _ Hflow); [|exact Hout| |exact Ho]; [by split|].
    intros st. unfold service_token. by destruct (service st).
Qed.

(** ** The runs *)

(** [n] steps of a run against such a host. *)
Definition polite_steps : nat → Sys → Sys → Prop := steps_if okays_earned.

Lemma step_flow_inv base n s s' :
  writes_progress → sys_inv base n s → n < u32_max → flow_inv s → okays_earned s →
  step s (Running s') → flow_inv s'.
Proof.
  intros Hp Hinv Hn Hflow Hok Hstep.
  destruct (step_cases base n s s' Hinv Hstep) as [[Hpend Hst]|(c & rest & l & Hb & Hh & ->)].
  - by eapply flow_inv_permutation.
  - destruct (wp_done _ _ _ _ _ _ (wp_handle_cqe base n s c rest Hp Hinv Hn Hb) Hh eq_refl)
      as (_ & t & Ht & Has). by eapply (handled_flow base n s c rest t).
Qed.

(** Nothing but an OKAY needs to be earned. *)
Lemma quiet_earned s : quiet s → okays_earned s.
Proof.
  intros Hq c rest t h Hb Ht Hbulk Hheard. specialize (Hq c rest Hb). unfold heard_by in Hq.
  rewrite Ht, decide_True, Hheard in Hq by done. done.
Qed.

Lemma other_earned s :
  (∀ c rest h, s_batch s = c :: rest → heard_in (cqe_result c) (s_loop s) = [(h, None)] →
    command h ≠ Okay) →
  okays_earned s.
Proof. intros Hh c rest t h Hb _ _ Hheard Hokay. by destruct (Hh c rest h Hb Hheard). Qed.

Lemma polite_flow_inv base n k s s' :
  writes_progress → sys_inv base n s → flow_inv s → polite_steps k s s' →
  n + Z.of_nat k ≤ u32_max → flow_inv s'.
Proof. intros Hp Hinv. eapply steps_if_inv; [done| |done]. intros m s1 s2. by apply step_flow_inv. Qed.

(** [n] steps after the loop was entered. *)
Definition reachable_politely (n : nat) (e0 eo ei : Z) (info : DeviceInfo) (w : World) (s : Sys) :
    Prop := reachable_if e0 eo ei info w okays_earned n s.

Lemma politely_reachable n e0 eo ei info w s :
  reachable_politely n e0 eo ei info w s → reachable n e0 eo ei info w s.
Proof. apply reachable_if_reachable. Qed.

Lemma start_flow l :
  d_streams (dm l) = StreamManager_new → others (sq_tokens (dm l)) = [poll_token; bulk_token None] →
  flow_inv (mkSys l [] [] [] no_history).
Proof.
  intros Hnew Hothers. split.
  - intros j o. unfold owed_at. cbn [s_loop]. rewrite Hnew. cbn. by rewrite lookup_empty.
  - intros j _. unfold reads_of, pending_tokens, out_tokens, outside, tokens. cbn.
    rewrite app_nil_r, <-filter_others, Hothers; [done|].
    intros t [Ht _]. by apply service_read_not.
Qed.

(** C19: the flow control of services keeps exactly one read per stream:
    against a host that sends an OKAY for a shell or a socket only while that
    stream waits for one, in every reachable state an open shell or forward
    stream that does not wait has exactly one read submitted and not yet
    handled, with its own token, so that its output is neither stalled nor
    read twice into its buffer; one that waits for the host's OKAY has none;
    and a stream of another kind never has any. *)
Theorem one_read_per_stream base e0 eo ei info w n s i st :
  writes_progress → start_ok base info w → 1 + Z.of_nat n < u32_max →
  reachable_politely n e0 eo ei info w s → streams (d_streams (dm (s_loop s))) !! i = Some st →
  reads_of i (pending_tokens s) =
    if waiting_for_okay st then [] else option_list (service_token i st).
Proof.
  intros Hp Hst Hn (l & Hrun & Hsteps) Hi.
  destruct (run_start_inv base e0 eo ei info w l Hst Hrun) as (Hinv & Hnew & Hothers & _).
  pose proof (polite_flow_inv base 1 n _ s Hp Hinv (start_flow l Hnew Hothers) Hsteps ltac:(lia)) as [Ho _].
  assert (owed_at i (dm (s_loop s)) = Some (owed i st)) as Hoi by (unfold owed_at; by rewrite Hi).
  specialize (Ho i _ Hoi). fold (owed i st). unfold owed in *.
  destruct (waiting_for_okay st); [by apply Permutation_nil_r|].
  destruct (service_token i st); [by apply Permutation_singleton_r|by apply Permutation_nil_r].
Qed.
End flow.
