(* ===== verification/Lockstep.v ===== *)
(** The pool of write buffers against a host that waits for its answers: it
    never runs out, and then the daemon crashes for a STAT only. *)
From Stdlib Require Import ZArith Lia Strings.Byte.
From stdpp Require Import base numbers list gmap strings.
From S2P Require Import Prelude.
From S2P Require Import Bytes.
From S2P Require Import Winnow.
From S2P Require Import DeviceInfo.
From S2P Require Import Message.
From S2P Require Import Buffers.
From S2P Require Import Os.
From S2P Require Import Sync.
From S2P Require Import SyncFacts.
From S2P Require Import SyncSafe.
From S2P Require Import Shell.
From S2P Require Import Forward.
From S2P Require Import Stream.
From S2P Require Import UserData.
From S2P Require Import Ring.
From S2P Require Import Ffs.
From S2P Require Import Connection.
From S2P Require Import Wire.
From S2P Require Import ConnectionFacts.
From S2P Require Import Commands.
From S2P Require Import System.
From S2P Require Import Safety.

Open Scope Z_scope.

#[local] Opaque UserData_u64 BULK_OUT_BUF_SIZE.

(** How many tokens are of a kind. *)
Definition count (P : UserData → Prop) `{∀ t, Decision (P t)} (ts : list UserData) : nat :=
  length (filter P ts).

Lemma count_app P `{∀ t, Decision (P t)} ts ts' : count P (ts ++ ts') = (count P ts + count P ts')%nat.
Proof. unfold count. by rewrite filter_app, length_app. Qed.

Lemma count_permutation P `{∀ t, Decision (P t)} ts ts' : ts ≡ₚ ts' → count P ts = count P ts'.
Proof. intros Hp. unfold count. by rewrite Hp. Qed.

Lemma count_cons P `{∀ t, Decision (P t)} t ts :
  count P (t :: ts) = ((if decide (P t) then 1 else 0) + count P ts)%nat.
Proof. unfold count. rewrite filter_cons. by case_decide. Qed.

Lemma count_other P Q `{∀ t, Decision (P t)} ts :
  (∀ t, Q t → ¬ P t) → Forall Q ts → count P ts = 0%nat.
Proof.
  intros HQ Hts. unfold count. rewrite (filter_none P); [done|]. by eapply Forall_impl; [exact Hts|].
Qed.

Section lockstep.
Context {E : Os} {W : Winnow} {R : SubmissionQueue}.
Implicit Types d : Daemon.

(** ** What a handler queues *)

(** At most [w] writes and [r] reads of services were queued. *)
Definition grown (w r : nat) d d' : Prop :=
  (count is_write (sq_tokens d') ≤ count is_write (sq_tokens d) + w)%nat ∧
  (count is_service_read (sq_tokens d') ≤ count is_service_read (sq_tokens d) + r)%nat.

Lemma grown_same d d' : sq d' = sq d → grown 0 0 d d'.
Proof. intros Hq. unfold grown, sq_tokens. rewrite Hq. lia. Qed.

Lemma grown_le w r w' r' d d' : (w ≤ w')%nat → (r ≤ r')%nat → grown w r d d' → grown w' r' d d'.
Proof. unfold grown. lia. Qed.

Lemma grown_trans w r w' r' d d1 d' :
  grown w r d d1 → grown w' r' d1 d' → grown (w + w') (r + r') d d'.
Proof. unfold grown. lia. Qed.

Lemma grown_push w r d d' e :
  sq_entries (sq d') = sq_entries (sq d) ++ [e] →
  (count is_write (tokens [e]) ≤ w)%nat → (count is_service_read (tokens [e]) ≤ r)%nat →
  grown w r d d'.
Proof. intros Hq Hw Hr. unfold grown, sq_tokens. rewrite Hq, tokens_app, !count_app. lia. Qed.

(** Messages are writes. *)
Lemma queued_grown d data link d' : queued d data link d' → grown 1 0 d d'.
Proof.
  intros [(k & Hk & _ & _ & Hsq) _ _]. set (t := mkUserData UserDataOpType.BulkInWrite (Some k)).
  assert (user_data_wf t) as Hwf by (unfold user_data_wf; cbn; lia).
  eapply grown_push; [exact Hsq|rewrite (tokens_one _ t) by done..]; rewrite count_cons; by cbn.
Qed.

Lemma sent_grown d l d' : sent d l d' → grown (length l) 0 d d'.
Proof.
  induction 1 as [d|d d1 data link l d' Hq _ IH]; [by apply grown_same|].
  by apply (grown_trans 1 0 (length l) 0 _ d1); [eapply queued_grown|].
Qed.

Lemma message_grown d h p d' : sent d (message h p) d' → grown 2 0 d d'.
Proof. intros Hs%sent_grown. pose proof (length_message h p). eapply grown_le; [..|exact Hs]; lia. Qed.

Lemma control_grown d v c i r d' : sent d (control v c i r) d' → grown 1 0 d d'.
Proof. exact (sent_grown d _ d'). Qed.

Lemma closed_grown i r d d' : closed_by_device i r d d' → grown 1 0 d d'.
Proof.
  intros (d1 & Hs%control_grown & _ & _ & Hq & _). unfold grown, sq_tokens in *.
  by rewrite Hq.
Qed.

(** A read of a service. *)
Lemma read_grown i st e d d' :
  Forall (sqe_ok (conn d')) (sq_entries (sq d')) → service_read_sqe i st = Some e →
  sq_entries (sq d') = sq_entries (sq d) ++ [e] → grown 0 1 d d'.
Proof.
  intros Hok He Hq. rewrite Hq in Hok. apply Forall_app in Hok as [_ [(t & Ht & Hwf & Hop) _]%Forall_cons].
  eapply grown_push; [exact Hq|rewrite (tokens_one e t) by done..]; rewrite count_cons; [|case_decide; cbn; lia].
  rewrite decide_False; [done|]. unfold is_write. intros Hw. unfold op_ok in Hop. rewrite Hw in Hop.
  destruct (ud_data t); [|done]. destruct Hop as (b & _ & Hop).
  unfold service_read_sqe in He. by destruct (service st); try done; injection He as <-.
Qed.

Lemma continued_grown i st d d' :
  Forall (sqe_ok (conn d')) (sq_entries (sq d')) → continued i st d d' →
  grown 2 (match service_read_sqe i st with Some _ => 1 | None => 0 end) d d'.
Proof.
  intros Hok. unfold continued. destruct (service_read_sqe i st) as [e|] eqn:He.
  - intros (q & -> & Hq). eapply grown_le; [..|by eapply (read_grown i st e)]; lia.
  - assert (∀ d'', sq d'' = sq d → grown 2 0 d d'') as Hsame.
    { intros d'' Hq. eapply grown_le; [..|by apply grown_same]; lia. }
    destruct (service st) as [[[|sender|rcv]]| | |]; try by intros ->; apply Hsame.
    intros (o & sender' & w' & _ & Hc). destruct o as [[hdr data]|]; [|subst d'; by apply Hsame].
    exact (message_grown _ _ _ _ Hc).
Qed.

(** The commands that may start a read. *)
Definition starts_read (h : AdbHeader) : nat :=
  match command h with Open | Okay => 1 | _ => 0 end.

Lemma opened_grown rid name d d' :
  Forall (sqe_ok (conn d')) (sq_entries (sq d')) → opened rid name d d' → grown 1 1 d d'.
Proof.
  intros Hok [(d1 & _ & _ & Hq & _ & Hs)|(k & svc & d1 & d2 & H)].
  - apply control_grown in Hs. unfold grown, sq_tokens in *. rewrite Hq in Hs. lia.
  - destruct H as (_ & _ & _ & _ & _ & _ & _ & Hq & _ & Hs%control_grown & Hend).
    assert (grown 1 0 d d2) as H2 by (unfold grown, sq_tokens in *; by rewrite Hq in Hs).
    apply (grown_trans 1 0 0 1 _ d2); [done|]. destruct (service_read_sqe _ _) as [e|] eqn:He.
    + destruct Hend as (q & -> & Hqe). by eapply read_grown.
    + destruct Hend as [->|[_ ->]]; (eapply grown_le; [..|by apply grown_same]; lia).
Qed.

Lemma clse_grown i r d d' : clse_post i d d' → grown 3 r d d'.
Proof.
  assert (∀ d'', sq d'' = sq d → grown 3 r d d'') as Hsame.
  { intros d'' Hq. eapply grown_le; [..|by apply grown_same]; lia. }
  unfold clse_post. destruct (streams (d_streams d) !! i) as [st|]; [|intros ->; by apply Hsame].
  destruct (service st); try (intros Hc%closed_grown; eapply grown_le; [..|exact Hc]; lia).
  intros ->. by apply Hsame.
Qed.

Lemma wrte_grown i r payload d d' :
  Forall (sqe_ok (conn d')) (sq_entries (sq d')) → wrte_post i r payload d d' → grown 3 0 d d'.
Proof.
  intros Hok (d1 & Hokay%control_grown & Hserve). apply (grown_trans 1 0 2 0 _ d1); [done|].
  assert (∀ d2, sq d2 = sq d1 → ∀ i r, closed_by_device i r d2 d' → grown 2 0 d1 d') as Hclose.
  { intros d2 Hq i' r' Hc%closed_grown. unfold grown, sq_tokens in *. rewrite Hq in Hc. lia. }
  assert (∀ d2, sq d2 = sq d1 → grown 2 0 d1 d2) as Hsame.
  { intros d2 Hq. eapply grown_le; [..|by apply grown_same]; lia. }
  destruct (streams (d_streams d) !! i) as [st|]; [|subst d'; by apply Hsame].
  unfold wrte_service in Hserve. destruct (service st) as [svc|sh| |f] eqn:Hs; [| |done|].
  - destruct Hserve as (res & svc' & w' & _ & Hres). set (d2 := with_stream i _ (set_os w' d1)) in Hres.
    assert (∀ d3, grown 2 0 d2 d3 → grown 2 0 d1 d3) as Hfrom by done.
    destruct res as [s0|hdr data| |]; [by eapply Hfrom, message_grown..| |by eapply (Hclose d2)].
    destruct (waiting_for_okay st); [subst d'; by apply Hsame|].
    apply Hfrom. by apply continued_grown in Hres.
  - destruct Hserve as (res & w' & _ & Hres). destruct res; [subst d'; by apply Hsame|].
    by eapply (Hclose (set_os w' d1)).
  - destruct Hserve as (res & w' & _ & Hres). destruct res; [subst d'; by apply Hsame|].
    by eapply (Hclose (set_os w' d1)).
Qed.

Lemma command_grown h payload d d' :
  Forall (sqe_ok (conn d')) (sq_entries (sq d')) → command_post h payload d d' →
  grown 3 (starts_read h) d d'.
Proof.
  intros Hok. unfold command_post, starts_read.
  assert (∀ r, d' = d → grown 3 r d d') as Hsame.
  { intros r ->. eapply grown_le; [..|by apply grown_same]; lia. }
  destruct (command h), payload as [p|]; try done; try by intros; apply Hsame.
  - intros Hs. eapply (grown_le 2 0); [lia..|]. exact (message_grown _ _ _ _ Hs).
  - intros Ho. destruct (service_name p) as [name|].
    + eapply (grown_le 1 1); [lia..|]. by eapply opened_grown.
    + eapply (grown_le 1 0); [lia..|]. by eapply control_grown.
  - unfold okay_post. destruct (streams (d_streams d) !! arg1 h) as [st|]; [|by intros; apply Hsame].
    intros Hc%continued_grown; [|done]. eapply grown_le; [..|exact Hc]; [lia|destruct (service_read_sqe _ _); lia].
  - apply clse_grown.
  - apply clse_grown.
  - intros Hw. by eapply wrte_grown.
Qed.

Lemma relistened_grown d d' : relistened d d' → grown 0 0 d d'.
Proof.
  intros (_ & _ & e & t & He & Ht & Hq & _).
  assert (tokens [e] = [t]) as Htok by (unfold tokens; cbn [omap list_omap]; by rewrite He).
  eapply grown_push; [exact Hq|rewrite Htok..]; rewrite count_cons, decide_False; try done.
  - unfold is_write, is_poll, is_bulk in *. intros Hw. rewrite Hw in Ht. by destruct Ht as [?|[?|?]].
  - intros Hr%service_read_not. tauto.
Qed.

(** ** The load of the pool *)

(** The writes, and the reads of services, that were submitted and whose
    completion was not handled. *)
Definition writes (s : Sys) : nat := count is_write (pending_tokens s).
Definition reads (s : Sys) : nat := count is_service_read (pending_tokens s).

(** Each write holds one buffer. *)
Lemma writes_occupied base n s :
  sys_inv base n s → length (occupied (d_buffers (dm (s_loop s)))) = writes s.
Proof.
  intros Hinv. pose proof (di_writes _ _ _ _ _ (si_dinv _ _ _ Hinv)) as Hw.
  apply Permutation_length in Hw. by rewrite length_fmap in Hw.
Qed.

(** What is counted after a completion is handled. *)
Lemma handled_count s c rest l t w r :
  s_batch s = c :: rest → cqe_token c = Some t → grown w r (dm (s_loop s)) (dm l) →
  let s' := handled s c rest l in
  ((if decide (is_write t) then 1 else 0) + writes s' ≤ writes s + w)%nat ∧
  ((if decide (is_service_read t) then 1 else 0) + reads s' ≤ reads s + r)%nat.
Proof.
  intros Hb Ht [Hw Hr]. pose proof (out_tokens_handled s c rest l t Hb Ht) as Hout. cbv zeta.
  unfold writes, reads, pending_tokens. rewrite !count_app.
  rewrite (count_permutation is_write _ _ Hout), (count_permutation is_service_read _ _ Hout), !count_cons.
  cbn [handled s_loop] in *. lia.
Qed.

Lemma output_grown rb i res d d' : output_post rb i res d d' → grown 2 0 d d'.
Proof.
  assert (∀ d'', sq d'' = sq d → grown 2 0 d d'') as Hsame.
  { intros d'' Hq. eapply grown_le; [..|by apply grown_same]; lia. }
  unfold output_post. destruct (streams (d_streams d) !! i) as [st|]; [|intros (_ & _ & Hq); by apply Hsame].
  case_decide; [intros Hc%closed_grown; eapply grown_le; [..|exact Hc]; lia|].
  destruct (rb (service st)); [|intros ->; by apply Hsame].
  intros (buf & _ & Hs). exact (message_grown _ _ _ _ Hs).
Qed.

(** The host waits: when a command of it is handled, every message of the
    device was read by it and its buffers are free, and at most two services
    are being read, with the one that the command may start. *)
Definition proper (h : AdbHeader) (payload : option (list byte)) d : Prop :=
  match command h with
  | Cnxn | Open => is_Some payload
  | Wrte => is_Some payload ∧
      ∀ st, streams (d_streams d) !! arg1 h = Some st → service st ≠ Service.Reboot
  | Okay => payload = None ∧
      ∀ st, streams (d_streams d) !! arg1 h = Some st → service st ≠ Service.Reboot
  | Clse => ∀ st, streams (d_streams d) !! arg1 h = Some st → remote_id st = arg0 h
  | Auth | Stls => True
  end.

Definition in_lockstep (s : Sys) : Prop := ∀ c rest h payload,
  s_batch s = c :: rest → heard_by c (s_loop s) = [(h, payload)] →
  writes s = 0%nat ∧ (reads s + starts_read h ≤ 2)%nat ∧ proper h payload (dm (s_loop s)).

Lemma quiet_lockstep s : quiet s → in_lockstep s.
Proof. intros Hq c rest h p Hb Hh. by rewrite (Hq c rest Hb) in Hh. Qed.

(** The misuse that is left to a proper command. *)
Lemma proper_misuse h payload d p : proper h payload d → misuse h payload d p → stat_panic p.
Proof.
  unfold proper, misuse. destruct (command h), payload as [pl|]; try done; try by intros [? ?].
  - by intros [_ Hr] [_ (st & Hi & Hs)]; destruct (Hr st).
  - by intros Hr [_ (st & Hi & Hs)]; destruct Hs; apply Hr.
  - by intros Hr [_ (st & Hi & Hs)]; destruct Hs; apply Hr.
  - intros [_ Hr] (st & Hi & Hs). specialize (Hr st Hi). by destruct (service st); try done; destruct Hs.
Qed.

(** Each write holds a buffer and each read may need two; seven are enough. *)
Definition load_ok (s : Sys) : Prop := (writes s + 2 * reads s ≤ 7)%nat.

Lemma handled_load base n s c rest t l :
  load_ok s → in_lockstep s → s_batch s = c :: rest → cqe_token c = Some t →
  handled_as base n (outside (handled s c rest l)) t (cqe_result c) (s_loop s) l →
  load_ok (handled s c rest l).
Proof.
  unfold load_ok. intros Hload Hlock Hb Ht Has.
  pose proof (λ w r, handled_count s c rest l t w r Hb Ht) as Hcount. cbv zeta in Hcount.
  destruct Has as [Hp Hl|Hp Hm|Hp _ Hq _|i -> Ho|i -> Ho].
  - apply relistened_grown, Hcount in Hl. lia.
  - specialize (Hlock c rest). unfold heard_by in Hlock. rewrite Ht, decide_True in Hlock by done.
    unfold message_post in Hm. destruct (heard_in _ _) as [|hp cs].
    + destruct Hm as [Hm%relistened_grown%Hcount _]. lia.
    + destruct Hm as (h & p & [= -> ->] & _ & d1 & ns1 & Hd1 & _ & Hc & Hl & _).
      destruct (Hlock h p Hb eq_refl) as (Hw & Hr & _).
      apply command_grown in Hc; [|apply Hd1]. apply relistened_grown in Hl.
      pose proof (Hcount _ _ (grown_trans _ _ _ _ _ _ _ Hc Hl)). lia.
  - assert (grown 0 0 (dm (s_loop s)) (dm l)) as Hg%Hcount by by apply grown_same. lia.
  - apply output_grown, Hcount in Ho. rewrite (decide_True (P := is_service_read _)) in Ho by done. lia.
  - apply output_grown, Hcount in Ho. rewrite (decide_True (P := is_service_read _)) in Ho by done. lia.
Qed.

Lemma step_load base n s s' :
  writes_progress → sys_inv base n s → n < u32_max → load_ok s → in_lockstep s →
  step s (Running s') → load_ok s'.
Proof.
  intros Hp Hinv Hn Hload Hlock Hstep.
  destruct (step_cases base n s s' Hinv Hstep) as [[Hpend _]|(c & rest & l & Hb & Hh & ->)].
  - unfold load_ok, writes, reads in *.
    by rewrite (count_permutation is_write _ _ Hpend), (count_permutation is_service_read _ _ Hpend).
  - destruct (wp_done _ _ _ _ _ _ (wp_handle_cqe base n s c rest Hp Hinv Hn Hb) Hh eq_refl)
      as (_ & t & Ht & Has). by eapply (handled_load base n s c rest t).
Qed.

(** The writes of a queue, counted by their tokens. *)
Lemma count_writes v c es : Forall (sqe_ok c) es → count is_write (tokens es) = length (writes_of v es).
Proof.
  induction 1 as [|e es (t & Ht & Hwf & Hop) _ IH]; [done|].
  change (e :: es) with ([e] ++ es). rewrite tokens_app, count_app, writes_of_app, length_app, IH.
  rewrite (tokens_one e t) by done. f_equal. rewrite count_cons, writes_of_cons. cbn. unfold write_of.
  unfold op_ok in Hop. case_decide as Hw; unfold is_write in Hw.
  - rewrite Hw in Hop. destruct (ud_data t); [|done]. by destruct Hop as (b & _ & ->).
  - destruct (op_type t), (ud_data t); try done; try by rewrite Hop.
    all: by destruct Hop as (? & ? & ->).
Qed.

Lemma start_load base e0 eo ei info w l :
  start_ok base info w → run_start (Loop_new e0 eo ei info w) = Done (Ok tt, l) →
  load_ok (mkSys l [] [] [] no_history).
Proof.
  intros Hst Hrun. destruct (run_start_inv base e0 eo ei info w l Hst Hrun) as (Hinv & _ & Ho & Hw).
  unfold load_ok, writes, reads, pending_tokens, out_tokens, outside.
  cbn [s_loop s_inflight s_cq s_batch o_flight o_done tokens omap list_omap app].
  rewrite app_nil_r. unfold sq_tokens at 1.
  rewrite (count_writes (view (d_buffers (dm l))) (conn (dm l)))
    by apply (di_sqes _ _ _ _ _ (si_dinv _ _ _ Hinv)).
  fold (sq_writes (dm l)). rewrite Hw. unfold count.
  rewrite <-(filter_others is_service_read), Ho; [vm_compute; lia|]. intros t Ht. by apply service_read_not.
Qed.

(** C11: a host that waits for its answers cannot crash the daemon, but with a
    STAT.  In a run in which each command is handled when everything the
    daemon sent was written and its buffers are free, is well formed (it has
    a payload exactly if it should, a CLSE names the stream's peer, nothing
    is written to a reboot stream), and leaves at most two services being
    read, the pool of eight buffers is never short: at most seven are in
    use, and whatever the completion at hand, of the host or of a service's
    output, at any time, the daemon handles it, or the panic is one of the
    two of STAT. *)
Theorem lockstep_never_crashes base e0 eo ei info w n s c rest :
  writes_progress → start_ok base info w → 1 + Z.of_nat n < u32_max →
  reachable_if e0 eo ei info w in_lockstep n s → in_lockstep s → s_batch s = c :: rest →
  (length (occupied (d_buffers (dm (s_loop s)))) ≤ 7)%nat ∧
  match handle_cqe c (s_loop s) with Done _ => True | Panicked p => stat_panic p end.
Proof.
  intros Hp Hst Hn Hreach Hlock Hb.
  pose proof (reachable_inv base e0 eo ei info w n s Hp Hst Hn
    (reachable_if_reachable e0 eo ei info w in_lockstep n s Hreach)) as Hinv.
  destruct Hreach as (l & Hrun & Hsteps).
  destruct (run_start_inv base e0 eo ei info w l Hst Hrun) as (Hinv0 & _).
  assert (load_ok s) as Hload.
  { eapply (steps_if_inv in_lockstep load_ok base 1 n); [done| |exact Hinv0| |exact Hsteps|lia].
    - intros m s1 s2. by apply step_load.
    - by eapply start_load. }
  unfold load_ok in Hload. pose proof (writes_occupied _ _ _ Hinv) as Hocc. split; [lia|].
  pose proof (wp_handle_cqe base _ s c rest Hp Hinv ltac:(lia) Hb) as Hwp. unfold wpp in Hwp.
  destruct (handle_cqe c (s_loop s)) as [[]|p]; [done|].
  destruct Hwp as [(t & Ht & Hr & _ & Hno)|(h & pl & Hh & Hcause)].
  - assert (1 ≤ reads s)%nat; [|lia]. unfold reads, pending_tokens.
    rewrite count_app, (count_permutation _ _ _ (out_tokens_handled s c rest (s_loop s) t Hb Ht)).
    rewrite count_cons, decide_True by done. lia.
  - destruct (Hlock c rest h pl Hb Hh) as (Hw & _ & Hproper).
    destruct Hcause as [[_ Hno]|Hm]; [lia|]. by eapply proper_misuse.
Qed.

(** ** The buffers come back *)

(** The completion of a write. *)
Definition write_cqe (c : Cqe) : Prop := ∃ t, cqe_token c = Some t ∧ is_write t ∧ is_Some (ud_data t).

Lemma handle_write_goes_on c l o l' t :
  cqe_token c = Some t → is_write t → is_Some (ud_data t) → handle_cqe c l = Done (o, l') → o = None.
Proof.
  intros Ht Hw [k Hk] Hh. unfold cqe_token in Ht. unfold handle_cqe in Hh.
  destruct (UserData_try_from (cqe_user_data c)) as [t'|] eqn:Hu; [|done]. injection Ht as ->.
  unfold is_write in Hw. rewrite Hw, Hk in Hh.
  apply bind_inv in Hh as ([] & l1 & _ & Hret). by injection Hret as <- _.
Qed.

(** The completion of a write is handled: one write less, and nothing else. *)
Lemma write_handled base n s c rest t :
  writes_progress → sys_inv base n s → n < u32_max → s_batch s = c :: rest →
  cqe_token c = Some t → is_write t → is_Some (ud_data t) →
  ∃ s', step s (Running s') ∧ s_batch s' = rest ∧ s_inflight s' = s_inflight s ∧ s_cq s' = s_cq s ∧
    d_streams (dm (s_loop s')) = d_streams (dm (s_loop s)) ∧ sq (dm (s_loop s')) = sq (dm (s_loop s)) ∧
    reads s' = reads s.
Proof.
  intros Hp Hinv Hn Hb Ht Hw Hk. pose proof (wp_handle_cqe base n s c rest Hp Hinv Hn Hb) as Hwp.
  unfold wpp in Hwp. destruct (handle_cqe c (s_loop s)) as [[o l]|p] eqn:Hh.
  - pose proof (handle_write_goes_on _ _ _ _ _ Ht Hw Hk Hh) as ->.
    destruct (Hwp eq_refl) as (_ & t' & Ht' & Has). rewrite Ht in Ht'. injection Ht' as <-.
    exists (handled s c rest l). split; [by apply step_handle|].
    assert (¬ is_service_read t) as Hns by (by intros [Hr _]%service_read_not).
    destruct Has as [Hp'|[Hb'|Hb']|_ Hst Hq _|i ->|i ->]; try done;
      try (unfold is_poll, is_write in *; congruence).
    split_and!; try done. unfold reads, pending_tokens. rewrite !count_app.
    rewrite (count_permutation _ _ _ (out_tokens_handled s c rest l t Hb Ht)), count_cons, decide_False by done.
    unfold sq_tokens. cbn [handled s_loop]. by rewrite Hq.
  - destruct Hwp as [(t' & Ht' & Hr & _)|(h & pl & Hh' & _)].
    + rewrite Ht in Ht'. injection Ht' as <-. by apply service_read_not in Hr as [Hr _].
    + unfold heard_by in Hh'. rewrite Ht, decide_False in Hh'; [done|].
      unfold is_bulk, is_write in *. rewrite Hw. by intros [].
Qed.

(** Steps one after the other. *)
Lemma steps_trans k k' s s1 s' : steps k s s1 → steps k' s1 s' → steps (k' + k) s s'.
Proof.
  intros Hs. induction 1 as [|k' s1 s2 s' _ IH Hstep]; [done|]. eapply steps_snoc; [by apply IH|done].
Qed.

(** A batch of completed writes is handled. *)
Lemma batch_handled base n s :
  writes_progress → sys_inv base n s → n + Z.of_nat (length (s_batch s)) ≤ u32_max →
  Forall write_cqe (s_batch s) →
  ∃ s', steps (length (s_batch s)) s s' ∧ s_batch s' = [] ∧ s_inflight s' = s_inflight s ∧
    s_cq s' = s_cq s ∧ d_streams (dm (s_loop s')) = d_streams (dm (s_loop s)) ∧
    sq (dm (s_loop s')) = sq (dm (s_loop s)) ∧ reads s' = reads s.
Proof.
  intros Hp. remember (s_batch s) as b eqn:Hb. revert n s Hb.
  induction b as [|c b IH]; intros n s Hb Hinv Hn Hw.
  { exists s. split_and!; try done. apply steps_refl. }
  apply Forall_cons in Hw as [(t & Ht & Hw & Hk) Hws]. cbn [length] in Hn.
  destruct (write_handled base n s c b t) as (s1 & Hstep & Hb1 & Hfl & Hcq & Hst & Hq & Hr);
    try done; [lia|].
  pose proof (step_inv base n s s1 Hp Hinv ltac:(lia) Hstep) as Hinv1.
  destruct (IH (n + 1) s1) as (s' & Hs & Hb' & Hfl' & Hcq' & Hst' & Hq' & Hr'); [done|done|lia|done|].
  exists s'. split; [|split_and!; congruence]. cbn [length]. rewrite <-Nat.add_1_r.
  apply (steps_trans 1 _ s s1); [|done]. eapply steps_snoc; [apply steps_refl|done].
Qed.

(** A step that handles nothing leaves the reads alone. *)
Lemma step_reads base n s s' :
  sys_inv base n s → step s (Running s') → (length (s_batch s) ≤ length (s_batch s'))%nat →
  reads s' = reads s.
Proof.
  intros Hinv Hstep Hl. destruct (step_cases base n s s' Hinv Hstep) as [[Hp _]|(c & rest & l & Hb & _ & ->)].
  - by apply count_permutation.
  - rewrite Hb in Hl. cbn in Hl. lia.
Qed.

(** One write of those in flight completes. *)
Lemma write_completes base n s k :
  sys_inv base n s → count is_write (tokens (s_inflight s)) = S k →
  ∃ s' c, step s (Running s') ∧ write_cqe c ∧ s_loop s' = s_loop s ∧ s_batch s' = s_batch s ∧
    s_cq s' = s_cq s ++ [c] ∧ count is_write (tokens (s_inflight s')) = k.
Proof.
  intros Hinv Hk. unfold count in Hk.
  destruct (filter is_write (tokens (s_inflight s))) as [|t ts] eqn:Hf; [done|].
  assert (t ∈ tokens (s_inflight s) ∧ is_write t) as [Hin Hw].
  { assert (t ∈ filter is_write (tokens (s_inflight s))) as [? ?]%list_elem_of_filter by (rewrite Hf; left). done. }
  unfold tokens in Hin. apply list_elem_of_omap in Hin as (e & He & Htok).
  apply list_elem_of_split in He as (pre & post & Hfl).
  pose proof (di_flight _ _ _ _ _ (si_dinv _ _ _ Hinv)) as Hok. cbn [outside o_flight] in Hok.
  rewrite Hfl in Hok. apply Forall_app in Hok as [_ [(t' & Hu & Hwf & Hop) _]%Forall_cons].
  rewrite (sqe_token_eq e t' Hu Hwf) in Htok. injection Htok as ->.
  unfold is_write in Hw. unfold op_ok in Hop. rewrite Hw in Hop.
  destruct (ud_data t) as [slot|] eqn:Hd; [|done]. destruct Hop as (b & _ & Hop).
  exists (mkSys (s_loop s) (pre ++ post) (s_cq s ++ [mkCqe (sqe_user_data e) 0]) (s_batch s)
    (hi_deliver (read_output e 0 (s_loop s)) (write_done pre e 0 (s_loop s)) (s_hist s))), (mkCqe (sqe_user_data e) 0).
  split; [eapply step_complete; [exact Hfl|unfold kernel_effect; by rewrite Hop]|].
  split_and!; try done.
  - exists t. split_and!; [|done|by eexists]. unfold cqe_token. cbn [cqe_user_data].
    by rewrite Hu, (proj2 (user_data_roundtrip_aux t Hwf)).
  - cbn [s_inflight]. assert (count is_write (tokens (s_inflight s)) = S k) as Hc
      by (unfold count; by rewrite Hf).
    rewrite Hfl in Hc. change (e :: post) with ([e] ++ post) in Hc.
    rewrite !tokens_app, !count_app, (tokens_one e t), count_cons, decide_True in Hc by done.
    rewrite tokens_app, count_app. cbn in Hc. lia.
Qed.

(** All of them do. *)
Lemma writes_complete base k s n :
  writes_progress → sys_inv base n s → count is_write (tokens (s_inflight s)) = k →
  n + Z.of_nat k ≤ u32_max →
  ∃ s' cs, steps k s s' ∧ Forall write_cqe cs ∧ length cs = k ∧ s_loop s' = s_loop s ∧
    s_batch s' = s_batch s ∧ s_cq s' = s_cq s ++ cs ∧ count is_write (tokens (s_inflight s')) = 0%nat ∧
    reads s' = reads s.
Proof.
  intros Hp. revert s n. induction k as [|k IH]; intros s n Hinv Hk Hn.
  { exists s, []. rewrite app_nil_r. by split_and!; [apply steps_refl|..]. }
  destruct (write_completes base n s k Hinv Hk) as (s1 & c & Hstep & Hc & Hl & Hb & Hcq & Hk1).
  pose proof (step_inv base n s s1 Hp Hinv ltac:(lia) Hstep) as Hinv1.
  destruct (IH s1 (n + 1)) as (s' & cs & Hs & Hcs & Hlen & Hl' & Hb' & Hcq' & Hk' & Hr'); [done|done|lia|].
  exists s', (c :: cs). split_and!; try congruence.
  - rewrite <-Nat.add_1_r. apply (steps_trans 1 _ s s1); [|done]. eapply steps_snoc; [apply steps_refl|done].
  - by constructor.
  - cbn. congruence.
  - by rewrite Hcq', Hcq, <-(assoc_L (++)).
  - rewrite Hr'. eapply step_reads; [done|done|by rewrite Hb].
Qed.

(** With the queue at the kernel, all writes complete and are handled. *)
Lemma drained base n s :
  writes_progress → sys_inv base n s → n + Z.of_nat (2 * writes s + 1) ≤ u32_max →
  s_batch s = [] → s_cq s = [] → sq_entries (sq (dm (s_loop s))) = [] → writes s ≠ 0%nat →
  ∃ s', steps (2 * writes s + 1) s s' ∧ writes s' = 0%nat ∧ reads s' = reads s ∧
    d_streams (dm (s_loop s')) = d_streams (dm (s_loop s)) ∧ s_batch s' = [] ∧ s_cq s' = [].
Proof.
  intros Hp Hinv Hn Hb Hcq Hsq Hw.
  assert (count is_write (tokens (s_inflight s)) = writes s) as Hfl.
  { unfold writes, pending_tokens, out_tokens, outside, sq_tokens. cbn [o_flight o_done].
    rewrite Hsq, Hb, Hcq. cbn [omap list_omap tokens app]. by rewrite app_nil_r. }
  destruct (writes_complete base (writes s) s n Hp Hinv Hfl ltac:(lia))
    as (s2 & cs & Hs2 & Hcs & Hlen & Hl2 & Hb2 & Hcq2 & Hfl2 & Hr2).
  rewrite Hb in Hb2. rewrite Hcq in Hcq2. cbn [app] in Hcq2.
  pose proof (steps_inv base _ _ s s2 Hp Hinv Hs2 ltac:(lia)) as Hinv2.
  assert (step s2 (Running (mkSys (s_loop s2) (s_inflight s2) [] cs (s_hist s2)))) as Hstep3.
  { apply step_wait; [done|by rewrite Hl2|by rewrite app_nil_r|]. intros ->. cbn in Hlen. lia. }
  set (s3 := mkSys (s_loop s2) _ _ _ _) in Hstep3.
  pose proof (step_inv base _ s2 s3 Hp Hinv2 ltac:(lia) Hstep3) as Hinv3.
  destruct (batch_handled base _ s3 Hp Hinv3) as (s4 & Hs4 & Hb4 & Hfl4 & Hcq4 & Hst4 & Hq4 & Hr4);
    [cbn [s3 s_batch]; lia|done|]. cbn [s3 s_batch s_inflight s_cq s_loop] in *.
  exists s4. split_and!; [| | |by rewrite Hst4, Hl2|done|done].
  - replace (2 * writes s + 1)%nat with (length cs + (1 + writes s))%nat by lia.
    apply (steps_trans _ _ s s3); [|done]. by eapply steps_snoc.
  - unfold writes, pending_tokens, out_tokens, outside, sq_tokens. cbn [o_flight o_done].
    rewrite Hq4, Hl2, Hsq, Hb4, Hcq4, Hfl4. cbn [omap list_omap tokens app]. by rewrite app_nil_r.
  - rewrite Hr4, <-Hr2. eapply step_reads; [exact Hinv2|exact Hstep3|rewrite Hb2; cbn; lia].
Qed.

(** C12: the buffers always come back: from every reachable state in which no
    completion waits to be handled, if the submission succeeds, a run of at
    most eighteen steps leads to a state in which every buffer of the pool is
    free, no completion waits, the streams are as before and as many services
    are being read.  So a host that waits for its answers can always send its
    next message. *)
Theorem buffers_come_back base e0 eo ei info w n s m :
  writes_progress → start_ok base info w → 19 + Z.of_nat n ≤ u32_max →
  reachable n e0 eo ei info w s → s_batch s = [] → s_cq s = [] →
  os_result (w_log (os (dm (s_loop s)))) (CSubmitAndWait 1) = Ok m →
  ∃ k s', (k ≤ 18)%nat ∧ steps k s s' ∧ occupied (d_buffers (dm (s_loop s'))) = [] ∧
    d_streams (dm (s_loop s')) = d_streams (dm (s_loop s)) ∧ reads s' = reads s ∧
    s_batch s' = [] ∧ s_cq s' = [].
Proof.
  intros Hp Hst Hn Hreach Hb Hcq Hm.
  pose proof (reachable_inv base e0 eo ei info w n s Hp Hst ltac:(lia) Hreach) as Hinv.
  pose proof (writes_occupied _ _ _ Hinv) as Hocc.
  pose proof (occupied_length _ (di_buffers _ _ _ _ _ (si_dinv _ _ _ Hinv))) as Hmax.
  destruct (decide (writes s = 0%nat)) as [Hw|Hw].
  { exists 0%nat, s. split_and!; try done; [lia|apply steps_refl|]. apply nil_length_inv. lia. }
  pose proof (step_submit s m Hb Hm) as Hstep. set (s1 := mkSys (submitted (s_loop s)) _ _ _ _) in Hstep.
  pose proof (step_inv base _ s s1 Hp Hinv ltac:(lia) Hstep) as Hinv1.
  assert (writes s1 = writes s) as Hw1.
  { destruct (step_cases base _ s s1 Hinv Hstep) as [[Hpend _]|(c & rest & l & Hb' & _)]; [|congruence].
    by apply count_permutation. }
  destruct (drained base _ s1 Hp Hinv1) as (s' & Hs' & Hw' & Hr' & Hst' & Hb' & Hcq');
    [lia|done|exact Hcq|apply sq_empty_law|lia|].
  assert (steps (2 * writes s1 + 1 + 1) s s') as Hsteps.
  { apply (steps_trans 1 _ s s1); [|done]. eapply steps_snoc; [apply steps_refl|done]. }
  exists (2 * writes s1 + 1 + 1)%nat, s'. split_and!; try done; [lia| |].
  - apply nil_length_inv. rewrite (writes_occupied base _ s' (steps_inv base _ _ s s' Hp Hinv Hsteps ltac:(lia))).
    exact Hw'.
  - rewrite Hr'. eapply step_reads; [exact Hinv|exact Hstep|by rewrite Hb].
Qed.
End lockstep.
