(* ===== verification/Targets.v ===== *)
(** Where the kernel writes: every read that is queued or in flight for an
    open stream is of that stream's own descriptor into its own buffer, so
    memory can only be corrupted through a stream that was closed under its
    read. *)
From Stdlib Require Import ZArith Lia Strings.Byte.
From stdpp Require Import base numbers list gmap strings.
From S2P Require Import Prelude.
From S2P Require Import Bytes.
From S2P Require Import Winnow.
From S2P Require Import DeviceInfo.
From S2P Require Import Message.
From S2P Require Import Buffers.
From S2P Require Import Os.
From S2P Require Import Sync.
From S2P Require Import SyncFacts.
From S2P Require Import SyncSafe.
From S2P Require Import Shell.
From S2P Require Import Forward.
From S2P Require Import Stream.
From S2P Require Import UserData.
From S2P Require Import Ring.
From S2P Require Import Ffs.
From S2P Require Import Connection.
From S2P Require Import Wire.
From S2P Require Import ConnectionFacts.
From S2P Require Import Commands.
From S2P Require Import System.
From S2P Require Import Safety.

Open Scope Z_scope.

#[local] Opaque UserData_u64 BULK_OUT_BUF_SIZE.

Section targets.
Context {E : Os} {W : Winnow} {R : SubmissionQueue}.
Implicit Types d : Daemon.

(** The peer of stream [i] and the read that belongs to it, if it is open. *)
Definition target_of (i : Z) (s : Stream) : Z * option Sqe := (remote_id s, service_read_sqe i s).
Definition read_target (i : Z) d : option (Z * option Sqe) :=
  target_of i <$> streams (d_streams d) !! i.

(** A read of a stream that is open is the one that belongs to it. *)
Definition aimed d (e : Sqe) : Prop := ∀ i t,
  sqe_token e = Some t → is_service_read t → ud_data t = Some i →
  i < next_id (d_streams d) ∧ ∀ o, read_target i d = Some o → o.2 = Some e.

(** Memory that was not allocated before. *)
Definition fresh_target (w : World) (o : option Sqe) : Prop := ∀ e fd a len,
  o = Some e → sqe_op e = OpRead fd (HeapPtr a) len → (w_next w ≤ a)%nat.

(** What the handlers do: identifiers are not reused, an open stream keeps its
    peer, descriptor and buffer, what is queued is aimed; and a stream with a
    new buffer may have been opened for the peer that [opens] names, if any. *)
Record may_open (opens : option Z) d d' : Prop := {
  am_next : next_id (d_streams d) ≤ next_id (d_streams d');
  am_kept : ∀ i o, read_target i d' = Some o →
    read_target i d = Some o ∨
    opens = Some o.1 ∧ next_id (d_streams d) ≤ i ∧ fresh_target (os d) o.2;
  am_queue : ∃ new, sq_entries (sq d') = sq_entries (sq d) ++ new ∧ Forall (aimed d') new;
}.
Abbreviation aims := (may_open None).

Lemma aimed_mono opens d d' e : may_open opens d d' → aimed d e → aimed d' e.
Proof.
  intros [Hn Hk _] He i t Ht Hr Hi. destruct (He i t Ht Hr Hi) as [Hlt Ho].
  split; [lia|]. intros o [Hi'|(_ & Hge & _)]%Hk; [by apply Ho|lia].
Qed.

#[export] Instance aims_refl : Reflexive aims.
Proof. intros d. split; [done|by left|]. exists []. by rewrite app_nil_r. Qed.

Lemma aims_then opens d1 d2 d3 : may_open opens d1 d2 → aims d2 d3 → may_open opens d1 d3.
Proof.
  intros H12 H23. pose proof (λ e, aimed_mono _ d2 d3 e H23) as Hm.
  destruct H12 as [Hn Hk (new & Hq & Hnew)], H23 as [Hn' Hk' (new' & Hq' & Hnew')].
  split; [lia| |].
  - intros i o [Hi|[[=] _]]%Hk'. by apply Hk.
  - exists (new ++ new'). split; [by rewrite Hq', Hq, (assoc_L (++))|].
    apply Forall_app. split; [|done]. eapply Forall_impl; [exact Hnew|]. exact Hm.
Qed.

#[export] Instance aims_trans : Transitive aims.
Proof. intros d1 d2 d3. apply aims_then. Qed.

Lemma aims_open opens d d' : aims d d' → may_open opens d d'.
Proof. intros [Hn Hk Hq]. split; [done| |done]. intros i o [Hi|[[=] _]]%Hk. by left. Qed.

(** Streams may lose what they had, and nothing is queued. *)
Lemma aims_streams d d' :
  next_id (d_streams d') = next_id (d_streams d) → sq_entries (sq d') = sq_entries (sq d) →
  (∀ i o, read_target i d' = Some o → read_target i d = Some o) → aims d d'.
Proof.
  intros Hn Hq Ho. split; [lia|by left; apply Ho|]. exists []. by rewrite Hq, app_nil_r.
Qed.

Lemma aims_same d d' : d_streams d' = d_streams d → sq_entries (sq d') = sq_entries (sq d) → aims d d'.
Proof. intros Hs Hq. apply aims_streams; [by rewrite Hs|done|]. intros i o. unfold read_target. by rewrite Hs. Qed.

Lemma aims_push d d' e :
  d_streams d' = d_streams d → sq_entries (sq d') = sq_entries (sq d) ++ [e] → aimed d' e → aims d d'.
Proof.
  intros Hs Hq He. split; [by rewrite Hs| |].
  - intros i o. unfold read_target. rewrite Hs. by left.
  - exists [e]. split; [done|]. by constructor.
Qed.

Lemma aims_with_stream i s s' d :
  streams (d_streams d) !! i = Some s → target_of i s' = target_of i s →
  aims d (with_stream i s' d).
Proof.
  intros Hi Hs. apply aims_streams; [done|done|]. intros j o. unfold read_target. cbn.
  destruct (decide (i = j)) as [<-|Hne].
  - rewrite lookup_insert_eq, Hi. simpl. by rewrite Hs.
  - by rewrite lookup_insert_ne.
Qed.

Lemma aims_removed i d d' :
  d_streams d' = removed i (d_streams d) → sq_entries (sq d') = sq_entries (sq d) → aims d d'.
Proof.
  intros Hs Hq. apply aims_streams; [by rewrite Hs|done|]. intros j o. unfold read_target.
  rewrite Hs. cbn. destruct (decide (i = j)) as [<-|Hne].
  - by rewrite lookup_delete_eq.
  - by rewrite lookup_delete_ne.
Qed.

(** An operation that is not a service's read. *)
Lemma aimed_other d e t : sqe_token e = Some t → ¬ is_service_read t → aimed d e.
Proof. intros Ht Hr i t' Ht'. by simplify_eq. Qed.

Lemma queued_aims d data link d' : queued d data link d' → aims d d'.
Proof.
  intros [(k & Hk & _ & _ & Hq) _ (b & q & ->)]. eapply aims_push; [done|exact Hq|].
  eapply (aimed_other _ _ (mkUserData UserDataOpType.BulkInWrite (Some k))); [|by intros []].
  apply sqe_token_eq; [done|]. unfold user_data_wf. cbn. lia.
Qed.

Lemma sent_aims d l d' : sent d l d' → aims d d'.
Proof. induction 1 as [|d d1 data link l d' Hq _ IH]; [done|]. etrans; [by eapply queued_aims|done]. Qed.

(** The read of a stream that is open. *)
Lemma read_sqe_token i s e :
  1 ≤ i < 2 ^ 32 → service_read_sqe i s = Some e →
  ∃ t, sqe_token e = Some t ∧ is_service_read t ∧ ud_data t = Some i.
Proof.
  intros Hi He. unfold service_read_sqe in He. destruct (service s); try done;
    injection He as <-; (eexists; split; [apply sqe_token_eq; [reflexivity|]|by split]);
    unfold user_data_wf; cbn; lia.
Qed.

Lemma aims_read i s e q d :
  1 ≤ i < 2 ^ 32 → i < next_id (d_streams d) → streams (d_streams d) !! i = Some s →
  service_read_sqe i s = Some e → sq_entries q = sq_entries (sq d) ++ [e] → aims d (set_sq q d).
Proof.
  intros Hid Hlt Hi He Hq. eapply aims_push; [done|exact Hq|].
  destruct (read_sqe_token i s e Hid He) as (t & Ht & _ & Hdata).
  intros j t' Ht' _ Hj. assert (j = i) as -> by congruence. split; [done|].
  intros o. unfold read_target. change (d_streams (set_sq q d)) with (d_streams d). rewrite Hi.
  by intros [= <-].
Qed.

(** ** The commands *)

Lemma closed_aims i r d d' : closed_by_device i r d d' → aims d d'.
Proof.
  intros (d1 & Hs & Hst & _ & Hq & _). etrans; [by eapply sent_aims|].
  apply sent_streams in Hs as (Hs1 & _). eapply (aims_removed i); [by rewrite Hs1|by rewrite Hq].
Qed.

Lemma aims_os w d : aims d (set_os w d).
Proof. by apply aims_same. Qed.

Lemma continued_aims i s d d' :
  1 ≤ i < 2 ^ 32 → i < next_id (d_streams d) → streams (d_streams d) !! i = Some s →
  continued i s d d' → aims d d'.
Proof.
  intros Hid Hlt Hi. unfold continued. destruct (service_read_sqe i s) as [e|] eqn:He.
  - intros (q & -> & Hq). by eapply aims_read.
  - destruct (service s) as [[st]|sh| |f] eqn:Hs; try by intros ->.
    destruct st as [|sender|rcv]; try by intros ->.
    intros (o & sender' & w' & _ & Hcont).
    assert (∀ s', target_of i s' = target_of i s → aims d (set_streams
      (mkStreamManager (<[i := s']> (streams (d_streams d))) (next_id (d_streams d)))
      (set_os w' d))) as Hupd.
    { intros s' Hs'. etrans; [apply (aims_os w')|].
      apply (aims_with_stream i s s' (set_os w' d)); [done|exact Hs']. }
    destruct o as [[hdr data]|].
    + etrans; [|by eapply sent_aims]. apply Hupd. unfold target_of. by rewrite He.
    + subst d'. apply Hupd. unfold target_of. by rewrite He.
Qed.

Lemma opened_aims base n out ns rid name d d' :
  dinv base n out ns d' → opened rid name d d' → may_open (Some rid) d d'.
Proof.
  intros Hd' [(d1 & Hst & _ & Hq & _ & Hs)|(k & svc & d1 & d2 & H)].
  - apply aims_open. transitivity d1; [by apply aims_same; [|rewrite Hq]|by eapply sent_aims].
  - set (i := next_id (d_streams d)) in *. set (s := mkStream rid svc false false) in *.
    destruct H as (_ & _ & Hfresh & _ & Hst & _ & _ & Hq & _ & Hs & Hend).
    pose proof (sent_streams _ _ _ Hs) as (Hst2 & _ & _).
    assert (d_streams d' = d_streams d2) as Hst'.
    { destruct (service_read_sqe i s); [by destruct Hend as (q & -> & _)|].
      by destruct Hend as [->|[_ ->]]. }
    assert (streams (d_streams d2) !! i = Some s) as Hi by (rewrite Hst2, Hst; apply lookup_insert_eq).
    assert (streams (d_streams d') !! i = Some s) as Hi' by by rewrite Hst'.
    destruct (stream_id _ _ _ _ _ _ _ Hd' Hi') as [Hid Hlt]. rewrite Hst' in Hlt.
    apply (aims_then _ _ d1).
    { split; [rewrite <-Hst2; fold i; lia| |].
      - intros j o. unfold read_target. rewrite Hst. destruct (decide (i = j)) as [<-|Hne].
        + rewrite lookup_insert_eq. intros [= <-]. right. split_and!; [done|done|].
          intros e fd a len He Hop. cbn [service s] in He. unfold buf_fresh in Hfresh.
          unfold service_read_sqe in He. destruct svc; try done; cbn in He; injection He as <-;
            injection Hop as _ <- _; by apply Hfresh.
        + rewrite lookup_insert_ne by done. by left.
      - exists []. by rewrite Hq, app_nil_r. }
    transitivity d2; [by eapply sent_aims|].
    destruct (service_read_sqe i s) as [e|] eqn:He.
    + destruct Hend as (q & -> & Hqe). by eapply aims_read.
    + destruct Hend as [->|[_ ->]]; [done|apply aims_os].
Qed.

Lemma okay_aims base n out ns i d d' : dinv base n out ns d → okay_post i d d' → aims d d'.
Proof.
  intros Hd. unfold okay_post.
  destruct (streams (d_streams d) !! i) as [s|] eqn:Hi; [|by intros ->].
  destruct (stream_id _ _ _ _ _ _ _ Hd Hi) as [Hid Hlt]. intros Hc.
  etrans; [by eapply (aims_with_stream i s (stream_set_waiting s false))|].
  eapply continued_aims; [done| |apply lookup_with_stream|exact Hc]. exact Hlt.
Qed.

Lemma clse_aims i d d' : clse_post i d d' → aims d d'.
Proof.
  unfold clse_post. destruct (streams (d_streams d) !! i) as [s|] eqn:Hi; [|by intros ->].
  destruct (service s) as [sv|sh| |f] eqn:Hs; try by intros Hc; eapply closed_aims.
  intros ->. set (w' := w_set_log _ _). etrans; [apply (aims_os w')|].
  by apply (aims_with_stream i s _ (set_os w' d)).
Qed.

Lemma wrte_aims base n out ns i r payload d d' :
  dinv base n out ns d → wrte_post i r payload d d' → aims d d'.
Proof.
  intros Hd (d1 & Hokay & Hserve). etrans; [by eapply sent_aims|].
  destruct (sent_streams _ _ _ Hokay) as (Hst1 & _ & _).
  destruct (streams (d_streams d) !! i) as [s|] eqn:Hi; [|by subst d'].
  destruct (stream_id _ _ _ _ _ _ _ Hd Hi) as [Hid Hlt]. rewrite <-Hst1 in Hi, Hlt.
  unfold wrte_service in Hserve. destruct (service s) as [svc|sh| |f] eqn:Hs; [| |done|].
  - destruct Hserve as (res & svc' & w' & _ & Hserve).
    set (s' := stream_set_service s (Service.Sync svc')) in *.
    set (d2 := with_stream i s' (set_os w' d1)) in *.
    assert (aims d1 d2) as H2.
    { etrans; [apply (aims_os w')|]. apply (aims_with_stream i s s' (set_os w' d1)); [done|].
      unfold target_of, service_read_sqe. by rewrite Hs. }
    etrans; [exact H2|]. destruct res as [st|hdr data| |]; [by eapply sent_aims..| |by eapply closed_aims].
    destruct (waiting_for_okay s); [by subst d'|].
    eapply (continued_aims i s'); [done|exact Hlt|cbn; apply lookup_insert_eq|done].
  - destruct Hserve as ([[]|e] & w' & _ & Hserve); [subst d'; apply aims_os|].
    etrans; [apply (aims_os w')|by eapply closed_aims].
  - destruct Hserve as ([[]|e] & w' & _ & Hserve); [subst d'; apply aims_os|].
    etrans; [apply (aims_os w')|by eapply closed_aims].
Qed.

(** The peer for which a command may open a stream. *)
Definition opening (h : AdbHeader) : option Z :=
  match command h with Open => Some (arg0 h) | _ => None end.

Lemma command_aims base n out ns n' out' ns' h payload d d' :
  dinv base n out ns d → dinv base n' out' ns' d' → command_post h payload d d' →
  may_open (opening h) d d'.
Proof.
  intros Hd Hd'. unfold command_post, opening.
  destruct (command h), payload as [p|]; try done; try (by intros ->; apply aims_open).
  - intros Hs. apply aims_open. etrans; [|by eapply sent_aims]. by apply aims_same.
  - destruct (service_name p) as [name|]; [by eapply opened_aims|].
    intros Hs. by eapply aims_open, sent_aims.
  - intros Hc. by eapply aims_open, okay_aims.
  - intros Hc. by eapply aims_open, clse_aims.
  - intros Hc. by eapply aims_open, clse_aims.
  - intros Hc. by eapply aims_open, wrte_aims.
Qed.

(** ** Completions *)

Lemma relistened_aims d d' : relistened d d' → aims d d'.
Proof.
  intros (Hst & _ & e & t & He & Ht & Hq & _). eapply aims_push; [done|exact Hq|].
  eapply aimed_other; [exact He|]. intros Hr%service_read_not. tauto.
Qed.

Lemma output_aims rb i res d d' : output_post rb i res d d' → aims d d'.
Proof.
  unfold output_post. destruct (streams (d_streams d) !! i) as [s|] eqn:Hi.
  2: { intros (Hst & _ & Hq). apply aims_same; [done|by rewrite Hq]. }
  case_decide; [by apply closed_aims|]. destruct (rb (service s)) as [b|]; [|by intros ->].
  intros (buf & _ & Hs). etrans; [|by eapply sent_aims]. by eapply aims_with_stream.
Qed.

Definition opening_in (cs : list (AdbHeader * option (list byte))) : option Z :=
  match cs with [(h, _)] => opening h | _ => None end.

Lemma handled_aims base n s c rest t l :
  sys_inv base n s → cqe_token c = Some t →
  handled_as base n (outside (handled s c rest l)) t (cqe_result c) (s_loop s) l →
  may_open (opening_in (heard_by c (s_loop s))) (dm (s_loop s)) (dm l).
Proof.
  intros Hinv Ht [Hp Hl|Hp Hm|Hp Hst Hq _|i _ Ho|i _ Ho].
  - by apply aims_open, relistened_aims.
  - unfold message_post in Hm. unfold heard_by. rewrite Ht, decide_True by done.
    destruct (heard_in _ _) as [|hp cs]; [by destruct Hm as [Hm _]; apply aims_open, relistened_aims|].
    destruct Hm as (h & pl & [= -> ->] & _ & d1 & ns1 & Hd1 & _ & Hc & Hl & _).
    eapply aims_then; [|by apply relistened_aims]. eapply command_aims; [apply (si_dinv _ _ _ Hinv)|done..].
  - apply aims_open, aims_same; [done|by rewrite Hq].
  - by eapply aims_open, output_aims.
  - by eapply aims_open, output_aims.
Qed.

(** ** The invariant *)

(** The reads that the daemon has handed to the kernel or will. *)
Definition unfinished (s : Sys) : list Sqe := sq_entries (sq (dm (s_loop s))) ++ s_inflight s.

Definition targets_inv (s : Sys) : Prop := Forall (aimed (dm (s_loop s))) (unfinished s).

Lemma step_targets base n s s' :
  writes_progress → sys_inv base n s → n < u32_max → targets_inv s →
  step s (Running s') → targets_inv s'.
Proof.
  intros Hp Hinv Hn Ht Hstep. unfold targets_inv, unfinished in *.
  inversion Hstep as [| | |pre e post res l Hfl Heff| |c rest l Hb Hh| |]; subst.
  - cbn. rewrite sq_empty_law, app_nil_l. by rewrite (comm (++)).
  - done.
  - destruct (complete_same base n s _ _ _ _ _ (si_dinv _ _ _ Hinv) Hfl Heff) as (Hst & Hq & _).
    rewrite Hfl in Ht. apply Forall_app in Ht as [H1 [H2 [_ H3]%Forall_cons]%Forall_app].
    cbn [s_loop s_inflight]. rewrite Hq. eapply Forall_impl; [by repeat (apply Forall_app; split)|].
    intros e'. unfold aimed, read_target. by rewrite Hst.
  - destruct (wp_done _ _ _ _ _ _ (wp_handle_cqe base n s c rest Hp Hinv Hn Hb) Hh eq_refl)
      as (_ & t & Ht' & Has).
    pose proof (handled_aims base n s c rest t l Hinv Ht' Has) as Ham.
    pose proof Ham as [_ _ (new & Hq & Hnew)]. cbn [s_loop s_inflight]. rewrite Hq.
    apply Forall_app in Ht as [H1 H2]. repeat (apply Forall_app; split); [|exact Hnew|];
      (eapply Forall_impl; [eassumption|]; intros e; by eapply aimed_mono).
Qed.

(** The daemon starts without reads of services. *)
Lemma start_unfinished l e t :
  others (sq_tokens (dm l)) = [poll_token; bulk_token None] →
  e ∈ unfinished (mkSys l [] [] [] no_history) → sqe_token e = Some t → ¬ is_service_read t.
Proof.
  intros Ho He Ht Hr. unfold unfinished in He. cbn [s_loop s_inflight] in He. rewrite app_nil_r in He.
  assert (t ∈ others (sq_tokens (dm l))) as Hin.
  { apply list_elem_of_filter. split; [by apply service_read_not|]. apply list_elem_of_omap. eauto. }
  rewrite Ho in Hin.
  apply elem_of_cons in Hin as [->|[->|[]%elem_of_nil]%elem_of_cons]; by destruct Hr.
Qed.

Lemma start_targets l :
  others (sq_tokens (dm l)) = [poll_token; bulk_token None] → targets_inv (mkSys l [] [] [] no_history).
Proof.
  intros Ho. apply Forall_forall. intros e He i t Ht Hr _. by destruct (start_unfinished l e t Ho He Ht).
Qed.

Lemma steps_targets base n k s s' :
  writes_progress → sys_inv base n s → targets_inv s → steps k s s' →
  n + Z.of_nat k ≤ u32_max → targets_inv s'.
Proof.
  intros Hp Hinv Ht. induction 1 as [s|k s s' s'' Hs IH Hstep]; intros Hn; [done|].
  pose proof (steps_inv base n k s s' Hp Hinv Hs ltac:(lia)) as Hinv'.
  eapply step_targets; [done|exact Hinv'|lia| |exact Hstep]. apply IH; [done..|lia].
Qed.

Lemma sqe_ok_read c e fd a len :
  sqe_ok c e → sqe_op e = OpRead fd (HeapPtr a) len →
  ∃ i t, sqe_token e = Some t ∧ is_service_read t ∧ ud_data t = Some i.
Proof.
  intros (t & Ht & Hwf & Hop) He. unfold op_ok in Hop. rewrite He in Hop.
  assert (sqe_token e = Some t) as Htok by by apply sqe_token_eq.
  destruct (op_type t) eqn:Eop, (ud_data t) as [i|] eqn:Ei; try done; try (by destruct Hop as (? & ? & ?));
    exists i, t; split_and!; try done; unfold is_service_read; by rewrite Eop, Ei.
Qed.

(** C20: the kernel never writes where it should not through a stream that is
    open.  In every reachable state each read of a service that is queued or
    in flight names a stream that was opened, and if that stream is still
    open, it is the read of that stream's own terminal or socket into its own
    buffer.  So the only way to corrupt memory is through a stream that was
    closed while its read was in flight. *)
Theorem reads_own_buffers base e0 eo ei info w n s :
  writes_progress → start_ok base info w → 1 + Z.of_nat n < u32_max →
  reachable n e0 eo ei info w s →
  (∀ e i t, e ∈ unfinished s → sqe_token e = Some t → is_service_read t → ud_data t = Some i →
    i < next_id (d_streams (dm (s_loop s))) ∧
    ∀ st, streams (d_streams (dm (s_loop s))) !! i = Some st → service_read_sqe i st = Some e) ∧
  (step s Corrupted → ∃ e i t, e ∈ s_inflight s ∧ sqe_token e = Some t ∧ is_service_read t ∧
    ud_data t = Some i ∧ i < next_id (d_streams (dm (s_loop s))) ∧
    streams (d_streams (dm (s_loop s))) !! i = None).
Proof.
  intros Hp Hst Hn (l & Hrun & Hsteps).
  destruct (run_start_inv base e0 eo ei info w l Hst Hrun) as (Hinv & _ & Ho & _).
  pose proof (steps_targets base 1 n _ s Hp Hinv (start_targets l Ho) Hsteps ltac:(lia)) as Ht.
  pose proof (steps_inv base 1 n _ s Hp Hinv Hsteps ltac:(lia)) as Hinv'.
  assert (∀ e i t, e ∈ unfinished s → sqe_token e = Some t → is_service_read t → ud_data t = Some i →
    i < next_id (d_streams (dm (s_loop s))) ∧
    ∀ st, streams (d_streams (dm (s_loop s))) !! i = Some st → service_read_sqe i st = Some e) as Hall.
  { intros e i t He Htok Hr Hi. unfold targets_inv in Ht. rewrite Forall_forall in Ht.
    destruct (Ht e He i t Htok Hr Hi) as [Hlt Htarget]. split; [done|]. intros st Hs.
    apply (Htarget (target_of i st)). unfold read_target. by rewrite Hs. }
  split; [exact Hall|]. intros Hcorrupt. inversion Hcorrupt as [| | | |pre e post Hfl Hfree| | |]; subst.
  pose proof (si_dinv _ _ _ Hinv') as Hd.
  assert (e ∈ s_inflight s) as He by (rewrite Hfl; apply elem_of_app; right; left).
  assert (sqe_ok (conn (dm (s_loop s))) e) as Hok by (eapply Forall_forall in He; [|apply Hd]; done).
  unfold writes_freed_memory in Hfree. destruct (sqe_op e) as [fd [|a|] len| |] eqn:Hop; try done.
  destruct (sqe_ok_read _ _ _ _ _ Hok Hop) as (i & t & Htok & Hr & Hi).
  destruct (Hall e i t) as [Hlt Hopen]; [apply elem_of_app; by right|done..|].
  exists e, i, t. split_and!; try done.
  destruct (streams (d_streams (dm (s_loop s))) !! i) as [st|] eqn:Hs; [exfalso|done].
  specialize (Hopen st eq_refl). pose proof (own_buf _ _ _ (di_own _ _ _ _ _ Hd) i st) as Hbuf.
  unfold service_read_sqe in Hopen. destruct (service st) as [|sh| |f]; try done;
    injection Hopen as <-; injection Hop as _ <- _;
    destruct (Hbuf _ Hs eq_refl) as (_ & b & Hb & _); congruence.
Qed.
End targets.
