(* ===== verification/Stable.v ===== *)
(** The handlers leave the buffers of unfinished writes alone: a relation
    between states that every handler respects, and the theorem that the bytes
    of a write do not change from its submission to its completion. *)
From Stdlib Require Import ZArith Lia Strings.Byte.
From stdpp Require Import base numbers list gmap strings.
From S2P Require Import Prelude.
From S2P Require Import Winnow.
From S2P Require Import Message.
From S2P Require Import Buffers.
From S2P Require Import Os.
From S2P Require Import Sync.
From S2P Require Import Shell.
From S2P Require Import Forward.
From S2P Require Import Stream.
From S2P Require Import UserData.
From S2P Require Import Ring.
From S2P Require Import Ffs.
From S2P Require Import Connection.
From S2P Require Import Wire.
From S2P Require Import ConnectionFacts.
From S2P Require Import Commands.
From S2P Require Import System.
From S2P Require Import Safety.

Open Scope Z_scope.

#[local] Opaque UserData_u64 BULK_OUT_BUF_SIZE.

(** ** The buffers only grow *)

Section grows.
Context {E : Os} {W : Winnow} {R : SubmissionQueue}.

(** In a well-formed pool the occupied slots keep their contents. *)
Definition grows (d d' : Daemon) : Prop :=
  buffers_wf (d_buffers d) →
  buffers_wf (d_buffers d') ∧ view (d_buffers d) ⊆ view (d_buffers d').

Definition loop_grows (l l' : Loop) : Prop := grows (dm l) (dm l').

#[export] Instance grows_refl : Reflexive grows.
Proof. done. Qed.
#[export] Instance grows_trans : Transitive grows.
Proof.
  intros d1 d2 d3 H12 H23 [Hwf H1]%H12. destruct (H23 Hwf) as [Hwf' H2].
  split; [done|]. by transitivity (view (d_buffers d2)).
Qed.
#[export] Instance loop_grows_refl : Reflexive loop_grows.
Proof. intros l. by unfold loop_grows. Qed.
#[export] Instance loop_grows_trans : Transitive loop_grows.
Proof. intros l1 l2 l3. unfold loop_grows. apply transitivity. Qed.

Lemma grows_same d d' : d_buffers d' = d_buffers d → grows d d'.
Proof. intros Hb Hwf. by rewrite Hb. Qed.

Lemma on_os_grows {A} (m : M World A) : Respects grows (on_os m).
Proof. eapply respects_zoom, respects_any. intros d w _. by apply grows_same. Qed.

Lemma modify_grows (f : Daemon → Daemon) :
  (∀ d, d_buffers (f d) = d_buffers d) → Respects grows (modifyM f).
Proof. intros Hf. apply respects_modify. intros d. by apply grows_same. Qed.

Lemma set_stream_grows i s : Respects grows (set_stream i s).
Proof. by apply modify_grows. Qed.

Lemma get_stream_grows i : Respects grows (get_stream i).
Proof. unfold get_stream. solve_respects. Qed.

Lemma push_grows e : Respects grows (push e).
Proof. unfold push. solve_respects. by apply modify_grows. Qed.

Hint Resolve on_os_grows set_stream_grows get_stream_grows push_grows : respects.

Lemma header_grows v c a0 a1 payload : Respects grows (header_from_payload v c a0 a1 payload).
Proof. unfold header_from_payload. solve_respects. Qed.

Hint Resolve header_grows : respects.

(** A buffer is filled in a slot that was free. *)
Lemma submit_buffer_grows capacity data link : Respects grows (submit_buffer capacity data link).
Proof.
  intros d a d' (slot & d1 & Hal & ([] & d2 & Hex & Hrest)%bind_inv)%bind_inv Hwf.
  assert (grows d2 d') as Hg.
  { assert (Respects grows (write_sqe slot link ≫= push)) as Hr; [|by eapply Hr].
    assert (Respects eq (buf_len slot)) by (unfold buf_len; solve_respects).
    unfold write_sqe. solve_respects. eapply respects_zoom; [|done].
    intros d0 b <-. by apply grows_same. }
  unfold on_buffers, zoom in Hal, Hex. pose proof (alloc_cases capacity (d_buffers d) Hwf) as Hc.
  destruct (alloc capacity (d_buffers d)) as [[k b1]|p]; [|done].
  injection Hal as <- <-. destruct Hc as (Hk & Hfree & _ & Hv1 & Hwf1).
  destruct (buf_extend_view k data b1) as (b2 & Hb2 & Hwf2 & Hv2); [lia|done|].
  change (d_buffers (set_buffers b1 d)) with b1 in Hex. rewrite Hb2 in Hex. injection Hex as <-.
  destruct (Hg Hwf2) as [Hwf' Hv']. split; [done|]. etrans; [|exact Hv'].
  change (view (d_buffers d) ⊆ view b2). rewrite Hv2, Hv1, alter_insert_eq.
  by apply insert_subseteq.
Qed.

Hint Resolve submit_buffer_grows : respects.

Lemma submit_message_grows h payload : Respects grows (submit_message h payload).
Proof. unfold submit_message. solve_respects. Qed.

Hint Resolve submit_message_grows : respects.

Lemma submit_clse_grows l r : Respects grows (submit_clse l r).
Proof. unfold submit_clse. solve_respects. Qed.
Lemma submit_okay_grows l r : Respects grows (submit_okay l r).
Proof. unfold submit_okay. solve_respects. Qed.
Lemma submit_wrte_sync_grows l r hdr data : Respects grows (submit_wrte_sync l r hdr data).
Proof. unfold submit_wrte_sync. solve_respects. Qed.
Lemma open_stream_grows r name : Respects grows (open_stream r name).
Proof. unfold open_stream. solve_respects. by apply modify_grows. Qed.
Lemma close_stream_grows i : Respects grows (close_stream i).
Proof. unfold close_stream. solve_respects. by apply modify_grows. Qed.

Hint Resolve submit_clse_grows submit_okay_grows submit_wrte_sync_grows open_stream_grows
  close_stream_grows : respects.

Lemma pty_grows i : Respects grows (maybe_submit_pty_read i).
Proof. unfold maybe_submit_pty_read, shell_read_buf_capacity. solve_respects. Qed.
Lemma socket_grows i : Respects grows (maybe_submit_socket_read i).
Proof. unfold maybe_submit_socket_read, forward_read_buf_capacity. solve_respects. Qed.
Lemma wrte_sync_grows i : Respects grows (maybe_submit_wrte_sync i).
Proof. unfold maybe_submit_wrte_sync. solve_respects. Qed.

Hint Resolve pty_grows socket_grows wrte_sync_grows : respects.

Lemma continue_grows i : Respects grows (maybe_continue_stream i).
Proof. unfold maybe_continue_stream. solve_respects. Qed.

Hint Resolve continue_grows : respects.

Lemma handle_command_grows h payload : Respects grows (handle_command h payload).
Proof.
  unfold handle_command, handle_command_cnxn, handle_command_open, handle_command_okay,
    handle_command_clse, handle_command_wrte, close_with_clse, cnxn_response.
  solve_respects. by apply modify_grows.
Qed.

Hint Resolve handle_command_grows : respects.

Lemma service_read_grows i s m : Respects grows (service_read i s m).
Proof. unfold service_read, wrte_header. solve_respects. Qed.
Lemma service_read_end_grows i : Respects grows (service_read_end i).
Proof. unfold service_read_end. solve_respects. Qed.

Hint Resolve service_read_grows service_read_end_grows : respects.

Lemma pty_read_grows i res : Respects grows (pty_read i res).
Proof. unfold pty_read. solve_respects. Qed.
Lemma socket_read_grows i res : Respects grows (socket_read i res).
Proof. unfold socket_read. solve_respects. Qed.
Lemma ep0_event_grows : Respects grows handle_ep0_event.
Proof. unfold handle_ep0_event. solve_respects. Qed.
Lemma ep0_poll_grows : Respects grows submit_ep0_poll.
Proof. unfold submit_ep0_poll. solve_respects. Qed.
Lemma bulk_out_grows buf t : Respects grows (submit_bulk_out_read buf t).
Proof. unfold submit_bulk_out_read. solve_respects. Qed.

Hint Resolve pty_read_grows socket_read_grows ep0_event_grows ep0_poll_grows bulk_out_grows
  : respects.

Lemma on_dm_grows {A} (m : M Daemon A) : Respects grows m → Respects loop_grows (on_dm m).
Proof. apply respects_zoom. by intros l d. Qed.

Hint Resolve on_dm_grows : respects.

Lemma listen_grows op : Respects loop_grows (listen op).
Proof. unfold listen. solve_respects. Qed.

Hint Resolve listen_grows : respects.

Lemma slice_to_grows len buf : Respects loop_grows (slice_to len buf).
Proof. unfold slice_to. solve_respects. Qed.
Lemma set_pending_grows h : Respects loop_grows (modifyM (set_pending h)).
Proof. by apply respects_modify. Qed.

Hint Resolve slice_to_grows set_pending_grows : respects.

Lemma bulk_out_read_header_grows res : Respects loop_grows (bulk_out_read_header res).
Proof. unfold bulk_out_read_header. solve_respects. Qed.
Lemma bulk_out_read_payload_grows res : Respects loop_grows (bulk_out_read_payload res).
Proof. unfold bulk_out_read_payload. solve_respects. Qed.

Hint Resolve bulk_out_read_header_grows bulk_out_read_payload_grows : respects.

(** Every completion but that of a write. *)
Lemma handle_cqe_grows c l o l' :
  (∀ t, UserData_try_from (cqe_user_data c) = Ok t → ¬ is_write t) →
  handle_cqe c l = Done (o, l') → loop_grows l l'.
Proof.
  intros Hc. assert (Respects loop_grows (handle_cqe c)) as H; [|by eapply H].
  unfold handle_cqe. cbv zeta. destruct (UserData_try_from (cqe_user_data c)) as [t|]; [|solve_respects].
  specialize (Hc t eq_refl). unfold is_write in Hc.
  destruct (op_type t); [..|done| |]; solve_respects.
Qed.

(** A write's completion empties its slot only. *)
Lemma handle_cqe_write c l o l' k :
  UserData_try_from (cqe_user_data c) = Ok (mkUserData UserDataOpType.BulkInWrite (Some k)) →
  buffers_wf (d_buffers (dm l)) → u32 k → handle_cqe c l = Done (o, l') →
  view (d_buffers (dm l')) = delete (Z.to_nat k) (view (d_buffers (dm l))).
Proof.
  intros Hc Hwf Hk. unfold handle_cqe. rewrite Hc. cbn [op_type ud_data].
  intros ([] & l1 & Hfree & [= _ <-])%bind_inv.
  unfold on_dm, on_buffers, zoom in Hfree.
  pose proof (free_cases k (d_buffers (dm l)) Hwf Hk) as Hcase.
  case_decide; [|by rewrite Hcase in Hfree].
  destruct Hcase as (b & Hb & _ & Hv). rewrite Hb in Hfree. by injection Hfree as <-.
Qed.
End grows.

(** ** The bytes of unfinished writes *)

Section stable.
Context {E : Os} {W : Winnow} {R : SubmissionQueue}.

(** A write that is queued or in flight is not one that is completed. *)
Lemma unfinished_write base n s t :
  sys_inv base n s → is_write t →
  t ∈ tokens (sq_entries (sq (dm (s_loop s))) ++ s_inflight s) → t ∉ o_done (outside s).
Proof.
  intros Hinv Hw Ht Hd. pose proof (di_writes _ _ _ _ _ (si_dinv _ _ _ Hinv)) as Hp.
  assert (NoDup (filter is_write (sq_tokens (dm (s_loop s)) ++ out_tokens (outside s)))) as Hnd.
  { rewrite Hp. apply NoDup_fmap_2; [apply _|]. apply (NoDup_elements (dom (view _))). }
  unfold out_tokens, sq_tokens in Hnd. rewrite (assoc_L (++)), filter_app in Hnd.
  apply NoDup_app in Hnd as (_ & Hnd & _). rewrite tokens_app in Ht.
  apply (Hnd t); by apply list_elem_of_filter.
Qed.

(** The slot of a write is that of its token. *)
Lemma write_of_token c e fd ptr len :
  sqe_ok c e → sqe_op e = OpWrite fd ptr len →
  ∃ k, 1 ≤ k ∧ ptr = SlotPtr k ∧ sqe_user_data e = UserData_u64 (write_token (Z.to_nat k)) ∧
    user_data_wf (write_token (Z.to_nat k)) ∧ is_Some (view (conn_buffers c) !! Z.to_nat k).
Proof.
  intros (t & Ht & Hwf & Hop) He. unfold op_ok in Hop. rewrite He in Hop.
  destruct t as [op [k|]]; destruct op; cbn in Hop; try done; try (by destruct Hop as (? & ? & ?)).
  destruct Hop as (b & Hb & [= -> -> ->]). exists k.
  assert (1 ≤ k) by (unfold user_data_wf in Hwf; cbn in Hwf; lia).
  by rewrite write_token_eq by done; split_and!.
Qed.

(** The completions that are handled leave the other writes alone. *)
Lemma write_of_handled base n s c rest l e :
  sys_inv base n s → s_batch s = c :: rest → handle_cqe c (s_loop s) = Done (None, l) →
  sqe_ok (conn (dm (s_loop s))) e → e ∈ sq_entries (sq (dm (s_loop s))) ++ s_inflight s →
  write_of (view (d_buffers (dm l))) e = write_of (view (d_buffers (dm (s_loop s)))) e.
Proof.
  intros Hinv Hb Hh Hok He. pose proof (si_dinv _ _ _ Hinv) as Hd.
  destruct (sqe_op e) as [|fd ptr len|] eqn:Hop; try (unfold write_of; by rewrite Hop).
  destruct (write_of_token _ _ _ _ _ Hok Hop) as (k & Hk & -> & Hu & Hwf & Hlive).
  destruct (UserData_try_from (cqe_user_data c)) as [t|] eqn:Hc.
  2: { unfold handle_cqe in Hh. rewrite Hc in Hh. by injection Hh as <-. }
  destruct (decide (is_write t)) as [Hw|Hw].
  - assert (t ∈ o_done (outside s)) as Hdone.
    { cbn. rewrite Hb. apply elem_of_app. right. cbn. unfold cqe_token. rewrite Hc. left. }
    assert (write_token (Z.to_nat k) ≠ t) as Hne.
    { intros <-. eapply unfinished_write; [exact Hinv|done| |exact Hdone].
      apply list_elem_of_omap. exists e. split; [done|]. by apply sqe_token_eq. }
    assert (t ∈ out_tokens (outside s)) as Hout by (apply elem_of_app; by right).
    destruct (token_cases _ _ _ _ Hinv Hout) as [->|[->|[Hr|(j & -> & Hj)]]];
      [done|by destruct (pending_header _)|by apply service_read_not in Hr as [? _]|].
    assert (is_Some (view (d_buffers (dm (s_loop s))) !! j)) as Hv
      by (by apply elem_of_dom, (elem_of_elements (dom (view (d_buffers (dm (s_loop s))))))).
    pose proof (view_bound _ _ (di_buffers _ _ _ _ _ Hd) Hv) as Hbd.
    unfold write_of. rewrite Hop. do 2 f_equal.
    rewrite (handle_cqe_write c (s_loop s) None l (Z.of_nat j)); [|exact Hc|apply Hd|unfold u32; lia|done].
    rewrite lookup_delete_ne; [done|]. rewrite Nat2Z.id. intros ->. by apply Hne.
  - assert (loop_grows (s_loop s) l) as Hg.
    { eapply handle_cqe_grows; [|exact Hh]. rewrite Hc. by intros t' [= <-]. }
    apply write_of_mono; [|by apply Hg, Hd]. unfold write_live. by rewrite Hop.
Qed.

(** C18: the kernel reads what the daemon meant to write: from the moment a
    write is queued until the completion of that write, no step of the daemon
    or the kernel changes the bytes it refers to; a slot is neither freed nor
    reused nor extended while a write refers to it. *)
Theorem in_flight_data_stable base n e0 eo ei info w s s' e :
  writes_progress → start_ok base info w → 1 + Z.of_nat n < u32_max →
  reachable n e0 eo ei info w s → step s (Running s') →
  e ∈ sq_entries (sq (dm (s_loop s))) ++ s_inflight s →
  write_of (view (d_buffers (dm (s_loop s')))) e = write_of (view (d_buffers (dm (s_loop s)))) e.
Proof.
  intros Hp Hst Hn Hreach Hstep He.
  pose proof (reachable_inv _ _ _ _ _ _ n s Hp Hst Hn Hreach) as Hinv.
  pose proof (si_dinv _ _ _ Hinv) as Hd.
  assert (sqe_ok (conn (dm (s_loop s))) e) as Hok.
  { apply elem_of_app in He as [He|He];
      [eapply Forall_forall in He; [|apply Hd]|eapply Forall_forall in He; [|apply Hd]]; done. }
  inversion Hstep as [| | |? ? ? ? ? ? Heff| |c rest l Hb Hh| |]; subst; try done.
  - destruct (kernel_effect_inv _ _ _ _ _ _ _ _ Hd Heff) as (_ & Hconn & _).
    unfold d_buffers. cbn [s_loop]. by rewrite Hconn.
  - apply (write_of_handled base (1 + Z.of_nat n) s c rest l e); try done.
Qed.
End stable.
