(* ===== verification/Host.v ===== *)
(** What reaches the host: the bytes of the completed writes, in the order in
    which they were completed, and the messages that the host has read from
    them so far.  As long as the kernel completes the writes in the order in
    which they were submitted, and each of them whole, the host has read a
    prefix of what the daemon has queued, and all of it once no write is
    outstanding. *)
From Stdlib Require Import ZArith Lia Strings.Byte.
From stdpp Require Import base numbers list gmap strings.
From S2P Require Import Prelude.
From S2P Require Import Winnow.
From S2P Require Import Message.
From S2P Require Import Buffers.
From S2P Require Import Os.
From S2P Require Import Shell.
From S2P Require Import Forward.
From S2P Require Import UserData.
From S2P Require Import Ring.
From S2P Require Import Ffs.
From S2P Require Import Connection.
From S2P Require Import Wire.
From S2P Require Import ConnectionFacts.
From S2P Require Import System.
From S2P Require Import Safety.
From S2P Require Import Stable.

Open Scope Z_scope.

#[local] Opaque UserData_u64 BULK_OUT_BUF_SIZE AdbHeader_bytes.

(** ** A reader of a stream that goes on *)

Section reader.
Context {W : Winnow}.

(** Reads the messages that are there in full.  One unit of fuel is enough for
    each message. *)
Fixpoint host_reads (fuel : nat) (bs : list byte) : list (AdbHeader * list byte) :=
  match fuel with
  | O => []
  | S fuel =>
      match parse_header bs with
      | Some (h, bs) =>
          let len := Z.to_nat (data_length h) in
          if decide (len ≤ length bs)%nat
          then (h, take len bs) :: host_reads fuel (drop len bs) else []
      | None => []
      end
  end.

(** What is read of a beginning of the stream is a beginning of what it says. *)
Lemma host_reads_prefix fuel ms bs :
  Forall device_message ms → bs `prefix_of` wire (buffers_of ms) →
  host_reads fuel bs `prefix_of` ms.
Proof.
  intros Hms. revert fuel bs. induction Hms as [|[h p] ms [Hu Hm Hl _ _] _ IH]; intros fuel bs Hbs;
    (destruct fuel as [|fuel]; [apply prefix_nil|]); cbn [host_reads].
  - apply prefix_nil_inv in Hbs as ->. destruct (parse_header []) as [[h r]|] eqn:Hp; [|done].
    apply parse_header_Some in Hp as [Hp _]. apply (f_equal length) in Hp.
    rewrite length_app, length_AdbHeader_bytes in Hp. simpl in Hp. lia.
  - destruct (parse_header bs) as [[h' r]|] eqn:Hp; [|apply prefix_nil].
    apply parse_header_Some in Hp as (-> & Hu' & Hm').
    rewrite buffers_of_cons, wire_app, wire_message, <-(assoc_L (++)) in Hbs. cbn [fst snd] in *.
    destruct Hbs as [rest Hbs]. rewrite <-(assoc_L (++)) in Hbs.
    assert (parse_header (AdbHeader_bytes h' ++ r ++ rest) = Some (h', r ++ rest)) as H1
      by by apply parse_header_Some.
    rewrite <-Hbs in H1.
    assert (parse_header (AdbHeader_bytes h ++ p ++ wire (buffers_of ms)) =
      Some (h, p ++ wire (buffers_of ms))) as H2 by by apply parse_header_Some.
    rewrite H1 in H2. injection H2 as -> Hr.
    assert (Z.to_nat (data_length h) = length p) as -> by lia.
    case_decide as Hlen; [|apply prefix_nil].
    pose proof (take_app_length p (wire (buffers_of ms))) as Hp.
    pose proof (drop_app_length p (wire (buffers_of ms))) as Hd.
    rewrite <-Hr, take_app_le in Hp by done. rewrite <-Hr, drop_app_le in Hd by done.
    rewrite Hp. apply prefix_cons, IH. by exists rest.
Qed.

Lemma host_reads_all fuel ms :
  (length ms ≤ fuel)%nat → Forall device_message ms →
  host_reads fuel (wire (buffers_of ms)) = ms.
Proof.
  intros Hf Hms. revert fuel Hf.
  induction Hms as [|[h p] ms [Hu Hm Hl _ _] Hms IH]; intros fuel Hf.
  - by apply prefix_nil_inv, host_reads_prefix.
  - destruct fuel as [|fuel]; simpl in Hf; [lia|]. cbn [host_reads].
    rewrite buffers_of_cons, wire_app, wire_message, <-(assoc_L (++)). cbn [fst snd] in *.
    assert (parse_header (AdbHeader_bytes h ++ p ++ wire (buffers_of ms)) =
      Some (h, p ++ wire (buffers_of ms))) as -> by by apply parse_header_Some.
    assert (Z.to_nat (data_length h) = length p) as -> by lia.
    rewrite decide_True by (rewrite length_app; lia).
    by rewrite take_app_length, drop_app_length, IH by lia.
Qed.

Lemma length_wire ms : (length ms ≤ length (wire (buffers_of ms)))%nat.
Proof.
  induction ms as [|m ms IH]; [done|]. rewrite buffers_of_cons, wire_app, wire_message, !length_app.
  rewrite length_AdbHeader_bytes. simpl. lia.
Qed.
End reader.

(** ** What the kernel has written *)

Section host.
Context {E : Os} {W : Winnow} {R : SubmissionQueue}.

(** The bytes that have reached the host. *)
Definition arrived (s : Sys) : list byte :=
  mjoin ((λ f, take (Z.to_nat (fin_result f)) (fin_data f)) <$> s_done s).

(** The messages that the host has read from them. *)
Definition host_has_read (s : Sys) : list (AdbHeader * list byte) :=
  host_reads (length (arrived s)) (arrived s).

(** So far the kernel has completed the writes in order, each of them whole. *)
Definition in_order (s : Sys) : Prop :=
  Forall (λ f, fin_oldest f = true ∧ fin_result f = Z.of_nat (length (fin_data f))) (s_done s).

(** The writes in flight, and those in flight or queued. *)
Definition in_flight (s : Sys) : list (list byte * bool) :=
  writes_of (view (d_buffers (dm (s_loop s)))) (s_inflight s).
Definition unwritten (s : Sys) : list (list byte * bool) :=
  in_flight s ++ sq_writes (dm (s_loop s)).

(** Then what was submitted is what was completed and what is in flight. *)
Definition done_first (s : Sys) : Prop :=
  in_order s → (s_written s).*1 = (fin_data <$> s_done s) ++ (in_flight s).*1.

(** The operations that are in flight still write the same bytes. *)
Lemma writes_of_handled base n s c rest l :
  sys_inv base n s → s_batch s = c :: rest → handle_cqe c (s_loop s) = Done (None, l) →
  writes_of (view (d_buffers (dm l))) (s_inflight s) = in_flight s.
Proof.
  intros Hinv Hb Hh. pose proof (di_flight _ _ _ _ _ (si_dinv _ _ _ Hinv)) as Hok.
  cbn [outside o_flight] in Hok. unfold in_flight.
  assert (∀ e, e ∈ s_inflight s → write_of (view (d_buffers (dm l))) e =
    write_of (view (d_buffers (dm (s_loop s)))) e) as He.
  { intros e He. rewrite Forall_forall in Hok. eapply write_of_handled; [done..|by apply Hok|].
    apply elem_of_app. by right. }
  clear Hok. induction (s_inflight s) as [|e es IH]; [done|].
  rewrite !writes_of_cons, He by left. by rewrite IH by (intros e' ?; apply He; by right).
Qed.

Lemma complete_done_first base n s pre e post res l :
  sys_inv base n s → s_inflight s = pre ++ e :: post → kernel_effect e res (s_loop s) l →
  done_first s →
  done_first (mkSys l (pre ++ post) (s_cq s ++ [mkCqe (sqe_user_data e) res]) (s_batch s)
    (hi_deliver (read_output e res l) (write_done pre e res l) (s_hist s))).
Proof.
  intros Hinv Hfl Heff Hdone Hord.
  destruct (kernel_effect_inv _ _ _ _ _ _ _ _ (si_dinv _ _ _ Hinv) Heff) as (_ & Hc & _).
  unfold in_order, s_done in Hord. cbn [s_hist hi_deliver hi_done] in Hord.
  apply Forall_app in Hord as [Hord Hnew]. specialize (Hdone Hord).
  unfold s_written, s_done, in_flight in *. cbn [s_hist hi_deliver hi_done hi_written s_loop s_inflight].
  assert (d_buffers (dm l) = d_buffers (dm (s_loop s))) as Hb by (unfold d_buffers; by rewrite Hc).
  unfold write_done in *. rewrite Hdone, Hfl, Hb in *. set (v := view _) in *. rewrite !writes_of_app, writes_of_cons.
  destruct (write_of v e) as [w|]; [|by rewrite app_nil_r].
  apply Forall_cons in Hnew as [[Hold _] _]. cbn [fin_oldest] in Hold.
  destruct (writes_of v pre); [|done]. cbn [app]. rewrite (fmap_app fin_data). exact (app_assoc _ [w.1] _).
Qed.

Lemma step_done_first base n s s' :
  sys_inv base n s → done_first s → step s (Running s') → done_first s'.
Proof.
  intros Hinv Hdone Hstep. inversion Hstep as [| | |pre e post res l Hfl Heff| |c rest l Hb Hh| |]; subst.
  - intros Hord. specialize (Hdone Hord). unfold s_written, s_done, in_flight in *.
    cbn [s_hist hi_write hi_done hi_written s_loop s_inflight] in *.
    rewrite writes_of_app, !fmap_app, Hdone. by rewrite (assoc_L (++)).
  - exact Hdone.
  - by eapply complete_done_first.
  - intros Hord. specialize (Hdone Hord). unfold in_flight at 1. cbn [s_loop s_inflight].
    by rewrite (writes_of_handled base n s c rest l) by done.
Qed.

Lemma reachable_done_first base e0 eo ei info w n s :
  writes_progress → start_ok base info w → 1 + Z.of_nat n < u32_max →
  reachable n e0 eo ei info w s → done_first s.
Proof.
  intros Hp Hst Hn (l & Hrun & Hsteps%steps_steps_if).
  destruct (run_start_inv base e0 eo ei info w l Hst Hrun) as (Hinv & _).
  eapply (steps_if_inv _ done_first base 1 n); [done| |exact Hinv|done|exact Hsteps|lia].
  intros m s1 s2 H1 _ H2 _. by eapply step_done_first.
Qed.

(** The host has read a beginning of the messages that were queued, and all of
    them when no write is outstanding. *)
Lemma host_has_read_prefix base e0 eo ei info w n s ms :
  writes_progress → start_ok base info w → 1 + Z.of_nat n < u32_max →
  reachable n e0 eo ei info w s → in_order s →
  Forall device_message ms → s_written s ++ sq_writes (dm (s_loop s)) = buffers_of ms →
  host_has_read s `prefix_of` ms ∧ (unwritten s = [] → host_has_read s = ms).
Proof.
  intros Hp Hst Hn Hreach Hord Hms Hw.
  pose proof (reachable_done_first _ _ _ _ _ _ _ _ Hp Hst Hn Hreach Hord) as Hdone.
  assert (wire (buffers_of ms) = arrived s ++ wire (unwritten s)) as Hwire.
  { rewrite <-Hw. unfold wire, unwritten, arrived. rewrite !fmap_app, !join_app, Hdone, !join_app.
    rewrite <-(assoc_L (++)). do 2 f_equal. symmetry. apply list_fmap_ext. intros k f Hf.
    unfold in_order in Hord. rewrite Forall_lookup in Hord. destruct (Hord k f Hf) as [_ ->].
    by rewrite Nat2Z.id, firstn_all. }
  split.
  - apply host_reads_prefix; [done|]. rewrite Hwire. by apply prefix_app_r.
  - intros Hnone. rewrite Hnone in Hwire. unfold wire at 2 in Hwire. cbn in Hwire.
    rewrite app_nil_r in Hwire. unfold host_has_read. rewrite <-Hwire.
    by apply host_reads_all; [apply length_wire|].
Qed.
End host.
