(* ===== verification/Dialogue.v ===== *)
(** The dialogue with the host, message by message: what each command of the
    host is answered with, and that what the daemon says about a stream follows
    the life of the stream.  What it says is what it queues for the host; what
    of that the host has read is said by the theorems of Host. *)
From Stdlib Require Import ZArith Lia Strings.Byte.
From stdpp Require Import base numbers list gmap strings.
From S2P Require Import Prelude.
From S2P Require Import Bytes.
From S2P Require Import Winnow.
From S2P Require Import DeviceInfo.
From S2P Require Import Message.
From S2P Require Import Buffers.
From S2P Require Import Os.
From S2P Require Import Sync.
From S2P Require Import SyncFacts.
From S2P Require Import SyncSafe.
From S2P Require Import Shell.
From S2P Require Import Forward.
From S2P Require Import Stream.
From S2P Require Import UserData.
From S2P Require Import Ring.
From S2P Require Import Ffs.
From S2P Require Import Connection.
From S2P Require Import Wire.
From S2P Require Import ConnectionFacts.
From S2P Require Import Commands.
From S2P Require Import System.
From S2P Require Import Tame.
From S2P Require Import Safety.
From S2P Require Import Host.

Open Scope Z_scope.

#[local] Opaque UserData_u64 BULK_OUT_BUF_SIZE AdbHeader_bytes.

(** ** Messages *)

Abbreviation Msg := (AdbHeader * list byte)%type.

(** A message as the daemon builds it. *)
Definition built (m : Msg) : Prop :=
  ∃ v c l r, u32 l ∧ u32 r ∧ m.1 = payload_header v c l r m.2.

Lemma message_not_nil h p : message h p ≠ [].
Proof. by destruct p. Qed.

Lemma message_inj h p h' p' ws ws' :
  message h p ++ ws = message h' p' ++ ws' →
  AdbHeader_bytes h = AdbHeader_bytes h' ∧ p = p' ∧ ws = ws'.
Proof.
  unfold message. generalize (AdbHeader_bytes h) as b, (AdbHeader_bytes h') as b'. intros b b'.
  destruct p as [|x p], p' as [|x' p']; cbn [app]; try done.
  - by intros [= <- <-].
  - by intros [= <- <- <- <-].
Qed.

Section decode.
Context {W : Winnow}.

Lemma header_bytes_inj h h' :
  header_u32 h → header_u32 h' → magic h = command_magic (command h) →
  magic h' = command_magic (command h') → AdbHeader_bytes h = AdbHeader_bytes h' → h = h'.
Proof.
  intros Hu Hu' Hm Hm' Hb.
  assert (parse_header (AdbHeader_bytes h) = Some (h, [])) as H1
    by (apply parse_header_Some; by rewrite app_nil_r).
  assert (parse_header (AdbHeader_bytes h') = Some (h', [])) as H2
    by (apply parse_header_Some; by rewrite app_nil_r).
  rewrite Hb, H2 in H1. by injection H1.
Qed.

(** Messages of the device are told apart by their bytes. *)
Lemma built_message m m' :
  built m → device_message m' → AdbHeader_bytes m.1 = AdbHeader_bytes m'.1 → m.2 = m'.2 → m = m'.
Proof.
  intros (v & c & l & r & Hl & Hr & Hm) [Hu' Hm' Hl' _ _] Hb Hp.
  destruct m as [h p], m' as [h' p']. cbn [fst snd] in *. subst p'. f_equal. subst h.
  apply header_bytes_inj; [|done|done|done|done].
  unfold header_u32 in *. cbn. split_and!; [done|done| |].
  - rewrite Hl' in Hu'. apply Hu'.
  - destruct (requires_checksum v); [apply checksum_u32|done].
Qed.

Lemma built_decode ms ms' :
  Forall built ms → Forall device_message ms' → buffers_of ms = buffers_of ms' → ms = ms'.
Proof.
  intros Hms. revert ms'. induction Hms as [|[h p] ms Hm _ IH]; intros [|[h' p'] ms'] Hms' Hb; [done|..].
  - rewrite buffers_of_cons in Hb. symmetry in Hb. by apply app_eq_nil in Hb as [?%message_not_nil _].
  - rewrite buffers_of_cons in Hb. by apply app_eq_nil in Hb as [?%message_not_nil _].
  - apply Forall_cons in Hms' as [Hm' Hms']. rewrite !buffers_of_cons in Hb.
    apply message_inj in Hb as (Hh & Hp & Hb). f_equal; [by apply built_message|by apply IH].
Qed.
End decode.

(** ** The life of a stream, as told *)

(** Whether a message carries data of stream [i] or closes it. *)
Definition about (i : Z) (m : Msg) : Prop :=
  arg0 m.1 = i ∧ (command m.1 = Wrte ∨ command m.1 = Clse).
#[global] Instance about_dec i m : Decision (about i m).
Proof. unfold about. apply _. Defined.

Definition said_by (i : Z) (ms : list Msg) : list Msg := filter (about i) ms.

(** A message with data for the peer [r] of a stream. *)
Definition data_to (r : Z) (m : Msg) : Prop := command m.1 = Wrte ∧ arg1 m.1 = r.

(** The OKAY that answers the OPEN of stream [i], before anything about it. *)
Definition opened_by (i r : Z) (ms : list Msg) : Prop :=
  ∃ a m b, ms = a ++ m :: b ∧ command m.1 = Okay ∧ arg0 m.1 = i ∧ arg1 m.1 = r ∧ said_by i a = [].

(** An identifier is not used yet, or names an open stream with peer [r], or
    one that is closed. *)
Inductive Phase : Type := Unused | Opened (r : Z) | Closed.

(** What is said about a stream in each phase. *)
Definition wire_phase (i : Z) (ph : Phase) (ms : list Msg) : Prop :=
  match ph with
  | Unused => said_by i ms = []
  | Opened r => opened_by i r ms ∧ Forall (data_to r) (said_by i ms)
  | Closed => ∃ r ws c, opened_by i r ms ∧ said_by i ms = ws ++ [c] ∧ Forall (data_to r) ws ∧
      command c.1 = Clse ∧ arg1 c.1 = r
  end.

Lemma said_by_app i ms ms' : said_by i (ms ++ ms') = said_by i ms ++ said_by i ms'.
Proof. apply filter_app. Qed.

Lemma opened_by_app i r ms ms' : opened_by i r ms → opened_by i r (ms ++ ms').
Proof.
  intros (a & m & b & -> & H). exists a, m, (b ++ ms'). by rewrite <-(assoc_L (++)).
Qed.

(** What says nothing about the stream changes nothing. *)
Lemma wire_phase_quiet i ph ms ms' :
  wire_phase i ph ms → said_by i ms' = [] → wire_phase i ph (ms ++ ms').
Proof.
  intros Hph Hq. assert (said_by i (ms ++ ms') = said_by i ms) as Heq
    by (by rewrite said_by_app, Hq, app_nil_r).
  destruct ph as [|r|]; cbn [wire_phase] in *; rewrite Heq; [done|..].
  - destruct Hph as [Ho Hd]. split; [by apply opened_by_app|done].
  - destruct Hph as (r & ws & c & Ho & H). exists r, ws, c. split; [by apply opened_by_app|done].
Qed.

(** The data that services have delivered for a stream. *)
Definition outputs (i : Z) (outs : list (Z * list byte)) : list byte :=
  mjoin (filter (λ o, o.1 = i) outs).*2.

Lemma outputs_app i outs outs' : outputs i (outs ++ outs') = outputs i outs ++ outputs i outs'.
Proof. unfold outputs. by rewrite filter_app, fmap_app, join_app. Qed.

Lemma outputs_one i j data : outputs i [(j, data)] = if decide (j = i) then data else [].
Proof.
  unfold outputs. rewrite filter_cons, filter_nil. cbn [fst].
  destruct (decide (j = i)); [apply app_nil_r|done].
Qed.

(** The bytes of a stream's messages. *)
Definition payload_of (i : Z) (ms : list Msg) : list byte := mjoin (said_by i ms).*2.

Lemma payload_of_app i ms ms' : payload_of i (ms ++ ms') = payload_of i ms ++ payload_of i ms'.
Proof. unfold payload_of. by rewrite said_by_app, fmap_app, join_app. Qed.

(** ** What a handler says *)

Section utter.
Context {E : Os} {W : Winnow} {R : SubmissionQueue}.
Implicit Types d : Daemon.

Definition live (d : Daemon) : Prop :=
  Forall (write_live (view (d_buffers d))) (sq_entries (sq d)).

(** From [d] to [d'] exactly these messages were queued, in this order. *)
Definition utter d d' (ms : list Msg) : Prop :=
  Forall built ms ∧ (live d → live d' ∧ sq_writes d' = sq_writes d ++ buffers_of ms).

Lemma utter_refl d : utter d d [].
Proof. split; [done|]. intros Hl. by rewrite app_nil_r. Qed.

Lemma utter_trans d d1 d2 ms ms' : utter d d1 ms → utter d1 d2 ms' → utter d d2 (ms ++ ms').
Proof.
  intros [H1 U1] [H2 U2]. split; [by apply Forall_app|].
  intros [Hl Hw]%U1. apply U2 in Hl as [Hl Hw']. split; [done|].
  by rewrite Hw', Hw, buffers_of_app, (assoc_L (++)).
Qed.

(** Nothing but operations that are not writes is queued. *)
Lemma utter_none d d' es :
  d_buffers d' = d_buffers d → sq_entries (sq d') = sq_entries (sq d) ++ es →
  Forall (λ e, ∀ fd ptr len, sqe_op e ≠ OpWrite fd ptr len) es → utter d d' [].
Proof.
  intros Hb Hq Hes. split; [done|]. unfold live, sq_writes. rewrite Hb, Hq. intros Hl. split.
  - apply Forall_app. split; [done|]. eapply Forall_impl; [exact Hes|]. intros e He.
    unfold write_live. destruct (sqe_op e) as [|fd ptr len|] eqn:Hop; [done| |done].
    by destruct (He fd ptr len).
  - rewrite writes_of_app. f_equal. clear -Hes.
    induction Hes as [|e es He _ IH]; [done|]. rewrite writes_of_cons, IH.
    unfold write_of. destruct (sqe_op e) as [|fd ptr len|] eqn:Hop; [done| |done].
    by destruct (He fd ptr len).
Qed.

Lemma utter_same d d' :
  d_buffers d' = d_buffers d → sq_entries (sq d') = sq_entries (sq d) → utter d d' [].
Proof. intros Hb Hq. apply (utter_none _ _ []); [done|by rewrite app_nil_r|done]. Qed.

Lemma utter_sent d h p d' : sent d (message h p) d' → built (h, p) → utter d d' [(h, p)].
Proof.
  intros Hs Hb. split; [by constructor|]. intros Hl. rewrite buffers_of_one.
  by split; [eapply sent_live|eapply sent_writes].
Qed.

(** ** What is told and what is the case *)

Definition phase_of (i : Z) d : Phase :=
  match streams (d_streams d) !! i with
  | Some st => Opened (remote_id st)
  | None => if decide (i < next_id (d_streams d)) then Closed else Unused
  end.

(** What was said fits the table of streams, and for the services with a
    buffer it is what they have delivered. *)
Record account d (ms : list Msg) (outs : list (Z * list byte)) : Prop := {
  ac_phase : ∀ i, 1 ≤ i → wire_phase i (phase_of i d) ms;
  ac_output : ∀ i st rb, streams (d_streams d) !! i = Some st → service_buf (service st) = Some rb →
    payload_of i ms = outputs i outs;
  ac_fresh : ∀ i, next_id (d_streams d) ≤ i → outputs i outs = [];
}.

(** A handler says [ms], and what was said still fits. *)
Definition accounts d d' (ms : list Msg) : Prop :=
  utter d d' ms ∧ ∀ ms0 outs, account d ms0 outs → account d' (ms0 ++ ms) outs.

Lemma accounts_refl d : accounts d d [].
Proof. split; [apply utter_refl|]. intros ms0 outs. by rewrite app_nil_r. Qed.

Lemma accounts_trans d d1 d2 ms ms' :
  accounts d d1 ms → accounts d1 d2 ms' → accounts d d2 (ms ++ ms').
Proof.
  intros [U1 A1] [U2 A2]. split; [by eapply utter_trans|].
  intros ms0 outs H%A1%A2. by rewrite (assoc_L (++)).
Qed.

(** What matters of a stream here. *)
Definition gist (st : Stream) : Z * option ReadBuf := (remote_id st, service_buf (service st)).

(** Two states with the same streams, as far as it matters. *)
Definition similar d d' : Prop :=
  next_id (d_streams d') = next_id (d_streams d) ∧
  ∀ i, gist <$> streams (d_streams d') !! i = gist <$> streams (d_streams d) !! i.

#[export] Instance similar_trans : Transitive similar.
Proof. intros d1 d2 d3 [Hn Hg] [Hn' Hg']. split; [by rewrite Hn', Hn|]. intros i. by rewrite Hg', Hg. Qed.

Lemma similar_streams d d' : d_streams d' = d_streams d → similar d d'.
Proof. unfold similar. by intros ->. Qed.

Lemma similar_with_stream i s s' d :
  streams (d_streams d) !! i = Some s → gist s' = gist s → similar d (with_stream i s' d).
Proof.
  intros Hi Hg. split; [done|]. intros j. cbn. destruct (decide (i = j)) as [<-|Hne].
  - rewrite lookup_insert_eq, Hi. cbn. by rewrite Hg.
  - by rewrite lookup_insert_ne.
Qed.

Lemma similar_phase d d' i : similar d d' → phase_of i d' = phase_of i d.
Proof.
  intros [Hn Hi]. specialize (Hi i). unfold phase_of. rewrite Hn.
  destruct (streams (d_streams d') !! i), (streams (d_streams d) !! i); try done.
  by injection Hi as -> _.
Qed.

Lemma similar_buf d d' i st rb :
  similar d d' → streams (d_streams d') !! i = Some st → service_buf (service st) = Some rb →
  ∃ st', streams (d_streams d) !! i = Some st' ∧ service_buf (service st') = Some rb.
Proof.
  intros [_ Hg] Hi Hb. specialize (Hg i). rewrite Hi in Hg.
  destruct (streams (d_streams d) !! i) as [st'|]; [|done]. injection Hg as _ Hb'.
  exists st'. by rewrite <-Hb'.
Qed.

(** Messages about no stream, and no change that matters. *)
Lemma accounts_quiet d d' ms :
  utter d d' ms → similar d d' → (∀ i, 1 ≤ i → said_by i ms = []) →
  (∀ i, is_Some (streams (d_streams d) !! i) → 1 ≤ i) → accounts d d' ms.
Proof.
  intros Hu Hs Hq Hids. split; [done|]. intros ms0 outs [Hph Hout Hfresh]. split.
  - intros i Hi. rewrite (similar_phase d d' i Hs). apply wire_phase_quiet; auto.
  - intros i st rb Hi Hb. destruct (similar_buf d d' i st rb Hs Hi Hb) as (st' & Hi' & Hb').
    rewrite payload_of_app. unfold payload_of at 2. rewrite Hq by eauto. cbn.
    rewrite app_nil_r. by eapply Hout.
  - destruct Hs as [-> _]. done.
Qed.

Lemma phase_open i st d : streams (d_streams d) !! i = Some st → phase_of i d = Opened (remote_id st).
Proof. unfold phase_of. by intros ->. Qed.

Lemma phase_others d d' i j :
  next_id (d_streams d') = next_id (d_streams d) → j ≠ i →
  streams (d_streams d') !! j = streams (d_streams d) !! j → phase_of j d' = phase_of j d.
Proof. intros Hn _ Hj. unfold phase_of. by rewrite Hn, Hj. Qed.

Definition wrte_msg (v : ProtocolVersion) (i r : Z) (p : list byte) : Msg := (payload_header v Wrte i r p, p).
Definition control_msg (v : ProtocolVersion) (c : Command) (i r : Z) : Msg := (payload_header v c i r [], []).

Lemma built_wrte v i r p : u32 i → u32 r → built (wrte_msg v i r p).
Proof. intros. by exists v, Wrte, i, r. Qed.
Lemma built_control v c i r : u32 i → u32 r → built (control_msg v c i r).
Proof. intros. by exists v, c, i, r. Qed.

Lemma said_wrte j v i r p : said_by j [wrte_msg v i r p] = if decide (i = j) then [wrte_msg v i r p] else [].
Proof.
  unfold said_by. case_decide as Hij.
  - rewrite filter_cons_True; [done|]. split; [done|by left].
  - rewrite filter_cons_False; [done|]. by intros [? _].
Qed.

Lemma said_clse j v i r : said_by j [control_msg v Clse i r] = if decide (i = j) then [control_msg v Clse i r] else [].
Proof.
  unfold said_by. case_decide as Hij.
  - rewrite filter_cons_True; [done|]. split; [done|by right].
  - rewrite filter_cons_False; [done|]. by intros [? _].
Qed.

Lemma said_okay j v i r : said_by j [control_msg v Okay i r] = [].
Proof. unfold said_by. rewrite filter_cons_False; [done|]. by intros [_ [|]]. Qed.

(** Data of an open stream. *)
Lemma account_wrte v i st p d ms outs extra :
  streams (d_streams d) !! i = Some st → i < next_id (d_streams d) →
  (service_buf (service st) = None ∨ outputs i extra = p) → (∀ j, j ≠ i → outputs j extra = []) →
  account d ms outs → account d (ms ++ [wrte_msg v i (remote_id st) p]) (outs ++ extra).
Proof.
  intros Hi Hlt Hp Hextra [Hph Hout Hfresh]. split.
  - intros j Hj. specialize (Hph j Hj). destruct (decide (i = j)) as [<-|Hne].
    + rewrite (phase_open i st) in * by done. destruct Hph as [Ho Hd]. split; [by apply opened_by_app|].
      rewrite said_by_app, said_wrte, decide_True by done. apply Forall_app. split; [done|].
      by constructor.
    + apply wire_phase_quiet; [done|]. by rewrite said_wrte, decide_False.
  - intros j st' rb Hj Hb. rewrite payload_of_app, outputs_app, (Hout j st' rb) by done. f_equal.
    unfold payload_of. rewrite said_wrte. destruct (decide (i = j)) as [<-|Hne].
    + rewrite Hi in Hj. injection Hj as <-. destruct Hp as [Hnone|Hp]; [congruence|].
      rewrite Hp. apply app_nil_r.
    + by rewrite Hextra by done.
  - intros j Hj. rewrite outputs_app, Hfresh, Hextra by lia. done.
Qed.

Lemma account_similar d d' ms outs : similar d d' → account d ms outs → account d' ms outs.
Proof.
  intros Hs [Hph Hout Hfresh]. split.
  - intros i. rewrite (similar_phase d d' i Hs). apply Hph.
  - intros i st rb Hi Hb. destruct (similar_buf d d' i st rb Hs Hi Hb) as (st' & Hi' & Hb'). eauto.
  - destruct Hs as [-> _]. done.
Qed.

Lemma sent_similar d l d' : sent d l d' → similar d d'.
Proof. intros (Hs & _)%sent_streams. by apply similar_streams. Qed.

(** A session's answer, or a frame of its file. *)
Lemma accounts_wrte v i st p d d' :
  streams (d_streams d) !! i = Some st → service_buf (service st) = None →
  u32 i → u32 (remote_id st) → i < next_id (d_streams d) →
  sent d (wrte v i (remote_id st) p) d' → accounts d d' [wrte_msg v i (remote_id st) p].
Proof.
  intros Hi Hb Hu Hr Hlt Hs. split; [by apply utter_sent; [|apply built_wrte]|].
  intros ms0 outs Ha. apply (account_similar d); [by eapply sent_similar|].
  pose proof (account_wrte v i st p d ms0 outs [] Hi Hlt (or_introl Hb) (λ _ _, eq_refl) Ha) as H.
  by rewrite app_nil_r in H.
Qed.

(** The end of a stream. *)
Lemma accounts_clse v i st d d1 d' :
  streams (d_streams d) !! i = Some st → u32 i → u32 (remote_id st) → i < next_id (d_streams d) →
  sent d (control v Clse i (remote_id st)) d1 → d_streams d' = removed i (d_streams d) →
  d_buffers d' = d_buffers d1 → sq d' = sq d1 →
  accounts d d' [control_msg v Clse i (remote_id st)].
Proof.
  intros Hi Hu Hr Hlt Hs Hst Hb Hq. split.
  { rewrite <-(app_nil_r [_]). eapply utter_trans; [by apply utter_sent; [|apply built_control]|].
    apply utter_same; [done|by rewrite Hq]. }
  intros ms0 outs [Hph Hout Hfresh]. split.
  - intros j Hj. specialize (Hph j Hj). destruct (decide (i = j)) as [<-|Hne].
    + rewrite (phase_open i st) in Hph by done. destruct Hph as [Ho Hd].
      unfold phase_of. rewrite Hst. cbn [removed streams next_id].
      rewrite lookup_delete_eq, decide_True by done.
      exists (remote_id st), (said_by i ms0), (control_msg v Clse i (remote_id st)).
      split; [by apply opened_by_app|]. by rewrite said_by_app, said_clse, decide_True by done.
    + apply wire_phase_quiet; [|by rewrite said_clse, decide_False].
      rewrite (phase_others d d' i j); [done|by rewrite Hst|done|]. rewrite Hst. by apply lookup_delete_ne.
  - intros j st' rb Hj Hbuf. rewrite Hst in Hj. cbn [removed streams] in Hj. apply lookup_delete_Some in Hj as [Hne Hj].
    rewrite payload_of_app. unfold payload_of at 2. rewrite said_clse, decide_False by done. cbn.
    rewrite app_nil_r. by eapply Hout.
  - by rewrite Hst.
Qed.

(** A new stream. *)
Lemma accounts_open v rid svc d d1 d2 d' :
  let i := next_id (d_streams d) in
  1 ≤ i → u32 i → u32 rid → streams (d_streams d) !! i = None →
  streams (d_streams d1) = <[i := mkStream rid svc false false]> (streams (d_streams d)) →
  next_id (d_streams d1) = i + 1 → d_buffers d1 = d_buffers d → sq d1 = sq d →
  sent d1 (control v Okay i rid) d2 → similar d2 d' → utter d2 d' [] →
  accounts d d' [control_msg v Okay i rid].
Proof.
  intros i Hi Hu Hr Hnone Hst Hn Hb Hq Hs Hsim Hend. set (m := control_msg v Okay i rid).
  assert (∀ j, said_by j [m] = []) as Hm by (intros j; apply said_okay). split.
  { change [m] with ([] ++ [m] ++ []). eapply utter_trans; [by apply (utter_same d d1); [|rewrite Hq]|].
    eapply utter_trans; [by apply utter_sent; [|apply built_control]|done]. }
  intros ms0 outs [Hph Hout Hfresh].
  apply (account_similar d1); [by etrans; [eapply sent_similar|]|]. split.
  - intros j Hj. specialize (Hph j Hj). destruct (decide (i = j)) as [<-|Hne].
    + unfold phase_of in *. rewrite Hst, lookup_insert_eq. rewrite Hnone, decide_False in Hph by lia.
      cbn in Hph |- *. split; [|by rewrite said_by_app, Hph, Hm].
      by exists ms0, m, [].
    + apply wire_phase_quiet; [|done]. unfold phase_of in *. rewrite Hst, Hn, lookup_insert_ne by done.
      fold i in Hph. destruct (streams (d_streams d) !! j); [done|].
      repeat case_decide; (exact Hph || lia).
  - intros j st rb Hj Hrb. rewrite Hst in Hj. rewrite payload_of_app. unfold payload_of at 2.
    rewrite Hm, app_nil_r. destruct (decide (i = j)) as [<-|Hne].
    + unfold phase_of in Hph. specialize (Hph i ltac:(assumption)).
      rewrite Hnone, decide_False in Hph by lia. unfold payload_of. by rewrite Hph, Hfresh.
    + rewrite lookup_insert_ne in Hj by done. by eapply Hout.
  - intros j Hj. apply Hfresh. fold i. lia.
Qed.

(** ** What each handler says *)

(** The identifiers of streams fit the wire, and are handed out. *)
Definition known d : Prop := ∀ i st, streams (d_streams d) !! i = Some st →
  1 ≤ i ∧ u32 i ∧ u32 (remote_id st) ∧ i < next_id (d_streams d).

Lemma dinv_known base n out ns d : dinv base n out ns d → known d.
Proof.
  intros Hd i st Hi. destruct (dinv_stream_u32 _ _ _ _ _ _ _ Hd Hi).
  by destruct (stream_id _ _ _ _ _ _ _ Hd Hi) as [[? _] ?].
Qed.

Lemma similar_known d d' : similar d d' → known d → known d'.
Proof.
  intros [Hn Hg] Hk i st Hi. specialize (Hg i). rewrite Hi in Hg.
  destruct (streams (d_streams d) !! i) as [st'|] eqn:Hi'; [|done]. injection Hg as Hr _.
  rewrite Hr, Hn. by apply (Hk i st').
Qed.

(** A message that is an answer to a command. *)
Definition is_reply (m : Msg) : Prop :=
  command m.1 = Cnxn ∨ command m.1 = Okay ∨ command m.1 = Clse ∧ arg0 m.1 = 0.
#[export] Instance is_reply_dec m : Decision (is_reply m).
Proof. unfold is_reply. apply _. Defined.

(** What a handler says on its own account. *)
Definition told d d' : Prop := ∃ ms, accounts d d' ms ∧ filter is_reply ms = [].

Lemma told_trans d d1 d2 : told d d1 → told d1 d2 → told d d2.
Proof.
  intros (ms & H1 & Hn1) (ms' & H2 & Hn2). exists (ms ++ ms'). split; [by eapply accounts_trans|].
  by rewrite filter_app, Hn1, Hn2.
Qed.

Lemma told_silent d d' : similar d d' → utter d d' [] → told d d'.
Proof.
  intros Hs Hu. exists []. split; [|done]. split; [done|]. intros ms0 outs.
  rewrite app_nil_r. by apply account_similar.
Qed.

Lemma told_refl d : told d d.
Proof. by apply told_silent; [apply similar_streams|apply utter_refl]. Qed.

(** Nothing was queued but perhaps operations other than writes. *)
Lemma told_same d d' : similar d d' → d_buffers d' = d_buffers d → sq d' = sq d → told d d'.
Proof. intros Hs Hb Hq. apply told_silent; [done|]. by apply utter_same; [|rewrite Hq]. Qed.

Lemma told_push d d' e :
  d_streams d' = d_streams d → d_buffers d' = d_buffers d →
  sq_entries (sq d') = sq_entries (sq d) ++ [e] → (∀ fd p len, sqe_op e ≠ OpWrite fd p len) → told d d'.
Proof.
  intros Hs Hb Hq He. apply told_silent; [by apply similar_streams|].
  eapply utter_none; [done|exact Hq|]. by constructor.
Qed.

Lemma told_wrte v i st p d d' :
  known d → streams (d_streams d) !! i = Some st → service_buf (service st) = None →
  sent d (wrte v i (remote_id st) p) d' → told d d'.
Proof.
  intros Hk Hi Hb Hs. destruct (Hk i st Hi) as (? & ? & ? & ?).
  exists [wrte_msg v i (remote_id st) p]. split; [by eapply accounts_wrte|].
  rewrite filter_cons_False; [done|]. by intros [|[|[]]].
Qed.

Lemma told_clse i st d d' :
  known d → streams (d_streams d) !! i = Some st → closed_by_device i (remote_id st) d d' → told d d'.
Proof.
  intros Hk Hi (d1 & Hs & Hst & Hb & Hq & _). destruct (Hk i st Hi) as (? & ? & ? & ?).
  exists [control_msg (d_version d) Clse i (remote_id st)]. split; [by eapply accounts_clse|].
  rewrite filter_cons_False; [done|]. intros [|[|[_ Hz]]]; [done|done|]. cbn in Hz. lia.
Qed.

Lemma relistened_told d d' : relistened d d' → told d d'.
Proof. intros (Hst & Hb & e & t & _ & _ & Hq & He). by eapply told_push. Qed.

Lemma read_sqe_read i st e : service_read_sqe i st = Some e → ∀ fd p len, sqe_op e ≠ OpWrite fd p len.
Proof. unfold service_read_sqe. by destruct (service st); intros [= <-]. Qed.

(** The next frame of a file is data of the stream. *)
Lemma continued_told i st d d' :
  known d → streams (d_streams d) !! i = Some st → continued i st d d' → told d d'.
Proof.
  intros Hk Hi. unfold continued. destruct (service_read_sqe i st) as [e|] eqn:He.
  { intros (q & -> & Hq). by eapply told_push; [..|exact Hq|eapply read_sqe_read]. }
  destruct (service st) as [[[|sender|rcv]]| | |] eqn:Hs; try (intros ->; apply told_refl).
  intros (o & sender' & w' & _ & Hc).
  assert (∀ s', remote_id s' = remote_id st → service_buf (service s') = None →
    similar d (with_stream i s' (set_os w' d))) as Hsim.
  { intros s' Hr Hb. trans (set_os w' d); [by apply similar_streams|].
    apply (similar_with_stream i st); [done|]. unfold gist. by rewrite Hr, Hb, Hs. }
  destruct o as [[hdr data]|].
  - set (s' := mkStream _ _ _ _) in Hc. specialize (Hsim s' eq_refl eq_refl).
    eapply told_trans; [by apply told_same|].
    eapply (told_wrte _ i s'); [by eapply similar_known|apply lookup_with_stream|done|exact Hc].
  - subst d'. apply told_same; [by apply Hsim|done|done].
Qed.

Lemma okay_told i d d' : known d → okay_post i d d' → told d d'.
Proof.
  intros Hk. unfold okay_post. destruct (streams (d_streams d) !! i) as [st|] eqn:Hi.
  2: { intros ->. apply told_refl. }
  assert (similar d (with_stream i (stream_set_waiting st false) d)) as Hsim
    by by apply (similar_with_stream i st).
  intros Hc. eapply told_trans; [by apply told_same|].
  eapply continued_told; [by eapply similar_known|apply lookup_with_stream|exact Hc].
Qed.

Lemma clse_told i d d' : known d → clse_post i d d' → told d d'.
Proof.
  intros Hk. unfold clse_post. destruct (streams (d_streams d) !! i) as [st|] eqn:Hi.
  2: { intros ->. apply told_refl. }
  destruct (service st) as [sv|sh| |f] eqn:Hs; try (intros Hc; by eapply told_clse).
  intros ->. apply told_same; [|done|done].
  trans (set_os (w_set_log (cons (CShutdownWrite (fwd_socket f))) (os d)) d);
    [by apply similar_streams|]. by apply (similar_with_stream i st).
Qed.

(** A service whose input has failed is closed. *)
Lemma write_told i st (r : result unit io_error) w' d d' :
  known d → streams (d_streams d) !! i = Some st →
  match r with Ok _ => d' = set_os w' d | Err _ => closed_by_device i (remote_id st) (set_os w' d) d' end →
  told d d'.
Proof.
  intros Hk Hi Hr. apply (told_trans _ (set_os w' d)); [by apply told_same; [apply similar_streams|..]|].
  destruct r; [subst d'; apply told_refl|]. by eapply told_clse.
Qed.

Lemma wrte_told i st payload d d' :
  known d → streams (d_streams d) !! i = Some st → wrte_service i st payload d d' → told d d'.
Proof.
  intros Hk Hi. unfold wrte_service. destruct (service st) as [svc|sh| |f] eqn:Hs; [| |done|].
  - intros (r & svc' & w' & _ & Hr). set (st' := stream_set_service st (Service.Sync svc')) in *.
    set (d2 := with_stream i st' (set_os w' d)) in *.
    assert (similar d d2) as Hsim.
    { trans (set_os w' d); [by apply similar_streams|]. apply (similar_with_stream i st); [done|].
      unfold gist. by rewrite Hs. }
    assert (known d2) as Hk2 by by eapply similar_known.
    assert (streams (d_streams d2) !! i = Some st') as Hi2 by apply lookup_with_stream.
    eapply told_trans; [by apply (told_same d d2)|]. destruct r as [st0|hdr data| |].
    + by eapply (told_wrte _ i st').
    + by eapply (told_wrte _ i st').
    + destruct (waiting_for_okay st); [subst d'; apply told_refl|]. by eapply continued_told.
    + by eapply (told_clse i st').
  - intros (r & w' & _ & Hr). by eapply write_told.
  - intros (r & w' & _ & Hr). by eapply write_told.
Qed.

(** ** Answers *)

(** A command that the daemon has to answer. *)
Definition is_request (c : AdbHeader * option (list byte)) : Prop :=
  command c.1 = Cnxn ∨ command c.1 = Open ∨ command c.1 = Wrte.
#[export] Instance is_request_dec c : Decision (is_request c).
Proof. unfold is_request. apply _. Defined.

(** Its answer, from a device with identity [i]: the banner in the negotiated
    version, the OKAY or the refusal of an OPEN, the acknowledgement of a
    WRTE. *)
Definition answers (i : DeviceInfo) (c : AdbHeader * option (list byte)) (m : Msg) : Prop :=
  let h := c.1 in
  match command h with
  | Cnxn => m.2 = cnxn_payload i ∧
      m.1 = payload_header (negotiated (arg0 h)) Cnxn A_VERSION_V1 (1024 * 1024) m.2
  | Open => arg1 m.1 = arg0 h ∧ (command m.1 = Clse ∧ arg0 m.1 = 0 ∨
      command m.1 = Okay ∧ 1 ≤ arg0 m.1 ∧ is_Some (p ← c.2; name ← service_name p; service_kind name))
  | Wrte => command m.1 = Okay ∧ arg0 m.1 = arg1 h ∧ arg1 m.1 = arg0 h
  | _ => False
  end.

Definition answered (c : AdbHeader * option (list byte)) d d' : Prop :=
  ∃ ms, accounts d d' ms ∧ Forall2 (answers (info (conn d))) (filter is_request [c]) (filter is_reply ms).

Lemma told_answered c d d' : ¬ is_request c → told d d' → answered c d d'.
Proof.
  intros Hc (ms & H & Hn). exists ms. split; [done|]. rewrite Hn, filter_cons_False by done. constructor.
Qed.

Lemma answered_told c d d1 d' : answered c d d1 → told d1 d' → answered c d d'.
Proof.
  intros (ms & H & Ha) (ms' & H' & Hn). exists (ms ++ ms'). split; [by eapply accounts_trans|].
  by rewrite filter_app, Hn, app_nil_r.
Qed.

Lemma answered_one c m d d' :
  is_request c → is_reply m → answers (info (conn d)) c m → accounts d d' [m] → answered c d d'.
Proof.
  intros Hc Hm Ha H. exists [m]. split; [done|]. rewrite !filter_cons_True by done.
  by constructor.
Qed.

(** An answer about no stream that is open. *)
Lemma accounts_reply h p d d1 d' :
  known d → similar d d1 → d_buffers d1 = d_buffers d → sq d1 = sq d →
  sent d1 (message h p) d' → built (h, p) → (∀ i, 1 ≤ i → said_by i [(h, p)] = []) →
  accounts d d' [(h, p)].
Proof.
  intros Hk Hsim Hb Hq Hs Hbuilt Hsaid. apply accounts_quiet; [| |done|by intros i [st Hi]; apply (Hk i st)].
  - change [(h, p)] with ([] ++ [(h, p)]). eapply utter_trans; [by apply (utter_same d d1); [|rewrite Hq]|].
    by apply utter_sent.
  - trans d1; [done|by eapply sent_similar].
Qed.

Lemma accounts_control v c i r d d1 d' :
  known d → similar d d1 → d_buffers d1 = d_buffers d → sq d1 = sq d →
  sent d1 (control v c i r) d' → u32 i → u32 r → c = Okay ∨ c = Clse ∧ i = 0 →
  accounts d d' [control_msg v c i r].
Proof.
  intros Hk Hsim Hb Hq Hs Hi Hr Hc. eapply accounts_reply; [done|exact Hsim|done..|exact Hs| |].
  - by apply built_control.
  - intros j Hj. destruct Hc as [->|[-> ->]]; [apply (said_okay j v)|].
    change (said_by j [control_msg v Clse 0 r] = []). rewrite said_clse, decide_False; [done|lia].
Qed.

(** The refusal of an OPEN. *)
Lemma refused_answered v h p d d1 d' :
  known d → command h = Open → u32 (arg0 h) → similar d d1 → d_buffers d1 = d_buffers d →
  sq d1 = sq d → sent d1 (control v Clse 0 (arg0 h)) d' → answered (h, p) d d'.
Proof.
  intros Hk Hh Hu Hsim Hb Hq Hs. apply (answered_one _ (control_msg v Clse 0 (arg0 h))).
  - right. by left.
  - right. by right.
  - unfold answers. cbn [fst]. rewrite Hh. split; [done|]. by left.
  - eapply accounts_control; try done. by right.
Qed.

Lemma open_answered h p name d d' :
  known d → ids_ok (d_streams d) → next_id (d_streams d) ≤ u32_max → u32 (arg0 h) →
  command h = Open → service_name p = Some name → opened (arg0 h) name d d' →
  answered (h, Some p) d d'.
Proof.
  intros Hk [Hn _] Hmax Hu Hh Hname.
  intros [(d1 & Hst & Hb & Hq & _ & Hs)|(k & svc & d1 & d2 & Hkind & _ & _ & Hnone & Hst & Hnx & Hb & Hq & _ & Hs & Hend)].
  { eapply refused_answered; [done..|by apply similar_streams|done|done|exact Hs]. }
  set (i := next_id (d_streams d)) in *.
  apply (answered_one _ (control_msg (d_version d1) Okay i (arg0 h))).
  - right. by left.
  - right. by left.
  - unfold answers. cbn [fst snd]. rewrite Hh. split; [done|]. right. split_and!; [done|cbn; lia|].
    cbn. by rewrite Hname; cbn; rewrite Hkind.
  - eapply accounts_open; try done; [unfold u32, u32_max in *; lia|..];
      destruct (service_read_sqe i _) as [e|] eqn:He.
    + destruct Hend as (q & -> & _). by apply similar_streams.
    + destruct Hend as [->|[_ ->]]; by apply similar_streams.
    + destruct Hend as (q & -> & Hqe). eapply utter_none; [done|exact Hqe|].
      constructor; [by eapply read_sqe_read|done].
    + destruct Hend as [->|[_ ->]]; by apply utter_same.
Qed.

(** Every command is answered, and what is said fits the streams. *)
Lemma command_answered base n out ns h p d d' :
  dinv base n out ns d → header_u32 h → command_post h p d d' → answered (h, p) d d'.
Proof.
  intros Hd (Hu0 & Hu1 & _). pose proof (dinv_known _ _ _ _ _ Hd) as Hk.
  pose proof (di_ids _ _ _ _ _ Hd) as (Hids & Hn & Hmax).
  assert (told d d' → command h ≠ Cnxn → command h ≠ Open → command h ≠ Wrte →
    answered (h, p) d d') as Hother by (intros; apply told_answered; [by intros [|[]]|done]).
  unfold command_post. destruct (command h) eqn:Hh, p as [p|]; try done.
  - intros Hs. set (m := (payload_header (negotiated (arg0 h)) Cnxn A_VERSION_V1 (1024 * 1024)
      (cnxn_payload (info (conn d))), cnxn_payload (info (conn d)))).
    apply (answered_one _ m); [by left|by left|unfold answers; cbn [fst]; by rewrite Hh|].
    apply (accounts_reply _ _ _ (set_version (negotiated (arg0 h)) d));
      [done|by apply similar_streams|done|done|exact Hs| |].
    + by exists (negotiated (arg0 h)), Cnxn, A_VERSION_V1, (1024 * 1024).
    + intros i _. unfold said_by. rewrite filter_cons_False; [done|]. by intros [_ [|]].
  - intros ->. apply Hother; [apply told_refl|done..].
  - intros ->. apply Hother; [apply told_refl|done..].
  - destruct (service_name p) as [name|] eqn:Hname.
    + intros Ho. eapply open_answered; [done..|lia|done|done|done|exact Ho].
    + intros Hs. eapply refused_answered; [done..|by apply similar_streams|done|done|exact Hs].
  - intros Hc. apply Hother; [by eapply okay_told|done..].
  - intros Hc. apply Hother; [by eapply clse_told|done..].
  - intros Hc. apply Hother; [by eapply clse_told|done..].
  - intros (d1 & Hs & Hw). pose proof (sent_similar _ _ _ Hs) as Hsim.
    apply (answered_told _ _ d1).
    + apply (answered_one _ (control_msg (d_version d) Okay (arg1 h) (arg0 h))).
      * right. by right.
      * right. by left.
      * unfold answers. cbn [fst]. by rewrite Hh.
      * eapply accounts_control; [done|by apply similar_streams|done|done|exact Hs|done|done|by left].
    + destruct (streams (d_streams d) !! arg1 h) as [st|] eqn:Hi; [|subst d'; apply told_refl].
      destruct (sent_streams _ _ _ Hs) as (Hst & _).
      eapply wrte_told; [by eapply similar_known|by rewrite Hst|exact Hw].
  - intros ->. apply Hother; [apply told_refl|done..].
  - intros ->. apply Hother; [apply told_refl|done..].
Qed.

(** ** Completions *)

(** The bytes of a completed read that are handed on to the host. *)
Definition delivery (rb : Service.t → option ReadBuf) (i res : Z) d : list (Z * list byte) :=
  match streams (d_streams d) !! i with
  | Some st =>
      if decide (res ≤ 0) then []
      else match rb (service st) with
      | Some b => [(i, take (Z.to_nat res) (default [] (w_heap (os d) !! rb_ptr b)))]
      | None => []
      end
  | None => []
  end.

Definition delivered_by (c : Cqe) (l : Loop) : list (Z * list byte) :=
  match cqe_token c with
  | Some (mkUserData UserDataOpType.PtyRead (Some i)) => delivery pty_buf i (cqe_result c) (dm l)
  | Some (mkUserData UserDataOpType.SocketRead (Some i)) => delivery socket_buf i (cqe_result c) (dm l)
  | _ => []
  end.

(** From [d] to [d'] something is said of the bytes [extra]. *)
Definition handed_on d d' (extra : list (Z * list byte)) : Prop :=
  ∃ ms, utter d d' ms ∧ filter is_reply ms = [] ∧
    ∀ ms0 outs, account d ms0 outs → account d' (ms0 ++ ms) (outs ++ extra).

Lemma told_handed_on d d' : told d d' → handed_on d d' [].
Proof.
  intros (ms & [Hu H] & Hn). exists ms. split_and!; [done..|]. intros ms0 outs. rewrite app_nil_r. apply H.
Qed.

Lemma output_handed_on (rb : Service.t → option ReadBuf) i res d d' :
  known d → (∀ sv b, rb sv = Some b → service_buf sv = Some b) →
  output_post rb i res d d' → handed_on d d' (delivery rb i res d).
Proof.
  intros Hk Hrb. unfold output_post, delivery. destruct (streams (d_streams d) !! i) as [st|] eqn:Hi.
  2: { intros (Hst & Hb & Hq). by apply told_handed_on, told_same; [apply similar_streams|..]. }
  case_decide; [by intros; eapply told_handed_on, told_clse|].
  destruct (rb (service st)) as [b|] eqn:Hb; [|intros ->; apply told_handed_on, told_refl].
  intros (buf & Hbuf & Hs). rewrite Hbuf. cbn [default].
  destruct (Hk i st Hi) as (? & ? & ? & ?). set (st' := stream_set_waiting st true) in *.
  assert (similar d (with_stream i st' d)) as Hsim by by apply (similar_with_stream i st).
  set (p := take (Z.to_nat res) buf) in *.
  exists [wrte_msg (d_version d) i (remote_id st) p]. split_and!.
  - change [wrte_msg (d_version d) i (remote_id st) p]
      with ([] ++ [wrte_msg (d_version d) i (remote_id st) p]).
    eapply utter_trans; [by apply (utter_same d (with_stream i st' d))|].
    by apply utter_sent; [|apply built_wrte].
  - rewrite filter_cons_False; [done|]. by intros [|[|[]]].
  - intros ms0 outs Ha. apply (account_similar d); [by trans (with_stream i st' d); [|eapply sent_similar]|].
    apply account_wrte; [done|done| | |done].
    + right. rewrite outputs_one, decide_True by done. done.
    + intros j Hj. by rewrite outputs_one, decide_False.
Qed.

(** What the handling of a completion says. *)
Definition responds (c : Cqe) (l l' : Loop) (ms : list Msg) : Prop :=
  Forall built ms ∧ sq_writes (dm l') = sq_writes (dm l) ++ buffers_of ms ∧
  (∀ ms0 outs, account (dm l) ms0 outs → account (dm l') (ms0 ++ ms) (outs ++ delivered_by c l)) ∧
  Forall2 (answers (info (conn (dm l)))) (filter is_request (heard_by c l)) (filter is_reply ms).

Lemma handed_responds c l l' :
  live (dm l) → heard_by c l = [] → handed_on (dm l) (dm l') (delivered_by c l) →
  ∃ ms, responds c l l' ms.
Proof.
  intros Hl Hc (ms & [Hb Hu] & Hn & Ha). exists ms. destruct (Hu Hl) as [_ Hw].
  split_and!; [done..|]. rewrite Hc, Hn. constructor.
Qed.

Lemma handled_responds base n s c rest t l :
  sys_inv base n s → cqe_token c = Some t →
  handled_as base n (outside (handled s c rest l)) t (cqe_result c) (s_loop s) l →
  ∃ ms, responds c (s_loop s) l ms.
Proof.
  intros Hinv Ht Hh. pose proof (si_dinv _ _ _ Hinv) as Hd. pose proof (dinv_known _ _ _ _ _ Hd) as Hk.
  assert (live (dm (s_loop s))) as Hl by (eapply dcore_live, Hd).
  assert (¬ is_bulk t → heard_by c (s_loop s) = []) as Hquiet
    by (intros Hb; unfold heard_by; rewrite Ht; by rewrite decide_False).
  assert (¬ is_service_read t → delivered_by c (s_loop s) = []) as Hnone.
  { intros Hr. unfold delivered_by. rewrite Ht. destruct t as [[] [i|]]; done. }
  destruct Hh as [Hp Hr|Hp Hm|Hp Hst Hq Hw|i -> Ho|i -> Ho].
  - apply handed_responds; [done|apply Hquiet; unfold is_bulk, is_poll in *; intros [|]; congruence|].
    rewrite Hnone by (intros Hs%service_read_not; tauto). by apply told_handed_on, relistened_told.
  - assert (heard_by c (s_loop s) = heard_in (cqe_result c) (s_loop s)) as Heq
      by (unfold heard_by; by rewrite Ht, decide_True).
    assert (delivered_by c (s_loop s) = []) as Hnil by (apply Hnone; intros Hs%service_read_not; tauto).
    unfold message_post in Hm. destruct (heard_in _ _) as [|hp cs] eqn:Hheard.
    { destruct Hm as [Hm _]. apply handed_responds; [done..|]. rewrite Hnil.
      by apply told_handed_on, relistened_told. }
    destruct Hm as (h & p & Hcs & Hu & d1 & ns1 & _ & _ & Hc & Hr & _).
    rewrite Hcs in Heq.
    destruct (answered_told (h, p) (dm (s_loop s)) d1 (dm l)) as (ms & [[Hb Hwr] Ha] & Hf);
      [by eapply command_answered|by apply relistened_told|].
    destruct (Hwr Hl) as [_ Hw]. exists ms. split_and!; [done..| |by rewrite Heq].
    intros ms0 outs. rewrite Hnil, app_nil_r. apply Ha.
  - exists []. split_and!; [done|by rewrite app_nil_r| |].
    + intros ms0 outs. rewrite Hnone, !app_nil_r by (intros Hs%service_read_not; tauto).
      by apply account_similar, similar_streams.
    + rewrite Hquiet; [constructor|]. unfold is_write, is_bulk in *. intros [|]; congruence.
  - apply handed_responds; [done|by apply Hquiet; destruct 1|]. unfold delivered_by. rewrite Ht.
    apply output_handed_on; [done| |done]. by intros [].
  - apply handed_responds; [done|by apply Hquiet; destruct 1|]. unfold delivered_by. rewrite Ht.
    apply output_handed_on; [done| |done]. by intros [].
Qed.

(** ** Runs *)

(** What was said so far, what services have delivered of it, and the
    answers. *)
Record dialogue (inf : DeviceInfo) (s : Sys) (ms : list Msg) (outs : list (Z * list byte)) : Prop := {
  dl_info : info (conn (dm (s_loop s))) = inf;
  dl_built : Forall built ms;
  dl_wire : s_written s ++ sq_writes (dm (s_loop s)) = buffers_of ms;
  dl_account : account (dm (s_loop s)) ms outs;
  dl_answers : Forall2 (answers inf) (filter is_request (s_heard s)) (filter is_reply ms);
}.

Lemma start_dialogue base e0 eo ei info w l :
  start_ok base info w → run_start (Loop_new e0 eo ei info w) = Done (Ok tt, l) →
  dialogue info (mkSys l [] [] [] no_history) [] [].
Proof.
  intros Hst Hrun. destruct (run_start_inv base e0 eo ei info w l Hst Hrun) as (_ & Hnew & _ & Hw).
  destruct (run_start_on mem _ _ _ Hrun) as [_ Hinf].
  split; cbn [s_loop]; [exact Hinf|done|done| |constructor]. split.
  - intros i Hi. unfold phase_of. rewrite Hnew. cbn. rewrite lookup_empty, decide_False by lia. done.
  - intros i st rb. rewrite Hnew. cbn. by rewrite lookup_empty.
  - done.
Qed.

(** The other steps say nothing. *)
Lemma same_dialogue inf s s' ms outs :
  dialogue inf s ms outs → s_written s' ++ sq_writes (dm (s_loop s')) = s_written s ++ sq_writes (dm (s_loop s)) →
  d_streams (dm (s_loop s')) = d_streams (dm (s_loop s)) →
  info (conn (dm (s_loop s'))) = info (conn (dm (s_loop s))) → s_heard s' = s_heard s →
  dialogue inf s' ms outs.
Proof.
  intros [Hinf Hb Hw Ha Hr] Hw' Hst Hi Hh. split; [by rewrite Hi|done|by rewrite Hw'| |by rewrite Hh].
  eapply account_similar; [|exact Ha]. by apply similar_streams.
Qed.

Lemma submit_dialogue inf s ms outs :
  dialogue inf s ms outs →
  dialogue inf (mkSys (submitted (s_loop s)) (s_inflight s ++ sq_entries (sq (dm (s_loop s)))) (s_cq s) []
    (hi_write (sq_writes (dm (s_loop s))) (s_hist s))) ms outs.
Proof.
  intros H. eapply same_dialogue; [exact H| |done..]. unfold s_written, sq_writes. cbn.
  by rewrite sq_empty_law, app_nil_r.
Qed.

Lemma complete_dialogue inf base n s pre e post res l ms outs :
  sys_inv base n s → s_inflight s = pre ++ e :: post → kernel_effect e res (s_loop s) l →
  dialogue inf s ms outs →
  dialogue inf (mkSys l (pre ++ post) (s_cq s ++ [mkCqe (sqe_user_data e) res]) (s_batch s)
    (hi_deliver (read_output e res l) (write_done pre e res l) (s_hist s))) ms outs.
Proof.
  intros Hinv Hfl He H.
  destruct (kernel_effect_inv _ _ _ _ _ _ _ _ (si_dinv _ _ _ Hinv) He) as (_ & Hc & Hq & _).
  eapply same_dialogue; [exact H|..]; cbn [s_loop].
  - unfold sq_writes, d_buffers. by rewrite Hq, Hc.
  - unfold d_streams. by rewrite Hc.
  - by rewrite Hc.
  - done.
Qed.

Lemma handle_dialogue inf base n s c rest l ms outs :
  writes_progress → sys_inv base n s → n < u32_max → s_batch s = c :: rest →
  handle_cqe c (s_loop s) = Done (None, l) → dialogue inf s ms outs →
  ∃ ms', dialogue inf (handled s c rest l) (ms ++ ms') (outs ++ delivered_by c (s_loop s)).
Proof.
  intros Hp Hinv Hn Hb Hh [Hinf Hbuilt Hw Ha Hr].
  destruct (wp_done _ _ _ _ _ _ (wp_handle_cqe base n s c rest Hp Hinv Hn Hb) Hh eq_refl)
    as (_ & t & Ht & Has).
  destruct (handled_responds _ _ _ _ _ _ _ Hinv Ht Has) as (ms' & Hb' & Hw' & Ha' & Hr').
  destruct (handle_cqe_on mem c mem_writes _ _ _ Hh) as [_ Hi].
  exists ms'. split; cbn [handled s_loop].
  - by rewrite Hi.
  - by apply Forall_app.
  - rewrite Hw', (assoc_L (++)), buffers_of_app. by f_equal.
  - by apply Ha'.
  - rewrite Hinf in Hr'. unfold s_heard. cbn. rewrite !filter_app. by apply Forall2_app.
Qed.

Lemma step_dialogue inf base n s s' ms outs :
  writes_progress → sys_inv base n s → n < u32_max → dialogue inf s ms outs → step s (Running s') →
  ∃ ms' outs', dialogue inf s' (ms ++ ms') (outs ++ outs').
Proof.
  intros Hp Hinv Hn Hdl Hstep. inversion Hstep; subst.
  - exists [], []. rewrite !app_nil_r. by apply submit_dialogue.
  - exists [], []. rewrite !app_nil_r. by eapply same_dialogue.
  - exists [], []. rewrite !app_nil_r. by eapply complete_dialogue.
  - edestruct handle_dialogue as [ms' H]; [done..|]. by eexists ms', _.
Qed.

Lemma reachable_dialogue base e0 eo ei info w n s :
  writes_progress → start_ok base info w → 1 + Z.of_nat n < u32_max →
  reachable n e0 eo ei info w s → ∃ ms outs, dialogue info s ms outs.
Proof.
  intros Hp Hst Hn (l & Hrun & Hsteps).
  destruct (run_start_inv base e0 eo ei info w l Hst Hrun) as (Hinv & _).
  pose proof (start_dialogue base e0 eo ei info w l Hst Hrun) as Hdl.
  revert Hinv Hdl. set (s0 := mkSys l [] [] [] no_history) in *. clearbody s0.
  induction Hsteps as [s0|k s0 s1 s2 Hsteps IH Hstep]; intros Hinv Hdl; [by exists [], []|].
  destruct IH as (ms & outs & H); [lia|done..|].
  edestruct (step_dialogue info base (1 + Z.of_nat k) s1 s2) as (ms' & outs' & H');
    [done|by eapply steps_inv; [..|lia]|lia|exact H|done|]. eauto.
Qed.

(** What the daemon has said: the messages that it has queued for the host so
    far, in that order, whether or not they have been written yet. *)
Definition said (s : Sys) : list Msg :=
  let ws := s_written s ++ sq_writes (dm (s_loop s)) in
  default [] (host_read (length ws) (wire ws)).

Lemma length_buffers ms : (length ms ≤ length (buffers_of ms))%nat.
Proof.
  induction ms as [|m ms IH]; [done|]. rewrite buffers_of_cons, length_app.
  destruct m as [h [|b p]]; cbn [length message fst snd]; lia.
Qed.

Lemma dialogue_said base n inf s ms outs : sys_inv base n s → dialogue inf s ms outs → said s = ms.
Proof.
  intros Hinv [_ Hb Hw _ _].
  destruct (whole_messages_app (s_written s) (sq_writes (dm (s_loop s)))) as (ms' & Hms' & Hw');
    [apply Hinv|apply (si_dinv _ _ _ Hinv)|].
  assert (ms = ms') as -> by (eapply built_decode; [done..|congruence]).
  unfold said. rewrite Hw, host_read_messages; [done|apply length_buffers|done].
Qed.

(** If the kernel has completed the writes in order, each of them whole, the
    host has read a beginning of it, and all of it once no write is
    outstanding. *)
Lemma host_reads_said base e0 eo ei info w n s :
  writes_progress → start_ok base info w → 1 + Z.of_nat n < u32_max →
  reachable n e0 eo ei info w s → in_order s →
  host_has_read s `prefix_of` said s ∧ (unwritten s = [] → host_has_read s = said s).
Proof.
  intros Hp Hst Hn Hreach Hord. pose proof (reachable_inv _ _ _ _ _ _ n s Hp Hst Hn Hreach) as Hinv.
  destruct (whole_messages_app (s_written s) (sq_writes (dm (s_loop s)))) as (ms & Hms & Hw);
    [apply Hinv|apply (si_dinv _ _ _ Hinv)|].
  assert (said s = ms) as -> by (unfold said; by rewrite Hw, host_read_messages; [|apply length_buffers|]).
  by eapply host_has_read_prefix.
Qed.

(** ** What the host is told *)

(** C10: what the daemon says about a stream follows the life of the stream, for
    every identifier and in every reachable state: no data and no CLSE are
    queued for one that was never handed out; after the OKAY of its OPEN an
    open stream has sent data only, all of it to the peer that opened it; and
    of a closed one a single CLSE, to the same peer, is the last message of the
    two kinds.  As long as the kernel has completed the writes to the host in
    order and whole, what the host has read about the stream so far is a
    beginning of that; and if no write is outstanding, what it has read follows
    the life of the stream in the same way. *)
Theorem stream_lifecycle base e0 eo ei info w n s i :
  writes_progress → start_ok base info w → 1 + Z.of_nat n < u32_max →
  reachable n e0 eo ei info w s → 1 ≤ i →
  wire_phase i (phase_of i (dm (s_loop s))) (said s) ∧
  (in_order s →
    said_by i (host_has_read s) `prefix_of` said_by i (said s) ∧
    (unwritten s = [] → wire_phase i (phase_of i (dm (s_loop s))) (host_has_read s))).
Proof.
  intros Hp Hst Hn Hreach Hi.
  assert (wire_phase i (phase_of i (dm (s_loop s))) (said s)) as Hsaid.
  2: { split; [exact Hsaid|]. intros Hord.
       destruct (host_reads_said base e0 eo ei info w n s Hp Hst Hn Hreach Hord) as [[rest Hr] Hall].
       split; [|by intros ->%Hall]. rewrite Hr, said_by_app. by apply prefix_app_r. }
  destruct (reachable_dialogue base e0 eo ei info w n s Hp Hst Hn Hreach) as (ms & outs & H).
  rewrite (dialogue_said base (1 + Z.of_nat n) info s ms outs); [|by eapply reachable_inv|done].
  by apply (ac_phase _ _ _ (dl_account _ _ _ _ H)).
Qed.

(** C9: every command is answered, in the order of the commands: in every
    reachable state the answers that the daemon has queued for the host
    (banners, OKAYs and refusals) are, one for one, those of the CNXN, OPEN and
    WRTE commands that were handled, each addressed to the sender of its
    command, and there are no others.  As long as the kernel has completed the
    writes to the host in order and whole, the answers that the host has read
    are, one for one, those of the first of these commands; and if no write is
    outstanding, of all of them. *)
Theorem requests_answered base e0 eo ei info w n s :
  writes_progress → start_ok base info w → 1 + Z.of_nat n < u32_max →
  reachable n e0 eo ei info w s →
  let requests := filter is_request (s_heard s) in
  Forall2 (answers info) requests (filter is_reply (said s)) ∧
  (in_order s → ∃ k,
    Forall2 (answers info) (take k requests) (filter is_reply (host_has_read s)) ∧
    (unwritten s = [] → take k requests = requests)).
Proof.
  intros Hp Hst Hn Hreach requests.
  assert (Forall2 (answers info) requests (filter is_reply (said s))) as Hsaid.
  2: { split; [exact Hsaid|]. intros Hord.
       destruct (host_reads_said base e0 eo ei info w n s Hp Hst Hn Hreach Hord) as [[rest Hr] Hall].
       exists (length (filter is_reply (host_has_read s))). split.
       - rewrite Hr, filter_app in Hsaid. apply (Forall2_take _ _ _ (length (filter is_reply (host_has_read s)))) in Hsaid.
         by rewrite take_app_length in Hsaid.
       - intros Hnone. rewrite (Hall Hnone). apply take_ge. by rewrite (Forall2_length _ _ _ Hsaid). }
  destruct (reachable_dialogue base e0 eo ei info w n s Hp Hst Hn Hreach) as (ms & outs & H).
  rewrite (dialogue_said base (1 + Z.of_nat n) info s ms outs); [|by eapply reachable_inv|done].
  apply H.
Qed.
End utter.
