(* ===== verification/Output.v ===== *)
(** The output of services is sent on whole and in order.  What the
    kernel has read for an open stream is what was sent on for it, followed by
    what is still to be handled: no buffer is written to between the
    completion of its read and the message that carries its bytes. *)
From Stdlib Require Import ZArith Lia Strings.Byte.
From stdpp Require Import base numbers list gmap strings.
From S2P Require Import Prelude.
From S2P Require Import Bytes.
From S2P Require Import Winnow.
From S2P Require Import DeviceInfo.
From S2P Require Import Message.
From S2P Require Import Buffers.
From S2P Require Import Os.
From S2P Require Import Sync.
From S2P Require Import Shell.
From S2P Require Import Forward.
From S2P Require Import Stream.
From S2P Require Import UserData.
From S2P Require Import Ring.
From S2P Require Import Ffs.
From S2P Require Import Connection.
From S2P Require Import Wire.
From S2P Require Import ConnectionFacts.
From S2P Require Import Commands.
From S2P Require Import System.
From S2P Require Import Tame.
From S2P Require Import Safety.
From S2P Require Import Host.
From S2P Require Import Flow.
From S2P Require Import Targets.
From S2P Require Import Dialogue.

Open Scope Z_scope.

#[local] Opaque UserData_u64 BULK_OUT_BUF_SIZE.

Section output.
Context {E : Os} {W : Winnow} {R : SubmissionQueue}.
Implicit Types d : Daemon.

(** The bytes for stream [i] that completions would hand on now. *)
Definition deliverable (i : Z) (cs : list Cqe) (l : Loop) : list byte :=
  outputs i (cs ≫= λ c, delivered_by c l).

(** The bytes that the kernel has read for a stream and the daemon has not
    handled yet. *)
Definition awaiting (i : Z) (s : Sys) : list byte := deliverable i (s_batch s ++ s_cq s) (s_loop s).

Lemma deliverable_app i cs cs' l : deliverable i (cs ++ cs') l = deliverable i cs l ++ deliverable i cs' l.
Proof. unfold deliverable. by rewrite bind_app, outputs_app. Qed.

Lemma deliverable_one i c l : deliverable i [c] l = outputs i (delivered_by c l).
Proof. unfold deliverable. cbn. by rewrite app_nil_r. Qed.

Lemma delivery_streams (rb : Service.t → option ReadBuf) i res d : (delivery rb i res d).*1 ⊆ [i].
Proof.
  unfold delivery. destruct (streams (d_streams d) !! i) as [st|]; [|set_solver].
  case_decide; [set_solver|]. destruct (rb (service st)); set_solver.
Qed.

Lemma outputs_other i os : i ∉ os.*1 → outputs i os = [].
Proof.
  unfold outputs. induction os as [|[j p] os IH]; [done|]. cbn [fmap list_fmap fst].
  intros Hi. rewrite filter_cons_False by set_solver. apply IH. set_solver.
Qed.

(** Only completions of the stream's own reads hand on its bytes. *)
Lemma delivered_token i c l : outputs i (delivered_by c l) ≠ [] → ∃ t, cqe_token c = Some t ∧ reads_stream i t.
Proof.
  unfold delivered_by. destruct (cqe_token c) as [[[] [j|]]|]; try done; intros Hne;
    (destruct (decide (j = i)) as [->|Hj]; [by eexists|]); destruct Hne; apply outputs_other;
    intros Hin%delivery_streams; set_solver.
Qed.

Lemma deliverable_none i cs l : reads_of i (omap cqe_token cs) = [] → deliverable i cs l = [].
Proof.
  induction cs as [|c cs IH]; [done|]. intros Hr. change (c :: cs) with ([c] ++ cs) in *.
  rewrite omap_app, reads_of_app in Hr. apply app_eq_nil in Hr as [Hc Hcs].
  rewrite deliverable_app, deliverable_one, IH, app_nil_r by done.
  destruct (outputs i (delivered_by c l)) eqn:Hd; [done|].
  destruct (delivered_token i c l) as (t & Ht & Hri); [by rewrite Hd|].
  cbn in Hc. rewrite Ht in Hc. unfold reads_of in Hc. by rewrite filter_cons_True in Hc.
Qed.

(** ** A buffer that is not touched *)

Lemma delivery_same (rb : Service.t → option ReadBuf) i res d d' st st' :
  streams (d_streams d) !! i = Some st → streams (d_streams d') !! i = Some st' →
  rb_ptr <$> rb (service st') = rb_ptr <$> rb (service st) →
  (∀ b, rb (service st) = Some b → w_heap (os d') !! rb_ptr b = w_heap (os d) !! rb_ptr b) →
  delivery rb i res d' = delivery rb i res d.
Proof.
  intros Hi Hi' Hp Hh. unfold delivery. rewrite Hi, Hi'. case_decide; [done|].
  destruct (rb (service st')) as [b'|], (rb (service st)) as [b|]; try done.
  injection Hp as ->. by rewrite Hh.
Qed.

(** The read of a stream names its buffer. *)
Lemma user_data_inj t t' : user_data_wf t → user_data_wf t' → UserData_u64 t = UserData_u64 t' → t = t'.
Proof.
  intros Ht%user_data_roundtrip_aux Ht'%user_data_roundtrip_aux Heq. rewrite Heq in Ht.
  destruct Ht as [_ Ht], Ht' as [_ Ht']. congruence.
Qed.

Lemma sqe_bufs i st st' :
  1 ≤ i < 2 ^ 32 → service_read_sqe i st' = service_read_sqe i st →
  rb_ptr <$> pty_buf (service st') = rb_ptr <$> pty_buf (service st) ∧
  rb_ptr <$> socket_buf (service st') = rb_ptr <$> socket_buf (service st).
Proof.
  intros Hi. unfold service_read_sqe, pty_buf, socket_buf.
  destruct (service st'), (service st); intros Heq; try done;
    try (injection Heq as _ Ha; cbn; by rewrite Ha); exfalso; injection Heq as _ _ Hu;
    apply user_data_inj in Hu; try done; unfold user_data_wf; cbn; lia.
Qed.

Lemma service_sqe_buf i st e :
  service_read_sqe i st = Some e → ∃ rb fd, service_buf (service st) = Some rb ∧
    sqe_op e = OpRead fd (HeapPtr (rb_ptr rb)) 4096.
Proof. unfold service_read_sqe. destruct (service st); intros [= <-]; cbn; eauto. Qed.

Lemma service_buf_sqe i st rb :
  service_buf (service st) = Some rb → ∃ e, service_read_sqe i st = Some e.
Proof. unfold service_read_sqe. destruct (service st); intros [= <-]; eauto. Qed.

Lemma sqe_service_token i st e :
  1 ≤ i < 2 ^ 32 → service_read_sqe i st = Some e → service_token i st = sqe_token e.
Proof.
  unfold service_read_sqe, service_token. intros Hi. destruct (service st); intros [= <-];
    (symmetry; apply sqe_token_eq; [done|]; unfold user_data_wf; cbn; lia).
Qed.

(** A stream whose read is the same and whose buffer is as it was. *)
Definition untouched (i : Z) (l l' : Loop) : Prop := ∃ st st' rb,
  streams (d_streams (dm l)) !! i = Some st ∧ streams (d_streams (dm l')) !! i = Some st' ∧
  service_read_sqe i st' = service_read_sqe i st ∧ service_buf (service st) = Some rb ∧
  w_heap (os (dm l')) !! rb_ptr rb = w_heap (os (dm l)) !! rb_ptr rb.

Lemma untouched_delivered i c l l' :
  1 ≤ i < 2 ^ 32 → untouched i l l' → outputs i (delivered_by c l') = outputs i (delivered_by c l).
Proof.
  intros Hi (st & st' & rb & Hs & Hs' & He & Hrb & Hh).
  destruct (sqe_bufs i st st' Hi He) as [Hp Hsk]. unfold delivered_by.
  destruct (cqe_token c) as [[[] [j|]]|]; try done;
    (destruct (decide (j = i)) as [->|Hj];
      [|rewrite !outputs_other; [done|..]; intros Hin%delivery_streams; set_solver]);
    f_equal; (eapply delivery_same; [done..|]); intros b Hb; destruct (service st); try done;
    cbn in *; by simplify_eq.
Qed.

Lemma untouched_deliverable i cs l l' :
  1 ≤ i < 2 ^ 32 → untouched i l l' → deliverable i cs l' = deliverable i cs l.
Proof.
  intros Hi Hu. induction cs as [|c cs IH]; [done|]. change (c :: cs) with ([c] ++ cs).
  by rewrite !deliverable_app, !deliverable_one, IH, (untouched_delivered i c l l').
Qed.

(** ** No read targets the buffer of another stream *)

(** A read of a stream, even a closed one, is not into the buffer of another
    stream that is open, nor into one that is to come. *)
Definition apart d (e : Sqe) : Prop := ∀ j t fd a len,
  sqe_token e = Some t → reads_stream j t → sqe_op e = OpRead fd (HeapPtr a) len →
  (a < w_next (os d))%nat ∧
  ∀ i st rb, i ≠ j → streams (d_streams d) !! i = Some st → service_buf (service st) = Some rb →
    rb_ptr rb ≠ a.

Definition apart_inv (s : Sys) : Prop := Forall (apart (dm (s_loop s))) (unfinished s).

(** The read of an open stream. *)
Lemma apart_open base n out ns d e j t st :
  dinv base n out ns d → aimed d e → sqe_token e = Some t → reads_stream j t →
  streams (d_streams d) !! j = Some st → apart d e.
Proof.
  intros Hd Ha Ht [Hr Hj] Hst j' t' fd a len Ht' [_ Hj'] Hop.
  assert (j' = j) as -> by congruence.
  destruct (Ha j t Ht Hr Hj) as [_ Ho]. unfold read_target in Ho. rewrite Hst in Ho.
  specialize (Ho _ eq_refl). cbn [target_of snd] in Ho. apply service_sqe_buf in Ho as (rb & fd' & Hrb & Hop').
  rewrite Hop in Hop'. injection Hop' as -> -> ->. pose proof (di_own _ _ _ _ _ Hd) as Hown. split.
  - destruct (own_buf _ _ _ Hown j st rb Hst Hrb) as (_ & b & Hb & _).
    apply (own_next _ _ _ Hown). eauto.
  - intros i st' rb' Hij Hi Hrb'. by eapply (own_distinct _ _ _ Hown i j).
Qed.

Lemma apart_mono opens d d' e : may_open opens d d' → mem (os d) (os d') → apart d e → apart d' e.
Proof.
  intros [Hn Hk _] [Hnext _] He j t fd a len Ht Hr Hop.
  destruct (He j t fd a len Ht Hr Hop) as [Ha Hothers]. split; [lia|].
  intros i st rb Hij Hi Hrb. destruct (service_buf_sqe i st rb Hrb) as [e' He'].
  destruct (Hk i (target_of i st)) as [Ht'|(_ & _ & Hfresh)].
  { unfold read_target. by rewrite Hi. }
  - unfold read_target in Ht'. destruct (streams (d_streams d) !! i) as [st0|] eqn:Hi0; [|done].
    injection Ht' as _ Ht'. rewrite He' in Ht'. apply service_sqe_buf in Ht' as (rb0 & fd0 & Hrb0 & Hop0).
    apply service_sqe_buf in He' as (rb1 & fd1 & Hrb1 & Hop1).
    rewrite Hop0 in Hop1. injection Hop1 as _ Hp. replace rb with rb1 by congruence. rewrite <-Hp.
    by eapply Hothers.
  - pose proof He' as He''. apply service_sqe_buf in He' as (rb1 & fd1 & Hrb1 & Hop1).
    specialize (Hfresh e' fd1 _ _ He'' Hop1). replace rb with rb1 by congruence. lia.
Qed.

(** A completion of a service's read queues no read. *)
Lemma output_reads_same (rb : Service.t → option ReadBuf) i res d d' j :
  output_post rb i res d d' → queued_reads j d' = queued_reads j d.
Proof.
  unfold output_post. destruct (streams (d_streams d) !! i) as [st|].
  - case_decide; [by intros Hc; apply (settled_closed i _ _ _ Hc)|].
    destruct (rb (service st)) as [b|]; [|by intros ->].
    intros (buf & _ & Hs). by rewrite (sent_reads j _ _ _ Hs).
  - intros (_ & _ & Hq). unfold queued_reads, sq_tokens. by rewrite Hq.
Qed.

(** No read is queued for a stream that is left closed. *)
Lemma handled_closed base n s c rest t l j :
  sys_inv base n s → okays_earned s → s_batch s = c :: rest → cqe_token c = Some t →
  handled_as base n (outside (handled s c rest l)) t (cqe_result c) (s_loop s) l →
  streams (d_streams (dm l)) !! j = None →
  queued_reads j (dm l) = queued_reads j (dm (s_loop s)).
Proof.
  intros Hinv Hok Hb Ht Hh Hj.
  assert (owed_at j (dm l) = None) as Hnone by (unfold owed_at; by rewrite Hj).
  destruct Hh as [_ Hl|Hp Hm|_ _ Hq _|i _ Ho|i _ Ho].
  - apply (relistened_same _ _ Hl).
  - eapply fl_closed; [|exact Hnone]. eapply message_flow; [apply (si_dinv _ _ _ Hinv)| |exact Hm].
    intros h Hheard. by eapply Hok.
  - unfold queued_reads, sq_tokens. by rewrite Hq.
  - by eapply output_reads_same.
  - by eapply output_reads_same.
Qed.

Lemma handle_apart base n s c rest l :
  writes_progress → sys_inv base n s → n < u32_max → targets_inv s → apart_inv s → okays_earned s →
  s_batch s = c :: rest → handle_cqe c (s_loop s) = Done (None, l) →
  targets_inv (handled s c rest l) → apart_inv (handled s c rest l).
Proof.
  intros Hp Hinv Hn Htg Hap Hok Hb Hh Htg'.
  destruct (wp_done _ _ _ _ _ _ (wp_handle_cqe base n s c rest Hp Hinv Hn Hb) Hh eq_refl)
    as (Hinv' & t & Ht & Has).
  pose proof (handled_aims _ _ _ _ _ _ _ Hinv Ht Has) as Ham.
  destruct (handle_cqe_on mem c mem_writes _ _ _ Hh) as [Hmem _].
  unfold apart_inv, targets_inv in *. rewrite Forall_forall in *. intros e He j te fd a len Hte Hr Hop.
  destruct (streams (d_streams (dm l)) !! j) as [st|] eqn:Hj.
  { eapply (apart_open base (n + 1)); [apply (si_dinv _ _ _ Hinv')|by apply Htg'|done..]. }
  assert (e ∈ unfinished s) as Hold.
  { unfold unfinished in *. cbn [handled s_loop s_inflight] in He. apply elem_of_app in He as [He|He].
    2: { apply elem_of_app. by right. }
    pose proof (handled_closed _ _ _ _ _ _ _ _ Hinv Hok Hb Ht Has Hj) as Hreads.
    destruct (am_queue _ _ _ Ham) as (new & Hq & _). unfold queued_reads, sq_tokens in Hreads.
    rewrite Hq in He, Hreads. rewrite tokens_app, reads_of_app in Hreads.
    apply elem_of_app in He as [He|He]; [apply elem_of_app; by left|]. exfalso.
    rewrite <-(app_nil_r (reads_of j (tokens (sq_entries _)))) in Hreads at 2.
    apply app_inv_head in Hreads.
    assert (te ∈ reads_of j (tokens new)) as Hin; [|rewrite Hreads in Hin; by apply elem_of_nil in Hin].
    apply list_elem_of_filter. split; [done|]. apply list_elem_of_omap. eauto. }
  by apply (apart_mono _ (dm (s_loop s)) (dm l) e Ham Hmem (Hap e Hold) j te fd a len).
Qed.

Lemma apart_same d d' e :
  d_streams d' = d_streams d → w_next (os d') = w_next (os d) → apart d e → apart d' e.
Proof. unfold apart. by intros -> ->. Qed.

(** A completion leaves the streams, and the memory that it does not write
    to, as they are. *)
Lemma kernel_effect_same e res l l' :
  kernel_effect e res l l' →
  d_streams (dm l') = d_streams (dm l) ∧ w_next (os (dm l')) = w_next (os (dm l)) ∧
  ∀ a, (∀ fd len, sqe_op e ≠ OpRead fd (HeapPtr a) len) →
    w_heap (os (dm l')) !! a = w_heap (os (dm l)) !! a.
Proof.
  unfold kernel_effect. destruct (sqe_op e) as [fd [slot|a|] len|fd ptr len|fd flags].
  - done.
  - intros (_ & [[_ ->]|(b & b' & Ha & Hl & ->)]); [done|]. split_and!; [done..|]. intros a' Hne.
    cbn. apply lookup_insert_ne. intros ->. by destruct (Hne fd len).
  - by intros (_ & buf & Hl & ->).
  - by intros ->.
  - by intros ->.
Qed.

Lemma step_apart base n s s' :
  writes_progress → sys_inv base n s → n < u32_max → targets_inv s → apart_inv s → okays_earned s →
  step s (Running s') → apart_inv s'.
Proof.
  intros Hp Hinv Hn Ht Ha Hok Hstep. pose proof (step_targets base n s s' Hp Hinv Hn Ht Hstep) as Ht'.
  unfold apart_inv, unfinished in *.
  inversion Hstep as [| | |pre e post res l Hfl Heff| |c rest l Hb Hh| |]; subst.
  - cbn. rewrite sq_empty_law, app_nil_l. by rewrite (comm (++)).
  - done.
  - destruct (complete_same base n s _ _ _ _ _ (si_dinv _ _ _ Hinv) Hfl Heff) as (_ & Hq & _).
    destruct (kernel_effect_same _ _ _ _ Heff) as (Hst & Hnx & _).
    rewrite Hfl in Ha. apply Forall_app in Ha as [H1 [H2 [_ H3]%Forall_cons]%Forall_app].
    cbn [s_loop s_inflight]. rewrite Hq. eapply Forall_impl; [by repeat (apply Forall_app; split)|].
    intros e'. by apply apart_same.
  - by eapply (handle_apart base n s c rest l).
Qed.

(** ** What was read is what was sent on, and what awaits *)

(** At most one read of an open stream is pending. *)
Lemma one_read s i st t rest :
  flow_inv s → streams (d_streams (dm (s_loop s))) !! i = Some st → reads_stream i t →
  pending_tokens s ≡ₚ t :: rest → reads_of i rest = [].
Proof.
  intros Hflow Hi Ht Hp. pose proof (fi_open _ Hflow i (owed i st)) as Ho.
  unfold owed_at in Ho. rewrite Hi in Ho. specialize (Ho eq_refl).
  assert (reads_of i (pending_tokens s) ≡ₚ t :: reads_of i rest) as Hr.
  { etrans; [by apply filter_Permutation|]. by rewrite filter_cons_True. }
  rewrite Ho in Hr. apply Permutation_length in Hr. cbn [length] in Hr.
  destruct (reads_of i rest); [done|]. exfalso. unfold owed in Hr.
  destruct (waiting_for_okay st), (service_token i st); cbn in Hr; lia.
Qed.

Lemma reads_of_sub i ts ts' us : ts ≡ₚ ts' ++ us → reads_of i ts = [] → reads_of i ts' = [].
Proof.
  intros Hp Hn. apply (filter_Permutation (reads_stream i)) in Hp. fold (reads_of i ts) in Hp.
  rewrite Hn, filter_app in Hp. apply Permutation_nil_l in Hp. symmetry in Hp.
  by apply app_eq_nil in Hp as [Hp _].
Qed.

(** The completions, among what is pending. *)
Lemma pending_split s : pending_tokens s ≡ₚ
  omap cqe_token (s_batch s ++ s_cq s) ++ sq_tokens (dm (s_loop s)) ++ tokens (s_inflight s).
Proof.
  unfold pending_tokens, out_tokens, outside. cbn [o_flight o_done]. rewrite omap_app.
  solve_Permutation.
Qed.

Record output_inv (inf : DeviceInfo) (s : Sys) : Prop := {
  oi_open : ∃ ms outs, dialogue inf s ms outs ∧
    ∀ i st rb, streams (d_streams (dm (s_loop s))) !! i = Some st → service_buf (service st) = Some rb →
      outputs i (s_output s) = outputs i outs ++ awaiting i s;
  oi_fresh : ∀ i, next_id (d_streams (dm (s_loop s))) ≤ i → outputs i (s_output s) = [];
}.

Lemma read_output_token i e res l :
  outputs i (read_output e res l) ≠ [] → ∃ t, sqe_token e = Some t ∧ ud_data t = Some i.
Proof.
  unfold read_output. destruct (sqe_op e) as [fd [|a|] len| |], (sqe_token e) as [t|]; try done.
  destruct (ud_data t) as [j|] eqn:Hj; [|done]. rewrite outputs_one. case_decide; [|done].
  subst j. eauto.
Qed.

(** What is read for a stream goes to a service's read of that stream. *)
Lemma output_owner base n s pre e post res l i :
  sys_inv base n s → s_inflight s = pre ++ e :: post →
  outputs i (read_output e res l) ≠ [] → ∃ t, sqe_token e = Some t ∧ reads_stream i t.
Proof.
  intros Hinv Hfl Hne. destruct (read_output_token _ _ _ _ Hne) as (t & Ht & Hi). exists t.
  split; [done|]. split; [|done]. pose proof (di_flight _ _ _ _ _ (si_dinv _ _ _ Hinv)) as Hok.
  cbn [outside o_flight] in Hok. rewrite Hfl in Hok. apply Forall_app in Hok as [_ [Hok _]%Forall_cons].
  unfold read_output in Hne. destruct (sqe_op e) as [fd [|a|] len| |] eqn:Hop; try done.
  destruct (sqe_ok_read _ _ _ _ _ Hok Hop) as (j & t' & Ht' & Hr & _). congruence.
Qed.

(** The completion of the read of stream [i]. *)
Lemma complete_own base n s pre e post res l i t st rb outs :
  sys_inv base n s → targets_inv s → flow_inv s → s_inflight s = pre ++ e :: post →
  kernel_effect e res (s_loop s) l → sqe_token e = Some t → reads_stream i t →
  streams (d_streams (dm (s_loop s))) !! i = Some st → service_buf (service st) = Some rb →
  outputs i (s_output s) = outs ++ deliverable i (s_batch s ++ s_cq s) (s_loop s) →
  outputs i (s_output s) ++ outputs i (read_output e res l) =
    outs ++ deliverable i (s_batch s ++ s_cq s ++ [mkCqe (sqe_user_data e) res]) l.
Proof.
  intros Hinv Htg Hflow Hfl Heff Ht Hr Hi Hrb Hout.
  destruct (kernel_effect_same _ _ _ _ Heff) as (Hst & _ & _).
  assert (e ∈ unfinished s) as He by (apply elem_of_app; right; rewrite Hfl; apply elem_of_app; right; left).
  assert (service_read_sqe i st = Some e) as Hsqe.
  { unfold targets_inv in Htg. rewrite Forall_forall in Htg. destruct Hr as [Hsr Hud].
    destruct (Htg e He i t Ht Hsr Hud) as [_ Ho]. specialize (Ho (target_of i st)).
    apply Ho. unfold read_target. by rewrite Hi. }
  assert (reads_of i (omap cqe_token (s_batch s ++ s_cq s)) = []) as Hnone.
  { apply (reads_of_sub _ _ _ (sq_tokens (dm (s_loop s)) ++ tokens pre ++ tokens post) (reflexivity _)).
    eapply (one_read s i st t); [done..|]. rewrite pending_split, Hfl. change (e :: post) with ([e] ++ post). rewrite !tokens_app.
    assert (tokens [e] = [t]) as -> by (unfold tokens; cbn; by rewrite Ht). solve_Permutation. }
  rewrite deliverable_none, app_nil_r in Hout by done.
  rewrite (assoc_L (++)), deliverable_app, deliverable_none, deliverable_one by done.
  rewrite Hout. f_equal. cbn [app].
  unfold read_output, delivered_by, delivery. rewrite Ht, Hst.
  assert (cqe_token (mkCqe (sqe_user_data e) res) = Some t) as -> by exact Ht.
  destruct (service_sqe_buf _ _ _ Hsqe) as (rb' & fd & Hrb' & Hop). rewrite Hop.
  destruct Hr as [Hsr Hud]. rewrite Hud.
  assert (service_token i st = Some t) as Htok
    by (destruct (stream_id _ _ _ _ _ _ _ (si_dinv _ _ _ Hinv) Hi); by rewrite (sqe_service_token i st e)).
  unfold service_token in Htok. destruct (service st) as [|sh| |f] eqn:Hs; try done; injection Htok as <-;
    rewrite Hi, Hs; cbn in Hrb'; cbn [cqe_result pty_buf socket_buf]; injection Hrb' as <-;
    case_decide; try done;
    rewrite outputs_one, decide_True by done; by rewrite Z2Nat.nonpos by lia.
Qed.

Lemma outputs_empty i os : ¬ (outputs i os ≠ []) → outputs i os = [].
Proof. destruct (outputs i os); [done|]. intros H. by destruct H. Qed.

(** The completion of another read. *)
Lemma complete_other base n s pre e post res l i st rb outs :
  sys_inv base n s → apart_inv s → s_inflight s = pre ++ e :: post →
  kernel_effect e res (s_loop s) l → (∀ t, sqe_token e = Some t → ¬ reads_stream i t) →
  streams (d_streams (dm (s_loop s))) !! i = Some st → service_buf (service st) = Some rb →
  outputs i (s_output s) = outs ++ deliverable i (s_batch s ++ s_cq s) (s_loop s) →
  outputs i (s_output s) ++ outputs i (read_output e res l) =
    outs ++ deliverable i (s_batch s ++ s_cq s ++ [mkCqe (sqe_user_data e) res]) l.
Proof.
  intros Hinv Hap Hfl Heff Hne Hi Hrb Hout.
  destruct (kernel_effect_same _ _ _ _ Heff) as (Hst & _ & Hheap).
  assert (outputs i (read_output e res l) = []) as ->.
  { apply outputs_empty. intros (t & Ht & Hr)%(output_owner base n s pre e post); [|done|done].
    by apply (Hne t). }
  rewrite (assoc_L (++) (s_batch s)), deliverable_app, deliverable_one.
  assert (outputs i (delivered_by (mkCqe (sqe_user_data e) res) l) = []) as ->.
  { apply outputs_empty. intros (t & Ht & Hr)%delivered_token. by apply (Hne t). }
  rewrite !app_nil_r, Hout. f_equal. symmetry. destruct (stream_id _ _ _ _ _ _ _ (si_dinv _ _ _ Hinv) Hi).
  apply untouched_deliverable; [done|]. exists st, st, rb. rewrite Hst. split_and!; try done.
  apply Hheap. intros fd len Hop.
  assert (e ∈ unfinished s) as He by (apply elem_of_app; right; rewrite Hfl; apply elem_of_app; right; left).
  pose proof (di_flight _ _ _ _ _ (si_dinv _ _ _ Hinv)) as Hok. cbn [outside o_flight] in Hok.
  rewrite Hfl in Hok. apply Forall_app in Hok as [_ [Hok _]%Forall_cons].
  destruct (sqe_ok_read _ _ _ _ _ Hok Hop) as (j & t & Ht & Hsr & Hud).
  unfold apart_inv in Hap. rewrite Forall_forall in Hap.
  destruct (Hap e He j t fd _ len Ht (conj Hsr Hud) Hop) as [_ Hothers].
  refine (Hothers i st rb _ Hi Hrb eq_refl). intros ->. by apply (Hne t Ht).
Qed.

Lemma complete_output inf base n s pre e post res l :
  sys_inv base n s → targets_inv s → flow_inv s → apart_inv s → s_inflight s = pre ++ e :: post →
  kernel_effect e res (s_loop s) l → output_inv inf s →
  output_inv inf (mkSys l (pre ++ post) (s_cq s ++ [mkCqe (sqe_user_data e) res]) (s_batch s)
    (hi_deliver (read_output e res l) (write_done pre e res l) (s_hist s))).
Proof.
  intros Hinv Htg Hflow Hap Hfl Heff [(ms & outs & Hdl & Hopen) Hfresh].
  destruct (kernel_effect_same _ _ _ _ Heff) as (Hst & _ & _). split.
  - exists ms, outs. split; [by eapply complete_dialogue|]. cbn [s_loop]. intros i st rb Hi Hrb.
    rewrite Hst in Hi. specialize (Hopen i st rb Hi Hrb). unfold awaiting, s_output in *.
    cbn [s_loop s_batch s_cq s_hist hi_deliver hi_output]. rewrite outputs_app. destruct (sqe_token e) as [t|] eqn:Ht; [destruct (decide (reads_stream i t))|].
    + by eapply complete_own.
    + eapply complete_other; try done. intros t' Ht'. congruence.
    + eapply complete_other; try done. intros t' Ht'. congruence.
  - cbn [s_loop]. rewrite Hst. intros i Hi. unfold s_output. cbn [s_hist hi_deliver hi_output].
    rewrite outputs_app. fold (s_output s). rewrite Hfresh by done. apply outputs_empty. intros Hne.
    destruct (output_owner base n s pre e post res l i Hinv Hfl Hne) as (t & Ht & Hsr & Hud).
    unfold targets_inv in Htg. rewrite Forall_forall in Htg.
    assert (e ∈ unfinished s) as He by (apply elem_of_app; right; rewrite Hfl; apply elem_of_app; right; left).
    destruct (Htg e He i t Ht Hsr Hud). lia.
Qed.

(** A stream that was open keeps its buffer. *)
Lemma handle_untouched base n base' n' out ns out' ns' l l' i e st :
  dinv base n out ns (dm l) → dinv base' n' out' ns' (dm l') → on_loop mem l l' →
  read_target i (dm l) = Some (target_of i st) → streams (d_streams (dm l')) !! i = Some st →
  service_read_sqe i st = Some e → untouched i l l'.
Proof.
  intros Hd Hd' [Hmem _] Ht Hi He. unfold read_target in Ht.
  destruct (streams (d_streams (dm l)) !! i) as [st0|] eqn:Hi0; [|done]. injection Ht as _ Ht. rewrite He in Ht.
  destruct (service_sqe_buf _ _ _ Ht) as (rb & fd & Hrb & Hop).
  destruct (service_sqe_buf _ _ _ He) as (rb' & fd' & Hrb' & Hop'). rewrite Hop in Hop'.
  injection Hop' as _ Hp. exists st0, st, rb. split_and!; [done|done|congruence|done|].
  destruct (own_buf _ _ _ (di_own _ _ _ _ _ Hd) i st0 rb Hi0 Hrb) as (_ & b & Hb & _).
  destruct (own_buf _ _ _ (di_own _ _ _ _ _ Hd') i st rb' Hi Hrb') as (_ & b' & Hb' & _).
  assert (rb_ptr rb < w_next (os (dm l)))%nat as Hlt by (apply (own_next _ _ _ (di_own _ _ _ _ _ Hd)); eauto).
  destruct (mem_heap _ _ Hmem _ Hlt) as [Heq|Hnone]; [done|]. rewrite Hp in Hnone. congruence.
Qed.

Lemma handle_output inf base n s c rest l :
  writes_progress → sys_inv base n s → n < u32_max → flow_inv s → s_batch s = c :: rest →
  handle_cqe c (s_loop s) = Done (None, l) → output_inv inf s → output_inv inf (handled s c rest l).
Proof.
  intros Hp Hinv Hn Hflow Hb Hh [(ms & outs & Hdl & Hopen) Hfresh].
  destruct (wp_done _ _ _ _ _ _ (wp_handle_cqe base n s c rest Hp Hinv Hn Hb) Hh eq_refl)
    as (Hinv' & t & Ht & Has).
  pose proof (handled_aims _ _ _ _ _ _ _ Hinv Ht Has) as [Hnext Hkept _].
  pose proof (si_dinv _ _ _ Hinv) as Hd. pose proof (si_dinv _ _ _ Hinv') as Hd'.
  destruct (handle_dialogue inf base n s c rest l ms outs) as [ms' Hdl']; [done..|].
  assert (∀ i, outputs i (s_output (handled s c rest l)) = outputs i (s_output s)) as Hsame by done.
  split; cbn [handled s_loop]; [|intros i Hi; rewrite Hsame; apply Hfresh; lia].
  exists (ms ++ ms'), (outs ++ delivered_by c (s_loop s)). split; [done|]. intros i st rb Hi Hrb.
  rewrite Hsame. change (awaiting i (handled s c rest l)) with (deliverable i (rest ++ s_cq s) l).
  destruct (service_buf_sqe i st rb Hrb) as [e He]. rewrite outputs_app.
  destruct (Hkept i (target_of i st)) as [Hold|(_ & Hge & _)]; [by unfold read_target; rewrite Hi|..].
  - destruct (stream_id _ _ _ _ _ _ _ Hd' Hi) as [Hid _].
    assert (untouched i (s_loop s) l) as Hun.
    { eapply handle_untouched; [exact Hd|exact Hd'|by eapply (handle_cqe_on mem c mem_writes)|done..]. }
    rewrite (untouched_deliverable _ _ _ _ Hid Hun). destruct Hun as (st0 & _ & rb0 & Hi0 & _ & _ & Hrb0 & _).
    rewrite (Hopen i st0 rb0 Hi0 Hrb0). unfold awaiting. rewrite Hb.
    change ((c :: rest) ++ s_cq s) with ([c] ++ (rest ++ s_cq s)).
    by rewrite deliverable_app, deliverable_one, (assoc_L (++)).
  - rewrite Hfresh by done. rewrite (ac_fresh _ _ _ (dl_account _ _ _ _ Hdl)) by done.
    pose proof (fi_fresh _ Hflow i Hge) as Hnone. cbn [app].
    assert (reads_of i (omap cqe_token (s_batch s ++ s_cq s)) = []) as Hr
      by (eapply reads_of_sub; [apply pending_split|done]).
    rewrite Hb in Hr. change ((c :: rest) ++ s_cq s) with ([c] ++ (rest ++ s_cq s)) in Hr.
    rewrite omap_app, reads_of_app in Hr. apply app_eq_nil in Hr as [Hc Hrest].
    by rewrite <-deliverable_one, !deliverable_none by done.
Qed.

Lemma step_output inf base n s s' :
  writes_progress → sys_inv base n s → n < u32_max → targets_inv s → flow_inv s → apart_inv s →
  output_inv inf s → step s (Running s') → output_inv inf s'.
Proof.
  intros Hp Hinv Hn Ht Hf Ha Ho Hstep. inversion Hstep; subst.
  - destruct Ho as [(ms & outs & Hdl & Hopen) Hfresh]. split; [|done]. exists ms, outs.
    split; [by apply submit_dialogue|]. intros i st rb Hi Hrb. unfold awaiting. cbn [s_batch s_cq].
    match goal with Hb : s_batch s = [] |- _ => rewrite <-Hb end. by eapply Hopen.
  - destruct Ho as [(ms & outs & Hdl & Hopen) Hfresh]. split; [|done]. exists ms, outs.
    split; [by eapply same_dialogue|]. intros i st rb Hi Hrb. unfold awaiting. cbn [s_batch s_cq s_loop].
    match goal with Hb : s_batch s = [], Hc : s_cq s = _ |- _ =>
      rewrite <-Hc; rewrite <-(app_nil_l (s_cq s)), <-Hb end. by eapply Hopen.
  - by eapply complete_output.
  - by eapply handle_output.
Qed.

(** What holds of a run against a host that acknowledges only what it was
    sent. *)
Record polite_inv (inf : DeviceInfo) (s : Sys) : Prop := {
  pi_targets : targets_inv s;
  pi_flow : flow_inv s;
  pi_apart : apart_inv s;
  pi_output : output_inv inf s;
}.

Lemma polite_steps_inv inf base n k s s' :
  writes_progress → sys_inv base n s → polite_inv inf s → polite_steps k s s' →
  n + Z.of_nat k ≤ u32_max → polite_inv inf s'.
Proof.
  intros Hp Hinv. eapply steps_if_inv; [done| |done]. intros m s1 s2 Hinv1 Hm [Ht Hf Ha Ho] Hok Hstep.
  split; [by eapply step_targets|by eapply step_flow_inv|by eapply step_apart|by eapply step_output].
Qed.

Lemma start_polite base e0 eo ei info w l :
  start_ok base info w → run_start (Loop_new e0 eo ei info w) = Done (Ok tt, l) →
  polite_inv info (mkSys l [] [] [] no_history).
Proof.
  intros Hst Hrun. pose proof (start_dialogue base e0 eo ei info w l Hst Hrun) as Hdl.
  destruct (run_start_inv base e0 eo ei info w l Hst Hrun) as (Hinv & Hnew & Ho & _).
  split; [by apply start_targets|by apply start_flow| |].
  - apply Forall_forall. intros e He j t fd a len Ht [Hr _] _.
    by destruct (start_unfinished l e t Ho He Ht).
  - split; [|done]. exists [], []. split; [done|]. intros i st rb. cbn [s_loop]. rewrite Hnew. cbn.
    by rewrite lookup_empty.
Qed.

(** C7: the output of a service is sent on whole, unchanged and in order: in
    every state reachable against a host that acknowledges only what it was
    sent, the payloads that the daemon has queued for an open shell or forward
    stream, followed by what completed reads of it still await, are exactly
    the bytes that the kernel has read from its terminal or socket.  As long as
    the kernel has completed the writes to the host in order and whole, the
    payloads that the host has read for the stream are a beginning of these
    bytes; and if no write is outstanding, they are all of them but those that
    completed reads still await. *)
Theorem output_delivered base e0 eo ei info w n s i st rb :
  writes_progress → start_ok base info w → 1 + Z.of_nat n < u32_max →
  reachable_politely n e0 eo ei info w s →
  streams (d_streams (dm (s_loop s))) !! i = Some st → service_buf (service st) = Some rb →
  payload_of i (said s) ++ awaiting i s = outputs i (s_output s) ∧
  (in_order s →
    payload_of i (host_has_read s) `prefix_of` outputs i (s_output s) ∧
    (unwritten s = [] → payload_of i (host_has_read s) ++ awaiting i s = outputs i (s_output s))).
Proof.
  intros Hp Hst Hn Hreach Hi Hrb.
  assert (payload_of i (said s) ++ awaiting i s = outputs i (s_output s)) as Hsaid.
  2: { split; [exact Hsaid|]. intros Hord.
       destruct (host_reads_said base e0 eo ei info w n s Hp Hst Hn
         (reachable_if_reachable _ _ _ _ _ _ _ _ Hreach) Hord) as [[rest Hr] Hall].
       split; [|by intros ->%Hall]. rewrite Hr, payload_of_app, <-(assoc_L (++)) in Hsaid.
       rewrite <-Hsaid. by apply prefix_app_r. }
  destruct Hreach as (l & Hrun & Hsteps).
  destruct (run_start_inv base e0 eo ei info w l Hst Hrun) as (Hinv & _).
  pose proof (steps_inv base 1 n _ s Hp Hinv (steps_if_steps _ _ _ _ Hsteps) ltac:(lia)) as Hinv'.
  destruct (polite_steps_inv info base 1 n _ s Hp Hinv (start_polite _ _ _ _ _ _ _ Hst Hrun) Hsteps ltac:(lia))
    as [_ _ _ [(ms & outs & Hdl & Hopen) _]].
  rewrite (dialogue_said _ _ _ _ _ _ Hinv' Hdl), (Hopen i st rb Hi Hrb).
  by rewrite (ac_output _ _ _ (dl_account _ _ _ _ Hdl) i st rb Hi Hrb).
Qed.
End output.
