(* ===== verification/Input.v ===== *)
(** The input of services: the payloads of the host's WRTEs reach the terminal
    or the socket of their stream whole, unchanged and in order, and nothing
    else does, since the OPEN that the descriptor was opened for. *)
From Stdlib Require Import ZArith Lia Strings.Byte.
From stdpp Require Import base numbers list gmap strings.
From S2P Require Import Prelude.
From S2P Require Import Bytes.
From S2P Require Import Winnow.
From S2P Require Import DeviceInfo.
From S2P Require Import Message.
From S2P Require Import Buffers.
From S2P Require Import Os.
From S2P Require Import Sync.
From S2P Require Import Shell.
From S2P Require Import Forward.
From S2P Require Import Stream.
From S2P Require Import UserData.
From S2P Require Import Ring.
From S2P Require Import Ffs.
From S2P Require Import Connection.
From S2P Require Import Wire.
From S2P Require Import ConnectionFacts.
From S2P Require Import Commands.
From S2P Require Import System.
From S2P Require Import Tame.
From S2P Require Import Safety.
From S2P Require Import Targets.

Open Scope Z_scope.

#[local] Opaque UserData_u64 BULK_OUT_BUF_SIZE.

(** The descriptor that takes the input of a service. *)
Definition input_fd (s : Service.t) : option Z :=
  match s with
  | Service.Shell sh => Some (sh_master sh)
  | Service.Forward f => Some (fwd_socket f)
  | _ => None
  end.

(** The payloads of the WRTEs to a stream. *)
Definition input_to (i : Z) (cs : list (AdbHeader * option (list byte))) : list byte :=
  mjoin (omap (λ c, if decide (command c.1 = Wrte ∧ arg1 c.1 = i) then c.2 else None) cs).

Lemma input_to_app i cs cs' : input_to i (cs ++ cs') = input_to i cs ++ input_to i cs'.
Proof. unfold input_to. by rewrite omap_app, join_app. Qed.

Section input.
Context {E : Os} {W : Winnow} {R : SubmissionQueue}.
Implicit Types d : Daemon.

(** ** One write *)

(** Only [fd] may have accepted anything more. *)
Definition silent_but (fd : Z) (w w' : World) : Prop :=
  ∀ fd', fd' ≠ fd → accepted fd' (w_log w') = accepted fd' (w_log w).

#[local] Instance silent_but_refl fd : Reflexive (silent_but fd).
Proof. by intros w fd'. Qed.
#[local] Instance silent_but_trans fd : Transitive (silent_but fd).
Proof. intros w1 w2 w3 H12 H23 fd' Hne. by rewrite H23, H12. Qed.

Lemma write_loop_others fuel fd rest : Respects (silent_but fd) (write_loop fuel fd rest).
Proof.
  assert (∀ data, Respects (silent_but fd) (sys (CWriteFd fd data))) as Hsys.
  { intros data w r w' [= _ <-] fd' Hne. cbn [w_log w_set_log accepted].
    by rewrite decide_False, app_nil_r. }
  revert rest. induction fuel; intros rest; destruct rest; cbn [write_loop]; solve_respects.
Qed.

Lemma shell_write_others sh data : Respects (silent_but (sh_master sh)) (shell_write_input sh data).
Proof.
  assert (Respects (silent_but (sh_master sh)) (sys (CWriteAllFd (sh_master sh) data))) as Hsys.
  { intros w r w' [= _ <-] fd' Hne. cbn [w_log w_set_log accepted]. by rewrite decide_False, app_nil_r. }
  unfold shell_write_input. destruct data; solve_respects.
Qed.

(** A write that succeeds is of all the data. *)
Lemma shell_write_took sh data w w' :
  shell_write_input sh data w = Done (Ok tt, w') →
  accepted (sh_master sh) (w_log w') = accepted (sh_master sh) (w_log w) ++ data.
Proof.
  unfold shell_write_input. destruct data as [|b data]; [by intros [= <-]; rewrite app_nil_r|].
  intros (r & w1 & [= <- <-] & Hk)%bind_inv. destruct (os_result _ _) as [n|e] eqn:Hr; [|done].
  injection Hk as <-. cbn [w_log w_set_log accepted]. by rewrite decide_True, Hr.
Qed.

Lemma forward_write_took f data w w' :
  writes_progress → forward_write_input f data w = Done (Ok tt, w') →
  accepted (fwd_socket f) (w_log w') = accepted (fwd_socket f) (w_log w) ++ data.
Proof.
  intros Hp Hrun.
  assert (wp (forward_write_input f data) (λ r w', r = Ok tt →
    accepted (fwd_socket f) (w_log w') = accepted (fwd_socket f) (w_log w) ++ data) w) as Hwp.
  { apply wp_write_loop; [done..| |done]. by intros w1 Ha _ _. }
  exact (wp_done _ _ _ _ _ _ Hwp Hrun eq_refl).
Qed.

(** ** One command *)

Lemma sent_os d l d' : sent d l d' → os d' = os d.
Proof. by intros (_ & H & _)%sent_streams. Qed.

Lemma continued_silent i st d d' : continued i st d d' → silent (os d) (os d').
Proof.
  unfold continued. destruct (service_read_sqe i st); [by intros (q & -> & _)|].
  destruct (service st) as [[[|sender|rcv]]| | |]; try by intros ->.
  intros (o & sender' & w' & Hrun & Hc). pose proof (next_frame_tame silent sender _ _ _ Hrun) as Hs.
  destruct o as [[hdr data]|]; [by rewrite (sent_os _ _ _ Hc)|by subst d'].
Qed.

(** A payload for stream [i]: only its descriptor takes anything, and if the
    stream is still open then, it has taken all of it. *)
Record fed (i : Z) (payload : list byte) d d' : Prop := {
  fed_others fd :
    (∀ st, streams (d_streams d) !! i = Some st → input_fd (service st) ≠ Some fd) →
    accepted fd (w_log (os d')) = accepted fd (w_log (os d));
  fed_own st fd : is_Some (streams (d_streams d') !! i) →
    streams (d_streams d) !! i = Some st → input_fd (service st) = Some fd →
    accepted fd (w_log (os d')) = accepted fd (w_log (os d)) ++ payload;
}.

(** A stream without a descriptor, or none at all. *)
Lemma fed_silent i payload d d' :
  silent (os d) (os d') →
  (∀ st, streams (d_streams d) !! i = Some st → input_fd (service st) = None) → fed i payload d d'.
Proof. intros Hs Hn. split; [intros; apply Hs|]. intros st fd _ Hi Hfd. apply Hn in Hi. congruence. Qed.

(** A write to the service's descriptor, and the end of the stream if it fails. *)
Lemma fed_write i st fd payload (r : result unit io_error) w' d d' :
  streams (d_streams d) !! i = Some st → input_fd (service st) = Some fd →
  silent_but fd (os d) w' →
  (r = Ok tt → accepted fd (w_log w') = accepted fd (w_log (os d)) ++ payload) →
  match r with Ok _ => d' = set_os w' d | Err _ => closed_by_device i (remote_id st) (set_os w' d) d' end →
  fed i payload d d'.
Proof.
  intros Hi Hfd Hs Ht Hr. destruct r as [[]|e].
  - subst d'. split; [|intros st' fd' _ Hi' Hfd'; simplify_eq; by apply Ht].
    intros fd' Hne. apply Hs. intros ->. by apply (Hne st).
  - destruct Hr as (d1 & _ & Hst & _ & _ & _ & Hsil). split.
    + intros fd' Hne. rewrite (Hsil fd'). apply Hs. intros ->. by apply (Hne st).
    + intros st' fd' [st'' Hi']. rewrite Hst in Hi'. cbn in Hi'. by rewrite lookup_delete_eq in Hi'.
Qed.

Lemma fed_from i payload d d1 d' :
  d_streams d1 = d_streams d → os d1 = os d → fed i payload d1 d' → fed i payload d d'.
Proof. intros Hst Hos [H1 H2]. split; intros; [rewrite H1|erewrite H2]; rewrite ?Hst, ?Hos; try done. all: by rewrite ?Hst. Qed.

Lemma wrte_fed i r payload d d' :
  writes_progress → wrte_post i r payload d d' → fed i payload d d'.
Proof.
  intros Hp (d1 & Hokay & Hserve). destruct (sent_streams _ _ _ Hokay) as (Hst & Hos & _).
  apply (fed_from _ _ _ d1); [done|done|]. rewrite <-Hst in Hserve.
  destruct (streams (d_streams d1) !! i) as [st|] eqn:Hi; [|subst d'; by apply fed_silent; [|intros; congruence]].
  unfold wrte_service in Hserve. destruct (service st) as [svc|sh| |f] eqn:Hs; [| |done|].
  - destruct Hserve as (res & svc' & w' & Hrun & Hres).
    pose proof (handle_tame silent svc payload _ _ _ Hrun) as Hsil.
    apply fed_silent; [|intros st' Hi'; simplify_eq; by rewrite Hs].
    set (d2 := with_stream i _ (set_os w' d1)) in Hres. change w' with (os d2) in Hsil.
    destruct res as [s0|hdr data| |]; [by rewrite (sent_os _ _ _ Hres)..| |].
    + destruct (waiting_for_okay st); [by subst d'|]. etrans; [exact Hsil|by eapply continued_silent].
    + destruct Hres as (d3 & _ & _ & _ & _ & _ & Hsil'). by etrans.
  - destruct Hserve as (res & w' & Hrun & Hres).
    eapply (fed_write i st (sh_master sh)); [done|by rewrite Hs|by eapply shell_write_others| |exact Hres].
    intros ->. by apply shell_write_took.
  - destruct Hserve as (res & w' & Hrun & Hres).
    eapply (fed_write i st (fwd_socket f)); [done|by rewrite Hs|by eapply write_loop_others| |exact Hres].
    intros ->. by apply forward_write_took.
Qed.

(** ** Descriptors of different streams *)

Lemma stream_fds_input m i st fd :
  m !! i = Some st → input_fd (service st) = Some fd → stream_fds m ≡ₚ fd :: stream_fds (delete i m).
Proof.
  intros Hi Hfd. rewrite (stream_fds_delete m i st Hi).
  by destruct (service st); try done; injection Hfd as <-.
Qed.

Lemma fds_distinct base m w i j st st' fd fd' :
  streams_own base m w → NoDup (live_fds (w_log w)) → i ≠ j →
  streams m !! i = Some st → input_fd (service st) = Some fd →
  streams m !! j = Some st' → input_fd (service st') = Some fd' → fd' ≠ fd.
Proof.
  intros Hown Hd Hij Hi Hfd Hj Hfd' ->. rewrite (own_fds _ _ _ Hown) in Hd.
  rewrite (stream_fds_input _ i st fd) in Hd by done.
  rewrite (stream_fds_input (delete i (streams m)) j st' fd) in Hd
    by (rewrite ?lookup_delete_ne by done; done).
  cbn [app] in Hd. inversion Hd as [|? ? Hnot _]. apply Hnot. by left.
Qed.

Lemma live_fds_grow h new : fresh_fds → NoDup (live_fds h) → NoDup (live_fds (new ++ h)).
Proof. intros Hf Hd. induction new as [|c new IH]; [done|]. by apply live_fds_distinct. Qed.

(** ** One completion *)

Lemma read_target_fd i d st fd :
  read_target i d = Some (target_of i st) → input_fd (service st) = Some fd →
  ∃ st0, streams (d_streams d) !! i = Some st0 ∧ remote_id st0 = remote_id st ∧
    input_fd (service st0) = Some fd.
Proof.
  unfold read_target, target_of, service_read_sqe.
  destruct (streams (d_streams d) !! i) as [st0|]; [|done]. intros [= Hr Hs] Hfd. exists st0.
  split_and!; [done..|].
  destruct (service st0), (service st); try done; injection Hs; cbn in *; congruence.
Qed.

(** The command of a completion, if it brings one. *)
Lemma handled_heard base n out c t l l' hp cs :
  cqe_token c = Some t → handled_as base n out t (cqe_result c) l l' → heard_by c l = hp :: cs →
  cs = [] ∧ commanded base n out hp.1 hp.2 (dm l) (dm l').
Proof.
  intros Ht Has Hcs. unfold heard_by in Hcs. rewrite Ht in Hcs. case_decide as Hb; [|done].
  assert (message_post base n out (cqe_result c) l (dm l) (dm l')) as Hm.
  { destruct Has as [Hp0| |Hw _ _ _|j -> _|j -> _]; [|done|..]; unfold is_bulk, is_poll, is_write in *;
      cbn in Hb; destruct Hb; congruence. }
  unfold message_post in Hm. rewrite Hcs in Hm. by destruct Hm as (h & p & [= -> ->] & Hc).
Qed.

(** One that brings none feeds nothing. *)
Lemma handled_silent base n out c t l l' :
  cqe_token c = Some t → handle_cqe c l = Done (None, l') →
  handled_as base n out t (cqe_result c) l l' → heard_by c l = [] → silent (os (dm l)) (os (dm l')).
Proof.
  intros Ht Hh Has Hcs. destruct (decide (is_bulk t)) as [Hb|Hb].
  - unfold heard_by in Hcs. rewrite Ht, decide_True in Hcs by done.
    destruct Has as [Hp0|_ Hm|Hw _ _ _|j -> _|j -> _]; unfold is_bulk, is_poll, is_write in *; cbn in Hb;
      try (destruct Hb; congruence).
    unfold message_post in Hm. rewrite Hcs in Hm. by destruct Hm as [_ ->].
  - assert (UserData_try_from (cqe_user_data c) = Ok t) as Hu.
    { unfold cqe_token in Ht. destruct (UserData_try_from _); [|done]. by injection Ht as ->. }
    unfold is_bulk in Hb.
    by destruct (handle_other_on silent c t Hu ltac:(tauto) ltac:(tauto) _ _ _ Hh) as [Hsil _].
Qed.

(** Only a WRTE feeds a stream. *)
Lemma commanded_silent base n out h p d d' :
  commanded base n out h p d d' → command h ≠ Wrte → silent (os d) (os d').
Proof.
  intros (_ & d1 & ns1 & _ & Hrun & _ & _ & Hos) Hw. rewrite Hos.
  by destruct (handle_command_on silent h p (λ H, False_ind _ (Hw H)) _ _ _ Hrun) as [Hsil _].
Qed.

(** A completion feeds stream [i] with the payload that it brings for it. *)
Lemma handled_input base n s c rest t l i st st' fd :
  writes_progress → sys_inv base n s → NoDup (live_fds (w_log (os (dm (s_loop s))))) →
  cqe_token c = Some t → handle_cqe c (s_loop s) = Done (None, l) →
  handled_as base n (outside (handled s c rest l)) t (cqe_result c) (s_loop s) l →
  streams (d_streams (dm (s_loop s))) !! i = Some st → input_fd (service st) = Some fd →
  streams (d_streams (dm l)) !! i = Some st' →
  accepted fd (w_log (os (dm l))) =
    accepted fd (w_log (os (dm (s_loop s)))) ++ input_to i (heard_by c (s_loop s)).
Proof.
  intros Hp Hinv Hd Ht Hh Has Hi Hfd Hi'.
  destruct (heard_by c (s_loop s)) as [|[h p] cs] eqn:Hcs.
  { pose proof (handled_silent _ _ _ _ _ _ _ Ht Hh Has Hcs) as Hsil. by rewrite (Hsil fd), app_nil_r. }
  destruct (handled_heard _ _ _ _ _ _ _ _ _ Ht Has Hcs) as [-> Hc]. cbn [fst snd] in Hc.
  unfold input_to. cbn [omap list_omap fst snd]. destruct (decide (command h = Wrte)) as [Hw|Hw].
  2: { pose proof (commanded_silent _ _ _ _ _ _ _ Hc Hw) as Hsil.
       rewrite decide_False by by intros []. by rewrite (Hsil fd), app_nil_r. }
  destruct Hc as (_ & d1 & ns1 & _ & _ & Hc & [Hst _] & Hos). rewrite Hos. rewrite Hst in Hi'.
  unfold command_post in Hc. rewrite Hw in Hc. destruct p as [p|]; [|done].
  destruct (wrte_fed _ _ _ _ _ Hp Hc) as [Hothers Hown]. case_decide as Hi1.
  - destruct Hi1 as [_ <-]. cbn. rewrite app_nil_r. by eapply Hown.
  - rewrite app_nil_r. apply Hothers. intros st1 Hst1 Hfd1.
    assert (arg1 h ≠ i) as Hne by tauto.
    by apply (fds_distinct base _ _ i (arg1 h) st st1 fd fd
      (di_own _ _ _ _ _ (si_dinv _ _ _ Hinv)) Hd (not_eq_sym Hne)).
Qed.

(** ** Runs *)

(** An OPEN of the peer [r] was handled, when the calls [old] had been made;
    the descriptor was not open then, but it was open whenever a later command
    was handled and is open now, so it is the one opened for that OPEN; since
    then it has accepted the payloads of the messages to the stream that were
    handled after the OPEN. *)
Definition fed_since (i fd r : Z) (s : Sys) : Prop :=
  ∃ pre h p post new old,
    s_heard s = pre ++ (h, p) :: post ∧ command h = Open ∧ arg0 h = r ∧
    s_calls s !! length pre = Some old ∧
    w_log (os (dm (s_loop s))) = new ++ old ∧ (fd ∉ live_fds old) ∧
    Forall (λ calls, fd ∈ live_fds calls)
      (drop (S (length pre)) (s_calls s) ++ [w_log (os (dm (s_loop s)))]) ∧
    accepted fd (w_log (os (dm (s_loop s)))) = accepted fd old ++ input_to i post.

Record input_inv (s : Sys) : Prop := {
  ii_fds : NoDup (live_fds (w_log (os (dm (s_loop s)))));
  ii_calls : length (s_calls s) = length (s_heard s);
  ii_fed : ∀ i st fd, streams (d_streams (dm (s_loop s))) !! i = Some st →
    input_fd (service st) = Some fd → fed_since i fd (remote_id st) s;
}.

(** The steps in which nothing is handled. *)
Lemma input_same s s' new :
  fresh_fds → input_inv s →
  live_fds (w_log (os (dm (s_loop s')))) = live_fds (w_log (os (dm (s_loop s)))) →
  d_streams (dm (s_loop s')) = d_streams (dm (s_loop s)) →
  s_heard s' = s_heard s → s_calls s' = s_calls s →
  w_log (os (dm (s_loop s'))) = new ++ w_log (os (dm (s_loop s))) →
  silent (os (dm (s_loop s))) (os (dm (s_loop s'))) → input_inv s'.
Proof.
  intros Hf [Hd Hcalls Hfed] Hlive Hst Hh Hcl Hl Hsil.
  split; [rewrite Hl; by apply live_fds_grow|by rewrite Hcl, Hh|].
  rewrite Hst. intros i st fd Hi Hfd.
  destruct (Hfed i st fd Hi Hfd) as (pre & h & p & post & new' & old & Hheard & Hc & Hr & Hat & Hlog & Hold & Hopen & Ha).
  exists pre, h, p, post, (new ++ new'), old. rewrite Hh, Hcl, (Hsil fd). split_and!; try done.
  - by rewrite Hl, Hlog, (assoc_L (++)).
  - apply Forall_app in Hopen as [Hlater [Hnow _]%Forall_cons]. apply Forall_app. split; [done|].
    constructor; [by rewrite Hlive|done].
Qed.

(** A stream that an OPEN has opened. *)
Lemma opened_stream base n out ns n' out' ns' rid name d d' i st fd :
  dinv base n out ns d → dinv base n' out' ns' d' → NoDup (live_fds (w_log (os d'))) →
  opened rid name d d' → next_id (d_streams d) ≤ i →
  streams (d_streams d') !! i = Some st → input_fd (service st) = Some fd →
  fd ∉ live_fds (w_log (os d)).
Proof.
  intros Hd Hd' Hdis Ho Hge Hi Hfd.
  assert (streams (d_streams d) !! i = None) as Hnone.
  { destruct (streams (d_streams d) !! i) as [st0|] eqn:Hi0; [|done].
    destruct (stream_id _ _ _ _ _ _ _ Hd Hi0). lia. }
  rewrite (own_fds _ _ _ (di_own _ _ _ _ _ Hd)). rewrite (own_fds _ _ _ (di_own _ _ _ _ _ Hd')) in Hdis.
  rewrite (stream_fds_input _ i st fd Hi Hfd) in Hdis. cbn [app] in Hdis.
  assert (delete i (streams (d_streams d')) = streams (d_streams d)) as Heq;
    [|rewrite Heq in Hdis; by inversion Hdis].
  destruct Ho as [(d1 & Hst & _ & _ & _ & Hs)|(k & svc & d1 & d2 & H)].
  - destruct (sent_streams _ _ _ Hs) as (Hst' & _). rewrite Hst', Hst in Hi. congruence.
  - destruct H as (_ & _ & _ & Hfresh & Hst & _ & _ & _ & _ & Hs & Hend).
    destruct (sent_streams _ _ _ Hs) as (Hst2 & _ & _).
    assert (d_streams d' = d_streams d2) as Hst'.
    { destruct (service_read_sqe _ _); [by destruct Hend as (q & -> & _)|].
      by destruct Hend as [->|[_ ->]]. }
    rewrite Hst', Hst2, Hst in Hi |- *. apply lookup_insert_Some in Hi as [[<- _]|[_ Hi]]; [|congruence].
    by apply delete_insert_id.
Qed.

(** The descriptor of an open stream is open. *)
Lemma input_fd_live base n out ns d i st fd :
  dinv base n out ns d → streams (d_streams d) !! i = Some st → input_fd (service st) = Some fd →
  fd ∈ live_fds (w_log (os d)).
Proof.
  intros Hd Hi Hfd. rewrite (own_fds _ _ _ (di_own _ _ _ _ _ Hd)), (stream_fds_input _ i st fd Hi Hfd).
  by left.
Qed.

Lemma handle_input base n s c rest l :
  writes_progress → fresh_fds → sys_inv base n s → n < u32_max → input_inv s →
  s_batch s = c :: rest → handle_cqe c (s_loop s) = Done (None, l) → input_inv (handled s c rest l).
Proof.
  intros Hp Hf Hinv Hn [Hd Hcalls Hfed] Hb Hh.
  destruct (wp_done _ _ _ _ _ _ (wp_handle_cqe base n s c rest Hp Hinv Hn Hb) Hh eq_refl)
    as (Hinv' & t & Ht & Has).
  pose proof (handled_aims _ _ _ _ _ _ _ Hinv Ht Has) as [_ Hkept _].
  destruct (handle_cqe_on logged c logged_writes _ _ _ Hh) as [[new Hlog] _].
  assert (NoDup (live_fds (w_log (os (dm l))))) as Hd' by (rewrite Hlog; by apply live_fds_grow).
  assert (s_heard (handled s c rest l) = s_heard s ++ heard_by c (s_loop s)) as Hheard by done.
  assert (s_calls (handled s c rest l) = s_calls s ++
    replicate (length (heard_by c (s_loop s))) (w_log (os (dm (s_loop s))))) as Hcalls' by done.
  split; [exact Hd'|rewrite Hheard, Hcalls', !length_app, length_replicate; by f_equal|].
  cbn [handled s_loop]. intros i st fd Hi Hfd.
  pose proof (input_fd_live _ _ _ _ _ _ _ _ (si_dinv _ _ _ Hinv') Hi Hfd) as Hnow.
  destruct (Hkept i (target_of i st)) as [Hold|(Hop & Hge & _)]; [by unfold read_target; rewrite Hi|..].
  - destruct (read_target_fd i _ st fd Hold Hfd) as (st0 & Hi0 & Hr0 & Hfd0).
    pose proof (handled_input _ _ _ _ _ _ _ _ _ _ _ Hp Hinv Hd Ht Hh Has Hi0 Hfd0 Hi) as Hin.
    destruct (Hfed i st0 fd Hi0 Hfd0) as (pre & h & p & post & new' & old & Hpre & Hc & Hr & Hat & Hl & Hnot & Hopen & Ha).
    exists pre, h, p, (post ++ heard_by c (s_loop s)), (new ++ new'), old.
    rewrite Hheard, Hpre, <-(assoc_L (++)). cbn [handled s_loop]. split_and!; try done; [congruence|..].
    + rewrite Hcalls'. by apply lookup_app_l_Some.
    + by rewrite Hlog, Hl, (assoc_L (++)).
    + apply Forall_app in Hopen as [Hlater _]. apply lookup_lt_Some in Hat.
      rewrite Hcalls', drop_app_le by lia. repeat (apply Forall_app; split); [done| |by constructor].
      apply Forall_replicate. by eapply input_fd_live; [apply (si_dinv _ _ _ Hinv)|..].
    + by rewrite Hin, Ha, input_to_app, (assoc_L (++)).
  - unfold opening_in in Hop. destruct (heard_by c (s_loop s)) as [|[h p] [|]] eqn:Hcs; try done.
    unfold opening in Hop. destruct (command h) eqn:Hcmd; try done. injection Hop as Hr.
    destruct (handled_heard _ _ _ _ _ _ _ _ _ Ht Has Hcs) as [_ Hc]. cbn [fst snd] in Hc.
    pose proof (commanded_silent _ _ _ _ _ _ _ Hc ltac:(congruence)) as Hsil.
    exists (s_heard s), h, p, [], new, (w_log (os (dm (s_loop s)))). rewrite Hheard. cbn [handled s_loop].
    rewrite Hcalls'. split_and!; try done; [rewrite <-Hcalls; by apply list_lookup_middle|
      | |by rewrite (Hsil fd), app_nil_r].
    2: { rewrite drop_ge by (rewrite length_app, Hcalls; simpl; lia). by constructor. }
    destruct Hc as (_ & d1 & ns1 & Hd1 & _ & Hc & [Hst _] & Hos). rewrite Hos in Hd'. rewrite Hst in Hi.
    unfold command_post in Hc. rewrite Hcmd in Hc. destruct p as [p|]; [|done].
    destruct (service_name p) as [name|].
    + by eapply (opened_stream base n _ _ _ _ _ _ name _ d1); [apply (si_dinv _ _ _ Hinv)|..].
    + destruct (sent_streams _ _ _ Hc) as (Hst1 & _). rewrite Hst1 in Hi.
      destruct (stream_id _ _ _ _ _ _ _ (si_dinv _ _ _ Hinv) Hi). lia.
Qed.

Lemma kernel_effect_log e res l l' :
  kernel_effect e res l l' →
  d_streams (dm l') = d_streams (dm l) ∧ w_log (os (dm l')) = w_log (os (dm l)).
Proof.
  unfold kernel_effect. destruct (sqe_op e) as [fd [slot|a|] len|fd ptr len|fd flags].
  - done.
  - by intros (_ & [[_ ->]|(b & b' & _ & _ & ->)]).
  - by intros (_ & buf & _ & ->).
  - by intros ->.
  - by intros ->.
Qed.

Lemma step_input base n s s' :
  writes_progress → fresh_fds → sys_inv base n s → n < u32_max → input_inv s →
  step s (Running s') → input_inv s'.
Proof.
  intros Hp Hf Hinv Hn Hi Hstep.
  inversion Hstep as [| | |pre e post res l Hfl Heff| |c rest l Hb Hh| |]; subst.
  - by apply (input_same s _ [CSubmitAndWait 1]).
  - by apply (input_same s _ []).
  - destruct (kernel_effect_log _ _ _ _ Heff) as [Hst Hl].
    apply (input_same s _ []); [done|done|cbn [s_loop]; by rewrite Hl|done..|]. intros fd. cbn [s_loop]. by rewrite Hl.
  - by eapply (handle_input base n s c rest l).
Qed.

Lemma steps_input base n k s s' :
  writes_progress → fresh_fds → sys_inv base n s → input_inv s → steps k s s' →
  n + Z.of_nat k ≤ u32_max → input_inv s'.
Proof.
  intros Hp Hf Hinv Hi. induction 1 as [s|k s s' s'' Hs IH Hstep]; intros Hn; [done|].
  pose proof (steps_inv base n k s s' Hp Hinv Hs ltac:(lia)) as Hinv'.
  eapply step_input; [done|done|exact Hinv'|lia| |exact Hstep]. apply IH; [done..|lia].
Qed.

(** C8: the input of a service arrives whole, unchanged and in order, and
    nothing else does.  In an environment that gives out no descriptor
    that is still open, in every reachable state, the terminal or socket of
    an open stream has accepted, since the OPEN that it was opened for,
    exactly the payloads of the WRTEs that were received for the stream after
    that OPEN. *)
Theorem input_delivered base e0 eo ei info w n s i st fd :
  writes_progress → fresh_fds → start_ok base info w → NoDup base → 1 + Z.of_nat n < u32_max →
  reachable n e0 eo ei info w s →
  streams (d_streams (dm (s_loop s))) !! i = Some st → input_fd (service st) = Some fd →
  fed_since i fd (remote_id st) s.
Proof.
  intros Hp Hf Hst Hbase Hn (l & Hrun & Hsteps).
  destruct (run_start_inv base e0 eo ei info w l Hst Hrun) as (Hinv & Hnew & _).
  assert (input_inv (mkSys l [] [] [] no_history)) as Hi.
  { split; cbn [s_loop]; [|done|].
    - destruct (run_start_on logged _ _ _ Hrun) as [[new ->] _]. apply live_fds_grow; [done|].
      cbn [Loop_new dm os]. by rewrite (st_fds _ _ _ Hst).
    - intros j stj fdj. rewrite Hnew. cbn. by rewrite lookup_empty. }
  by apply (ii_fed _ (steps_input base 1 n _ s Hp Hf Hinv Hi Hsteps ltac:(lia))).
Qed.
End input.
