(* ===== verification/Transfer.v ===== *)
(** A pull over the connection: the host's OKAYs for a stream that sends a
    file, with other activity of the daemon between them. *)
From Stdlib Require Import ZArith Lia Strings.Byte.
From stdpp Require Import base numbers list gmap strings.
From S2P Require Import Prelude.
From S2P Require Import Bytes.
From S2P Require Import Winnow.
From S2P Require Import Message.
From S2P Require Import Buffers.
From S2P Require Import Os.
From S2P Require Import Sync.
From S2P Require Import SyncFacts.
From S2P Require Import Stream.
From S2P Require Import UserData.
From S2P Require Import Ring.
From S2P Require Import Ffs.
From S2P Require Import Connection.
From S2P Require Import Wire.
From S2P Require Import ConnectionFacts.
From S2P Require Import Commands.

Open Scope Z_scope.

#[local] Opaque UserData_u64.

Section pull.
Context {E : Os} {W : Winnow} {R : SubmissionQueue}.
Implicit Types d : Daemon.

(** The host acknowledges a WRTE of stream [i], which it calls [r]. *)
Definition host_okay (i r : Z) : AdbHeader := mkAdbHeader Okay r i 0 0 (command_magic Okay).

(** [n] OKAYs are handled.  After each, and before the next, other things
    happen: [others]; the result is what the OKAYs added to the queue. *)
Fixpoint okays (others : nat → Daemon → Daemon) (i r : Z) (n : nat) (d : Daemon) :
    outcome (list (list byte * bool) * Daemon) :=
  match n with
  | O => Done ([], d)
  | S n =>
      match handle_command_okay (host_okay i r) d with
      | Panicked p => Panicked p
      | Done (_, d1) =>
          match okays others i r n (others n d1) with
          | Panicked p => Panicked p
          | Done (ws, d') => Done (drop (length (sq_writes d)) (sq_writes d1) ++ ws, d')
          end
      end
  end.

(** The daemon is in order, and three buffers are free. *)
Definition connected d : Prop := ∃ base n out ns, dinv base n out ns d.
Definition ready d : Prop :=
  (∃ base n out ns, dinv base n out ns d ∧ (length ns ≤ 20)%nat) ∧
  (length (occupied (d_buffers d)) ≤ 5)%nat.

(** What the rest of the daemon leaves alone: the stream, the version that
    was negotiated, what is left of the file that the stream sends, and the
    file that it receives, with its name. *)
Record undisturbed (i : Z) d d' : Prop := {
  un_stream : streams (d_streams d') !! i = streams (d_streams d) !! i;
  un_version : d_version d' = d_version d;
  un_file : ∀ s sender, streams (d_streams d) !! i = Some s →
    service s = Service.Sync (mkSyncService (SyncState.Sending sender)) →
    unread (snd_file sender) (os d') = unread (snd_file sender) (os d);
  un_received : ∀ s rcv, streams (d_streams d) !! i = Some s →
    service s = Service.Sync (mkSyncService (SyncState.Receiving rcv)) →
    w_inodes (os d') !! f_ino (rcv_file rcv) = w_inodes (os d) !! f_ino (rcv_file rcv) ∧
    w_paths (os d') !! rcv_path rcv = w_paths (os d) !! rcv_path rcv;
}.

(** Between two OKAYs the stream is left alone and buffers become free. *)
Definition polite (i : Z) (others : nat → Daemon → Daemon) : Prop :=
  ∀ k d, connected d → undisturbed i d (others k d) ∧ ready (others k d).

(** A frame as the message that carries it. *)
Definition frame_message (v : ProtocolVersion) (i r : Z) (resp : SyncResponse) :
    AdbHeader * list byte :=
  let payload := SyncFrameResponseHeader_bytes resp.1 ++ resp.2 in
  (payload_header v Wrte i r payload, payload).

(** ** One OKAY *)

(** What was queued is at the end of the queue's writes. *)
Lemma ready_slots k d : (k ≤ 3)%nat → ready d → slots (λ _, False) k d.
Proof. intros Hk [_ Hd] p [_ Hp]. lia. Qed.

(** An OKAY for a session does one step of it, and never panics. *)
Lemma okay_session i r d s svc (Q : unit → Daemon → Prop) :
  ready d → streams (d_streams d) !! i = Some s → service s = Service.Sync svc →
  (∀ d', connected d' →
    continued i (stream_set_waiting s false) (with_stream i (stream_set_waiting s false) d) d' →
    Q tt d') →
  wp (handle_command_okay (host_okay i r)) Q d.
Proof.
  intros Hr Hi Hs HQ. pose proof (ready_slots 2 d ltac:(lia) Hr) as Hsl.
  destruct Hr as [(base & n & out & ns & Hd & Hns) _].
  eapply wp_okay; [exact Hsl|exact Hd|exact Hns| |].
  - intros s' Hi' Hr. cbn in Hi'. congruence.
  - intros d' ns' Hd' _ Hpost. unfold okay_post in Hpost. cbn [host_okay arg1] in Hpost.
    rewrite Hi in Hpost. apply HQ; [by exists base, n, out, ns'|done].
Qed.

(** A frame is sent. *)
Lemma okay_frame i r d s sender :
  ready d → streams (d_streams d) !! i = Some s →
  service s = Service.Sync (mkSyncService (SyncState.Sending sender)) → snd_done sender = false →
  ∃ d1 resp sender', handle_command_okay (host_okay i r) d = Done (tt, d1) ∧ connected d1 ∧
    d_version d1 = d_version d ∧
    streams (d_streams d1) !! i = Some (mkStream (remote_id s)
      (Service.Sync (mkSyncService (SyncState.Sending sender'))) true (remote_closed s)) ∧
    next_frame_post sender (os d) (Some resp, sender') (os d1) ∧
    sq_writes d1 = sq_writes d ++ buffers_of [frame_message (d_version d) i (remote_id s) resp].
Proof.
  intros Hr Hi Hs Hdone.
  assert (Forall (write_live (view (d_buffers d))) (sq_entries (sq d))) as Hlive
    by (destruct Hr as [(? & ? & ? & ? & [Hd _] & _) _]; by eapply dcore_live).
  assert (wp (handle_command_okay (host_okay i r)) (λ _ d1, ∃ resp sender', connected d1 ∧
    d_version d1 = d_version d ∧
    streams (d_streams d1) !! i = Some (mkStream (remote_id s)
      (Service.Sync (mkSyncService (SyncState.Sending sender'))) true (remote_closed s)) ∧
    next_frame_post sender (os d) (Some resp, sender') (os d1) ∧
    sq_writes d1 = sq_writes d ++ buffers_of [frame_message (d_version d) i (remote_id s) resp]) d)
    as H.
  2: { apply wp_total in H as ([] & d1 & Hrun & resp & sender' & H). by exists d1, resp, sender'. }
  eapply okay_session; [done..|]. intros d1 Hc Hcont. unfold continued in Hcont.
  unfold service_read_sqe in Hcont. cbn [stream_set_waiting service] in Hcont. rewrite Hs in Hcont.
  destruct Hcont as (o & sender' & w' & Hnext & Hcont).
  destruct (proj1 (wp_total _ _ _) (wp_next_frame sender (os d) Hdone)) as (r' & w'' & Heq & Hpost).
  cbn [with_stream os set_streams] in Hnext. rewrite Heq in Hnext. injection Hnext as -> ->.
  pose proof Hpost as (_ & _ & resp & Ho & _). cbn [fst] in Ho. subst o.
  destruct resp as [hdr data]. exists (hdr, data), sender'.
  apply sent_writes in Hcont as Hw; [|exact Hlive].
  destruct (sent_streams _ _ _ Hcont) as (Hst & Hos & Hver).
  split_and!; [done|by rewrite Hver| | |].
  - rewrite Hst. cbn. by rewrite lookup_insert_eq.
  - by rewrite Hos.
  - rewrite Hw. unfold frame_message. by rewrite buffers_of_one.
Qed.

(** The session of stream [i] has nothing to send. *)
Definition at_rest (i r : Z) d : Prop :=
  ∃ s svc, streams (d_streams d) !! i = Some s ∧ remote_id s = r ∧
    service s = Service.Sync svc ∧
    (sync_state svc = SyncState.Idle ∨
     ∃ sender, sync_state svc = SyncState.Sending sender ∧ snd_done sender = true).

Lemma okay_at_rest i r d :
  ready d → at_rest i r d →
  ∃ d1 s, handle_command_okay (host_okay i r) d = Done (tt, d1) ∧ connected d1 ∧
    streams (d_streams d1) !! i = Some s ∧ remote_id s = r ∧
    service s = Service.Sync SyncService_new ∧ sq_writes d1 = sq_writes d.
Proof.
  intros Hr (s & [st] & Hi & Hrid & Hs & Hst).
  assert (wp (handle_command_okay (host_okay i r)) (λ _ d1, ∃ s, connected d1 ∧
    streams (d_streams d1) !! i = Some s ∧ remote_id s = r ∧
    service s = Service.Sync SyncService_new ∧ sq_writes d1 = sq_writes d) d) as H.
  2: { apply wp_total in H as ([] & d1 & Hrun & s' & H). by exists d1, s'. }
  eapply okay_session; [done..|]. intros d1 Hc Hcont. unfold continued in Hcont.
  unfold service_read_sqe in Hcont. cbn [stream_set_waiting service] in Hcont. rewrite Hs in Hcont.
  destruct Hst as [Hst|(sender & Hst & Hdone)]; cbn in Hst; subst st.
  - subst d1. eexists. split_and!; [done|cbn; by rewrite lookup_insert_eq|done|done|done].
  - destruct Hcont as (o & sender' & w' & Hnext & Hcont). unfold next_frame in Hnext.
    rewrite Hdone in Hnext. injection Hnext as <- <- <-. subst d1.
    eexists. split_and!; [done|cbn; by rewrite lookup_insert_eq|done|done|done].
Qed.

(** ** All the OKAYs *)

Definition idle (i r : Z) d : Prop :=
  ∃ s, streams (d_streams d) !! i = Some s ∧ remote_id s = r ∧
    service s = Service.Sync SyncService_new.

Lemma idle_at_rest i r d : idle i r d → at_rest i r d.
Proof. intros (s & Hi & Hr & Hs). exists s, SyncService_new. split_and!; [done..|by left]. Qed.

Context (others : nat → Daemon → Daemon) (i r : Z) (Hpolite : polite i others).

(** One OKAY and what follows it. *)
Lemma okays_step n d d1 ws d' :
  handle_command_okay (host_okay i r) d = Done (tt, d1) → sq_writes d1 = sq_writes d ++ ws →
  ∀ ws', okays others i r n (others n d1) = Done (ws', d') →
  okays others i r (S n) d = Done (ws ++ ws', d').
Proof.
  intros Hrun Hw ws' Hrest. cbn [okays]. rewrite Hrun, Hrest, Hw. by rewrite drop_app_length.
Qed.

Lemma okays_at_rest n d :
  ready d → at_rest i r d →
  ∃ d', okays others i r n d = Done ([], d') ∧ (n ≠ 0%nat → idle i r d').
Proof.
  revert d. induction n as [|n IH]; intros d Hr Hrest; [by exists d|].
  destruct (okay_at_rest i r d Hr Hrest) as (d1 & s & Hrun & Hc & Hi & Hrid & Hs & Hw).
  destruct (Hpolite n d1 Hc) as [[Hst _ _ _] Hr2].
  assert (idle i r (others n d1)) as Hidle by (exists s; by rewrite Hst).
  destruct (IH _ Hr2 (idle_at_rest _ _ _ Hidle)) as (d' & Hd' & Hlast).
  exists d'. split.
  - eapply (okays_step n d d1 []); [done|by rewrite app_nil_r|done].
  - intros _. destruct n as [|n]; [by injection Hd' as <-|by apply Hlast].
Qed.

(** The system can refuse to read this file. *)
Definition read_can_fail (f : File) : Prop :=
  ∃ h e, os_result h (CRead (f_ino f) PAYLOAD_SIZE_MAX_BYTES) = Err e.

Definition pull_post (sender : FileSender) d (ws : list (list byte * bool)) d' : Prop :=
  ∃ chunks last,
    ws = buffers_of (frame_message (d_version d) i r <$> (data_frame_response <$> chunks) ++ [last]) ∧
    Forall (λ c, 1 ≤ length c ≤ PAYLOAD_SIZE_MAX_BYTES)%nat chunks ∧
    ((last = done_response ∧ mjoin chunks = unread (snd_file sender) (os d)) ∨
     (resp_id last.1 = SyncFrameResponseId.Fail ∧ read_can_fail (snd_file sender) ∧
      mjoin chunks `prefix_of` unread (snd_file sender) (os d))) ∧
    idle i r d'.

(** C6: [adb pull] works over the connection.  Let a stream have a file to
    send, and let the host acknowledge what it gets; whatever the daemon does
    between two OKAYs, as long as it leaves the stream and the rest of the
    file alone and three buffers become free, no OKAY panics, and within as
    many OKAYs as the file has bytes, plus two, the daemon has sent exactly
    the WRTE messages of the stream whose payloads are the DATA frames of
    the rest of the file and one last frame, and the session is idle again.
    The last frame is DONE and the data are complete, unless the system
    refused to read the file: then it is FAIL and they are a prefix. *)
Theorem pull_over_connection n d s sender :
  ready d → streams (d_streams d) !! i = Some s → remote_id s = r →
  service s = Service.Sync (mkSyncService (SyncState.Sending sender)) → snd_done sender = false →
  (length (unread (snd_file sender) (os d)) + 2 ≤ n)%nat →
  ∃ ws d', okays others i r n d = Done (ws, d') ∧ pull_post sender d ws d'.
Proof.
  revert d s sender. induction n as [|n IH]; intros d s sender Hr Hi Hrid Hs Hdone Hn; [lia|].
  destruct (okay_frame i r d s sender Hr Hi Hs Hdone)
    as (d1 & resp & sender' & Hrun & Hc & Hver & Hi1 & Hpost & Hw).
  destruct (Hpolite n d1 Hc) as [[Hst Hv Hfile _] Hr2]. specialize (Hfile _ sender' Hi1 eq_refl).
  rewrite Hi1, Hrid in Hst. rewrite Hrid in Hw.
  destruct Hpost as (_ & _ & resp' & [= <-] & Hcase). cbn [fst snd] in Hcase.
  destruct Hcase as [(chunk & -> & Hdone' & Hl & Hu & Hino & _)|Hend].
  - rewrite Hu, length_app in Hn.
    destruct (IH _ _ sender' Hr2 Hst eq_refl eq_refl Hdone')
      as (ws & d' & Hok & Hp); [rewrite Hfile; lia|].
    unfold pull_post in Hp. rewrite Hfile in Hp. destruct Hp as (chunks & last & -> & Hc' & Hlast & Hidle).
    eexists _, d'. split; [by eapply okays_step|]. exists (chunk :: chunks), last. split_and!.
    + by rewrite Hv, Hver, <-buffers_of_app.
    + by constructor.
    + cbn [mjoin list_join]. rewrite Hu. destruct Hlast as [[-> <-]|(? & Hfail & ?)]; [by left|right].
      unfold read_can_fail in Hfail. rewrite Hino in Hfail. split_and!; [done..|]. by apply prefix_app.
    + done.
  - assert (at_rest i r (others n d1)) as Hrest.
    { eexists _, _. split_and!; [exact Hst|done|done|]. right. exists sender'.
      split; [done|]. by destruct Hend as [[]|[]]. }
    destruct (okays_at_rest n _ Hr2 Hrest) as (d' & Hok & Hidle).
    eexists _, d'. split; [by eapply okays_step|]. exists [], resp. split_and!.
    + by rewrite app_nil_r.
    + constructor.
    + destruct Hend as [(_ & -> & ->)|(_ & ? & e & He)]; [by left|right].
      split_and!; [done| |apply prefix_nil]. destruct He as (_ & old & _ & _ & He). by exists old, e.
    + apply Hidle. lia.
Qed.
End pull.

(** A polite daemon: all that was queued is submitted and completes. *)
Section flush.
Context {E : Os} {W : Winnow} {R : SubmissionQueue}.

Definition flush (d : Daemon) : Daemon := set_sq sq_empty (set_buffers BufferManager_new d).

Lemma flush_ready d : connected d → ready (flush d).
Proof.
  intros (base & n & out & ns & [[Hwf _ _ _ Hown Hids Hsv Hi _] _]).
  assert (occupied BufferManager_new = []) as Hnone by by unfold occupied; rewrite view_new.
  split; [|change (d_buffers (flush d)) with BufferManager_new; rewrite Hnone; simpl; lia].
  exists base, n, (mkOutside [] []), []. split; [|simpl; lia].
  split; [|apply spoken_empty, sq_empty_law]. split; try done.
  - unfold sq_tokens. cbn [sq flush set_sq]. rewrite sq_empty_law.
    change (d_buffers (flush d)) with BufferManager_new. by rewrite Hnone.
  - unfold sq_tokens. cbn [sq flush set_sq]. by rewrite sq_empty_law.
  - cbn [sq flush set_sq]. rewrite sq_empty_law. constructor.
Qed.

Lemma flush_polite i : polite i (λ _, flush).
Proof. intros k d Hd. split; [by split|by apply flush_ready]. Qed.
End flush.
