(* ===== verification/Push.v ===== *)
(** A push over the connection: the host's WRTEs for a stream that receives a
    file, with other activity of the daemon between them. *)
From Stdlib Require Import ZArith Lia Strings.Byte.
From stdpp Require Import base numbers list gmap strings.
From S2P Require Import Prelude.
From S2P Require Import Bytes.
From S2P Require Import Winnow.
From S2P Require Import Message.
From S2P Require Import Buffers.
From S2P Require Import Os.
From S2P Require Import Sync.
From S2P Require Import SyncFacts.
From S2P Require Import SyncSession.
From S2P Require Import SyncSafe.
From S2P Require Import Forward.
From S2P Require Import Stream.
From S2P Require Import UserData.
From S2P Require Import Ring.
From S2P Require Import Ffs.
From S2P Require Import Connection.
From S2P Require Import Wire.
From S2P Require Import ConnectionFacts.
From S2P Require Import Commands.
From S2P Require Import Transfer.

Open Scope Z_scope.

#[local] Opaque UserData_u64.

Section push.
Context {E : Os} {W : Winnow} {R : SubmissionQueue}.
Implicit Types d : Daemon.

(** The host sends a payload to stream [i], from what it calls [r]. *)
Definition host_wrte (i r : Z) (payload : list byte) : AdbHeader :=
  payload_header V0 Wrte r i payload.

(** Payloads are handled one after the other; between two of them other
    things happen: [others].  The result is what the WRTEs added to the
    queue, and the state after the last one. *)
Fixpoint wrtes (others : nat → Daemon → Daemon) (i r : Z) (payloads : list (list byte)) (d : Daemon) :
    outcome (list (list byte * bool) * Daemon) :=
  match payloads with
  | [] => Done ([], d)
  | payload :: payloads =>
      match handle_command_wrte (host_wrte i r payload) payload d with
      | Panicked p => Panicked p
      | Done (_, d1) =>
          let ws := drop (length (sq_writes d)) (sq_writes d1) in
          match payloads with
          | [] => Done (ws, d1)
          | _ =>
              match wrtes others i r payloads (others (length payloads) d1) with
              | Panicked p => Panicked p
              | Done (ws', d') => Done (ws ++ ws', d')
              end
          end
      end
  end.

(** What a payload is answered with, and what becomes of the session. *)
Definition wrte_round_post (i r : Z) (s : Stream) (v : ProtocolVersion)
    (res : FileReceiverResult.t SyncResponse) (rcv : FileReceiver)
    (ws : list (list byte * bool)) (s' : Stream) : Prop :=
  match res with
  | FileReceiverResult.Continue =>
      s' = stream_set_service s (Service.Sync (mkSyncService (SyncState.Receiving rcv))) ∧
      ws = control v Okay i r
  | FileReceiverResult.Done resp =>
      s' = stream_set_service s (Service.Sync SyncService_new) ∧
      ws = control v Okay i r ++ buffers_of [frame_message v i r resp]
  end.

(** One WRTE to a session that receives a file never panics. *)
Lemma wrte_round i r payload d s rcv :
  writes_progress → ready d → streams (d_streams d) !! i = Some s → remote_id s = r →
  service s = Service.Sync (mkSyncService (SyncState.Receiving rcv)) →
  receiver_wf rcv (os d) → Z.of_nat (length payload) ≤ 2 ^ 20 →
  ∃ d1 res rcv' ws s',
    handle_command_wrte (host_wrte i r payload) payload d = Done (tt, d1) ∧ connected d1 ∧
    d_version d1 = d_version d ∧ streams (d_streams d1) !! i = Some s' ∧
    receive_post rcv payload (os d) (res, rcv') (os d1) ∧ sq_writes d1 = sq_writes d ++ ws ∧
    wrte_round_post i r s (d_version d) res rcv' ws s'.
Proof.
  intros Hp Hr Hi Hrid Hs Hwf Hl. pose proof (ready_slots 3 d ltac:(lia) Hr) as Hsl.
  destruct Hr as [(base & n & out & ns & Hd & Hns) _].
  destruct (dinv_stream_u32 _ _ _ _ _ _ _ Hd Hi) as [Hiu Hru]. rewrite Hrid in Hru.
  pose proof (dcore_live _ _ _ _ _ Hd) as Hlive.
  destruct (proj1 (wp_total _ _ _) (wp_receive rcv payload (os d) Hwf))
    as ([res rcv'] & w' & Hrec & Hpost).
  assert (wp (handle_command_wrte (host_wrte i r payload) payload) (λ _ d1, ∃ ws s',
    connected d1 ∧ d_version d1 = d_version d ∧ streams (d_streams d1) !! i = Some s' ∧
    receive_post rcv payload (os d) (res, rcv') (os d1) ∧ sq_writes d1 = sq_writes d ++ ws ∧
    wrte_round_post i r s (d_version d) res rcv' ws s') d) as H.
  2: { apply wp_total in H as ([] & d1 & Hrun & ws & s' & H). by exists d1, res, rcv', ws, s'. }
  eapply wp_wrte; [done|exact Hsl| |exact Hd|exact Hns|exact Hl|exact Hru|exact Hiu| |].
  - intros s0 svc Hi0 Hs0. cbn [host_wrte payload_header arg1] in Hi0.
    rewrite Hi in Hi0. injection Hi0 as <-. rewrite Hs in Hs0. injection Hs0 as <-.
    unfold handle. cbn [sync_state]. apply wp_bind. unfold wpp at 1. rewrite Hrec.
    by destruct res as [[]|].
  - cbn [host_wrte payload_header arg1]. intros s' Hi'. congruence.
  - cbn [host_wrte payload_header arg0 arg1]. intros d' ns' Hd' _ (d1 & Hokay & Hserve).
    pose proof (sent_writes _ _ _ Hokay Hlive) as Hw1.
    destruct (sent_streams _ _ _ Hokay) as (Hst1 & Hos1 & Hv1).
    assert (Forall (write_live (view (d_buffers d1))) (sq_entries (sq d1))) as Hlive1
      by by apply (sent_live _ _ _ Hokay).
    rewrite Hi in Hserve. unfold wrte_service in Hserve. rewrite Hs in Hserve.
    destruct Hserve as (rr & svc' & w'' & Hh & Hserve). unfold handle in Hh. cbn [sync_state] in Hh.
    apply bind_inv in Hh as (rr' & w0 & Hrec' & Hh). rewrite Hos1, Hrec in Hrec'.
    injection Hrec' as <- <-. rewrite Hrid, Hv1 in Hserve.
    destruct res as [[hdr data]|]; injection Hh as <- <- <-.
    + apply sent_writes in Hserve as Hw; [|exact Hlive1].
      destruct (sent_streams _ _ _ Hserve) as (Hst & Hos & Hv).
      eexists _, _. split_and!; [by exists base, n, out, ns'|by rewrite Hv| | | |].
      * rewrite Hst. cbn. by rewrite lookup_insert_eq.
      * by rewrite Hos.
      * rewrite Hw. cbn [sq_writes]. by rewrite (assoc_L (++)), <-Hw1.
      * split; [done|]. unfold frame_message. by rewrite buffers_of_one.
    + assert (d' = with_stream i (stream_set_service s
        (Service.Sync (mkSyncService (SyncState.Receiving rcv')))) (set_os w' d1)) as ->.
      { by destruct (waiting_for_okay s). }
      eexists _, _. split_and!; [by exists base, n, out, ns'|done| | | |].
      * cbn. by rewrite lookup_insert_eq.
      * done.
      * exact Hw1.
      * by split.
Qed.

(** The file of a transfer that is over. *)
Definition received (rcv : FileReceiver) (w w' : World) (out : list byte) (mtime : Z) : Prop :=
  w_paths w' !! rcv_path rcv = w_paths w !! rcv_path rcv ∧
  ∃ i i', w_inodes w !! f_ino (rcv_file rcv) = Some i ∧
    w_inodes w' !! f_ino (rcv_file rcv) = Some i' ∧
    i_data i' = i_data i ++ out ∧ i_mode i' = Z.land (rcv_mode rcv) 0xfff ∧ i_mtime i' = mtime.

Lemma completed_received rcv w w' out mtime :
  ¬ some_call_fails → completed rcv w w' out mtime → received rcv w w' out mtime.
Proof.
  intros Hrel [Hp Hf]%completed_time; [|done]. split; [by rewrite Hp|done].
Qed.

(** A part was received, then others were at work, then the rest. *)
Lemma received_appended rcv rcv1 w w1 w2 w' out out' mtime :
  rcv_path rcv1 = rcv_path rcv → rcv_mode rcv1 = rcv_mode rcv →
  appended w (rcv_file rcv) w1 (rcv_file rcv1) out →
  w_inodes w2 !! f_ino (rcv_file rcv1) = w_inodes w1 !! f_ino (rcv_file rcv1) →
  w_paths w2 !! rcv_path rcv1 = w_paths w1 !! rcv_path rcv1 →
  received rcv1 w2 w' out' mtime → received rcv w w' (out ++ out') mtime.
Proof.
  intros Hp Hm [E1 (i & i' & Hi & Hi' & _ & Hd & _) _ P1 _ _ _] Hsi Hsp
    (P2 & j & j' & Hj & Hj' & Hd' & Hm' & Ht).
  rewrite Hp in *. rewrite E1 in *. split; [by rewrite P2, Hsp, P1|].
  rewrite Hsi, Hi' in Hj. injection Hj as <-. exists i, j'. split_and!; try done.
  - by rewrite Hd', Hd, (assoc_L (++)).
  - by rewrite Hm', Hm.
Qed.

Lemma receiver_wf_same rcv w w' :
  w_inodes w' !! f_ino (rcv_file rcv) = w_inodes w !! f_ino (rcv_file rcv) →
  receiver_wf rcv w → receiver_wf rcv w'.
Proof. intros Hi [? (i & Hi' & ?) ? ?]. split; [done| |done|done]. exists i. by rewrite Hi. Qed.

Context (others : nat → Daemon → Daemon) (i r : Z) (Hpolite : polite i others).

(** What [n] payloads are answered with, the last of which ends the push. *)
Definition push_answers (v : ProtocolVersion) (n : nat) : list (list byte * bool) :=
  mjoin (replicate n (control v Okay i r)) ++ buffers_of [frame_message v i r okay_response].

Lemma wrtes_receiving ds d s rcv mtime out :
  ¬ some_call_fails → writes_progress → ready d →
  streams (d_streams d) !! i = Some s → remote_id s = r →
  service s = Service.Sync (mkSyncService (SyncState.Receiving rcv)) → receiver_wf rcv (os d) →
  ds ≠ [] → Forall (λ p, p ≠ [] ∧ Z.of_nat (length p) ≤ 2 ^ 20) ds →
  ends_exactly (recv_abs (rcv_state rcv)) (mjoin ds) →
  push_feed (recv_abs (rcv_state rcv)) (mjoin ds) = (PDone mtime, out) →
  ∃ d', wrtes others i r ds d = Done (push_answers (d_version d) (length ds), d') ∧
    idle i r d' ∧ received rcv (os d) (os d') out mtime.
Proof.
  intros Hrel Hprog. revert d s rcv out. induction ds as [|p ds IH]; [done|].
  intros d s rcv out Hr Hi Hrid Hs Hwf _ Hds Hex Hf. apply Forall_cons in Hds as [[Hp Hl] Hds].
  cbn [mjoin list_join] in Hex, Hf.
  rewrite push_feed_app in Hf. destruct (push_feed _ p) as [s1 out1] eqn:Ef.
  destruct (push_feed s1 _) as [s2 out2] eqn:Ef2. injection Hf as -> <-.
  destruct (wrte_round i r p d s rcv Hprog Hr Hi Hrid Hs Hwf Hl)
    as (d1 & res & rcv' & ws & s' & Hrun & Hc & Hv & Hi1 & Hpost & Hw & Hround).
  apply receive_post_reliable in Hpost as Hrel'; [|done|].
  2: { rewrite Ef. simpl. intros ->. by rewrite push_feed_bad in Ef2. }
  rewrite Ef in Hrel'. destruct Hrel' as (Hpath & Hmode & Hcase).
  cbn [wrtes]. rewrite Hrun, Hw, drop_app_length.
  destruct res as [resp|]; destruct Hround as [-> ->].
  - destruct Hcase as (m & -> & -> & Hcomp). destruct ds as [|p' ds'].
    + injection Ef2 as -> <-. exists d1. rewrite app_nil_r. split_and!.
      * unfold push_answers. cbn [length replicate mjoin list_join]. by rewrite app_nil_r.
      * eexists. split; [exact Hi1|]. by split.
      * by apply completed_received.
    + exfalso. specialize (Hex p (mjoin (p' :: ds')) eq_refl). rewrite Ef in Hex.
      apply Hex. cbn [mjoin list_join]. apply Forall_cons in Hds as [[Hp' _] _]. by destruct p'.
  - destruct Hcase as (Hrunning & Habs & Hwf1 & Happ). destruct ds as [|p' ds'].
    { injection Ef2 as -> _. done. }
    set (n := length (p' :: ds')) in *. destruct (Hpolite n d1 Hc) as [[Hst Hv2 _ Hfile] Hr2].
    destruct (Hfile _ rcv' Hi1 eq_refl) as [Hino Hpt]. rewrite Hi1 in Hst.
    edestruct (IH (others n d1) _ rcv' out2 Hr2 Hst) as (d' & -> & Hidle & Hrec); try done.
    + by eapply receiver_wf_same.
    + apply ends_exactly_suffix in Hex. rewrite Ef in Hex. by rewrite Habs.
    + by rewrite Habs.
    + exists d'. split_and!; [|done|by eapply received_appended].
      rewrite Hv2, Hv. unfold push_answers.
      change (length (p :: p' :: ds')) with (S n). cbn [replicate mjoin list_join].
      by rewrite <-(assoc_L (++)).
Qed.

(** C5: [adb push] works over the connection.  In an environment that refuses
    nothing, let a stream wait for the data of a push, and let the host send
    it in WRTE messages, cut anywhere, with whatever the daemon does between
    them, as long as it leaves the stream and the file alone and three
    buffers become free.  No message panics; each is acknowledged by an
    OKAY, and the last one also by a WRTE with the OKAY of the session, which
    is then idle; the file has the contents, the permissions and the time
    that the host sent. *)
Theorem push_over_connection ds d s rcv chunks mtime :
  ¬ some_call_fails → writes_progress → ready d →
  streams (d_streams d) !! i = Some s → remote_id s = r →
  service s = Service.Sync (mkSyncService (SyncState.Receiving rcv)) → receiver_wf rcv (os d) →
  rcv_state rcv = RecvState.Header →
  Forall (λ c, u32 (Z.of_nat (length c))) chunks → u32 mtime →
  mjoin ds = encode_push chunks mtime →
  Forall (λ p, p ≠ [] ∧ Z.of_nat (length p) ≤ 2 ^ 20) ds →
  ∃ d', wrtes others i r ds d = Done (push_answers (d_version d) (length ds), d') ∧
    idle i r d' ∧ received rcv (os d) (os d') (mjoin chunks) mtime.
Proof.
  intros Hrel Hprog Hr Hi Hrid Hs Hwf Hst Hc Hm Hj Hds.
  eapply wrtes_receiving; try done; rewrite ?Hst, ?Hj.
  - intros ->. apply (f_equal length) in Hj. unfold encode_push, done_frame in Hj.
    rewrite !length_app, !length_le_u32_bytes in Hj. simpl in Hj. lia.
  - by apply encode_push_ends_exactly.
  - by apply push_feed_encode.
Qed.
End push.
