(* ===== verification/Main.v ===== *)
(** The program's entry (src/src/main.rs, from [wait_for_enable] to [main]):
    the wait for the host, the descriptors passed by systemd, the start of the
    daemon, and the commands of the command line. *)
From Stdlib Require Import ZArith Lia Strings.Byte.
From stdpp Require Import base numbers list gmap strings.
From S2P Require Import Prelude.
From S2P Require Import Bytes.
From S2P Require Import Str.
From S2P Require Import Winnow.
From S2P Require Import DeviceInfo.
From S2P Require Import Message.
From S2P Require Import Buffers.
From S2P Require Import Os.
From S2P Require Import Shell.
From S2P Require Import Stream.
From S2P Require Import UserData.
From S2P Require Import Ring.
From S2P Require Import Ffs.
From S2P Require Import Connection.
From S2P Require Import ConnectionFacts.
From S2P Require Import System.
From S2P Require Import Safety.

Open Scope Z_scope.

#[local] Opaque UserData_u64 BULK_OUT_BUF_SIZE.

(** ** Numbers of the environment *)

(** [str::parse::<i32>]: the error is its message. *)
Definition i32_checked (x : Z) : option Z :=
  if decide (- 2 ^ 31 ≤ x < 2 ^ 31) then Some x else None.

(** The digits are added to a non-negative number and subtracted from a
    negative one, each step checked. *)
Fixpoint i32_digits (negative : bool) (acc : Z) (s : str) : result Z string :=
  match s with
  | [] => Ok acc
  | c :: s =>
      let overflow := if negative then "number too small to fit in target type"
                      else "number too large to fit in target type" in
      let mul := i32_checked (acc * 10) in
      if is_digit c then
        match mul with
        | None => Err overflow
        | Some m =>
            match i32_checked (if negative then m - (c - 48) else m + (c - 48)) with
            | None => Err overflow
            | Some acc => i32_digits negative acc s
            end
        end
      else Err "invalid digit found in string"
  end%string.

Definition parse_i32 (s : str) : result Z string :=
  match s with
  | [] => Err "cannot parse integer from empty string"%string
  | [43] | [45] => Err "invalid digit found in string"%string
  | 43 :: s' => i32_digits false 0 s'
  | 45 :: s' => i32_digits true 0 s'
  | _ => i32_digits false 0 s
  end.

(** [env::var]; the error is its message. *)
Class Environ : Type := { env_var : string → result str str }.

Definition SD_LISTEN_FDS_START : Z := 3.

Inductive CliCommand : Type := SetupGadget | BindUdc.

Record Cli : Type := mkCli { cli_command : option CliCommand }.

Section main.
Context {E : Os} {W : Winnow} {R : SubmissionQueue} `{SystemFiles} `{Dmidecode} {V : Environ}.

Fixpoint wait_for_enable (fuel : nat) (ep0 : Z) : M World (result unit io_error) :=
  match fuel with
  | O => panicM OutOfFuel
  | S fuel =>
      r ← read_next_ffs_event_type ep0;
      match r with
      | Ok UsbFunctionFsEventType.Bind => wait_for_enable fuel ep0
      | Ok UsbFunctionFsEventType.Enable => mret (Ok tt)
      | Ok _ => wait_for_enable fuel ep0
      | Err e => mret (Err e)
      end
  end.

(** The descriptors are (ep0, bulk_out, bulk_in). *)
Definition receive_usb_fds : result (Z * Z * Z) io_error :=
  match env_var "LISTEN_FDS" with
  | Err e => Err (Custom e)
  | Ok s =>
      match parse_i32 s with
      | Err e => Err (Custom (lit e))
      | Ok n =>
          if decide (n ≠ 3) then
            Err (Custom (lit "expected 3 fds (ep0 + 2 data endpoints), got " ++ show_Z n))
          else Ok (SD_LISTEN_FDS_START, SD_LISTEN_FDS_START + 1, SD_LISTEN_FDS_START + 2)
      end
  end.

(** What the program comes to: it ends, or it enters the event loop, whose
    steps are those of System. *)
Inductive Program : Type :=
  | Finished (r : result unit io_error)
  | Serving (l : Loop).

Definition finish (m : M World (result unit io_error)) (w : World) : outcome Program :=
  match m w with
  | Done (r, _) => Done (Finished r)
  | Panicked p => Panicked p
  end.

Definition run_daemon (fuel : nat) (ep0 bulk_out bulk_in : Z) (w : World) : outcome Program :=
  let device_info := from_system in
  match wait_for_enable fuel ep0 w with
  | Panicked p => Panicked p
  | Done (Err e, _) => Done (Finished (Err e))
  | Done (Ok _, w) =>
      match run_start (Loop_new ep0 bulk_out bulk_in device_info w) with
      | Panicked p => Panicked p
      | Done (Err e, _) => Done (Finished (Err e))
      | Done (Ok _, l) => Done (Serving l)
      end
  end.

Definition main (cli : Cli) (fuel : nat) (w : World) : outcome Program :=
  match cli_command cli with
  | Some SetupGadget => finish setup_gadget w
  | Some BindUdc => finish (_ ←? unbind_udc; bind_udc) w
  | None =>
      match receive_usb_fds with
      | Err e => Done (Finished (Err e))
      | Ok (ep0, bulk_out, bulk_in) => run_daemon fuel ep0 bulk_out bulk_in w
      end
  end.
End main.

(** ** Theorems *)

(** A numeral of three: zeros, a digit 3, and perhaps a plus sign in front. *)
Definition says_three (s : str) : Prop :=
  ∃ k, s = replicate k 48 ++ [51] ∨ s = 43 :: replicate k 48 ++ [51].

Lemma i32_checked_Some x y : i32_checked x = Some y → x = y.
Proof. unfold i32_checked. case_decide; [by intros [= ->]|done]. Qed.

Lemma i32_digits_cons negative acc c s v :
  i32_digits negative acc (c :: s) = Ok v →
  48 ≤ c ≤ 57 ∧
  i32_digits negative (if negative then acc * 10 - (c - 48) else acc * 10 + (c - 48)) s = Ok v.
Proof.
  cbn [i32_digits]. unfold is_digit, in_range.
  destruct ((48 <=? c) && (c <=? 57)) eqn:Ec; [|done].
  apply andb_prop in Ec as [H1%Z.leb_le H2%Z.leb_le].
  destruct (i32_checked (acc * 10)) as [m|] eqn:Em; [|done].
  destruct (i32_checked (if negative then _ else _)) as [a|] eqn:Ea; [|done].
  apply i32_checked_Some in Em as <-, Ea as <-. done.
Qed.

Lemma i32_digits_neg acc s v : acc ≤ 0 → i32_digits true acc s = Ok v → v ≤ 0.
Proof.
  revert acc. induction s as [|c s IH]; intros acc Ha; [by intros [= <-]|].
  intros [Hc Hs]%i32_digits_cons. eapply IH, Hs. lia.
Qed.

Lemma i32_digits_grows acc s v : 1 ≤ acc → i32_digits false acc s = Ok v → acc ≤ v.
Proof.
  revert acc. induction s as [|c s IH]; intros acc Ha; [by intros [= <-]|].
  intros [Hc Hs]%i32_digits_cons. apply IH in Hs; lia.
Qed.

Lemma i32_digits_three s :
  i32_digits false 0 s = Ok 3 ↔ ∃ k, s = replicate k 48 ++ [51].
Proof.
  split.
  - induction s as [|c s IH]; [done|]. intros [Hc Hs]%i32_digits_cons.
    destruct (decide (c = 48)) as [->|Hne].
    { destruct (IH Hs) as [k ->]. by exists (S k). }
    destruct s as [|c' s]; [injection Hs as Hs; exists 0%nat; cbn; f_equal; lia|].
    apply i32_digits_cons in Hs as [Hc' Hs]. apply i32_digits_grows in Hs; lia.
  - intros [k ->]. induction k as [|k IH]; [done|]. exact IH.
Qed.

Lemma parse_i32_three s : parse_i32 s = Ok 3 ↔ says_three s.
Proof.
  assert (∀ k : nat, replicate k 48 ++ [51] ≠ []) as Hne by by intros [|k].
  unfold says_three. split.
  - intros Hs.
    assert (i32_digits false 0 s = Ok 3 ∨ (∃ s', s = 43 :: s' ∧ i32_digits false 0 s' = Ok 3) ∨
      (∃ s', s = 45 :: s' ∧ i32_digits true 0 s' = Ok 3)) as Hcases.
    { destruct s as [|c s']; [done|].
      destruct (decide (c = 43)) as [->|H1]; [right; left; exists s'; by destruct s'|].
      destruct (decide (c = 45)) as [->|H2]; [right; right; exists s'; by destruct s'|].
      left. unfold parse_i32 in Hs. destruct c as [|p|p]; [exact Hs| |exact Hs].
      repeat (destruct p as [p|p|]; try exact Hs; try done). }
    destruct Hcases as [[k Hk]%i32_digits_three|[(s' & -> & [k ->]%i32_digits_three)|
      (s' & -> & Hn%i32_digits_neg)]]; [exists k; by left|exists k; by right|lia|lia].
  - intros [k [->| ->]].
    + assert (i32_digits false 0 (replicate k 48 ++ [51]) = Ok 3) as H
        by (apply i32_digits_three; eauto).
      by destruct k as [|[|k]].
    + assert (i32_digits false 0 (replicate k 48 ++ [51]) = Ok 3) as H
        by (apply i32_digits_three; eauto).
      unfold parse_i32. by destruct (replicate k 48 ++ [51]).
Qed.

Section main_facts.
Context {E : Os} {W : Winnow} {R : SubmissionQueue} `{SystemFiles} `{Dmidecode} {V : Environ}.

(** The history after [k] reads of the control endpoint, and the world. *)
Definition read_times (ep0 : Z) (k : nat) (h : list Call) : list Call :=
  replicate k (CReadFd ep0 EVENT_SIZE) ++ h.
Definition after_reads (ep0 : Z) (k : nat) (w : World) : World :=
  w_set_log (read_times ep0 k) w.

(** The first [k] reads give events that are not the one waited for. *)
Definition waited (ep0 : Z) (k : nat) (w : World) : Prop :=
  ∀ j, (j < k)%nat → ∃ e, e ≠ UsbFunctionFsEventType.Enable ∧
    is_event (read_times ep0 j (w_log w)) ep0 e.

(** The [k]-th read, counted from zero, is the first that gives an error, or
    the event waited for. *)
Definition enabled_at (ep0 : Z) (k : nat) (w : World) : Prop :=
  waited ep0 k w ∧ is_event (read_times ep0 k (w_log w)) ep0 UsbFunctionFsEventType.Enable.
Definition failed_at (ep0 : Z) (k : nat) (w : World) : Prop :=
  waited ep0 k w ∧ ∀ e, ¬ is_event (read_times ep0 k (w_log w)) ep0 e.

Lemma read_times_shift ep0 k h :
  read_times ep0 k (CReadFd ep0 EVENT_SIZE :: h) = read_times ep0 (S k) h.
Proof. unfold read_times. induction k as [|k IH]; [done|]. simpl. f_equal. exact IH. Qed.

Lemma waited_shift ep0 k w e :
  is_event (w_log w) ep0 e → e ≠ UsbFunctionFsEventType.Enable →
  waited ep0 k (after_reads ep0 1 w) → waited ep0 (S k) w.
Proof.
  intros He Hne Hw [|j] Hj; [by exists e|]. rewrite <-read_times_shift. apply (Hw j). lia.
Qed.

(** The result of the wait, read by read. *)
Lemma wait_step ep0 fuel w :
  let w1 := after_reads ep0 1 w in
  (∃ e, e ≠ UsbFunctionFsEventType.Enable ∧ is_event (w_log w) ep0 e ∧
    wait_for_enable (S fuel) ep0 w = wait_for_enable fuel ep0 w1) ∨
  (is_event (w_log w) ep0 UsbFunctionFsEventType.Enable ∧
    wait_for_enable (S fuel) ep0 w = Done (Ok tt, w1)) ∨
  ((∀ e, ¬ is_event (w_log w) ep0 e) ∧
    ∃ err, wait_for_enable (S fuel) ep0 w = Done (Err err, w1)).
Proof.
  destruct (read_event_cases ep0 w) as (r & Hr & Hev).
  cbn [wait_for_enable]. unfold mbind, M_bind. rewrite Hr.
  destruct r as [e|err].
  - destruct (decide (e = UsbFunctionFsEventType.Enable)) as [->|Hne]; [right; left; split; [by apply Hev|done]|].
    left. exists e. split_and!; [done|by apply Hev|]. by destruct e.
  - right. right. split; [|by exists err]. intros e He%Hev. done.
Qed.

Definition wait_outcome (ep0 : Z) (fuel : nat) (w : World)
    (o : outcome (result unit io_error * World)) : Prop :=
  (o = Panicked OutOfFuel ∧ waited ep0 fuel w) ∨
  ∃ k, (k < fuel)%nat ∧
    ((o = Done (Ok tt, after_reads ep0 (S k) w) ∧ enabled_at ep0 k w) ∨
     ∃ err, o = Done (Err err, after_reads ep0 (S k) w) ∧ failed_at ep0 k w).

Lemma after_reads_shift ep0 k w :
  after_reads ep0 k (after_reads ep0 1 w) = after_reads ep0 (S k) w.
Proof. unfold after_reads, w_set_log. cbn. f_equal. apply read_times_shift. Qed.

Lemma wait_outcomes ep0 fuel w : wait_outcome ep0 fuel w (wait_for_enable fuel ep0 w).
Proof.
  revert w. induction fuel as [|fuel IH]; intros w.
  { left. split; [done|]. intros j Hj. lia. }
  destruct (wait_step ep0 fuel w) as [(e & Hne & He & ->)|[(He & ->)|(He & err & ->)]].
  - assert (∀ k, waited ep0 k (after_reads ep0 1 w) → waited ep0 (S k) w) as Hsh
      by (intros k; by apply (waited_shift ep0 k w e)).
    destruct (IH (after_reads ep0 1 w)) as [[-> Hw]|(k & Hk & Hcase)]; [left; auto|].
    right. exists (S k). split; [lia|]. rewrite after_reads_shift in Hcase.
    unfold enabled_at, failed_at in *. rewrite <-!read_times_shift.
    destruct Hcase as [(-> & Hw & Hen)|(err & -> & Hw & Hf)]; [left|right; exists err]; auto.
  - right. exists 0%nat. split; [lia|]. left. split; [done|]. split; [|done]. intros j Hj. lia.
  - right. exists 0%nat. split; [lia|]. right. exists err. split; [done|]. split; [|done].
    intros j Hj. lia.
Qed.

(** A wait ends at one place. *)
Lemma is_event_inj h ep0 e e' : is_event h ep0 e → is_event h ep0 e' → e = e'.
Proof.
  intros (s & b & p & He & Hs & _ & Hb) (s' & b' & p' & He' & Hs' & _ & Hb').
  rewrite He in He'. injection He' as He'.
  apply app_inj_1 in He' as [-> Heq]; [|congruence].
  injection Heq as -> _. rewrite Hb in Hb'. by destruct e, e'.
Qed.

Definition ends_at (ep0 : Z) (k : nat) (w : World) : Prop :=
  enabled_at ep0 k w ∨ failed_at ep0 k w.

Lemma ends_at_last ep0 k n w : ends_at ep0 k w → waited ep0 n w → (n ≤ k)%nat.
Proof.
  intros Hend Hw. destruct (decide (n ≤ k)%nat) as [|Hk]; [done|].
  destruct (Hw k) as (e & Hne & He); [lia|].
  destruct Hend as [[_ Hen]|[_ Hf]]; [|by destruct (Hf e)].
  by destruct Hne; eapply is_event_inj.
Qed.

Lemma ends_at_unique ep0 j k w : ends_at ep0 j w → ends_at ep0 k w → j = k.
Proof.
  intros Hj Hk.
  assert (∀ i, ends_at ep0 i w → waited ep0 i w) as Hw by by intros i [[]|[]].
  pose proof (ends_at_last _ _ _ _ Hj (Hw _ Hk)).
  pose proof (ends_at_last _ _ _ _ Hk (Hw _ Hj)). lia.
Qed.

Lemma enabled_not_failed ep0 k w : enabled_at ep0 k w → ¬ failed_at ep0 k w.
Proof. intros [_ He] [_ Hf]. by destruct (Hf _ He). Qed.

Lemma after_reads_inj ep0 j k w : after_reads ep0 j w = after_reads ep0 k w → j = k.
Proof.
  intros Heq%(f_equal (λ w, length (w_log w))). cbn in Heq. unfold read_times in Heq.
  rewrite !length_app, !length_replicate in Heq. lia.
Qed.

(** The wait for the host ends as soon as it can and not before: with
    fuel for more than [k] reads it returns success after exactly [k + 1]
    reads if and only if the first [k] gave other events than Enable and the
    next gave Enable, it returns an error after [k + 1] reads if and only if
    the first [k] gave other events and the next gave no event at all, and
    it waits beyond the fuel if and only if every read gave another event.
    It never panics. *)
Theorem wait_for_enable_spec ep0 fuel k w :
  (k < fuel)%nat →
  (wait_for_enable fuel ep0 w = Done (Ok tt, after_reads ep0 (S k) w) ↔ enabled_at ep0 k w) ∧
  ((∃ e, wait_for_enable fuel ep0 w = Done (Err e, after_reads ep0 (S k) w)) ↔
    failed_at ep0 k w) ∧
  (∀ p, wait_for_enable fuel ep0 w = Panicked p → p = OutOfFuel ∧ waited ep0 fuel w).
Proof.
  intros Hk. destruct (wait_outcomes ep0 fuel w) as [[-> Hw]|(j & Hj & Hcase)].
  - assert (¬ ends_at ep0 k w) as Hno.
    { intros Hend. pose proof (ends_at_last _ _ _ _ Hend Hw). lia. }
    split_and!; [|split|by intros p [= <-]].
    + split; [done|]. intros He. by destruct Hno; left.
    + by intros [].
    + intros Hf. by destruct Hno; right.
  - assert (ends_at ep0 j w) as Hend by (destruct Hcase as [[]|(? & ? & ?)]; [by left|by right]).
    destruct (decide (j = k)) as [->|Hne].
    + destruct Hcase as [(-> & Hen)|(err & -> & Hf)]; (split_and!; [| |done]).
      * done.
      * split; [by intros []|]. intros Hf. by destruct (enabled_not_failed _ _ _ Hen).
      * split; [done|]. intros Hen. by destruct (enabled_not_failed _ _ _ Hen).
      * split; [done|]. intros _. by exists err.
    + assert (¬ ends_at ep0 k w) as Hno by by intros Hk'%(ends_at_unique _ _ _ _ Hend).
      assert (after_reads ep0 (S j) w ≠ after_reads ep0 (S k) w) as Hlog
        by (intros [=]%after_reads_inj; done).
      destruct Hcase as [(-> & Hen)|(err & -> & Hf)]; (split_and!; [| |done]).
      * split; [congruence|]. intros He. by destruct Hno; left.
      * split; [by intros []|]. intros He. by destruct Hno; right.
      * split; [done|]. intros He. by destruct Hno; left.
      * split; [intros []; congruence|]. intros He. by destruct Hno; right.
Qed.

Lemma live_fds_reads ep0 k h : live_fds (read_times ep0 k h) = live_fds h.
Proof. induction k as [|k IH]; [done|exact IH]. Qed.

(** The other command ends too. *)
Lemma bind_udc_total w : ∃ r w', (_ ←? unbind_udc; bind_udc) w = Done (r, w').
Proof.
  unfold bind_udc, unbind_udc, find_udc, fs_write, bind_ok, sys.
  cbv [mbind M_bind mret M_ret getM putM]. repeat case_match; simplify_eq; eauto.
Qed.

(** C37: what the program comes to.  Started with nothing allocated and an
    identity of less than 4 GiB, it never panics before the event loop,
    whatever the system answers; and it enters the event loop only if it was
    given no command, LISTEN_FDS is a numeral of three, and the control
    endpoint gave Enable after other events.  The loop is then one on the
    descriptors 3, 4 and 5 and on the identity of the system, from a world
    in which the theorems on the reachable states apply. *)
Theorem main_serves base cli fuel w :
  start_ok base from_system w →
  match main cli fuel w with
  | Panicked p => cli_command cli = None ∧ p = OutOfFuel ∧ waited 3 fuel w
  | Done (Finished _) => True
  | Done (Serving l) =>
      cli_command cli = None ∧ (∃ s, env_var "LISTEN_FDS" = Ok s ∧ says_three s) ∧
      ∃ k, enabled_at 3 k w ∧ start_ok base from_system (after_reads 3 (S k) w) ∧
        reachable 0 3 4 5 from_system (after_reads 3 (S k) w) (mkSys l [] [] [] no_history)
  end.
Proof.
  intros Hst. destruct cli as [[[]|]]; cbn [main cli_command].
  - unfold finish. destruct (proj1 (wp_total _ _ _) (wp_setup_gadget w)) as (r & w' & -> & _). done.
  - unfold finish. destruct (bind_udc_total w) as (r & w' & ->). done.
  - unfold receive_usb_fds.
    destruct (env_var "LISTEN_FDS") as [s|e] eqn:Es; [|done].
    destruct (parse_i32 s) as [n|e] eqn:En; [|done].
    case_decide as Hn; [done|]. assert (n = 3) as -> by lia.
    apply parse_i32_three in En. change (SD_LISTEN_FDS_START) with 3. cbn [Z.add].
    unfold run_daemon.
    destruct (wait_outcomes 3 fuel w) as [[-> Hw]|(k & _ & [(-> & Hen)|(err & -> & _)])]; [done| |done].
    assert (start_ok base from_system (after_reads 3 (S k) w)) as Hst'.
    { destruct Hst as [Hf Hh Hi]. split; [|done..]. rewrite <-Hf. apply (live_fds_reads 3 (S k)). }
    destruct (proj1 (wp_total _ _ _) (wp_run_start base 3 4 5 _ _ Hst')) as (r & l & Hrun & _).
    change (3 + 1) with 4. change (3 + 2) with 5. rewrite Hrun.
    destruct r as [[]|e]; [|done]. split_and!; [done|by exists s|].
    exists k. split_and!; [done..|]. exists l. by split; [|constructor].
Qed.
End main_facts.

(** ** A system that enables the function on the second event *)

Definition ex_event (b : byte) : list byte :=
  replicate 8 "000"%byte ++ b :: replicate 3 "000"%byte.

#[refine] #[local] Instance os_enables : Os := {|
  os_result _ c := match c with CReadFd _ _ => Ok 12 | _ => Ok 7 end;
  os_partial _ := 0%nat;
  os_data h := ex_event (match h with [] => "000"%byte | _ => "002"%byte end);
  os_metadata _ _ := mkMetadata 33188 5 1700000000;
  os_create_mode := 420;
  os_now _ := 1700000000;
  strerror _ := lit "error";
|}.
Proof.
  - intros _. vm_compute. lia.
  - intros h c msg. by destruct c.
  - intros _ _. vm_compute. intuition discriminate.
Defined.

#[local] Instance no_files : SystemFiles := {| fs_read _ := None |}.
#[local] Instance no_dmi : Dmidecode := {|
  EntryPoint := unit;
  entry_point_search _ := None;
  entry_point_structures _ _ := [];
|}.
#[local] Instance ex_environ : Environ := {| env_var _ := Ok (lit "3") |}.
#[local] Existing Instances winnow_doc sq_list.

Lemma ex_enabled_at : enabled_at 3 1 world_empty.
Proof.
  split.
  - intros [|j] Hj; [|lia]. exists UsbFunctionFsEventType.Bind. split; [done|].
    by exists (replicate 8 "000"%byte), "000"%byte, (replicate 3 "000"%byte).
  - by exists (replicate 8 "000"%byte), "002"%byte, (replicate 3 "000"%byte).
Qed.

Lemma wait_for_enable_spec_witness :
  (1 < 5)%nat ∧ enabled_at 3 1 world_empty ∧
  wait_for_enable 5 3 world_empty = Done (Ok tt, after_reads 3 2 world_empty).
Proof.
  split_and!; [lia|exact ex_enabled_at|].
  apply (proj1 (wait_for_enable_spec 3 5 1 world_empty ltac:(lia))). exact ex_enabled_at.
Defined.

Definition is_serving (o : outcome Program) : bool :=
  match o with Done (Serving _) => true | _ => false end.

Lemma ex_main_serves : is_serving (main (mkCli None) 5 world_empty) = true.
Proof. vm_compute. reflexivity. Qed.

Lemma ex_main_start_ok : start_ok [] from_system world_empty.
Proof. split; [reflexivity|reflexivity|vm_compute; reflexivity]. Qed.

Lemma main_serves_witness :
  start_ok [] from_system world_empty ∧
  match main (mkCli None) 5 world_empty with
  | Panicked p => cli_command (mkCli None) = None ∧ p = OutOfFuel ∧ waited 3 5 world_empty
  | Done (Finished _) => True
  | Done (Serving l) =>
      cli_command (mkCli None) = None ∧ (∃ s, env_var "LISTEN_FDS" = Ok s ∧ says_three s) ∧
      ∃ k, enabled_at 3 k world_empty ∧
        start_ok [] from_system (after_reads 3 (S k) world_empty) ∧
        reachable 0 3 4 5 from_system (after_reads 3 (S k) world_empty) (mkSys l [] [] [] no_history)
  end.
Proof. split; [exact ex_main_start_ok|]. apply main_serves. exact ex_main_start_ok. Defined.
