(* ===== verification/Examples.v ===== *)
(** Closed instances of the theorems on the connection and on the system: a
    daemon in a cooperative environment, its first steps, a run that ends in a
    panic, and a shell whose buffer is freed under a read. *)
From Stdlib Require Import ZArith Lia Strings.Byte.
From stdpp Require Import base numbers list gmap strings.
From S2P Require Import Prelude.
From S2P Require Import Bytes.
From S2P Require Import Str.
From S2P Require Import Winnow.
From S2P Require Import DeviceInfo.
From S2P Require Import Message.
From S2P Require Import Buffers.
From S2P Require Import Os.
From S2P Require Import Sync.
From S2P Require Import SyncFacts.
From S2P Require Import SyncSession.
From S2P Require Import SyncSafe.
From S2P Require Import Shell.
From S2P Require Import Forward.
From S2P Require Import Stream.
From S2P Require Import UserData.
From S2P Require Import Ring.
From S2P Require Import Ffs.
From S2P Require Import Connection.
From S2P Require Import Wire.
From S2P Require Import ConnectionFacts.
From S2P Require Import Commands.
From S2P Require Import System.
From S2P Require Import Safety.
From S2P Require Import Stable.
From S2P Require Import Transfer.
From S2P Require Import Push.
From S2P Require Import Flow.
From S2P Require Import Targets.

Open Scope Z_scope.

#[local] Existing Instances os_partial_writes winnow_doc sq_list.
#[local] Opaque BULK_OUT_BUF_SIZE.

(** ** A daemon *)

Definition ex_info : DeviceInfo :=
  mkDeviceInfo (lit "0123") (lit "Linux") (lit "board") (lit "box").

Definition ex_conn : AdbConnection := AdbConnection_new 3 4 5 ex_info.

Definition ex_daemon : Daemon := mkDaemon ex_conn sq_empty world_empty.

Lemma ex_start_ok : start_ok [] ex_info world_empty.
Proof. split; [reflexivity|reflexivity|vm_compute; reflexivity]. Qed.

Lemma ex_dinv : dinv [] 1 (mkOutside [] []) [] ex_daemon.
Proof. exact (dinv_start [] 3 4 5 ex_info world_empty ex_start_ok). Qed.

(** ** Its first steps *)

Definition ex_poll : Sqe := mkSqe (OpPollAdd 3 1) (UserData_u64 poll_token) false.
Definition ex_read : Sqe := mkSqe (OpRead 4 BulkOutPtr (2 ^ 20)) (UserData_u64 (bulk_token None)) false.

Definition ex_loop : Loop :=
  mkLoop (mkDaemon ex_conn [ex_poll; ex_read] (w_set_log (cons (CIoUringNew 32)) world_empty))
    None (replicate BULK_OUT_BUF_SIZE "000"%byte).

Lemma ex_run_start : run_start (Loop_new 3 4 5 ex_info world_empty) = Done (Ok tt, ex_loop).
Proof.
  assert (wp run_start (λ r l, r = Ok tt ∧ l = ex_loop) (Loop_new 3 4 5 ex_info world_empty)) as Hwp.
  2: { destruct (proj1 (wp_total _ _ _) Hwp) as (r & l & Hrun & Hr & Hl). rewrite Hrun, Hr, Hl. reflexivity. }
  apply wp_bind_ok, wp_zoom, wp_zoom, wp_sys.
  apply wp_bind, wp_zoom, wp_modify, wp_bind, wp_zoom, wp_bind, wp_get.
  apply wp_bind, wp_get, wp_bind, wp_expect. cbn [sq_push sq_list set_dm dm sq set_sq].
  apply wp_modify, wp_bind, wp_bind, wp_get, wp_zoom, wp_bind, wp_get, wp_bind, wp_expect.
  cbn [set_dm bulk_out_buf Loop_new]. rewrite length_replicate. rewrite bulk_buf_size.
  rewrite u32_try_from_u32 by (unfold u32; lia).
  apply wp_bind, wp_get, wp_bind, wp_expect, wp_modify, wp_ret. done.
Qed.

(** ** A run: a CNXN without a payload *)

Definition ex_header : AdbHeader :=
  mkAdbHeader Cnxn A_VERSION_V1 (1024 * 1024) 0 0 (command_magic Cnxn).

(** The kernel has put the header at the start of the buffer. *)
Definition ex_received : Loop :=
  mkLoop (dm (submitted ex_loop)) None
    (AdbHeader_bytes ex_header ++ replicate (BULK_OUT_BUF_SIZE - 24) "000"%byte).

Definition ex_cqe : Cqe := mkCqe (UserData_u64 (bulk_token None)) 24.

(** The header's read is completed and its completion is being handled. *)
Definition ex_sys : Sys := mkSys ex_received [ex_poll] [] [ex_cqe] no_history.

Lemma bulk_buf_nat : (24 ≤ BULK_OUT_BUF_SIZE)%nat.
Proof. pose proof bulk_buf_size. lia. Qed.

Lemma ex_reachable : reachable 3 3 4 5 ex_info world_empty ex_sys.
Proof.
  exists ex_loop. split; [apply ex_run_start|].
  eapply (steps_snoc 2 _ (mkSys ex_received [ex_poll] ([] ++ [ex_cqe]) [] no_history)).
  - eapply (steps_snoc 1 _ (mkSys (submitted ex_loop) ([] ++ [ex_poll; ex_read]) [] [] no_history)).
    + eapply (steps_snoc 0); [apply steps_refl|]. by eapply (step_submit (mkSys ex_loop [] [] [] no_history)).
    + apply (step_complete (mkSys (submitted ex_loop) ([] ++ [ex_poll; ex_read]) [] [] no_history)
        [ex_poll] ex_read [] 24 ex_received); [reflexivity|].
      split; [lia|]. exists (bulk_out_buf ex_received). split; [|reflexivity].
      transitivity BULK_OUT_BUF_SIZE; [|symmetry; apply length_replicate].
      cbn [ex_received bulk_out_buf]. rewrite length_app, length_replicate, length_AdbHeader_bytes.
      pose proof bulk_buf_nat. lia.
  - by apply (step_wait (mkSys ex_received [ex_poll] ([] ++ [ex_cqe]) [] no_history) [ex_cqe] []).
Qed.

Lemma ex_crash : step ex_sys (Crashed (Expect "CNXN requires a payload")).
Proof.
  eapply (step_panic ex_sys ex_cqe []); [reflexivity|]. unfold handle_cqe.
  replace (UserData_try_from (cqe_user_data ex_cqe)) with (Ok (E := Z) (bulk_token None))
    by (vm_compute; reflexivity).
  cbn [bulk_token op_type ud_data ex_cqe cqe_result]. rewrite decide_False by lia.
  assert (take (Z.to_nat 24) (bulk_out_buf ex_received) = AdbHeader_bytes ex_header) as Htake
    by (apply take_app_length'; by rewrite length_AdbHeader_bytes).
  assert (Z.to_nat 24 ≤ length (bulk_out_buf ex_received))%nat as Hlen.
  { cbn [ex_received bulk_out_buf]. rewrite length_app, length_AdbHeader_bytes. lia. }
  assert (bulk_out_read_header 24 ex_received = Panicked (Expect "CNXN requires a payload")) as H.
  { unfold bulk_out_read_header, slice_to.
    cbv [mbind M_bind mret M_ret getM]. rewrite decide_True by exact Hlen. rewrite Htake.
    replace (parse_header (AdbHeader_bytes ex_header)) with (Some (ex_header, @nil byte))
      by (vm_compute; reflexivity).
    reflexivity. }
  unfold mbind, M_bind. cbn [s_loop ex_sys]. by rewrite H.
Qed.

(** ** A run: the host connects *)

(** The kernel has put [bs] at the start of the buffer. *)
Definition delivered (bs : list byte) (l : Loop) : Loop :=
  mkLoop (dm l) (pending_header l) (bs ++ replicate (BULK_OUT_BUF_SIZE - length bs) "000"%byte).

Lemma hi_deliver_nil hi : hi_deliver [] [] hi = hi.
Proof. destruct hi. unfold hi_deliver. cbn. by rewrite !app_nil_r. Qed.

(** The queue is submitted and the read of [bulk_out], wherever it is among
    the operations in flight, completes: in any run that asks nothing of the
    states in which no command is handled. *)
Lemma deliver (P : Sys → Prop) n s0 l fl hi pre e post fd bs :
  (∀ s, quiet s → P s) → steps_if P n s0 (mkSys l fl [] [] hi) → fl ++ sq_entries (sq (dm l)) = pre ++ e :: post →
  sqe_op e = OpRead fd BulkOutPtr (2 ^ 20) → Z.of_nat (length bs) ≤ 2 ^ 20 →
  length (bulk_out_buf l) = BULK_OUT_BUF_SIZE →
  steps_if P (3 + n) s0 (mkSys (delivered bs (submitted l)) (pre ++ post) []
    [mkCqe (sqe_user_data e) (Z.of_nat (length bs))] (hi_write (sq_writes (dm l)) hi)).
Proof.
  intros HP Hs Hfl He Hbs Hbuf. pose proof bulk_buf_size.
  set (c := mkCqe _ _). set (hi' := hi_write _ _). set (l' := delivered bs (submitted l)).
  eapply (steps_if_snoc _ _ _ (mkSys l' (pre ++ post) ([] ++ [c]) [] hi'));
    [|by apply HP, idle_quiet|by apply (step_wait (mkSys l' (pre ++ post) ([] ++ [c]) [] hi') [c] [])].
  eapply (steps_if_snoc _ _ _ (mkSys (submitted l) (fl ++ sq_entries (sq (dm l))) [] [] hi'));
    [|by apply HP, idle_quiet|].
  - eapply steps_if_snoc; [exact Hs|by apply HP, idle_quiet|].
    by eapply (step_submit (mkSys l fl [] [] hi)).
  - pose proof (step_complete (mkSys (submitted l) (fl ++ sq_entries (sq (dm l))) [] [] hi') pre e post
      (Z.of_nat (length bs)) l') as Hc.
    assert (read_output e (Z.of_nat (length bs)) l' = []) as Hnone by (unfold read_output; by rewrite He).
    assert (write_done pre e (Z.of_nat (length bs)) l' = []) as Hnone'
      by (unfold write_done, write_of; by rewrite He).
    rewrite Hnone, Hnone', hi_deliver_nil in Hc.
    apply Hc.
    + exact Hfl.
    + unfold kernel_effect. rewrite He. split; [done|]. exists (bulk_out_buf l'). split; [|done].
      cbn [s_loop l' delivered bulk_out_buf]. rewrite length_app, length_replicate.
      transitivity BULK_OUT_BUF_SIZE; [lia|]. symmetry. exact Hbuf.
Qed.

Lemma length_delivered bs l :
  Z.of_nat (length bs) ≤ 2 ^ 20 → length (bulk_out_buf (delivered bs l)) = BULK_OUT_BUF_SIZE.
Proof.
  intros Hbs. pose proof bulk_buf_size. cbn [delivered bulk_out_buf].
  rewrite length_app, length_replicate. lia.
Qed.

Lemma wp_slice_delivered {S} k bs l (Q : list byte → S → Prop) s :
  k = Z.of_nat (length bs) → Q bs s →
  wp (slice_to (Z.to_nat k) (bulk_out_buf (delivered bs l))) Q s.
Proof.
  intros -> HQ. unfold slice_to. cbn [delivered bulk_out_buf]. rewrite Nat2Z.id, length_app.
  rewrite decide_True by lia. rewrite take_app_length. by apply wp_ret.
Qed.

Lemma wp_exact {S A} (m : M S A) s a s' : wp m (λ b t, b = a ∧ t = s') s → m s = Done (a, s').
Proof. intros H. by apply wp_total in H as (? & ? & -> & -> & ->). Qed.

(** Listening again. *)
Definition bulk_sqe (op : UserDataOpType.t) : Sqe :=
  mkSqe (OpRead 4 BulkOutPtr (2 ^ 20)) (UserData_u64 (mkUserData op None)) false.

Lemma wp_listen_sqe op l (Q : unit → Loop → Prop) :
  length (bulk_out_buf l) = BULK_OUT_BUF_SIZE → bulk_out (conn (dm l)) = 4 →
  (length (sq (dm l)) < 32)%nat →
  Q tt (set_dm (set_sq (sq (dm l) ++ [bulk_sqe op]) (dm l)) l) → wp (listen op) Q l.
Proof.
  intros Hbuf Hfd Hq HQ. pose proof bulk_buf_size.
  unfold wpp, listen, on_dm, zoom, submit_bulk_out_read.
  cbv [mbind M_bind getM mret M_ret]. rewrite Hbuf, bulk_buf_size.
  rewrite u32_try_from_u32 by (unfold u32; lia). cbn [expectM mret M_ret].
  unfold push. cbv [mbind M_bind getM]. cbn [sq_push sq_list].
  rewrite decide_True by done. by rewrite Hfd.
Qed.

(** A header with a payload is received. *)
Definition await_payload (h : AdbHeader) (l : Loop) : Loop :=
  set_dm (set_sq (sq (dm l) ++ [bulk_sqe UserDataOpType.BulkOutReadPayload]) (dm l))
    (set_pending (Some h) (delivered (AdbHeader_bytes h) l)).

Lemma length_await_payload h l : length (bulk_out_buf (await_payload h l)) = BULK_OUT_BUF_SIZE.
Proof.
  apply (length_delivered (AdbHeader_bytes h) l). rewrite length_AdbHeader_bytes. lia.
Qed.

Lemma header_handled h l :
  parse_header (AdbHeader_bytes h) = Some (h, []) → data_length h > 0 →
  bulk_out (conn (dm l)) = 4 → (length (sq (dm l)) < 32)%nat →
  handle_cqe (mkCqe (UserData_u64 (bulk_token None)) 24) (delivered (AdbHeader_bytes h) l) =
    Done (None, await_payload h l).
Proof.
  intros Hh Hlen Hfd Hq. unfold handle_cqe. cbn [cqe_user_data cqe_result].
  replace (UserData_try_from (UserData_u64 (bulk_token None))) with (Ok (E := Z) (bulk_token None))
    by (vm_compute; reflexivity).
  cbn [bulk_token op_type ud_data]. rewrite decide_False by lia.
  apply wp_exact, wp_bind, wp_bind, wp_get, wp_bind.
  apply wp_slice_delivered; [by rewrite length_AdbHeader_bytes|].
  rewrite Hh. rewrite decide_True by done. apply wp_bind, wp_modify, wp_listen_sqe.
  - apply length_delivered. rewrite length_AdbHeader_bytes. lia.
  - exact Hfd.
  - exact Hq.
  - apply wp_ret. split; reflexivity.
Qed.

(** Its payload is received. *)
Definition after_payload (payload : list byte) (d : Daemon) (l : Loop) : Loop :=
  mkLoop (set_sq (sq d ++ [bulk_sqe UserDataOpType.BulkOutReadHeader]) d) None
    (bulk_out_buf (delivered payload l)).

Lemma payload_handled h payload d l :
  pending_header l = Some h → checksum payload = data_check h →
  handle_command h (Some payload) (dm l) = Done (tt, d) →
  Z.of_nat (length payload) ≤ 2 ^ 20 → bulk_out (conn d) = 4 → (length (sq d) < 32)%nat →
  handle_cqe (mkCqe (UserData_u64 (bulk_token (Some h))) (Z.of_nat (length payload)))
    (delivered payload l) = Done (None, after_payload payload d l).
Proof.
  intros Hpend Hck Hcmd Hlen Hfd Hq. unfold handle_cqe. cbn [cqe_user_data cqe_result].
  replace (UserData_try_from (UserData_u64 (bulk_token (Some h))))
    with (Ok (E := Z) (bulk_token (Some h))) by (vm_compute; reflexivity).
  cbn [bulk_token op_type ud_data]. rewrite decide_False by lia.
  apply wp_exact, wp_bind, wp_bind, wp_get, wp_bind, wp_modify.
  change (pending_header (delivered payload l)) with (pending_header l). rewrite Hpend.
  apply wp_bind, wp_bind, wp_slice_delivered; [done|].
  rewrite bool_decide_true by done. rewrite andb_false_r.
  apply wp_zoom. unfold wpp at 1. cbn [dm set_pending delivered]. rewrite Hcmd.
  apply wp_listen_sqe.
  - by apply length_delivered.
  - exact Hfd.
  - exact Hq.
  - apply wp_ret. split; reflexivity.
Qed.

(** The first message of the host, with a payload. *)
Definition ex_dm (times : nat) (q : SQ) : Daemon :=
  mkDaemon ex_conn q (w_set_log (λ h, replicate times (CSubmitAndWait 1) ++ CIoUringNew 32 :: h)
    world_empty).

Lemma ex_loop_buf : length (bulk_out_buf ex_loop) = BULK_OUT_BUF_SIZE.
Proof. apply length_replicate. Qed.

Definition ex_header_cqe : Cqe := mkCqe (UserData_u64 (bulk_token None)) 24.

Lemma header_token : cqe_token ex_header_cqe = Some (bulk_token None).
Proof. vm_compute. reflexivity. Qed.

Lemma hi_hear_nil log hi : hi_hear [] log hi = hi.
Proof. destruct hi. unfold hi_hear. cbn. by rewrite !app_nil_r. Qed.

(** A message with a payload, from a state in which a header is awaited. *)
Section message.
Context (P : Sys → Prop) (HP : ∀ s, quiet s → P s).
Context (k : nat) (s0 : Sys) (l : Loop) (fl pre post : list Sqe) (hi : History).
Context (Hsteps : steps_if P k s0 (mkSys l fl [] [] hi)).
Context (Hfl : fl ++ sq_entries (sq (dm l)) = pre ++ ex_read :: post).
Context (Hbuf : length (bulk_out_buf l) = BULK_OUT_BUF_SIZE).
Context (Hpend : pending_header l = None) (Hout : bulk_out (conn (dm l)) = 4).

Context (h : AdbHeader) (payload : list byte).
Context (Hparse : parse_header (AdbHeader_bytes h) = Some (h, [])).
Context (Hlen : 0 < Z.of_nat (length payload) ≤ 2 ^ 20).
Context (Hdata : data_length h = Z.of_nat (length payload)) (Hck : checksum payload = data_check h).

Definition awaited : Loop := await_payload h (submitted l).

(** The header alone is no command, and with its payload it is one. *)
Lemma header_received : heard_in 24 (delivered (AdbHeader_bytes h) (submitted l)) = [].
Proof.
  unfold heard_in. cbn [delivered bulk_out_buf]. rewrite take_app_length' by (by rewrite length_AdbHeader_bytes).
  cbn [delivered pending_header submitted set_dm]. rewrite Hpend, Hparse. by rewrite decide_True by lia.
Qed.

Lemma payload_received :
  heard_in (Z.of_nat (length payload)) (delivered payload (submitted awaited)) = [(h, Some payload)].
Proof.
  unfold heard_in. cbn [delivered bulk_out_buf]. rewrite take_app_length' by (by rewrite Nat2Z.id).
  cbn [delivered pending_header submitted awaited await_payload set_dm set_pending].
  by rewrite (bool_decide_true _ Hck), andb_false_r.
Qed.

Lemma awaited_reached :
  steps_if P (4 + k) s0 (mkSys awaited (pre ++ post) [] [] (hi_write (sq_writes (dm l)) hi)).
Proof.
  set (s := mkSys (delivered (AdbHeader_bytes h) (submitted l)) (pre ++ post) [] [ex_header_cqe]
    (hi_write (sq_writes (dm l)) hi)).
  pose proof (length_AdbHeader_bytes h) as Hl. eapply (steps_if_snoc _ (3 + k) _ s).
  - pose proof (deliver P k s0 l fl hi pre ex_read post 4 (AdbHeader_bytes h)
      HP Hsteps Hfl eq_refl ltac:(rewrite Hl; lia) Hbuf) as Hs.
    rewrite Hl in Hs. exact Hs.
  - apply HP. intros c rest [= <- <-]. unfold heard_by. rewrite header_token.
    cbn [s s_loop ex_header_cqe cqe_result]. by rewrite header_received.
  - pose proof (step_handle s ex_header_cqe [] awaited eq_refl) as Hstep.
    unfold heard_by in Hstep. rewrite header_token in Hstep. cbn [s s_loop ex_header_cqe cqe_result] in Hstep.
    rewrite header_received, hi_hear_nil in Hstep. apply Hstep.
    apply header_handled; [exact Hparse|lia|exact Hout|]. cbn. lia.
Qed.

(** The payload is there. *)
Definition payload_cqe : Cqe := mkCqe (UserData_u64 (bulk_token (Some h))) (Z.of_nat (length payload)).
Definition received_sys : Sys :=
  mkSys (delivered payload (submitted awaited)) (pre ++ post) [] [payload_cqe]
    (hi_write (sq_writes (dm awaited)) (hi_write (sq_writes (dm l)) hi)).

Lemma received_reached : steps_if P (7 + k) s0 received_sys.
Proof.
  pose proof (deliver P (4 + k) s0 awaited (pre ++ post) _ (pre ++ post)
    (bulk_sqe UserDataOpType.BulkOutReadPayload) [] 4 payload HP awaited_reached eq_refl eq_refl (proj2 Hlen)
    (length_await_payload h (submitted l))) as Hs.
  rewrite app_nil_r in Hs. exact Hs.
Qed.

Lemma received_heard : heard_by payload_cqe (s_loop received_sys) = [(h, Some payload)].
Proof.
  unfold heard_by. assert (cqe_token payload_cqe = Some (bulk_token (Some h))) as -> by (vm_compute; reflexivity).
  rewrite decide_True by by right. exact payload_received.
Qed.

(** And it is handled. *)
Context (d : Daemon) (Hrun : handle_command h (Some payload) (dm (submitted awaited)) = Done (tt, d)).
Context (Hfd : bulk_out (conn d) = 4) (Hq : (length (sq d) < 32)%nat).

Definition answered_loop : Loop := after_payload payload d (submitted awaited).
Definition answered_sys : Sys :=
  mkSys answered_loop (pre ++ post) [] []
    (hi_hear [(h, Some payload)] (w_log (os (dm (s_loop received_sys))))
      (hi_write (sq_writes (dm awaited)) (hi_write (sq_writes (dm l)) hi))).

Lemma answered_reached : P received_sys → steps_if P (8 + k) s0 answered_sys.
Proof.
  intros Hreceived. eapply (steps_if_snoc _ (7 + k) _ received_sys); [exact received_reached|done|].
  pose proof (step_handle received_sys payload_cqe [] answered_loop eq_refl) as Hstep.
  rewrite received_heard in Hstep. apply Hstep.
  exact (payload_handled h payload d (submitted awaited) eq_refl Hck Hrun (proj2 Hlen) Hfd Hq).
Qed.

Lemma received_earned : okays_earned received_sys.
Proof.
  apply other_earned. intros c' rest h' [= <- <-]. cbn [received_sys s_loop payload_cqe cqe_result].
  by rewrite payload_received.
Qed.
End message.

(** The first message of the host, before it is handled. *)
Definition ex_received_sys (h : AdbHeader) (payload : list byte) : Sys :=
  received_sys ex_loop [ex_poll] [] no_history h payload.

Lemma ex_received_reached P h payload :
  (∀ s, quiet s → P s) →
  parse_header (AdbHeader_bytes h) = Some (h, []) → 0 < Z.of_nat (length payload) ≤ 2 ^ 20 →
  data_length h = Z.of_nat (length payload) →
  reachable_if 3 4 5 ex_info world_empty P 7 (ex_received_sys h payload).
Proof.
  intros HP Hparse Hlen Hdata. exists ex_loop. split; [apply ex_run_start|].
  by apply (received_reached P HP 0 _ ex_loop [] [ex_poll] [] no_history (steps_if_refl _ _) eq_refl
    ex_loop_buf eq_refl eq_refl).
Qed.

(** The first message of the host. *)
Definition ex_answered_sys : AdbHeader → list byte → Daemon → Sys :=
  answered_sys ex_loop [ex_poll] [] no_history.

Lemma ex_answered_polite h payload d :
  parse_header (AdbHeader_bytes h) = Some (h, []) → 0 < Z.of_nat (length payload) ≤ 2 ^ 20 →
  data_length h = Z.of_nat (length payload) → checksum payload = data_check h →
  handle_command h (Some payload) (ex_dm 2 []) = Done (tt, d) → bulk_out (conn d) = 4 →
  (length (sq d) < 32)%nat →
  reachable_politely 8 3 4 5 ex_info world_empty (ex_answered_sys h payload d).
Proof.
  intros Hparse Hlen Hdata Hck Hrun Hfd Hq. exists ex_loop. split; [apply ex_run_start|].
  apply (answered_reached _ quiet_earned 0 _ ex_loop [] [ex_poll] [] no_history (steps_if_refl _ _) eq_refl
    ex_loop_buf eq_refl eq_refl); [done..|]. by apply received_earned.
Qed.

Lemma ex_answered_reachable h payload d :
  parse_header (AdbHeader_bytes h) = Some (h, []) → 0 < Z.of_nat (length payload) ≤ 2 ^ 20 →
  data_length h = Z.of_nat (length payload) → checksum payload = data_check h →
  handle_command h (Some payload) (ex_dm 2 []) = Done (tt, d) → bulk_out (conn d) = 4 →
  (length (sq d) < 32)%nat →
  reachable 8 3 4 5 ex_info world_empty (ex_answered_sys h payload d).
Proof. intros. by apply politely_reachable, ex_answered_polite. Qed.

(** The daemon after a command. *)
Definition ex_after (h : AdbHeader) (payload : list byte) : Daemon :=
  match handle_command h (Some payload) (ex_dm 2 []) with
  | Done (_, d) => d
  | Panicked _ => ex_dm 2 []
  end.

(** The host sends a CNXN with its identity, and is answered. *)
Definition hello : list byte := bstr "host::".
Definition ex_hello : AdbHeader := payload_header V0 Cnxn A_VERSION_V1 (1024 * 1024) hello.
Definition ex_greeted : Daemon := ex_after ex_hello hello.
Definition ex_greeted_conn : AdbConnection := conn ex_greeted.
Definition ex_connected_sys : Sys := ex_answered_sys ex_hello hello ex_greeted.
Definition ex_connected : Loop := s_loop ex_connected_sys.

Lemma ex_connected_reachable : reachable 8 3 4 5 ex_info world_empty ex_connected_sys.
Proof.
  apply ex_answered_reachable.
  - vm_compute. reflexivity.
  - cbn. lia.
  - reflexivity.
  - reflexivity.
  - vm_compute. reflexivity.
  - vm_compute. reflexivity.
  - apply Nat.ltb_lt. vm_compute. reflexivity.
Qed.

(** ** A shell *)

Definition ex_open : AdbHeader := mkAdbHeader Open 9 0 7 0 (command_magic Open).
Definition ex_name : list byte := bstr "shell:" ++ ["000"%byte].

Definition ex_opened : Daemon :=
  match handle_command_open ex_open ex_name ex_daemon with
  | Done (_, d) => d
  | Panicked _ => ex_daemon
  end.

Lemma ex_opened_run : handle_command_open ex_open ex_name ex_daemon = Done (tt, ex_opened).
Proof. vm_compute. reflexivity. Qed.

Definition ex_flight : list Sqe := sq_entries (sq ex_opened).
Definition ex_out : Outside := mkOutside ex_flight [].

(** The state once the OKAY and the terminal's read are with the kernel. *)
Definition ex_shell : Daemon := set_sq sq_empty ex_opened.

Lemma ex_shell_dinv : dinv [] 2 ex_out [] ex_shell.
Proof.
  assert (wpp (no_room 1 ex_daemon) (handle_command_open ex_open ex_name)
    (λ _ d, ∃ ns, dinv [] 2 (mkOutside [] []) ns d) ex_daemon) as H.
  { apply (wp_open _ [] 1 (mkOutside [] []) []);
      [by intros p|apply ex_dinv|simpl; lia|reflexivity|unfold u32; simpl; lia|].
    intros d' ns' Hd' _ _. by exists ns'. }
  destruct (wp_done _ _ _ _ _ _ H ex_opened_run) as [ns Hd].
  exact (dinv_submit _ _ _ _ _ Hd).
Qed.

Definition ex_service : ShellService := mkShellService 7 7 (mkReadBuf 0 PTY_READ_BUF_SIZE).
Definition ex_stream : Stream := mkStream 9 (Service.Shell ex_service) false false.

Lemma ex_shell_stream : streams (d_streams ex_shell) !! 1 = Some ex_stream.
Proof. vm_compute. reflexivity. Qed.

Definition ex_pty_read : Sqe :=
  mkSqe (OpRead 7 (HeapPtr 0) 4096)
    (UserData_u64 (mkUserData UserDataOpType.PtyRead (Some 1))) false.

Lemma ex_pty_read_in_flight : ex_pty_read ∈ ex_flight.
Proof.
  assert (ex_flight = [mkSqe (OpWrite 5 (SlotPtr 1) 24)
    (UserData_u64 (write_token 1)) false; ex_pty_read]) as -> by (vm_compute; reflexivity).
  right. left.
Qed.

(** A run whose first message opens a shell. *)
Definition ex_ask : AdbHeader := payload_header V0 Open 9 0 ex_name.
Definition ex_asked_sys : Sys := ex_answered_sys ex_ask ex_name (ex_after ex_ask ex_name).

Lemma ex_asked_polite : reachable_politely 8 3 4 5 ex_info world_empty ex_asked_sys.
Proof.
  apply ex_answered_polite.
  - vm_compute. reflexivity.
  - cbn. lia.
  - reflexivity.
  - reflexivity.
  - vm_compute. reflexivity.
  - vm_compute. reflexivity.
  - apply Nat.ltb_lt. vm_compute. reflexivity.
Qed.

Lemma ex_asked_reachable : reachable 8 3 4 5 ex_info world_empty ex_asked_sys.
Proof. apply politely_reachable, ex_asked_polite. Qed.

Lemma ex_asked_stream : streams (d_streams (dm (s_loop ex_asked_sys))) !! 1 = Some ex_stream.
Proof. vm_compute. reflexivity. Qed.

(** ** The theorems on commands, on these daemons *)

Lemma cnxn_negotiates_witness :
  wpp (no_room 2 ex_daemon) (handle_command_cnxn ex_header) (λ _ d', dinv [] 1 (mkOutside [] []) [] d' ∧
    d_version d' = V1 ∧ sent (set_version V1 ex_daemon) (cnxn_answer V1 ex_daemon) d') ex_daemon.
Proof.
  apply (cnxn_negotiates [] 1 (mkOutside [] []) [] ex_header ex_daemon ex_dinv).
  simpl. lia.
Defined.

Lemma open_answers_witness :
  wpp (no_room 1 ex_daemon) (handle_command_open ex_open ex_name) (λ _ d',
    (∃ ns', may_read [] ns' ∧ dinv [] 2 (mkOutside [] []) ns' d') ∧
    opened 9 (lit "shell:") ex_daemon d') ex_daemon.
Proof.
  apply (open_answers [] 1 (mkOutside [] []) [] ex_open ex_name ex_daemon ex_dinv);
    [simpl; lia|reflexivity|unfold u32; simpl; lia].
Defined.

Definition ex_okay : AdbHeader := mkAdbHeader Okay 9 1 0 0 (command_magic Okay).
Definition ex_clse : AdbHeader := mkAdbHeader Clse 9 1 0 0 (command_magic Clse).
Definition ex_wrte : AdbHeader := mkAdbHeader Wrte 9 1 3 0 (command_magic Wrte).

Lemma okay_continues_witness :
  wpp (λ p, no_room 2 ex_shell p ∨ p = Unreachable "main.rs:808" ∧
        ∃ s, streams (d_streams ex_shell) !! 1 = Some s ∧ service s = Service.Reboot)
    (handle_command_okay ex_okay) (λ _ d',
    (∃ ns', may_read [] ns' ∧ dinv [] 2 ex_out ns' d') ∧ okay_post 1 ex_shell d') ex_shell.
Proof. apply (okay_continues [] 2 ex_out [] ex_okay ex_shell ex_shell_dinv). simpl. lia. Defined.

Lemma clse_closes_witness :
  wpp (λ p, no_room 1 ex_shell p ∨ p = AssertFailed "CLSE remote_id mismatch" ∧
        ∃ s, streams (d_streams ex_shell) !! 1 = Some s ∧ remote_id s ≠ 9)
    (handle_command_clse ex_clse) (λ _ d', dinv [] 2 ex_out [] d' ∧
    (∀ s, streams (d_streams ex_shell) !! 1 = Some s → remote_id s = 9) ∧
    clse_post 1 ex_shell d') ex_shell.
Proof. apply (clse_closes [] 2 ex_out [] ex_clse ex_shell ex_shell_dinv). simpl. lia. Defined.

Lemma ex_progress : writes_progress.
Proof. exact os_partial_writes_progress. Qed.

Lemma wrte_acknowledged_witness :
  wpp (λ p, no_room 3 ex_shell p ∨ stat_panic p ∨ p = Unreachable "main.rs:353" ∧
        ∃ s, streams (d_streams ex_shell) !! 1 = Some s ∧ service s = Service.Reboot)
    (handle_command_wrte ex_wrte (bstr "ls")) (λ _ d',
    (∃ ns', may_read [] ns' ∧ dinv [] 2 ex_out ns' d') ∧
    wrte_post 1 9 (bstr "ls") ex_shell d') ex_shell.
Proof.
  apply (wrte_acknowledged [] 2 ex_out [] ex_wrte (bstr "ls") ex_shell ex_progress ex_shell_dinv);
    [simpl; lia|vm_compute; discriminate|unfold u32; simpl; lia|unfold u32; simpl; lia].
Defined.

Lemma service_output_witness :
  wpp (no_room 2 ex_shell) (pty_read 1 5) (λ _ d', dinv [] 2 ex_out [] d' ∧
    output_post pty_buf 1 5 ex_shell d') ex_shell ∧
  wpp (no_room 2 ex_shell) (socket_read 1 5) (λ _ d', dinv [] 2 ex_out [] d' ∧
    output_post socket_buf 1 5 ex_shell d') ex_shell.
Proof. apply (service_output [] 2 ex_out [] 1 5 ex_shell ex_shell_dinv). simpl. lia. Defined.

(** ** The theorems on reachable states *)

Lemma ex_steps : 1 + Z.of_nat 3 < u32_max.
Proof. reflexivity. Qed.

(** The run above does crash, for a listed reason. *)
Lemma crash_reasons_witness :
  step ex_sys (Crashed (Expect "CNXN requires a payload")) ∧
  host_panic (Expect "CNXN requires a payload") ∧
  ∃ c rest, s_batch ex_sys = c :: rest ∧
    crash_cause c (s_loop ex_sys) (Expect "CNXN requires a payload").
Proof.
  split; [exact ex_crash|].
  exact (proj2 (crash_reasons [] 3 4 5 ex_info world_empty 3 ex_sys _ ex_progress ex_start_ok
    ex_steps) ex_reachable ex_crash).
Defined.

Lemma always_listening_witness :
  filter is_poll (pending_tokens ex_sys) = [poll_token] ∧
  filter is_bulk (pending_tokens ex_sys) = [bulk_token None].
Proof.
  exact (always_listening [] 3 4 5 ex_info world_empty 3 ex_sys ex_progress ex_start_ok ex_steps
    ex_reachable).
Defined.

Lemma queue_bounded_witness : (length (sq_entries (sq (dm (s_loop ex_sys)))) ≤ 11)%nat.
Proof.
  exact (queue_bounded [] 3 4 5 ex_info world_empty 3 ex_sys ex_progress ex_start_ok ex_steps
    ex_reachable).
Defined.

(** The host that connected is sent the CNXN of the device. *)
Lemma ex_connected_written :
  sq_writes (dm (s_loop ex_connected_sys)) = cnxn_answer V1 ex_daemon.
Proof. vm_compute. reflexivity. Qed.

Lemma wire_well_framed_witness :
  ∃ ms, Forall device_message ms ∧
    [] ++ sq_writes (dm (s_loop ex_connected_sys)) = buffers_of ms ∧
    host_read (length ms) (wire ([] ++ sq_writes (dm (s_loop ex_connected_sys)))) = Some ms ∧
    ∀ cs, cs ≡ₚ chains ([] ++ sq_writes (dm (s_loop ex_connected_sys))) →
      ∃ ms', ms' ≡ₚ ms ∧ host_read (length ms') (wire (mjoin cs)) = Some ms'.
Proof.
  exact (wire_well_framed [] 3 4 5 ex_info world_empty 8 ex_connected_sys ex_progress ex_start_ok
    eq_refl ex_connected_reachable).
Defined.

(** Its header and its payload are submitted. *)
Definition ex_answering : Sys :=
  mkSys (submitted ex_connected) ([ex_poll] ++ sq_entries (sq (dm ex_connected))) [] []
    (hi_write (sq_writes (dm ex_connected)) (s_hist ex_connected_sys)).
Definition ex_answer : Sqe :=
  mkSqe (OpWrite 5 (SlotPtr 1) 24) (UserData_u64 (write_token 1)) true.

Lemma ex_answer_queued : ex_answer ∈ sq_entries (sq (dm ex_connected)) ++ [ex_poll].
Proof.
  assert (∃ es, sq (dm ex_connected) = ex_answer :: es) as [es Hes].
  { eexists. vm_compute. reflexivity. }
  cbn [sq_entries sq_list]. rewrite Hes. left.
Qed.

Lemma in_flight_data_stable_witness :
  write_of (view (d_buffers (dm (s_loop ex_answering)))) ex_answer =
    write_of (view (d_buffers (dm (s_loop ex_connected_sys)))) ex_answer.
Proof.
  apply (in_flight_data_stable [] 8 3 4 5 ex_info world_empty ex_connected_sys ex_answering ex_answer
    ex_progress ex_start_ok eq_refl ex_connected_reachable).
  - exact (step_submit ex_connected_sys _ eq_refl eq_refl).
  - exact ex_answer_queued.
Defined.

Lemma write_slots_owned_witness :
  let d := dm (s_loop ex_asked_sys) in
  filter is_write (pending_tokens ex_asked_sys) ≡ₚ
    write_token <$> elements (dom (view (d_buffers d))) ∧
  ∀ e fd ptr len, e ∈ sq_entries (sq d) ++ s_inflight ex_asked_sys → sqe_op e = OpWrite fd ptr len →
    fd = bulk_in (conn d) ∧ ∃ k b, ptr = SlotPtr (Z.of_nat k) ∧
      view (d_buffers d) !! k = Some b ∧ len = Z.of_nat (length b).
Proof.
  exact (write_slots_owned [] 3 4 5 ex_info world_empty 8 ex_asked_sys ex_progress ex_start_ok eq_refl
    ex_asked_reachable).
Defined.

Lemma operations_typed_witness :
  Forall (sqe_ok ex_greeted_conn) (sq_entries (sq (dm (s_loop ex_connected_sys))) ++ [ex_poll]) ∧
  Forall cqe_ok [].
Proof.
  exact (operations_typed [] 3 4 5 ex_info world_empty 8 ex_connected_sys ex_progress ex_start_ok
    eq_refl ex_connected_reachable).
Defined.

Lemma resources_owned_witness :
  let d := dm (s_loop ex_asked_sys) in
  live_fds (w_log (os d)) ≡ₚ stream_fds (streams (d_streams d)) ++ [] ∧
  (∀ i st rb, streams (d_streams d) !! i = Some st → service_buf (service st) = Some rb →
    buf_live (os d) rb) ∧
  (∀ i j si sj ri rj, i ≠ j →
    streams (d_streams d) !! i = Some si → service_buf (service si) = Some ri →
    streams (d_streams d) !! j = Some sj → service_buf (service sj) = Some rj →
    rb_ptr ri ≠ rb_ptr rj).
Proof.
  exact (resources_owned [] 3 4 5 ex_info world_empty 8 ex_asked_sys ex_progress ex_start_ok eq_refl
    ex_asked_reachable).
Defined.

Lemma clse_frees_buffer_in_flight_witness :
  ex_pty_read ∈ o_flight ex_out ∧
  wpp (no_room 1 ex_shell) (handle_command_clse ex_clse) (λ _ d',
    ∀ s, dm (s_loop s) = d' → s_inflight s = ex_flight → step s Corrupted) ex_shell.
Proof.
  split; [exact ex_pty_read_in_flight|].
  apply (clse_frees_buffer_in_flight [] 2 ex_out [] ex_clse ex_shell ex_stream ex_service
    ex_pty_read 7 4096 ex_shell_dinv).
  - simpl. lia.
  - exact ex_shell_stream.
  - reflexivity.
  - reflexivity.
  - exact ex_pty_read_in_flight.
  - reflexivity.
Defined.

(** A header waits for a payload whose check field is 5, and the payload is
    empty. *)
Definition ex_pending : AdbHeader :=
  mkAdbHeader Cnxn A_VERSION_V1 (1024 * 1024) 1 5 (command_magic Cnxn).
Definition ex_waiting : Loop :=
  mkLoop ex_daemon (Some ex_pending) (replicate BULK_OUT_BUF_SIZE "000"%byte).

Lemma corrupted_payload_dropped_witness :
  ∃ q, bulk_out_read_payload 0 ex_waiting =
      Done (tt, mkLoop (set_sq q ex_daemon) None (bulk_out_buf ex_waiting)) ∧
    sq_entries q = sq_entries (sq ex_daemon) ++
      [mkSqe (OpRead 4 BulkOutPtr (2 ^ 20)) (UserData_u64 (bulk_token None)) false].
Proof.
  apply (corrupted_payload_dropped [] 1 (mkOutside [] []) [] ex_pending ex_waiting 0 ex_dinv).
  - simpl. lia.
  - apply length_replicate.
  - lia.
  - reflexivity.
  - reflexivity.
  - discriminate.
Defined.

(** ** A pull *)

Definition ex_file_daemon : Daemon :=
  mkDaemon ex_conn sq_empty
    (mkWorld [] {[bstr "/f" := 0%nat]} {[0%nat := mkInode (bstr "contents") 420 0]} ∅ 1).

Definition done_or {A} (d : Daemon) (o : outcome (A * Daemon)) : Daemon :=
  match o with Done (_, d) => d | Panicked _ => d end.

(** The host opens a session and asks for the file; the daemon answers with
    the first frame. *)
Definition ex_sync_name : list byte := bstr "sync:" ++ ["000"%byte].
Definition ex_session : Daemon :=
  flush (done_or ex_file_daemon (handle_command_open ex_open ex_sync_name ex_file_daemon)).
Definition ex_recv : list byte := bstr "RECV" ++ le_u32_bytes 2 ++ bstr "/f".
Definition ex_pulling : Daemon :=
  flush (done_or ex_session (handle_command_wrte ex_wrte ex_recv ex_session)).

Lemma done_or_run d (o : outcome (unit * Daemon)) :
  match o with Done _ => true | Panicked _ => false end = true → o = Done (tt, done_or d o).
Proof. by destruct o as [[[] d']|p]. Qed.

Lemma ex_session_ready : ready ex_session.
Proof.
  assert (dinv [] 1 (mkOutside [] []) [] ex_file_daemon) as Hd.
  { apply (dinv_start [] 3 4 5 ex_info). split; [reflexivity|reflexivity|vm_compute; reflexivity]. }
  apply flush_ready. exists [], 2, (mkOutside [] []).
  assert (wpp (no_room 1 ex_file_daemon) (handle_command_open ex_open ex_sync_name)
    (λ _ d, ∃ ns, dinv [] 2 (mkOutside [] []) ns d) ex_file_daemon) as H.
  { apply (wp_open _ [] 1 (mkOutside [] []) []);
      [by intros p|exact Hd|simpl; lia|reflexivity|unfold u32; simpl; lia|].
    intros d' ns' Hd' _ _. by exists ns'. }
  apply (wp_done _ _ _ _ tt _ H). apply done_or_run. vm_compute. reflexivity.
Qed.

(** A WRTE to this session keeps the daemon in order. *)
Lemma ex_session_wrte payload :
  Z.of_nat (length payload) ≤ 2 ^ 20 →
  match handle_command_wrte ex_wrte payload ex_session with Done _ => true | Panicked _ => false end
    = true →
  ready (flush (done_or ex_session (handle_command_wrte ex_wrte payload ex_session))).
Proof.
  intros Hl Hrun. destruct ex_session_ready as [(base & n & out & ns & Hd & Hns) Hroom].
  apply flush_ready. exists base, n, out.
  assert (wpp host_panic (handle_command_wrte ex_wrte payload)
    (λ _ d, ∃ ns, dinv base n out ns d) ex_session) as H.
  { apply (wp_wrte _ base n out ns);
      [exact ex_progress|intros p [-> _]; by left| |exact Hd|exact Hns|
       exact Hl|unfold u32; simpl; lia|unfold u32; simpl; lia| |].
    - intros s svc Hi Hs. apply wp_handle_stat; [by right; left| |exact Hl].
      pose proof (proj1 (di_services _ _ _ _ _ Hd _ s Hi)) as Hok. by rewrite Hs in Hok.
    - intros; unfold host_panic; tauto.
    - intros d' ns' Hd' _ _. by exists ns'. }
  exact (wp_done _ _ _ _ tt _ H (done_or_run _ _ Hrun)).
Qed.

Lemma ex_pulling_ready : ready ex_pulling.
Proof. apply ex_session_wrte; vm_compute; [discriminate|reflexivity]. Qed.

Definition ex_pull_stream : Stream :=
  match streams (d_streams ex_pulling) !! 1 with Some s => s | None => ex_stream end.
Definition ex_sender : FileSender :=
  match service ex_pull_stream with
  | Service.Sync (mkSyncService (SyncState.Sending sender)) => sender
  | _ => mkFileSender (mkFile 0 0) true
  end.

Lemma pull_over_connection_witness :
  ∃ ws d', okays (λ _, flush) 1 9 10 ex_pulling = Done (ws, d') ∧
    pull_post 1 9 ex_sender ex_pulling ws d'.
Proof.
  apply (pull_over_connection (λ _, flush) 1 9 (flush_polite 1) 10 ex_pulling ex_pull_stream ex_sender
    ex_pulling_ready).
  - vm_compute. reflexivity.
  - vm_compute. reflexivity.
  - vm_compute. reflexivity.
  - vm_compute. reflexivity.
  - apply Nat.leb_le. vm_compute. reflexivity.
Defined.

(** ** A push *)

Lemma ex_reliable : ¬ some_call_fails.
Proof. intros (h & c & e & He). by destruct c. Qed.

Definition ex_receiving : Daemon :=
  flush (done_or ex_session (handle_command_wrte ex_wrte
    (encode_request (SyncPacket.SendV1 (bstr "/new") 33188)) ex_session)).

Lemma ex_receiving_ready : ready ex_receiving.
Proof. apply ex_session_wrte; vm_compute; [discriminate|reflexivity]. Qed.

Definition ex_push_stream : Stream :=
  match streams (d_streams ex_receiving) !! 1 with Some s => s | None => ex_stream end.
Definition ex_receiver : FileReceiver :=
  match service ex_push_stream with
  | Service.Sync (mkSyncService (SyncState.Receiving rcv)) => rcv
  | _ => mkFileReceiver (mkFile 0 0) [] 0 (RecvState.Data 0)
  end.

Lemma ex_receiver_wf : receiver_wf ex_receiver (os ex_receiving).
Proof.
  split.
  - vm_compute. exact I.
  - eexists. split; vm_compute; reflexivity.
  - vm_compute. reflexivity.
  - vm_compute. discriminate.
Qed.

(** Two frames, cut inside the first one. *)
Definition ex_chunks : list (list byte) := [bstr "hello"; bstr "world"].
Definition ex_payloads : list (list byte) :=
  let data := encode_push ex_chunks 1700000000 in [take 10 data; drop 10 data].

Lemma push_over_connection_witness :
  ∃ d', wrtes (λ _, flush) 1 9 ex_payloads ex_receiving =
      Done (push_answers 1 9 (d_version ex_receiving) 2, d') ∧
    idle 1 9 d' ∧
    received ex_receiver (os ex_receiving) (os d') (mjoin ex_chunks) 1700000000.
Proof.
  apply (push_over_connection (λ _, flush) 1 9 (flush_polite 1) ex_payloads ex_receiving
    ex_push_stream ex_receiver ex_chunks 1700000000 ex_reliable ex_progress ex_receiving_ready).
  - vm_compute. reflexivity.
  - vm_compute. reflexivity.
  - vm_compute. reflexivity.
  - exact ex_receiver_wf.
  - vm_compute. reflexivity.
  - repeat constructor; vm_compute; intuition discriminate.
  - vm_compute. intuition discriminate.
  - vm_compute. reflexivity.
  - repeat constructor; vm_compute; discriminate.
Defined.

Lemma one_read_per_stream_witness :
  reads_of 1 (pending_tokens ex_asked_sys) = [mkUserData UserDataOpType.PtyRead (Some 1)].
Proof.
  exact (one_read_per_stream [] 3 4 5 ex_info world_empty 8 ex_asked_sys 1 ex_stream
    ex_progress ex_start_ok eq_refl ex_asked_polite ex_asked_stream).
Defined.

Lemma ex_pty_read_queued : ex_pty_read ∈ unfinished ex_asked_sys.
Proof.
  assert (∃ e es, sq (dm (s_loop ex_asked_sys)) = e :: ex_pty_read :: es) as (e & es & Hes).
  { eexists _, _. vm_compute. reflexivity. }
  unfold unfinished. apply elem_of_app. left. change sq_entries with (@id SQ). unfold id.
  rewrite Hes. right. left.
Qed.

Lemma reads_own_buffers_witness : service_read_sqe 1 ex_stream = Some ex_pty_read.
Proof.
  refine (proj2 (proj1 (reads_own_buffers [] 3 4 5 ex_info world_empty 8 ex_asked_sys
    ex_progress ex_start_ok eq_refl ex_asked_reachable)
    ex_pty_read 1 (mkUserData UserDataOpType.PtyRead (Some 1)) ex_pty_read_queued _ _ _) ex_stream
    ex_asked_stream).
  - vm_compute. reflexivity.
  - exact I.
  - reflexivity.
Defined.
