(* ===== verification/Typing.v ===== *)
(** A run in which the host opens a shell and reads what the shell prints, as
    the instance of the theorems on the dialogue and on the output. *)
From Stdlib Require Import ZArith Lia Strings.Byte.
From stdpp Require Import base numbers list gmap strings.
From S2P Require Import Prelude.
From S2P Require Import Bytes.
From S2P Require Import Str.
From S2P Require Import Winnow.
From S2P Require Import DeviceInfo.
From S2P Require Import Message.
From S2P Require Import Buffers.
From S2P Require Import Os.
From S2P Require Import Sync.
From S2P Require Import SyncFacts.
From S2P Require Import SyncSession.
From S2P Require Import SyncSafe.
From S2P Require Import Shell.
From S2P Require Import Forward.
From S2P Require Import Stream.
From S2P Require Import UserData.
From S2P Require Import Ring.
From S2P Require Import Ffs.
From S2P Require Import Connection.
From S2P Require Import Wire.
From S2P Require Import ConnectionFacts.
From S2P Require Import Commands.
From S2P Require Import System.
From S2P Require Import Safety.
From S2P Require Import Stable.
From S2P Require Import Host.
From S2P Require Import Transfer.
From S2P Require Import Push.
From S2P Require Import Flow.
From S2P Require Import Lockstep.
From S2P Require Import Targets.
From S2P Require Import Dialogue.
From S2P Require Import Output.
From S2P Require Import Input.
From S2P Require Import Examples.

Open Scope Z_scope.

#[local] Existing Instances os_partial_writes winnow_doc sq_list.
#[local] Opaque BULK_OUT_BUF_SIZE.

(** ** The host asks for a shell *)

Lemma ex_asked_said :
  said ex_asked_sys = [(payload_header V0 Okay 1 9 [], [])].
Proof. vm_compute. reflexivity. Qed.

(** At the OPEN nothing was sent and nothing is read. *)
Lemma ex_ask_lockstep : in_lockstep (ex_received_sys ex_ask ex_name).
Proof.
  intros c rest h p [= <- <-] Hheard.
  pose proof (received_heard ex_loop [ex_poll] [] no_history ex_ask ex_name ltac:(reflexivity)) as Hopen.
  unfold ex_received_sys in Hheard. rewrite Hheard in Hopen. injection Hopen as -> ->. split_and!; [vm_compute; reflexivity|apply Nat.leb_le; vm_compute; reflexivity|].
  by exists ex_name.
Qed.

Lemma lockstep_never_crashes_witness :
  let l := s_loop (ex_received_sys ex_ask ex_name) in
  (length (occupied (d_buffers (dm l))) ≤ 7)%nat ∧
  match handle_cqe (payload_cqe ex_ask ex_name) l with Done _ => True | Panicked p => stat_panic p end.
Proof.
  assert (reachable_if 3 4 5 ex_info world_empty in_lockstep 7 (ex_received_sys ex_ask ex_name)) as Hreach.
  { apply ex_received_reached; [exact quiet_lockstep|vm_compute; reflexivity|cbn; lia|reflexivity]. }
  exact (lockstep_never_crashes [] 3 4 5 ex_info world_empty 7 (ex_received_sys ex_ask ex_name)
    (payload_cqe ex_ask ex_name) [] ex_progress ex_start_ok eq_refl Hreach ex_ask_lockstep eq_refl).
Defined.

Lemma buffers_come_back_witness :
  occupied (d_buffers (dm (s_loop ex_asked_sys))) ≠ [] ∧
  ∃ k s', (k ≤ 18)%nat ∧ steps k ex_asked_sys s' ∧ occupied (d_buffers (dm (s_loop s'))) = [] ∧
    d_streams (dm (s_loop s')) = d_streams (dm (s_loop ex_asked_sys)) ∧ reads s' = reads ex_asked_sys ∧
    s_batch s' = [] ∧ s_cq s' = [].
Proof.
  split; [by vm_compute|].
  assert (∃ m, os_result (w_log (os (dm (s_loop ex_asked_sys)))) (CSubmitAndWait 1) = Ok m) as [m Hm]
    by (eexists; vm_compute; reflexivity).
  by apply (buffers_come_back [] 3 4 5 ex_info world_empty 8 ex_asked_sys m ex_progress ex_start_ok
    ltac:(by vm_compute) ex_asked_reachable eq_refl eq_refl Hm).
Defined.

(** ** The host types *)

Definition ex_asked_dm : Daemon := dm (s_loop ex_asked_sys).

Definition ex_okay_write : Sqe :=
  mkSqe (OpWrite 5 (SlotPtr 1) 24) (UserData_u64 (write_token 1)) false.
Definition ex_next_read : Sqe := bulk_sqe UserDataOpType.BulkOutReadHeader.

Lemma ex_asked_queue : sq_entries (sq ex_asked_dm) = [ex_okay_write; ex_pty_read; ex_next_read].
Proof. vm_compute. reflexivity. Qed.

Definition ex_ls : list byte := bstr "ls".
Definition ex_ls_header : AdbHeader := payload_header V0 Wrte 9 1 ex_ls.
Definition ex_ls_before : Daemon := dm (submitted (awaited (s_loop ex_asked_sys) ex_ls_header)).
Definition ex_ls_after : Daemon :=
  done_or ex_ls_before (handle_command ex_ls_header (Some ex_ls) ex_ls_before).
Definition ex_fed_sys : Sys :=
  answered_sys (s_loop ex_asked_sys) [ex_poll; ex_okay_write; ex_pty_read] [] (s_hist ex_asked_sys)
    ex_ls_header ex_ls ex_ls_after.

Lemma ex_fed_reachable : reachable 16 3 4 5 ex_info world_empty ex_fed_sys.
Proof.
  apply politely_reachable. destruct ex_asked_polite as (l & Hrun & Hs). exists l. split; [exact Hrun|].
  apply (answered_reached _ quiet_earned 8 _ (s_loop ex_asked_sys) [ex_poll] [ex_poll; ex_okay_write; ex_pty_read] []
    (s_hist ex_asked_sys) Hs).
  - change (dm (s_loop ex_asked_sys)) with ex_asked_dm. by rewrite ex_asked_queue.
  - apply length_delivered. vm_compute. discriminate.
  - reflexivity.
  - vm_compute. reflexivity.
  - vm_compute. reflexivity.
  - cbn. lia.
  - reflexivity.
  - vm_compute. reflexivity.
  - apply done_or_run. vm_compute. reflexivity.
  - vm_compute. reflexivity.
  - apply Nat.ltb_lt. vm_compute. reflexivity.
  - apply received_earned; vm_compute; reflexivity.
Qed.

Lemma input_delivered_witness :
  fed_since 1 7 9 ex_fed_sys ∧ accepted 7 (w_log (os ex_ls_after)) = ex_ls.
Proof.
  assert (∃ st, streams (d_streams (dm (s_loop ex_fed_sys))) !! 1 = Some st ∧ input_fd (service st) = Some 7 ∧
    remote_id st = 9) as (st & Hst & Hfd & Hr) by (eexists; split_and!; vm_compute; reflexivity).
  split; [|vm_compute; reflexivity]. rewrite <-Hr.
  apply (input_delivered [] 3 4 5 ex_info world_empty 16 ex_fed_sys 1 st 7 ex_progress
    os_partial_writes_fresh ex_start_ok).
  - constructor.
  - reflexivity.
  - exact ex_fed_reachable.
  - exact Hst.
  - exact Hfd.
Defined.

(** ** The shell prints *)

(** The terminal's read completes. *)
Definition ex_typed : list byte := bstr "hello".
Definition ex_typed_buf : list byte := ex_typed ++ replicate 4091 "000"%byte.
Definition ex_typed_dm : Daemon :=
  let d := set_sq sq_empty (set_os (w_set_log (cons (CSubmitAndWait 1)) (os ex_asked_dm)) ex_asked_dm) in
  set_os (w_set_heap (<[0%nat := ex_typed_buf]>) (os d)) d.
Definition ex_typed_loop : Loop := mkLoop ex_typed_dm None (bulk_out_buf (s_loop ex_asked_sys)).
Definition ex_typed_cqe : Cqe := mkCqe (sqe_user_data ex_pty_read) 5.

Definition ex_asked_hist : History := hi_write (sq_writes ex_asked_dm) (s_hist ex_asked_sys).
Definition ex_submitted_sys : Sys :=
  mkSys (submitted (s_loop ex_asked_sys)) ([ex_poll] ++ sq_entries (sq ex_asked_dm)) [] [] ex_asked_hist.
Definition ex_typed_sys (cq batch : list Cqe) : Sys :=
  mkSys ex_typed_loop ([ex_poll; ex_okay_write] ++ [ex_next_read]) cq batch
    (hi_deliver [(1, ex_typed)] [] ex_asked_hist).

(** Its bytes are sent on. *)
Definition ex_printed_dm : Daemon := done_or ex_typed_dm (pty_read 1 5 ex_typed_dm).
Definition ex_printed_sys : Sys :=
  mkSys (mkLoop ex_printed_dm None (bulk_out_buf (s_loop ex_asked_sys)))
    ([ex_poll; ex_okay_write] ++ [ex_next_read]) [] [] (hi_deliver [(1, ex_typed)] [] ex_asked_hist).

Lemma ex_typed_effect :
  kernel_effect ex_pty_read 5 (s_loop ex_submitted_sys) ex_typed_loop.
Proof.
  assert (∃ b, w_heap (os ex_asked_dm) !! 0%nat = Some b ∧ length ex_typed_buf = length b)
    as (b & Hb & Hl) by (eexists; split; vm_compute; reflexivity).
  split; [lia|]. right. exists b, ex_typed_buf. split; [exact Hb|]. split; [exact Hl|reflexivity].
Qed.

Lemma ex_typed_output :
  read_output ex_pty_read 5 ex_typed_loop = [(1, ex_typed)].
Proof. vm_compute. reflexivity. Qed.

Lemma ex_printed_run buf :
  handle_cqe ex_typed_cqe (mkLoop ex_typed_dm None buf) = Done (None, mkLoop ex_printed_dm None buf).
Proof. vm_compute. reflexivity. Qed.

Lemma ex_typed_politely : polite_steps 11 (mkSys ex_loop [] [] [] no_history) (ex_typed_sys [] [ex_typed_cqe]).
Proof.
  eapply (steps_if_snoc _ 10 _ (ex_typed_sys [ex_typed_cqe] []));
    [|by apply quiet_earned, idle_quiet|by apply (step_wait (ex_typed_sys [ex_typed_cqe] []) [ex_typed_cqe] [])].
  eapply (steps_if_snoc _ 9 _ ex_submitted_sys); [|by apply quiet_earned, idle_quiet|].
  - eapply (steps_if_snoc _ 8 _ ex_asked_sys); [|by apply quiet_earned, idle_quiet|].
    + destruct ex_asked_polite as (l & Hrun & Hs). rewrite ex_run_start in Hrun. by injection Hrun as <-.
    + by eapply (step_submit ex_asked_sys).
  - pose proof (step_complete ex_submitted_sys [ex_poll; ex_okay_write] ex_pty_read [ex_next_read] 5
      ex_typed_loop) as Hc. rewrite ex_typed_output in Hc. apply Hc; [|exact ex_typed_effect].
    cbn [ex_submitted_sys s_inflight]. by rewrite ex_asked_queue.
Qed.

Lemma ex_printed_politely : reachable_politely 12 3 4 5 ex_info world_empty ex_printed_sys.
Proof.
  exists ex_loop. split; [apply ex_run_start|].
  assert (cqe_token ex_typed_cqe = Some (mkUserData UserDataOpType.PtyRead (Some 1))) as Htok
    by (vm_compute; reflexivity).
  eapply (steps_if_snoc _ 11 _ _ _ ex_typed_politely).
  - intros c rest t h [= <- <-] Ht Hbulk. rewrite Htok in Ht. injection Ht as <-. by destruct Hbulk.
  - pose proof (step_handle (ex_typed_sys [] [ex_typed_cqe]) ex_typed_cqe [] _ eq_refl
      (ex_printed_run _)) as Hstep.
    unfold heard_by in Hstep. rewrite Htok in Hstep. rewrite decide_False, hi_hear_nil in Hstep by by intros [].
    exact Hstep.
Qed.

(** ** The host reads it *)

(** A write in flight is completed with [res]. *)
Lemma write_finished k s0 l pre e post cq hi fd ptr len res :
  polite_steps k s0 (mkSys l (pre ++ e :: post) cq [] hi) → sqe_op e = OpWrite fd ptr len →
  polite_steps (S k) s0 (mkSys l (pre ++ post) (cq ++ [mkCqe (sqe_user_data e) res]) []
    (hi_deliver [] (write_done pre e res l) hi)).
Proof.
  intros Hs He. eapply steps_if_snoc; [exact Hs|by apply quiet_earned, idle_quiet|].
  pose proof (step_complete (mkSys l (pre ++ e :: post) cq [] hi) pre e post res l eq_refl) as Hc.
  assert (read_output e res l = []) as Hnone by (unfold read_output; by rewrite He).
  rewrite Hnone in Hc. apply Hc. unfold kernel_effect. by rewrite He.
Qed.

Definition ex_wrte_header : Sqe :=
  mkSqe (OpWrite 5 (SlotPtr 2) 24) (UserData_u64 (write_token 2)) true.
Definition ex_wrte_payload : Sqe :=
  mkSqe (OpWrite 5 (SlotPtr 3) 5) (UserData_u64 (write_token 3)) false.

Lemma ex_printed_queue : sq_entries (sq ex_printed_dm) = [ex_wrte_header; ex_wrte_payload].
Proof. vm_compute. reflexivity. Qed.

(** The queue is submitted, and the kernel completes the three writes. *)
Definition ex_sent_loop : Loop := submitted (s_loop ex_printed_sys).
Definition ex_sent_hist : History := hi_write (sq_writes ex_printed_dm) (s_hist ex_printed_sys).
Definition ex_cqe (e : Sqe) (res : Z) : Cqe := mkCqe (sqe_user_data e) res.
Definition ex_read_sys : Sys :=
  mkSys ex_sent_loop [ex_poll; ex_next_read]
    [ex_cqe ex_okay_write 24; ex_cqe ex_wrte_header 24; ex_cqe ex_wrte_payload 5] []
    (hi_deliver [] (write_done [ex_poll; ex_next_read] ex_wrte_payload 5 ex_sent_loop)
      (hi_deliver [] (write_done [ex_poll; ex_next_read] ex_wrte_header 24 ex_sent_loop)
        (hi_deliver [] (write_done [ex_poll] ex_okay_write 24 ex_sent_loop) ex_sent_hist))).

Lemma ex_read_politely : reachable_politely 16 3 4 5 ex_info world_empty ex_read_sys.
Proof.
  destruct ex_printed_politely as (l & Hrun & Hs). exists l. split; [exact Hrun|].
  assert (polite_steps 13 (mkSys l [] [] [] no_history)
    (mkSys ex_sent_loop ([ex_poll] ++ ex_okay_write :: [ex_next_read; ex_wrte_header; ex_wrte_payload])
      [] [] ex_sent_hist)) as H.
  { eapply (steps_if_snoc _ 12 _ ex_printed_sys); [exact Hs|by apply quiet_earned, idle_quiet|].
    pose proof (step_submit ex_printed_sys 7 eq_refl eq_refl) as H.
    change (dm (s_loop ex_printed_sys)) with ex_printed_dm in H. rewrite ex_printed_queue in H. exact H. }
  eapply (write_finished _ _ _ _ _ _ _ _ _ _ _ 24) in H; [|reflexivity].
  eapply (write_finished _ _ _ [ex_poll; ex_next_read] _ _ _ _ _ _ _ 24) in H; [|reflexivity].
  eapply (write_finished _ _ _ [ex_poll; ex_next_read] _ _ _ _ _ _ _ 5) in H; [|reflexivity].
  exact H.
Qed.

Lemma ex_read_reachable : reachable 16 3 4 5 ex_info world_empty ex_read_sys.
Proof. by apply politely_reachable, ex_read_politely. Qed.

Lemma ex_read_in_order : in_order ex_read_sys ∧ unwritten ex_read_sys = [].
Proof.
  split; [|vm_compute; reflexivity].
  unfold in_order. apply (bool_decide_unpack _). vm_compute. exact I.
Qed.

Lemma output_delivered_witness :
  payload_of 1 (said ex_read_sys) = ex_typed ∧ payload_of 1 (host_has_read ex_read_sys) = ex_typed.
Proof.
  assert (∃ st rb, streams (d_streams (dm (s_loop ex_read_sys))) !! 1 = Some st ∧
    service_buf (service st) = Some rb) as (st & rb & Hst & Hrb)
    by (eexists _, _; split; vm_compute; reflexivity).
  destruct (output_delivered [] 3 4 5 ex_info world_empty 16 ex_read_sys 1 st rb ex_progress
    ex_start_ok eq_refl ex_read_politely Hst Hrb) as [Hsaid Hread].
  destruct ex_read_in_order as [Hord Hnone]. destruct (Hread Hord) as [_ Hall].
  assert (awaiting 1 ex_read_sys = []) as Haw by (vm_compute; reflexivity).
  specialize (Hall Hnone). rewrite Haw, app_nil_r in Hsaid, Hall. split; [exact Hsaid|exact Hall].
Defined.

Lemma stream_lifecycle_witness :
  (opened_by 1 9 (said ex_read_sys) ∧ Forall (data_to 9) (said_by 1 (said ex_read_sys))) ∧
  (opened_by 1 9 (host_has_read ex_read_sys) ∧
   Forall (data_to 9) (said_by 1 (host_has_read ex_read_sys))).
Proof.
  assert (phase_of 1 (dm (s_loop ex_read_sys)) = Opened 9) as Hphase by (vm_compute; reflexivity).
  destruct (stream_lifecycle [] 3 4 5 ex_info world_empty 16 ex_read_sys 1 ex_progress ex_start_ok
    eq_refl ex_read_reachable ltac:(lia)) as [Hsaid Hread].
  destruct ex_read_in_order as [Hord Hnone]. destruct (Hread Hord) as [_ Hall].
  specialize (Hall Hnone). rewrite Hphase in Hsaid, Hall. split; [exact Hsaid|exact Hall].
Defined.

Lemma requests_answered_witness :
  Forall2 (answers ex_info) [(ex_ask, Some ex_name)] (filter is_reply (said ex_read_sys)) ∧
  Forall2 (answers ex_info) [(ex_ask, Some ex_name)] (filter is_reply (host_has_read ex_read_sys)).
Proof.
  destruct (requests_answered [] 3 4 5 ex_info world_empty 16 ex_read_sys ex_progress ex_start_ok
    eq_refl ex_read_reachable) as [Hsaid Hread].
  destruct ex_read_in_order as [Hord Hnone]. destruct (Hread Hord) as (k & Hk & Hall).
  rewrite (Hall Hnone) in Hk. split; [exact Hsaid|exact Hk].
Defined.
