(* ===== verification/Build.v ===== *)
(** The build script (src/build.rs): the binary blobs with the USB descriptors
    and strings that FunctionFS is given.  The format that the kernel expects
    is a reader of such blobs; the theorem is that the script writes, to the
    right files and in order, blobs from which it reads the intended interface,
    endpoints and name. *)
From Stdlib Require Import ZArith Lia Strings.Byte.
From stdpp Require Import base numbers list gmap strings.
From S2P Require Import Prelude.
From S2P Require Import Bytes.
From S2P Require Import Str.
From S2P Require Import DeviceInfo.
From S2P Require Import Os.
From S2P Require Import Ffs.

Open Scope Z_scope.

Definition FUNCTIONFS_DESCRIPTORS_MAGIC_V2 : Z := 3.
Definition FUNCTIONFS_STRINGS_MAGIC : Z := 2.
Definition FUNCTIONFS_HAS_FS_DESC : Z := 1.
Definition FUNCTIONFS_HAS_HS_DESC : Z := 2.
Definition USB_DT_INTERFACE : Z := 4.
Definition USB_DT_ENDPOINT : Z := 5.
Definition EP_ADDR_OUT : Z := 0x01.
Definition EP_ADDR_IN : Z := 0x82.
Definition FS_MAX_PACKET_SIZE : Z := 64.
Definition HS_MAX_PACKET_SIZE : Z := 512.
Definition ADB_INTERFACE_STRING : list byte := bstr "ADB Interface" ++ ["000"%byte].

(** The fields of a packed structure, with their widths in bytes; its image is
    their little-endian concatenation, its size the sum of the widths. *)
Definition packed : Type := list (nat * Z).

Definition size_of (p : packed) : nat := foldr (λ f n, (f.1 + n)%nat) 0%nat p.
Definition as_le_bytes (p : packed) : list byte := p ≫= λ f, le_bytes f.1 f.2.

Record FfsDescsHeadV2 : Type := mkDescsHead { dh_magic : Z; dh_length : Z; dh_flags : Z }.
Definition descs_head_fields (h : FfsDescsHeadV2) : packed :=
  [(4%nat, dh_magic h); (4%nat, dh_length h); (4%nat, dh_flags h)].

Record FfsStringsHead : Type := mkStringsHead {
  sh_magic : Z; sh_length : Z; str_count : Z; lang_count : Z }.
Definition strings_head_fields (h : FfsStringsHead) : packed :=
  [(4%nat, sh_magic h); (4%nat, sh_length h); (4%nat, str_count h); (4%nat, lang_count h)].

Record UsbInterfaceDescriptor : Type := mkInterface {
  b_length : Z; b_descriptor_type : Z; b_interface_number : Z; b_alternate_setting : Z;
  b_num_endpoints : Z; b_interface_class : Z; b_interface_sub_class : Z;
  b_interface_protocol : Z; i_interface : Z }.
Definition interface_fields (i : UsbInterfaceDescriptor) : packed :=
  [(1%nat, b_length i); (1%nat, b_descriptor_type i); (1%nat, b_interface_number i);
   (1%nat, b_alternate_setting i); (1%nat, b_num_endpoints i); (1%nat, b_interface_class i);
   (1%nat, b_interface_sub_class i); (1%nat, b_interface_protocol i); (1%nat, i_interface i)].

Record UsbEndpointDescriptor : Type := mkEndpoint {
  e_length : Z; e_descriptor_type : Z; b_endpoint_address : Z; bm_attributes : Z;
  w_max_packet_size : Z; b_interval : Z }.
Definition endpoint_fields (e : UsbEndpointDescriptor) : packed :=
  [(1%nat, e_length e); (1%nat, e_descriptor_type e); (1%nat, b_endpoint_address e);
   (1%nat, bm_attributes e); (2%nat, w_max_packet_size e); (1%nat, b_interval e)].

Record FsHsDescriptors : Type := mkFsHs {
  intf : UsbInterfaceDescriptor; ep_out : UsbEndpointDescriptor; ep_in : UsbEndpointDescriptor }.
Definition fs_hs_fields (d : FsHsDescriptors) : packed :=
  interface_fields (intf d) ++ endpoint_fields (ep_out d) ++ endpoint_fields (ep_in d).

Record AdbDescriptors : Type := mkAdbDescriptors {
  d_header : FfsDescsHeadV2; fs_count : Z; hs_count : Z; fs : FsHsDescriptors; hs : FsHsDescriptors }.
Definition adb_descriptors_fields (d : AdbDescriptors) : packed :=
  descs_head_fields (d_header d) ++ [(4%nat, fs_count d); (4%nat, hs_count d)] ++
  fs_hs_fields (fs d) ++ fs_hs_fields (hs d).

Record AdbStrings : Type := mkAdbStrings {
  s_header : FfsStringsHead; lang_code : Z; string_bytes : list byte }.
Definition adb_strings_fields (s : AdbStrings) : packed :=
  strings_head_fields (s_header s) ++ [(2%nat, lang_code s)] ++
  ((λ b, (1%nat, byte_Z b)) <$> string_bytes s).

(** [to_le] is the identity on the only targets the program builds for. *)
Definition to_le (x : Z) : Z := x.

(** [u8::try_from(size_of::<_>())] of the two descriptor types. *)
Definition INTERFACE_SIZE : Z := 9.
Definition ENDPOINT_SIZE : Z := 7.

Definition adb_interface : UsbInterfaceDescriptor :=
  mkInterface INTERFACE_SIZE USB_DT_INTERFACE 0 0 2 USB_CLASS_ADB USB_SUBCLASS_ADB
    USB_PROTOCOL_ADB 1.

Definition bulk_endpoint (address max_packet_size : Z) : UsbEndpointDescriptor :=
  mkEndpoint ENDPOINT_SIZE USB_DT_ENDPOINT address 0x02 (to_le max_packet_size) 0.

Definition fs_hs_descs (max_packet_size : Z) : FsHsDescriptors :=
  mkFsHs adb_interface (bulk_endpoint EP_ADDR_OUT max_packet_size)
    (bulk_endpoint EP_ADDR_IN max_packet_size).

Definition DESCS_COUNT : Z := 3.

(** [size_of::<AdbDescriptors>()] and [size_of::<AdbStrings>()]. *)
Definition DESCRIPTORS_SIZE : Z := 66.
Definition STRINGS_SIZE : Z := 32.

Definition adb_descriptors : AdbDescriptors :=
  mkAdbDescriptors
    (mkDescsHead (to_le FUNCTIONFS_DESCRIPTORS_MAGIC_V2) (to_le DESCRIPTORS_SIZE)
       (to_le (Z.lor FUNCTIONFS_HAS_FS_DESC FUNCTIONFS_HAS_HS_DESC)))
    (to_le DESCS_COUNT) (to_le DESCS_COUNT)
    (fs_hs_descs (to_le FS_MAX_PACKET_SIZE)) (fs_hs_descs (to_le HS_MAX_PACKET_SIZE)).

Definition adb_strings : AdbStrings :=
  mkAdbStrings
    (mkStringsHead (to_le FUNCTIONFS_STRINGS_MAGIC) (to_le STRINGS_SIZE) (to_le 1) (to_le 1))
    (to_le USB_LANG_EN_US) ADB_INTERFACE_STRING.

Section build.
Context {E : Os}.

(** [main] of the build script; [out_dir] is what the environment says of
    [OUT_DIR]. *)
Definition build_main (out_dir : result string io_error) : M World (result unit io_error) :=
  out_path ←? mret out_dir;
  _ ←? fs_write (join out_path "descriptors.bin")
         (as_le_bytes (adb_descriptors_fields adb_descriptors));
  _ ←? fs_write (join out_path "strings.bin") (as_le_bytes (adb_strings_fields adb_strings));
  mret (Ok tt).
End build.

(** ** The format of the kernel *)

(** A sequence of [n] descriptors, each as long as its first byte says. *)
Fixpoint walk (n : nat) (bs : list byte) : option (list (list byte) * list byte) :=
  match n with
  | O => Some ([], bs)
  | S n =>
      match bs with
      | [] => None
      | b :: _ =>
          let len := Z.to_nat (byte_Z b) in
          if decide (2 ≤ len ≤ length bs)%nat then
            '(ds, rest) ← walk n (drop len bs); Some (take len bs :: ds, rest)
          else None
      end
  end.

(** A little-endian number of [n] bytes. *)
Definition read_le (n : nat) (bs : list byte) : option (Z * list byte) :=
  if decide (n ≤ length bs)%nat then Some (le_value (take n bs), drop n bs) else None.

(** A descriptors blob, version 2, with full- and high-speed descriptors. *)
Definition read_descriptors (bs : list byte) : option (list (list byte) * list (list byte)) :=
  '(magic, r) ← read_le 4 bs; '(len, r) ← read_le 4 r; '(flags, r) ← read_le 4 r;
  '(n, r) ← read_le 4 r; '(m, r) ← read_le 4 r;
  '(fs, r) ← walk (Z.to_nat n) r; '(hs, r) ← walk (Z.to_nat m) r;
  if decide (magic = 3 ∧ len = Z.of_nat (length bs) ∧ flags = 3 ∧ r = []) then Some (fs, hs)
  else None.

(** The bytes before the first NUL, and after it. *)
Fixpoint read_cstr (bs : list byte) : option (list byte * list byte) :=
  match bs with
  | [] => None
  | b :: bs =>
      if decide (b = "000"%byte) then Some ([], bs)
      else '(s, r) ← read_cstr bs; Some (b :: s, r)
  end.

(** A strings blob with one language and one string. *)
Definition read_strings (bs : list byte) : option (Z * list byte) :=
  '(magic, r) ← read_le 4 bs; '(len, r) ← read_le 4 r;
  '(strs, r) ← read_le 4 r; '(langs, r) ← read_le 4 r;
  '(lang, r) ← read_le 2 r; '(s, r) ← read_cstr r;
  if decide (magic = 2 ∧ len = Z.of_nat (length bs) ∧ strs = 1 ∧ langs = 1 ∧ r = [])
  then Some (lang, s) else None.

(** ** What the script writes *)

(** The interface, with its two endpoints and its string, and an endpoint for
    bulk transfers with its packet size, as USB 2.0 (9.6.5, 9.6.6) lays them
    out. *)
Definition interface_image : list byte := Z_byte <$> [9; 4; 0; 0; 2; 0xff; 0x42; 0x01; 1].
Definition bulk_image (address size_low size_high : Z) : list byte :=
  Z_byte <$> [7; 5; address; 2; size_low; size_high; 0].

(** The blobs are well formed, and hold these descriptors. *)
Lemma descriptors_read :
  read_descriptors (as_le_bytes (adb_descriptors_fields adb_descriptors)) =
    Some ([interface_image; bulk_image 0x01 64 0; bulk_image 0x82 64 0],
          [interface_image; bulk_image 0x01 0 2; bulk_image 0x82 0 2]).
Proof. vm_compute. reflexivity. Qed.

Lemma strings_read :
  read_strings (as_le_bytes (adb_strings_fields adb_strings)) = Some (0x409, bstr "ADB Interface").
Proof. vm_compute. reflexivity. Qed.

(** The sizes in the structures are their actual sizes. *)
Lemma sizes_actual :
  Z.of_nat (size_of (interface_fields adb_interface)) = INTERFACE_SIZE ∧
  Z.of_nat (size_of (endpoint_fields (bulk_endpoint 1 64))) = ENDPOINT_SIZE ∧
  Z.of_nat (size_of (adb_descriptors_fields adb_descriptors)) = DESCRIPTORS_SIZE ∧
  Z.of_nat (size_of (adb_strings_fields adb_strings)) = STRINGS_SIZE.
Proof. vm_compute. repeat split. Qed.

(** C40: the build script writes two files, in order, to the output directory
    it is given, and stops at the first that the system refuses.  A reader of
    the kernel's format finds in the first, descriptors.bin, at each speed the
    ADB interface and its bulk endpoints 1 OUT and 2 IN with the packet size of
    that speed, 64 or 512 bytes, and nothing else; in the second, strings.bin,
    the English name of the interface.  Without an output directory it fails
    and writes nothing. *)
Theorem build_main_writes {E : Os} out_dir w :
  ∃ descriptors strings r w',
    build_main out_dir w = Done (r, w') ∧
    read_descriptors descriptors =
      Some ([interface_image; bulk_image 0x01 64 0; bulk_image 0x82 64 0],
            [interface_image; bulk_image 0x01 0 2; bulk_image 0x82 0 2]) ∧
    read_strings strings = Some (0x409, bstr "ADB Interface") ∧
    match out_dir with
    | Ok dir =>
        script_outcome [CFsWrite (join dir "descriptors.bin") descriptors;
                        CFsWrite (join dir "strings.bin") strings] (w_log w) (w_log w') r
    | Err e => r = Err e ∧ w' = w
    end.
Proof.
  exists (as_le_bytes (adb_descriptors_fields adb_descriptors)),
    (as_le_bytes (adb_strings_fields adb_strings)).
  assert (wp (build_main out_dir) (λ r w', match out_dir with
    | Ok dir =>
        script_outcome [CFsWrite (join dir "descriptors.bin")
                          (as_le_bytes (adb_descriptors_fields adb_descriptors));
                        CFsWrite (join dir "strings.bin")
                          (as_le_bytes (adb_strings_fields adb_strings))] (w_log w) (w_log w') r
    | Err e => r = Err e ∧ w' = w
    end) w) as (r & w' & Hrun & Hr)%wp_total.
  { unfold build_main. apply wp_bind_ok, wp_ret. destruct out_dir as [dir|e]; [|done].
    apply wp_script. intros _ _. apply wp_script. intros _ _. by apply wp_ret. }
  exists r, w'. split_and!; [done|exact descriptors_read|exact strings_read|done].
Qed.
